(** * vlong: a shallow embedding of the multiple-precision integer class

    The development follows [vlong.h] / [vlong.cpp] function by function.
    The library is configured with [VLONG_32BIT]: a digit ([udig_t]) is an
    unsigned 32-bit integer and a word ([uwrd_t]) an unsigned 64-bit one.

    Conventions of the embedding.
    - A [vlong] object is the record of its members [s], [d], [nu]; the
      allocated size [na] is the length of the digit buffer [d].
    - A method that returns a status code and mutates its receiver is a
      function from the receiver to [res vlong]: [Some (ret, this')] is a
      return with status [ret] and final receiver [this'], also on an error
      return, where [this'] is whatever the receiver holds at that point.
      [None] means that a loop or a recursion exhausted its fuel.
    - [const vlong &] arguments are [ref]s: [This] when the argument is the
      receiver itself (the source tests [&a == this]), [Ref v] for a distinct
      object of value [v].
    - Heap exhaustion ([new] failing) is not modelled; the configured digit
      ceiling [VLONG_MAX_DIGITS] is.  [assert]s are compiled out.
    - [Swap], which [vlong.cpp] calls in three places, is the [swap] of the
      header.
    - Sizes and indices are integers; they stay far below the range of
      [size_t] and [int] because of the digit ceiling, and where the source
      converts between the integer types the conversion is written out.
      A byte or bit count that a caller passes is not bounded by the
      ceiling: a statement about such a count carries the bound under which
      the size arithmetic of the source does not wrap.
    - An object without a buffer ([d == NULL], as the default constructor
      leaves it) has the empty list as its digits.  A read [d[i]] outside
      the buffer yields 0 in the embedding; the source reads foreign memory
      there, or through the null pointer.  A statement about a routine that
      reads a digit without testing [nu] or [na] first assumes that the
      digit is in the buffer. *)

From Stdlib Require Import Ascii String.
From Stdlib Require Import ZArith List Bool Lia.
Import ListNotations.
Local Open Scope Z_scope.

(** ** Machine integers *)

Definition CiD : Z := 4.
Definition BiD : Z := 32.
Definition MP_MASK_DIG : Z := 2 ^ 32 - 1.

(** Conversions to the fixed-width C types (two's complement wrap-around). *)
Definition udig_t (x : Z) : Z := x mod 2 ^ 32.
Definition uwrd_t (x : Z) : Z := x mod 2 ^ 64.
Definition sdig_t (x : Z) : Z := (x + 2 ^ 31) mod 2 ^ 32 - 2 ^ 31.
Definition swrd_t (x : Z) : Z := (x + 2 ^ 63) mod 2 ^ 64 - 2 ^ 63.
Definition uchar_t (x : Z) : Z := x mod 256.
Definition size_t (x : Z) : Z := x mod 2 ^ 64.

Definition BITS_TO_DIGITS (i : Z) : Z := (i + BiD - 1) / BiD.
Definition CHARS_TO_DIGITS (i : Z) : Z := (i + CiD - 1) / CiD.

(** ** Status codes *)

Definition VLONG_MAX_DIGITS : Z := 1024.
Definition VLONG_KARATSUBA_MUL_CUTOFF : Z := 80.

Definition VLONG_SUCCESS : Z := 0.
Definition VLONG_ERR_MEMORY_EXEED : Z := 10.
Definition VLONG_ERR_MEMORY_ALLOC : Z := 11.
Definition VLONG_ERR_MEMORY_FREE : Z := 12.
Definition VLONG_ERR_BUFFER_SMALL : Z := 13.
Definition VLONG_ERR_INVALID_CHAR : Z := 14.
Definition VLONG_ERR_BAD_ARG_1 : Z := 21.
Definition VLONG_ERR_BAD_ARG_2 : Z := 22.
Definition VLONG_ERR_BAD_ARG_3 : Z := 23.
Definition VLONG_ERR_BAD_ARG_4 : Z := 24.
Definition VLONG_ERR_OUT_OF_RANGE : Z := 25.
Definition VLONG_ERR_DIV_BY_ZERO : Z := 26.
Definition VLONG_ERR_NEGATIVE_ARG : Z := 27.
Definition VLONG_ERR_NO_INVERSE : Z := 28.
Definition VLONG_ERR_UNEXPECTED : Z := 100.
Definition VLONG_WRN_INSECURE_RNG : Z := 200.

Definition MP_GT : Z := 1.
Definition MP_LT : Z := -1.
Definition MP_EQ : Z := 0.
Definition MP_NEG : Z := -1.
Definition MP_ZPOS : Z := 1.

(** ** Digit buffers *)

(** [d[i]]: a read outside the buffer (undefined in the source) yields 0. *)
Definition dget (l : list Z) (i : Z) : Z :=
  if i <? 0 then 0 else nth (Z.to_nat i) l 0.

Fixpoint upd (l : list Z) (n : nat) (x : Z) : list Z :=
  match l, n with
  | [], _ => []
  | _ :: t, O => x :: t
  | h :: t, S n' => h :: upd t n' x
  end.

(** [d[i] = x]: a write outside the buffer (undefined in the source) is
    dropped. *)
Definition dset (l : list Z) (i : Z) (x : Z) : list Z :=
  if i <? 0 then l else upd l (Z.to_nat i) x.

(** [memset(l + from, 0, cnt * sizeof(udig_t))], clipped to the buffer. *)
Fixpoint fill0 (l : list Z) (from cnt : nat) : list Z :=
  match l with
  | [] => []
  | h :: t =>
      match from with
      | S f => h :: fill0 t f cnt
      | O => match cnt with
             | O => l
             | S c => 0 :: fill0 t O c
             end
      end
  end.

Definition memset0 (l : list Z) (from cnt : Z) : list Z :=
  fill0 l (Z.to_nat from) (Z.to_nat cnt).

(** [memcpy(dst, src, n * sizeof(udig_t))], clipped to the destination. *)
Fixpoint copy_digits (dst src : list Z) (n : nat) : list Z :=
  match n, dst with
  | O, _ => dst
  | S _, [] => []
  | S k, _ :: t => hd 0 src :: copy_digits t (tl src) k
  end.

Definition memcpy (dst src : list Z) (n : Z) : list Z :=
  copy_digits dst src (Z.to_nat n).

Definition zlen (l : list Z) : Z := Z.of_nat (length l).

(** ** The object *)

Record vlong : Type := mk_vlong
  { s : Z;         (* Sign *)
    d : list Z;    (* Digits *)
    nu : Z         (* Number of used digits *) }.

(** Number of allocated digits. *)
Definition na (v : vlong) : Z := zlen (d v).

Definition set_s (v : vlong) (x : Z) : vlong := mk_vlong x (d v) (nu v).
Definition set_d (v : vlong) (x : list Z) : vlong := mk_vlong (s v) x (nu v).
Definition set_nu (v : vlong) (x : Z) : vlong := mk_vlong (s v) (d v) x.
Definition set_di (v : vlong) (i x : Z) : vlong := set_d v (dset (d v) i x).
Definition di (v : vlong) (i : Z) : Z := dget (d v) i.

Inductive ref : Type :=
  | This
  | Ref (v : vlong).

Definition deref (this : vlong) (r : ref) : vlong :=
  match r with
  | This => this
  | Ref v => v
  end.

Definition is_this (r : ref) : bool :=
  match r with
  | This => true
  | Ref _ => false
  end.

(** Result of a call: status code and final state, or [None] out of fuel. *)
Definition res (A : Type) : Type := option (Z * A).

Definition ok {A : Type} (x : A) : res A := Some (VLONG_SUCCESS, x).
Definition fail {A : Type} (code : Z) (x : A) : res A := Some (code, x).

(** [CHECK p <- e onfail f ; k]: the macro [CHECK(e)]; [p] receives what the
    call leaves behind, and [f] is what the enclosing function leaves behind
    when it returns the callee's non-zero status. *)
Notation "'CHECK' p <- e 'onfail' f ; k" :=
  (match e with
   | None => None
   | Some (ret_, p) => if Z.eqb ret_ 0 then k else Some (ret_, f)
   end)
  (at level 10, p pattern, e at level 100, f at level 100, k at level 200).

(** [CALL p <- e ; k]: a call whose status the source ignores. *)
Notation "'CALL' p <- e ; k" :=
  (match e with
   | None => None
   | Some (_, p) => k
   end)
  (at level 10, p pattern, e at level 100, k at level 200).

(** ** Memory management *)

Definition Init : vlong := mk_vlong MP_ZPOS [] 0.

(** The first [n] digits of [l], zero-padded to length [n]: the fresh buffer
    of [Grow] after its [memset] and [memcpy]. *)
Definition new_buffer (l : list Z) (used n : Z) : list Z :=
  memcpy (repeat 0 (Z.to_nat n)) l used.

Definition Grow (this : vlong) (n : Z) : res vlong :=
  if n <=? na this then
    ok (if nu this <? na this
        then set_d this (memset0 (d this) (nu this) (na this - nu this))
        else this)
  else if VLONG_MAX_DIGITS <? n then fail VLONG_ERR_MEMORY_EXEED this
  else ok (set_d this (new_buffer (d this) (nu this) n)).

Fixpoint Clamp_loop (k : nat) (dd : list Z) (n : Z) : Z :=
  match k with
  | O => n
  | S k' => if dget dd (n - 1) =? 0 then Clamp_loop k' dd (n - 1) else n
  end.

Definition Clamp (this : vlong) : vlong :=
  let this := if 0 <? nu this
              then set_nu this (Clamp_loop (Z.to_nat (nu this)) (d this) (nu this))
              else this in
  if nu this =? 0 then set_s this MP_ZPOS else this.

Definition SetZero (this : vlong) : vlong :=
  let this := if 0 <? nu this
              then set_d this (memset0 (d this) 0 (nu this)) else this in
  set_s (set_nu this 0) 1.

Definition isZero (this : vlong) : bool := nu this =? 0.

Definition GetInt (this : vlong) : Z :=
  if nu this =? 0 then 0 else di this 0.

Definition Copy (this : vlong) (v : ref) : res vlong :=
  CHECK this <- (if na this <? nu (deref this v)
                 then Grow this (nu (deref this v)) else ok this)
    onfail this ;
  let src := deref this v in
  ok (mk_vlong (s src) (memcpy (d this) (d src) (nu src)) (nu src)).

(** [SetValue(sdig_t v)] *)
Definition SetValue_dig (this : vlong) (v : Z) : res vlong :=
  if v =? 0 then
    let this := SetZero this in
    ok (if 0 <? na this then set_d this (memset0 (d this) 0 (na this)) else this)
  else
    CHECK this <- (if 1 <? na this
                   then ok (set_d this (memset0 (d this) 0 (na this)))
                   else Grow this 1)
      onfail this ;
    let this := set_nu this 1 in
    ok (if 0 <? v
        then set_di (set_s this MP_ZPOS) 0 (udig_t v)
        else set_di (set_s this MP_NEG) 0 (udig_t (- v))).

(** [SetValue(const vlong &v)] *)
Definition SetValue (this : vlong) (v : ref) : res vlong := Copy this v.

(** [prvMovePtr]: the receiver takes over the buffer of [v]; the sign is not
    transferred.  Only the receiver is returned, [v] is a dying temporary. *)
Definition prvMovePtr (this v : vlong) : vlong :=
  mk_vlong (s this) (d v) (nu v).

(** ** Comparisons *)

(** [Compare(sdig_t x)] *)
Definition Compare_dig (this : vlong) (x : Z) : Z :=
  if isZero this then
    if x =? 0 then MP_EQ else if 0 <? x then MP_GT else MP_LT
  else if (s this =? MP_NEG) && (0 <=? x) then MP_LT
  else if (s this =? MP_ZPOS) && (x <=? 0) then MP_LT
  else if 1 <? nu this then
    if s this =? MP_NEG then MP_LT else MP_GT
  else if 0 <? x then
    if x <? di this 0 then MP_GT
    else if di this 0 <? x then MP_LT
    else MP_EQ
  else
    if sdig_t (- x) <? di this 0 then MP_LT
    else if di this 0 <? sdig_t (- x) then MP_GT
    else MP_EQ.

Fixpoint CompareMag_loop (k : nat) (ad bd : list Z) : Z :=
  match k with
  | O => MP_EQ
  | S i =>
      if dget bd (Z.of_nat i) <? dget ad (Z.of_nat i) then MP_GT
      else if dget ad (Z.of_nat i) <? dget bd (Z.of_nat i) then MP_LT
      else CompareMag_loop i ad bd
  end.

Definition CompareMag (a b : vlong) : Z :=
  if nu b <? nu a then MP_GT
  else if nu a <? nu b then MP_LT
  else CompareMag_loop (Z.to_nat (nu a)) (d a) (d b).

(** [Compare(const vlong &v)] *)
Definition Compare (this v : vlong) : Z :=
  if (nu this =? 0) && (nu v =? 0) then MP_EQ
  else if negb (s this =? s v) then
    if s this <? 0 then MP_LT else MP_GT
  else if s this <? 0 then CompareMag v this
  else CompareMag this v.

(** The comparison operators against a machine digit. *)
Definition op_gt_dig (this : vlong) (x : Z) : bool := 0 <? Compare_dig this x.
Definition op_ge_dig (this : vlong) (x : Z) : bool := 0 <=? Compare_dig this x.
Definition op_lt_dig (this : vlong) (x : Z) : bool := Compare_dig this x <? 0.
Definition op_le_dig (this : vlong) (x : Z) : bool := Compare_dig this x <=? 0.
Definition op_eq_dig (this : vlong) (x : Z) : bool := Compare_dig this x =? 0.
Definition op_ne_dig (this : vlong) (x : Z) : bool := negb (Compare_dig this x =? 0).

(** ** Loops *)

(** [for (i = i0; i < i0 + n; i++) st = f i st] *)
Fixpoint for_up {S : Type} (n : nat) (i : Z) (f : Z -> S -> S) (st : S) : S :=
  match n with
  | O => st
  | S n' => for_up n' (i + 1) f (f i st)
  end.

(** [for (i = i0; i > i0 - n; i--) st = f i st] *)
Fixpoint for_down {S : Type} (n : nat) (i : Z) (f : Z -> S -> S) (st : S) : S :=
  match n with
  | O => st
  | S n' => for_down n' (i - 1) f (f i st)
  end.

(** ** Bitwise operations *)

(** [while (dig != 0) { dig >>= 1; bits++; }]; 32 rounds exhaust a digit. *)
Fixpoint GetNumBits_loop (k : nat) (dig bits : Z) : Z :=
  match k with
  | O => bits
  | S k' => if dig =? 0 then bits
            else GetNumBits_loop k' (Z.shiftr dig 1) (bits + 1)
  end.

Definition GetNumBits (this : vlong) : Z :=
  if isZero this then 0
  else
    let bits := if 1 <? nu this then BiD * (nu this - 1) else 0 in
    GetNumBits_loop 32 (di this (nu this - 1)) bits.

Definition GetNumMSB (this : vlong) : Z := GetNumBits this.

Definition prvLeftShiftDigits (this : vlong) (digs : Z) : res vlong :=
  if digs =? 0 then ok this
  else
    CHECK this <- (if na this <? nu this + digs
                   then Grow this (nu this + digs) else ok this)
      onfail this ;
    let n := nu this in
    let dd := for_up (Z.to_nat n) 0
                (fun i dd => dset dd (n + digs - 1 - i) (dget dd (n - 1 - i)))
                (d this) in
    let dd := for_up (Z.to_nat digs) 0 (fun i dd => dset dd i 0) dd in
    ok (set_nu (set_d this dd) (n + digs)).

Definition prvRightShiftDigits (this : vlong) (digs : Z) : vlong :=
  if digs =? 0 then this
  else if nu this <=? digs then SetZero this
  else
    let n := nu this in
    let dd := for_up (Z.to_nat (n - digs)) 0
                (fun i dd => dset dd i (dget dd (i + digs))) (d this) in
    let dd := for_up (Z.to_nat digs) (n - digs) (fun i dd => dset dd i 0) dd in
    set_nu (set_d this dd) (n - digs).

(** The bodies of [ShiftRight] and [ShiftLeft] for a non-negative count. *)
Definition ShiftRight_nonneg (this : vlong) (a : ref) (bits : Z) : res vlong :=
  CALL this <- (if is_this a then ok this else SetValue this a) ;
  if nu this <=? bits / BiD then ok (SetZero this)
  else
    CHECK this <- (if na this <? nu this - bits / BiD
                   then Grow this (nu this - bits / BiD) else ok this)
      onfail this ;
    let this := if BiD <=? bits
                then prvRightShiftDigits this (bits / BiD) else this in
    if nu this =? 0 then ok this
    else
      let b2 := bits mod BiD in
      let this :=
        if 0 <? b2 then
          let mask := udig_t (Z.shiftl 1 b2 - 1) in
          let '(dd, _) :=
            for_down (Z.to_nat (nu this)) (nu this - 1)
              (fun i '(dd, tmp1) =>
                 let tmp2 := Z.land (dget dd i) mask in
                 (dset dd i (Z.lor (Z.shiftr (dget dd i) b2)
                                   (udig_t (Z.shiftl tmp1 (BiD - b2)))),
                  tmp2))
              (d this, 0) in
          set_d this dd
        else this in
      let this := if di this (nu this - 1) =? 0
                  then set_nu this (nu this - 1) else this in
      ok (if nu this =? 0 then set_s this MP_ZPOS else this).

Definition ShiftLeft_nonneg (this : vlong) (a : ref) (bits : Z) : res vlong :=
  CHECK this <- (if is_this a then ok this else SetValue this a) onfail this ;
  CHECK this <- (if na this <? nu this + bits / BiD + 1
                 then Grow this (nu this + bits / BiD + 1) else ok this)
    onfail this ;
  CHECK this <- (if BiD <=? bits
                 then prvLeftShiftDigits this (bits / BiD) else ok this)
    onfail this ;
  let b2 := bits mod BiD in
  if 0 <? b2 then
    let '(dd, u) :=
      for_up (Z.to_nat (nu this)) 0
        (fun i '(dd, u) =>
           let sum := uwrd_t (Z.shiftl (dget dd i) b2 + u) in
           (dset dd i (Z.land sum MP_MASK_DIG), udig_t (Z.shiftr sum BiD)))
        (d this, 0) in
    let this := set_d this dd in
    ok (if 0 <? u then set_nu (set_di this (nu this) u) (nu this + 1) else this)
  else ok this.

(** A negative count delegates to the opposite direction. *)
Definition ShiftRight (this : vlong) (a : ref) (bits : Z) : res vlong :=
  if bits <? 0 then ShiftLeft_nonneg this a (- bits)
  else ShiftRight_nonneg this a bits.

Definition ShiftLeft (this : vlong) (a : ref) (bits : Z) : res vlong :=
  if bits <? 0 then ShiftRight_nonneg this a (- bits)
  else ShiftLeft_nonneg this a bits.

(** [~x] on a digit. *)
Definition unot (x : Z) : Z := udig_t (Z.lnot x).

Definition SetBit (this : vlong) (num : Z) (bit : Z) : res vlong :=
  let dig := num / BiD in
  let pos := num mod BiD in
  let bit := Z.land bit 1 in
  let put (this : vlong) : res vlong :=
    let val := udig_t (Z.shiftl bit pos) in
    ok (set_di this dig (Z.lor (Z.land (di this dig) (unot val)) val)) in
  if nu this <=? dig then
    if 0 <? bit then
      CHECK this <- Grow this (dig + 1) onfail this ;
      put (set_nu this (dig + 1))
    else ok this
  else put this.

(** [GetBit] returns a [char]: out of range it is the status code itself. *)
Definition GetBit (this : vlong) (num : Z) : Z :=
  let dig := num / BiD in
  let pos := num mod BiD in
  if nu this <=? dig then VLONG_ERR_OUT_OF_RANGE
  else Z.shiftr (Z.land (di this dig) (udig_t (Z.shiftl 1 pos))) pos.

(** [Xor(a, b)]; [same_ab] tells that [a] and [b] are one object other than
    the receiver ([a] and [b] both [This] are one object anyway). *)
Definition Xor (this : vlong) (a b : ref) (same_ab : bool) : res vlong :=
  let nmin := if nu (deref this a) <? nu (deref this b)
              then nu (deref this a) else nu (deref this b) in
  if (is_this a && is_this b) || same_ab then ok (SetZero this)
  else
    let a_longer := nu (deref this b) <? nu (deref this a) in
    let t1 := if a_longer then a else b in
    let t2 := if a_longer then b else a in
    CHECK this <- (if negb (is_this t1) && negb (is_this t2)
                   then SetValue this t1 else ok this)
      onfail this ;
    ok (for_up (Z.to_nat nmin) 0
          (fun i this =>
             set_di this i (Z.lxor (di (deref this t1) i) (di (deref this t2) i)))
          this).

(** ** Bytewise operations *)

Definition SetBytes (this : vlong) (start count : Z) (buf : list Z) : res vlong :=
  CHECK this <- (if nu this * CiD <? start + count
                 then (CHECK this <- Grow this (start + count + 1) onfail this ;
                       ok (set_nu this (CHARS_TO_DIGITS (start + count))))
                 else ok this)
    onfail this ;
  ok (for_up (Z.to_nat count) 0
        (fun i this =>
           let dig := (start + count - i - 1) / CiD in
           let pos := (start + count - i - 1) mod CiD in
           let val := udig_t (Z.shiftl 255 (pos * 8)) in
           set_di this dig
             (Z.lor (Z.land (di this dig) (unot val))
                    (udig_t (Z.shiftl (uchar_t (dget buf i)) (pos * 8)))))
        this).

(** [GetBytes] writes [count] bytes into [buf]. *)
Definition GetBytes (this : vlong) (start count : Z) (buf : list Z)
  : Z * list Z :=
  if nu this * CiD <? start + count then (VLONG_ERR_OUT_OF_RANGE, buf)
  else
    (VLONG_SUCCESS,
     for_up (Z.to_nat count) 0
       (fun i buf =>
          let dig := (start + count - i - 1) / CiD in
          let pos := (start + count - i - 1) mod CiD in
          let val := udig_t (Z.shiftl 255 (pos * 8)) in
          dset buf i (uchar_t (Z.shiftr (Z.land (di this dig) val) (pos * 8))))
       buf).

Definition FromBinary (this : vlong) (szNumber : list Z) (buflen : Z)
  : res vlong :=
  SetBytes (set_s this MP_ZPOS) 0 buflen szNumber.

Definition ToBinary (this : vlong) (buf : list Z) (buflen : Z) : Z * list Z :=
  let nb := (GetNumBits this + BiD - 1) / BiD in
  let buf := if 0 <? buflen then memset0 buf 0 buflen else buf in
  if buflen <? nb then (VLONG_ERR_BUFFER_SMALL, buf)
  else GetBytes this 0 buflen buf.

(** ** Long-short arithmetic *)

(** Carry propagation of [Add(a, sdig_t)]:
    [for (i = 1; i < a.nu && u > 0; i++)]. *)
Fixpoint Add_dig_loop (k : nat) (i : Z) (a : ref) (this : vlong) (u : Z)
  : vlong * Z :=
  match k with
  | O => (this, u)
  | S k' =>
      if 0 <? u then
        let sum := uwrd_t (di (deref this a) i + u) in
        Add_dig_loop k' (i + 1) a
          (set_di this i (Z.land sum MP_MASK_DIG)) (udig_t (Z.shiftr sum BiD))
      else (this, u)
  end.

(** Borrow propagation of [Sub(a, sdig_t)]. *)
Fixpoint Sub_dig_loop (k : nat) (i : Z) (a : ref) (this : vlong) (u : Z)
  : vlong * Z :=
  match k with
  | O => (this, u)
  | S k' =>
      if 0 <? u then
        let dif := swrd_t (di (deref this a) i - u) in
        Sub_dig_loop k' (i + 1) a
          (set_di this i (udig_t (Z.land dif MP_MASK_DIG)))
          (if dif <? 0 then 1 else 0)
      else (this, u)
  end.

Definition signs_differ (a_s b : Z) : bool :=
  ((a_s =? MP_NEG) && (0 <? b)) || ((a_s =? MP_ZPOS) && (b <? 0)).

(** [Add(a, sdig_t b)] and [Sub(a, sdig_t b)] call each other when the signs
    differ; [sub] selects the function.  The fuel bounds the depth of that
    exchange. *)
Fixpoint AddSub_dig (fuel : nat) (sub : bool) (this : vlong) (a : ref) (b : Z)
  : res vlong :=
  match fuel with
  | O => None
  | S fuel' =>
      if b =? 0 then ok this
      else if nu (deref this a) =? 0
      then SetValue_dig this (if sub then sdig_t (- b) else b)
      else if signs_differ (s (deref this a)) b
      then AddSub_dig fuel' (negb sub) this a (sdig_t (- b))
      else if negb sub then
        (* single digit addition *)
        CHECK this <- (if na this <? nu (deref this a) + 1
                       then Grow this (nu (deref this a) + 1) else ok this)
          onfail this ;
        CHECK this <- (if is_this a then ok this else SetValue this a)
          onfail this ;
        let this := set_di this (nu this) 0 in
        let sum := uwrd_t (di (deref this a) 0 + uwrd_t b) in
        let this := set_di this 0 (udig_t (Z.land sum MP_MASK_DIG)) in
        let u := udig_t (Z.shiftr sum BiD) in
        let '(this, u) :=
          Add_dig_loop (Z.to_nat (nu (deref this a) - 1)) 1 a this u in
        ok (if 0 <? u
            then set_nu (set_di this (nu this) u) (nu this + 1) else this)
      else
        (* single digit substraction *)
        let ba := if 0 <? b then udig_t b else udig_t (- b) in
        CHECK this <- (if na this <? nu (deref this a)
                       then Grow this (nu (deref this a)) else ok this)
          onfail this ;
        CHECK this <- (if is_this a then ok this else SetValue this a)
          onfail this ;
        if (nu (deref this a) =? 1) && (di (deref this a) 0 <=? ba) then
          let this := set_di this 0 (udig_t (ba - di this 0)) in
          let this := set_s this (if s (deref this a) =? MP_ZPOS
                                  then MP_NEG else MP_ZPOS) in
          ok (if di this 0 =? 0 then set_nu (set_s this MP_ZPOS) 0 else this)
        else
          let dif := swrd_t (di (deref this a) 0 - ba) in
          let u := if dif <? 0 then 1 else 0 in
          let this := set_di this 0 (udig_t (Z.land dif MP_MASK_DIG)) in
          let '(this, _) :=
            Sub_dig_loop (Z.to_nat (nu (deref this a) - 1)) 1 a this u in
          ok (if di this (nu this - 1) =? 0
              then set_nu this (nu this - 1) else this)
  end.

(** One exchange settles the signs unless [b] is [INT_MIN], whose negation
    is itself: there the source recurses without end. *)
Definition Add_dig (this : vlong) (a : ref) (b : Z) : res vlong :=
  AddSub_dig 3 false this a b.

Definition Sub_dig (this : vlong) (a : ref) (b : Z) : res vlong :=
  AddSub_dig 3 true this a b.

(** [prvMulDig(a, udig_t b)] *)
Definition prvMulDig (this : vlong) (a : ref) (b : Z) : res vlong :=
  CHECK this <- (if nu this <? nu (deref this a) + 1
                 then Grow this (nu (deref this a) + 1) else ok this)
    onfail this ;
  let an := nu (deref this a) in
  let this := set_nu this an in
  let '(this, u) :=
    for_up (Z.to_nat an) 0
      (fun i '(this, u) =>
         let w := uwrd_t (di (deref this a) i * b + u) in
         (set_di this i (udig_t (Z.land w MP_MASK_DIG)),
          udig_t (Z.shiftr w BiD)))
      (this, 0) in
  ok (if 0 <? u then set_nu (set_di this an u) (nu this + 1) else this).

(** [Mul(a, sdig_t b)] *)
Definition Mul_dig (this : vlong) (a : ref) (b : Z) : res vlong :=
  let b1 := if 0 <? b then udig_t b else udig_t (- b) in
  CHECK this <- prvMulDig this a b1 onfail this ;
  let a_s := s (deref this a) in
  ok (if ((a_s =? MP_ZPOS) && (b <? 0)) || ((a_s =? MP_NEG) && (0 <? b))
      then set_s this MP_NEG else set_s this MP_ZPOS).

Definition prvModPow2 (this : vlong) (a : ref) (bits : Z) : res vlong :=
  if bits =? 0 then ok (SetZero this)
  else
    CHECK this <- (if is_this a then ok this else SetValue this a)
      onfail this ;
    if nu (deref this a) * BiD <=? bits then ok this
    else
      let first := (bits + BiD - 1) / BiD in
      let this := for_up (Z.to_nat (nu this - first)) first
                    (fun i this => set_di this i 0) this in
      let this :=
        set_di this (bits / BiD)
          (Z.land (di this (bits / BiD))
                  (udig_t (udig_t (Z.shiftl 1 (udig_t bits mod BiD)) - 1))) in
      ok (Clamp this).

(** An output pointer ([vlong *]) of a call that also reads [a]. *)
Inductive outp : Type :=
  | ONull                (* NULL *)
  | OSame                (* the address of the input [a] *)
  | OObj (v : vlong).    (* another object *)

(** [prvDivPow2(a, bits, r)]: the result carries the receiver and the final
    value of the object behind [r], if there is one. *)
Definition prvDivPow2 (this : vlong) (a : ref) (bits : Z) (r : outp)
  : res (vlong * option vlong) :=
  let r0 := match r with
            | ONull => None
            | OSame => Some (deref this a)
            | OObj v => Some v
            end in
  if is_this a then
    CHECK tmp1 <- ShiftRight Init (Ref this) bits onfail (this, r0) ;
    match r with
    | ONull => ok (tmp1, None)
    | OSame =>
        (* [r] is the receiver: reduced in place, then swapped away *)
        CHECK this <- prvModPow2 this This bits onfail (this, Some this) ;
        ok (tmp1, Some tmp1)
    | OObj v =>
        CHECK v <- prvModPow2 v (Ref this) bits onfail (this, Some v) ;
        ok (tmp1, Some v)
    end
  else
    let av := deref this a in
    CHECK this <- ShiftRight this a bits onfail (this, r0) ;
    match r with
    | ONull => ok (this, None)
    | OSame =>
        CHECK av <- prvModPow2 av This bits onfail (this, Some av) ;
        ok (this, Some av)
    | OObj v =>
        CHECK v <- prvModPow2 v (Ref av) bits onfail (this, Some v) ;
        ok (this, Some v)
    end.

Fixpoint prvIsPow2_loop (k : nat) (b nbits : Z) : Z :=
  match k with
  | O => nbits
  | S k' => if b =? 0 then nbits
            else prvIsPow2_loop k' (Z.shiftr b 1) (nbits + 1)
  end.

(** [prvIsPow2(b, &nbits)] with a non-NULL [nbits]: the flag and [*nbits]
    (reported as 0 where the source leaves it unset). *)
Definition prvIsPow2 (b : Z) : Z * Z :=
  if (b =? 0) || negb (Z.land b (udig_t (b - 1)) =? 0) then (0, 0)
  else (1, prvIsPow2_loop 32 (Z.shiftr b 1) 0).

Definition obj_or (o : option vlong) (dflt : vlong) : vlong :=
  match o with
  | Some v => v
  | None => dflt
  end.

(** [prvDivInt(a, b, q, r)] (static).  [q] may be NULL, [&a] or another
    object; [r] is [None] for NULL, else the current content of [*r].  The
    result carries the final value of the object behind [q] and [*r]. *)
Definition prvDivInt (a : vlong) (b : Z) (q : outp) (r : option Z)
  : res (option vlong * option Z) :=
  let q0 := match q with
            | ONull => None
            | OSame => Some a
            | OObj v => Some v
            end in
  if b =? 0 then fail VLONG_ERR_DIV_BY_ZERO (q0, r)
  else if nu a =? 0 then
    ok (option_map SetZero q0, option_map (fun _ => b) r)
  else if b =? 1 then
    let r := option_map (fun _ => 0) r in
    match q with
    | OObj v => CHECK v <- SetValue v (Ref a) onfail (Some v, r) ;
                ok (Some v, r)
    | _ => ok (q0, r)
    end
  else
    let '(pow2, ix) := prvIsPow2 b in
    if negb (pow2 =? 0) then
      let r := option_map
                 (fun _ => Z.land (di a 0) (udig_t (udig_t (Z.shiftl 1 ix) - 1)))
                 r in
      match q with
      | ONull => ok (None, r)
      | OSame => CHECK (v, _) <- prvDivPow2 a This ix ONull
                   onfail (Some v, r) ;
                 ok (Some v, r)
      | OObj v => CHECK (v, _) <- prvDivPow2 v (Ref a) ix ONull
                    onfail (Some v, r) ;
                  ok (Some v, r)
      end
    else
      CHECK q1 <- match q0 with
                  | Some v => CHECK v <- Grow v (nu a) onfail (Some v) ;
                              ok (Some v)
                  | None => ok None
                  end
        onfail (q1, r) ;
      let q1 := option_map (fun v => set_nu v (nu a)) q1 in
      (* when [q] is [&a] the dividend is read through the quotient *)
      let rd (q1 : option vlong) (i : Z) : Z :=
        match q, q1 with
        | OSame, Some v => di v i
        | _, _ => di a i
        end in
      let '(q1, w) :=
        for_down (Z.to_nat (nu a)) (nu a - 1)
          (fun i '(q1, w) =>
             let w := Z.lor (uwrd_t (Z.shiftl w BiD)) (rd q1 i) in
             let '(t, w) := if b <=? w
                            then (udig_t (w / b),
                                  uwrd_t (w - udig_t (w / b) * b))
                            else (0, w) in
             (option_map (fun v => set_di v i (udig_t t)) q1, w))
          (q1, 0) in
      ok (q1, option_map (fun _ => udig_t (sdig_t w)) r).

(** [Div(a, sdig_t b, sdig_t *r)]: single digit division.  The result
    carries the receiver and [*r]. *)
Definition Div_dig (this : vlong) (a : ref) (b : Z) (r : option Z)
  : res (vlong * option Z) :=
  let a_s := s (deref this a) in
  let signq := if ((b <? 0) && (a_s =? MP_ZPOS)) || ((0 <? b) && (a_s =? MP_NEG))
               then MP_NEG else MP_ZPOS in
  let b2 := if 0 <? b then udig_t b else udig_t (- b) in
  if b2 =? 1 then
    let r := option_map (fun _ => 0) r in
    CHECK this <- (if is_this a then ok this else SetValue this a)
      onfail (this, r) ;
    ok (set_s this signq, r)
  else
    (* x = &tmp1 when a is the receiver, else the receiver; r2 is a local *)
    let x := if is_this a then Init else this in
    CHECK (x, r2) <- prvDivInt (deref this a) (udig_t b) (OObj x) (Some 0)
      onfail (if is_this a then this else obj_or x this, r) ;
    let x := obj_or x this in
    let r2 := match r2 with Some v => v | None => 0 end in
    let r := option_map
               (fun _ => if s (deref this a) =? MP_NEG
                         then sdig_t (- sdig_t r2) else sdig_t r2) r in
    let this := if is_this a then prvMovePtr this x else x in
    ok (Clamp (set_s this signq), r).

(** [Mod(a, sdig_t b)] *)
Definition Mod_dig (this : vlong) (a : ref) (b : Z) : res vlong :=
  match Div_dig Init (Ref (deref this a)) b (Some 0) with
  | None => None
  | Some (ret, (_, r)) =>
      if ret =? VLONG_SUCCESS
      then SetValue_dig this (match r with Some v => v | None => 0 end)
      else Some (ret, this)
  end.

(** [ModDig(a, sdig_t b)] leaves the receiver alone and returns the
    remainder. *)
Definition ModDig (a : vlong) (b : Z) : option Z :=
  if b =? 0 then Some 0
  else match Div_dig Init (Ref a) b (Some 0) with
       | None => None
       | Some (_, (_, r)) => Some (match r with Some v => v | None => 0 end)
       end.

(** ** Long-long arithmetic *)

(** [prvAddMag(a, b)]: low level addition of the magnitudes. *)
Definition prvAddMag (this : vlong) (a b : ref) : res vlong :=
  let av := deref this a in
  let bv := deref this b in
  let nmin := if nu av <? nu bv then nu av else nu bv in
  let nmax := if nu bv <? nu av then nu av else nu bv in
  let aliased := is_this a || is_this b in
  let c := if aliased then Init else this in
  CHECK c <- (if na c <? nmax + 1 then Grow c (nmax + 1) else ok c)
    onfail (if aliased then this else c) ;
  let x := if nu av <? nu bv then bv else av in
  let c := set_d c (memset0 (d c) 0 (nu this)) in
  let c := set_nu c nmax in
  let '(c, u) :=
    for_up (Z.to_nat nmin) 0
      (fun i '(c, u) =>
         let sum := uwrd_t (di av i + di bv i + u) in
         (set_di c i (udig_t (Z.land sum MP_MASK_DIG)),
          udig_t (Z.shiftr sum BiD)))
      (c, 0) in
  let '(c, u) :=
    for_up (Z.to_nat (nmax - nmin)) nmin
      (fun i '(c, u) =>
         let sum := uwrd_t (di x i + u) in
         (set_di c i (udig_t (Z.land sum MP_MASK_DIG)),
          udig_t (Z.shiftr sum BiD)))
      (c, u) in
  let c := if 0 <? u then set_nu (set_di c nmax u) (nu c + 1) else c in
  ok (if aliased then prvMovePtr this c else c).

(** [prvSubMag(a, b)]: low level subtraction, assumes |a| >= |b|. *)
Definition prvSubMag (this : vlong) (a b : ref) : res vlong :=
  let av := deref this a in
  let bv := deref this b in
  let nmin := nu bv in
  let nmax := nu av in
  let aliased := is_this a || is_this b in
  let c := if aliased then Init else this in
  CHECK c <- (if na c <? nmax then Grow c nmax else ok c)
    onfail (if aliased then this else c) ;
  let c := set_d c (memset0 (d c) 0 nmax) in
  let c := set_nu c nmax in
  let '(c, u) :=
    for_up (Z.to_nat nmin) 0
      (fun i '(c, u) =>
         let dif := swrd_t (di av i - di bv i - u) in
         (set_di c i (udig_t (Z.land dif MP_MASK_DIG)),
          if dif <? 0 then 1 else 0))
      (c, 0) in
  let '(c, _) :=
    for_up (Z.to_nat (nmax - nmin)) nmin
      (fun i '(c, u) =>
         let dif := swrd_t (di av i - u) in
         (set_di c i (udig_t (Z.land dif MP_MASK_DIG)),
          if dif <? 0 then 1 else 0))
      (c, u) in
  ok (Clamp (if aliased then prvMovePtr this c else c)).

(** [Add(a, b)]: high level addition (handles signs). *)
Definition Add (this : vlong) (a b : ref) : res vlong :=
  let av := deref this a in
  let bv := deref this b in
  if s av =? s bv then prvAddMag (set_s this (s av)) a b
  else if CompareMag av bv =? MP_LT then prvSubMag (set_s this (s bv)) b a
  else prvSubMag (set_s this (s av)) a b.

(** [Sub(a, b)]: high level subtraction (handles signs). *)
Definition Sub (this : vlong) (a b : ref) : res vlong :=
  let av := deref this a in
  let bv := deref this b in
  if negb (s av =? s bv) then prvAddMag (set_s this (s av)) a b
  else if CompareMag av bv =? MP_GT then prvSubMag (set_s this (s av)) a b
  else prvSubMag
         (set_s this (if s av =? MP_ZPOS then MP_NEG else MP_ZPOS)) b a.

(** [prvMulBaseline(a, b, ndigs)]: the receiver is neither [a] nor [b]. *)
Definition prvMulBaseline (this : vlong) (a b : vlong) (ndigs : Z)
  : res vlong :=
  let digs := if nu a + nu b <? ndigs then nu a + nu b else ndigs in
  CHECK this <- (if nu this <? digs then Grow this digs else ok this)
    onfail this ;
  let this := set_nu this digs in
  let this := set_d this (memset0 (d this) 0 (nu this)) in
  let nmin := if ndigs <? nu b then ndigs else nu b in
  let this :=
    for_up (Z.to_nat (nu a)) 0
      (fun i this =>
         let t1 := di a i in
         let '(this, u) :=
           for_up (Z.to_nat nmin) 0
             (fun j '(this, u) =>
                let r := uwrd_t (di this (i + j) + t1 * di b j + u) in
                (set_di this (i + j) (udig_t (Z.land r MP_MASK_DIG)),
                 udig_t (Z.shiftr r BiD)))
             (this, 0) in
         if i + nmin <? digs then set_di this (i + nmin) u else this)
      this in
  ok (Clamp this).

(** [memset(&l[from], 0, nbytes)] for a byte count that is not a multiple of
    the digit size (little-endian digits), clipped to the buffer: a count
    beyond it, which in the source runs over the heap, clears the rest of
    the buffer. *)
Definition memset0_bytes (l : list Z) (from nbytes : Z) : list Z :=
  if (zlen l - from) * CiD <=? nbytes then memset0 l from (zlen l - from)
  else
    let l := memset0 l from (nbytes / CiD) in
    let k := from + nbytes / CiD in
    dset l k (Z.land (dget l k) (unot (2 ^ (8 * (nbytes mod CiD)) - 1))).

Section Multiplication.

(** The top-level multiply, through which Karatsuba recurses. *)
Variable Mul : vlong -> ref -> ref -> Z -> res vlong.

Definition prvMulKaratsuba (this : vlong) (a b : ref) : res vlong :=
  let av := deref this a in
  let bv := deref this b in
  let aliased := is_this a || is_this b in
  let B := Z.shiftr (if nu av <? nu bv then nu av else nu bv) 1 in
  CHECK x0 <- Grow Init (B * 2) onfail this ;
  CHECK x1 <- Grow Init (nu av - B) onfail this ;
  CHECK y0 <- Grow Init B onfail this ;
  CHECK y1 <- Grow Init (nu bv - B) onfail this ;
  CHECK t1 <- Grow Init (B * 2) onfail this ;
  CHECK x0y0 <- Grow Init (B * 2) onfail this ;
  CHECK x1y1 <- Grow Init (B * 2) onfail this ;
  let x0 := set_nu x0 B in
  let y0 := set_nu y0 B in
  let x1 := set_nu x1 (nu av - B) in
  let y1 := set_nu y1 (nu bv - B) in
  let x0 := set_d x0 (memcpy (d x0) (d av) B) in
  let y0 := set_d y0 (memcpy (d y0) (d bv) B) in
  let x1 := set_d x1 (memcpy (d x1) (skipn (Z.to_nat B) (d av)) (nu av - B)) in
  let y1 := set_d y1 (memcpy (d y1) (skipn (Z.to_nat B) (d bv)) (nu bv - B)) in
  let x0 := Clamp x0 in
  let y0 := Clamp y0 in
  CHECK x0y0 <- Mul x0y0 (Ref x0) (Ref y0) 0 onfail this ;
  CHECK x1y1 <- Mul x1y1 (Ref x1) (Ref y1) 0 onfail this ;
  CHECK t1 <- Add t1 (Ref x1) (Ref x0) onfail this ;
  CHECK x0 <- Add x0 (Ref y1) (Ref y0) onfail this ;
  CHECK t1 <- Mul t1 (Ref x0) This 0 onfail this ;
  CHECK x0 <- Add x0 (Ref x0y0) (Ref x1y1) onfail this ;
  CHECK t1 <- Sub t1 This (Ref x0) onfail this ;
  CHECK t1 <- prvLeftShiftDigits t1 B onfail this ;
  CHECK x1y1 <- prvLeftShiftDigits x1y1 (B * 2) onfail this ;
  CHECK t1 <- Add t1 (Ref x0y0) This onfail this ;
  let c := if aliased then Init else this in
  CHECK c <- Add c (Ref t1) (Ref x1y1) onfail (if aliased then this else c) ;
  ok (if aliased then prvMovePtr this c else c).

(** The body of [Mul(a, b, maxdigs)]. *)
Definition Mul_body (this : vlong) (a b : ref) (maxdigs : Z) : res vlong :=
  let av := deref this a in
  let bv := deref this b in
  let sign := if s av =? s bv then MP_ZPOS else MP_NEG in
  if (nu av =? 0) || (nu bv =? 0) then ok (SetZero this)
  else
    let nmin := if nu av <? nu bv then nu av else nu bv in
    let aliased := is_this a || is_this b in
    let x := if aliased then Init else this in
    let digs := nu av + nu bv in
    CHECK x <- (if nu x <? digs then Grow x digs else ok x)
      onfail (if aliased then this else x) ;
    let digs := if (0 <? maxdigs) && (maxdigs <? digs) then maxdigs else digs in
    match (if VLONG_KARATSUBA_MUL_CUTOFF <=? nmin
           then prvMulKaratsuba x (Ref av) (Ref bv)
           else prvMulBaseline x av bv digs) with
    | None => None
    | Some (ret, x) =>
        let x := if digs <? nu x
                 then set_nu
                        (set_d x (memset0_bytes (d x) digs
                                    (size_t (nu x - digs * CiD))))
                        digs
                 else x in
        let this := if aliased then prvMovePtr this x else x in
        Some (ret, set_s this sign)
    end.

End Multiplication.

(** [Mul(a, b, maxdigs)]: the fuel bounds the depth of the Karatsuba
    recursion. *)
Fixpoint Mul (fuel : nat) (this : vlong) (a b : ref) (maxdigs : Z)
  : res vlong :=
  match fuel with
  | O => None
  | S fuel' => Mul_body (Mul fuel') this a b maxdigs
  end.

Definition Sqr (fuel : nat) (this : vlong) (a : ref) : res vlong :=
  Mul fuel this a a 0.

(** ** Abstraction: the integer an object denotes *)

Fixpoint mag (l : list Z) (n : nat) : Z :=
  match n, l with
  | O, _ => 0
  | S _, [] => 0
  | S n', h :: t => h + 2 ^ 32 * mag t n'
  end.

Definition to_Z (v : vlong) : Z := s v * mag (d v) (Z.to_nat (nu v)).

Fixpoint digits_of (k : nat) (z : Z) : list Z :=
  match k with
  | O => []
  | S k' => if z =? 0 then [] else z mod 2 ^ 32 :: digits_of k' (z / 2 ^ 32)
  end.

(** The clamped object of value [z], as the library builds it (at most
    [VLONG_MAX_DIGITS] digits). *)
Definition of_Z (z : Z) : vlong :=
  let l := digits_of 1024 (Z.abs z) in
  mk_vlong (if z <? 0 then MP_NEG else MP_ZPOS) l (zlen l).

(** ** Division *)

(** [prvDivBig(a, b, q2, r)] is static and works on up to four objects: the
    inputs [a] and [b] and the objects behind the output pointers [q2] and
    [r].  An output pointer is NULL, the address of [a], the address of [b],
    or the address of an object of its own. *)
Inductive tgt : Type := TNull | TA | TB | TOwn.

Record cells : Type := mk_cells
  { cA : vlong;    (* the object a *)
    cB : vlong;    (* the object b *)
    cQ : vlong;    (* the object behind q2 when it is of its own *)
    cR : vlong     (* the object behind r when it is of its own *) }.

Definition getQ (t : tgt) (c : cells) : vlong :=
  match t with TA => cA c | TB => cB c | _ => cQ c end.
Definition getR (t : tgt) (c : cells) : vlong :=
  match t with TA => cA c | TB => cB c | _ => cR c end.
Definition putQ (t : tgt) (v : vlong) (c : cells) : cells :=
  match t with
  | TNull => c
  | TA => mk_cells v (cB c) (cQ c) (cR c)
  | TB => mk_cells (cA c) v (cQ c) (cR c)
  | TOwn => mk_cells (cA c) (cB c) v (cR c)
  end.
Definition putR (t : tgt) (v : vlong) (c : cells) : cells :=
  match t with
  | TNull => c
  | TA => mk_cells v (cB c) (cQ c) (cR c)
  | TB => mk_cells (cA c) v (cQ c) (cR c)
  | TOwn => mk_cells (cA c) (cB c) (cQ c) v
  end.
(** The input [a] as seen from the object behind an output pointer. *)
Definition a_from (t : tgt) (c : cells) : ref :=
  match t with TA => This | _ => Ref (cA c) end.

(** [while (CompareMag(x, y) != MP_LT) { ++(q.d[n - t]); x.prvSubMag(x, y); }] *)
Fixpoint prvDivBig_step2 (fuel : nat) (k : Z) (y x q : vlong)
  : res (vlong * vlong) :=
  match fuel with
  | O => None
  | S fuel' =>
      if negb (CompareMag x y =? MP_LT) then
        let q := set_di q k (udig_t (di q k + 1)) in
        CHECK x <- prvSubMag x This (Ref y) onfail (x, q) ;
        prvDivBig_step2 fuel' k y x q
      else ok (x, q)
  end.

(** The [do ... while (CompareMag(t1, t2) == MP_GT)] of step 3.2; [k] is
    [i - t - 1]. *)
Fixpoint prvDivBig_step32 (fuel : nat) (i t k : Z) (x y q t1 t2 : vlong)
  : res (vlong * vlong * vlong) :=
  match fuel with
  | O => None
  | S fuel' =>
      let q := set_di q k (udig_t (di q k - 1)) in
      (* find left hand *)
      let t1 := SetZero t1 in
      let t1 := set_di t1 0 (if t <? 1 then 0 else di y (t - 1)) in
      let t1 := set_di t1 1 (di y t) in
      let t1 := set_nu t1 2 in
      CHECK t1 <- prvMulDig t1 This (di q k) onfail (q, t1, t2) ;
      (* find right hand *)
      let t2 := set_di t2 0 (if i <? 2 then 0 else di x (i - 2)) in
      let t2 := set_di t2 1 (if i <? 1 then 0 else di x (i - 1)) in
      let t2 := set_di t2 2 (di x i) in
      let t2 := set_nu t2 3 in
      if CompareMag t1 t2 =? MP_GT
      then prvDivBig_step32 fuel' i t k x y q t1 t2
      else ok (q, t1, t2)
  end.

(** Step 3: [for (i = n; i >= t + 1; i--)]. *)
Fixpoint prvDivBig_step3 (fuel : nat) (cnt : nat) (i t : Z)
    (y x q t1 t2 : vlong) : res (vlong * vlong) :=
  match cnt with
  | O => ok (x, q)
  | S cnt' =>
      if nu x <? i then prvDivBig_step3 fuel cnt' (i - 1) t y x q t1 t2
      else
        let k := i - t - 1 in
        (* step 3.1 *)
        let q :=
          if di x i =? di y t then set_di q k MP_MASK_DIG
          else
            let tmpx := Z.lor (uwrd_t (Z.shiftl (di x i) BiD)) (di x (i - 1)) in
            let tmpx := tmpx / di y t in
            let tmpx := if MP_MASK_DIG <? tmpx then MP_MASK_DIG else tmpx in
            set_di q k (udig_t (Z.land tmpx MP_MASK_DIG)) in
        (* step 3.2 *)
        let q := set_di q k (udig_t (di q k + 1)) in
        CHECK (q, t1, t2) <- prvDivBig_step32 fuel i t k x y q t1 t2
          onfail (x, q) ;
        (* step 3.3 *)
        CHECK t1 <- prvMulDig t1 (Ref y) (di q k) onfail (x, q) ;
        CHECK t1 <- prvLeftShiftDigits t1 k onfail (x, q) ;
        CHECK x <- Sub x This (Ref t1) onfail (x, q) ;
        if s x =? MP_NEG then
          CHECK t1 <- SetValue t1 (Ref y) onfail (x, q) ;
          CHECK t1 <- prvLeftShiftDigits t1 k onfail (x, q) ;
          CHECK x <- Add x This (Ref t1) onfail (x, q) ;
          let q := set_di q k (Z.land (udig_t (di q k - 1)) MP_MASK_DIG) in
          prvDivBig_step3 fuel cnt' (i - 1) t y x q t1 t2
        else prvDivBig_step3 fuel cnt' (i - 1) t y x q t1 t2
  end.

(** The general case, on the locals [q], [x], [y], [t1], [t2]: the quotient
    [q], the residual [x] and the normalisation count. *)
Definition prvDivBig_general (fuel : nat) (a b : vlong)
  : res (vlong * vlong * Z) :=
  let dummy := (Init, Init, 0) in
  CHECK q <- Grow Init (nu a + 2) onfail dummy ;
  let q := set_nu q (nu a + 2) in
  CHECK t1 <- Grow Init (nu a + 2) onfail dummy ;
  CHECK t2 <- Grow Init (nu a + 2) onfail dummy ;
  CHECK x <- SetValue Init (Ref a) onfail dummy ;
  CHECK y <- SetValue Init (Ref b) onfail dummy ;
  (* fix the sign *)
  let x := set_s x MP_ZPOS in
  let y := set_s y MP_ZPOS in
  (* normalize both x and y *)
  let norm := GetNumBits y mod BiD in
  CHECK (x, y, norm) <-
    (if norm <? BiD - 1 then
       let norm := BiD - 1 - norm in
       CHECK x <- ShiftLeft x This norm onfail (x, y, norm) ;
       CHECK y <- ShiftLeft y This norm onfail (x, y, norm) ;
       ok (x, y, norm)
     else ok (x, y, 0))
    onfail dummy ;
  let n := nu x - 1 in
  let t := nu y - 1 in
  (* while (x >= y*b**n-t) do { q[n-t] += 1; x -= y*b**{n-t} } *)
  CHECK y <- prvLeftShiftDigits y (n - t) onfail dummy ;
  CHECK (x, q) <- prvDivBig_step2 fuel (n - t) y x q onfail dummy ;
  (* reset y by shifting it back down *)
  let y := prvRightShiftDigits y (n - t) in
  CHECK (x, q) <- prvDivBig_step3 fuel (Z.to_nat (n - t)) n t y x q t1 t2
    onfail dummy ;
  ok (q, x, norm).

Definition prvDivBig (fuel : nat) (c : cells) (q2 r : tgt) : res cells :=
  let a := cA c in
  let b := cB c in
  let sign := if s a =? s b then MP_ZPOS else MP_NEG in
  if nu b =? 0 then fail VLONG_ERR_DIV_BY_ZERO c
  else
    let cmp := CompareMag a b in
    if cmp =? MP_LT then
      (* if a < b then q=0, r = a *)
      CHECK c <- match r with
                 | TNull => ok c
                 | _ => CHECK v <- Copy (getR r c) (a_from r c)
                          onfail (putR r v c) ;
                        ok (putR r v c)
                 end
        onfail c ;
      ok (match q2 with
          | TNull => c
          | _ => putQ q2 (SetZero (getQ q2 c)) c
          end)
    else if cmp =? MP_EQ then
      let c := match r with
               | TNull => c
               | _ => putR r (SetZero (getR r c)) c
               end in
      match q2 with
      | TNull => ok c
      | _ => CALL v <- SetValue (getQ q2 c) (a_from q2 c) ;
             ok (putQ q2 (set_s v sign) c)
      end
    else
      match prvDivBig_general fuel a b with
      | None => None
      | Some (ret, (q, x, norm)) =>
          if negb (ret =? 0) then Some (ret, c)
          else
            (* now q is the quotient and x is the remainder *)
            let c := match q2 with
                     | TNull => c
                     | _ => putQ q2 (set_s (Clamp q) sign) c
                     end in
            match r with
            | TNull => ok c
            | _ => CHECK x <- ShiftRight x This norm onfail c ;
                   (* r->swap(x); r->s = a.s; *)
                   let c := putR r x c in
                   ok (putR r (set_s (getR r c) (s (cA c))) c)
            end
      end.

(** [Div(a, b, r)]: [r] is NULL or an object distinct from the receiver and
    from the inputs.  The result carries the receiver and that object. *)
Definition Div (fuel : nat) (this : vlong) (a b : ref) (r : option vlong)
  : res (vlong * option vlong) :=
  let q2 := if is_this a then TA else if is_this b then TB else TOwn in
  let rt := match r with None => TNull | Some _ => TOwn end in
  let c := mk_cells (deref this a) (deref this b) this (obj_or r Init) in
  match prvDivBig fuel c q2 rt with
  | None => None
  | Some (ret, c) =>
      Some (ret, (getQ q2 c, option_map (fun _ => cR c) r))
  end.

(** [Mod(a, b)]: X <- a % b *)
Definition Mod (fuel : nat) (this : vlong) (a b : ref) : res vlong :=
  if nu (deref this b) =? 0 then Some (VLONG_SUCCESS, SetZero this)
  else
    let rt := if is_this a then TA else if is_this b then TB else TOwn in
    let c := mk_cells (deref this a) (deref this b) Init this in
    match prvDivBig fuel c TNull rt with
    | None => None
    | Some (ret, c) => Some (ret, getR rt c)
    end.

(** [MulMod(a, b, n)]: X = a*b mod n; [n] is not the receiver. *)
Definition MulMod (fuel : nat) (this : vlong) (a b : ref) (n : vlong)
  : res vlong :=
  CHECK this <- Mul fuel this a b 0 onfail this ;
  CHECK this <- Mod fuel this This (Ref n) onfail this ;
  ok this.

Definition SqrMod (fuel : nat) (this : vlong) (a : ref) (n : vlong)
  : res vlong :=
  MulMod fuel this a a n.

(** ** Reductions *)

(** [prv2Expt(b)]: computes 2**b *)
Definition prv2Expt (this : vlong) (b : Z) : res vlong :=
  let this := SetZero this in
  CHECK this <- Grow this (b / BiD + 1) onfail this ;
  let this := set_nu this (b / BiD + 1) in
  ok (set_di this (b / BiD) (udig_t (Z.shiftl 1 (b mod BiD)))).

(** [prvReduceBarrettSetup(n, a)] (static): the final value of [*a]. *)
Definition prvReduceBarrettSetup (fuel : nat) (n : vlong) (a : vlong)
  : res vlong :=
  CHECK a <- prv2Expt a (udig_t (nu n * 2 * BiD)) onfail a ;
  match prvDivBig fuel (mk_cells a n Init Init) TA TNull with
  | None => None
  | Some (ret, c) => Some (ret, cA c)
  end.

(** [prvMod2d(a, b)]: a mod 2**b *)
Definition prvMod2d (this : vlong) (a : ref) (b : Z) : res vlong :=
  if b <=? 0 then ok (SetZero this)
  else if nu (deref this a) * BiD <=? b then Copy this a
  else
    CHECK this <- (if is_this a then ok this else Copy this a) onfail this ;
    let first := (b + BiD - 1) / BiD in
    let this := for_up (Z.to_nat (nu this - first)) first
                  (fun i this => set_di this i 0) this in
    let this :=
      set_di this (b / BiD)
        (Z.land (di this (b / BiD))
                (udig_t (udig_t (Z.shiftl 1 (b mod BiD)) - 1))) in
    ok (Clamp this).

(** The final [while] of Barrett: subtract [n] while [x] compares greater. *)
Fixpoint prvReduceBarrett_loop (fuel : nat) (x n : vlong) : res vlong :=
  match fuel with
  | O => None
  | S fuel' =>
      if Compare x n =? MP_GT then
        CHECK x <- Sub x This (Ref n) onfail x ;
        prvReduceBarrett_loop fuel' x n
      else ok x
  end.

(** [prvReduceBarrett(x, n, mu)] (static): the final value of [*x]. *)
Definition prvReduceBarrett (fuel : nat) (x n mu : vlong) : res vlong :=
  let um := nu n in
  (* q = x *)
  CHECK q <- SetValue Init (Ref x) onfail x ;
  (* q1 = x / b**(k-1) *)
  let q := prvRightShiftDigits q (um - 1) in
  (* q2 = q1 * mu *)
  CHECK q <- Mul fuel q This (Ref mu) 0 onfail x ;
  (* q3 = q2 / b**(k+1) *)
  let q := prvRightShiftDigits q (um + 1) in
  (* x = x mod b**(k+1) *)
  CHECK x <- prvMod2d x This (BiD * (um + 1)) onfail x ;
  (* q = q * m mod b**(k+1) *)
  CHECK q <- Mul fuel q This (Ref n) (um + 1) onfail x ;
  (* x = x - q *)
  CHECK x <- Sub x This (Ref q) onfail x ;
  CHECK x <- (if (s x =? MP_NEG) && (0 <? nu x) then
                CHECK q <- SetValue_dig q 1 onfail x ;
                CHECK q <- prvLeftShiftDigits q (um + 1) onfail x ;
                Add x This (Ref q)
              else ok x)
    onfail x ;
  prvReduceBarrett_loop fuel x n.

(** [prvReduceMontgomerySetup(n, &rho)] (static): status and [rho]. *)
Definition prvReduceMontgomerySetup (n : vlong) : Z * Z :=
  let b := di n 0 in
  if Z.land b 1 =? 0 then (VLONG_ERR_BAD_ARG_1, 0)
  else
    let x := udig_t (udig_t (Z.shiftl (Z.land (udig_t (b + 2)) 4) 1) + b) in
    let x := udig_t (x * udig_t (2 - udig_t (b * x))) in
    let x := udig_t (x * udig_t (2 - udig_t (b * x))) in   (* BiD >= 16 *)
    let x := udig_t (x * udig_t (2 - udig_t (b * x))) in   (* BiD >= 32 *)
    (VLONG_SUCCESS, udig_t (unot x + 1)).

(** [prvMontgomeryNorm(a, b)]: the final value of [*a]. *)
Definition prvMontgomeryNorm (a b : vlong) : res vlong :=
  let bits := GetNumBits b mod BiD in
  CHECK (a, bits) <-
    (if 1 <? nu b then
       CHECK a <- prv2Expt a (udig_t ((nu b - 1) * BiD + bits - 1))
         onfail (a, bits) ;
       ok (a, bits)
     else
       CHECK a <- SetValue_dig a 1 onfail (a, 1) ;
       ok (a, 1))
    onfail a ;
  for_up (Z.to_nat (BiD - (bits - 1))) (bits - 1)
    (fun _ (r : res vlong) =>
       CHECK a <- r onfail a ;
       CHECK a <- prvMulDig a This 2 onfail a ;
       if CompareMag a b =? MP_GT then Sub a This (Ref b) else ok a)
    (ok a).

(** [while (u) { ... j++; }]: propagate carries upwards. *)
Fixpoint prvReduceMontgomery_carry (fuel : nat) (x : vlong) (k u : Z)
  : option vlong :=
  match fuel with
  | O => None
  | S fuel' =>
      if u =? 0 then Some x
      else
        let r := uwrd_t (di x k + u) in
        prvReduceMontgomery_carry fuel'
          (set_di x k (udig_t (Z.land r MP_MASK_DIG)))
          (k + 1) (udig_t (Z.shiftr r BiD))
  end.

(** [prvReduceMontgomery(x, n, rho)] (static): the final value of [*x]. *)
Definition prvReduceMontgomery (fuel : nat) (x n : vlong) (rho : Z)
  : res vlong :=
  let digs := nu n * 2 + 1 in
  CHECK x <- Grow x digs onfail x ;
  let x := set_nu x digs in
  match
    for_up (Z.to_nat (nu n)) 0
      (fun i (ox : option vlong) =>
         match ox with
         | None => None
         | Some x =>
             let mu := udig_t (Z.land (uwrd_t (di x i * rho)) MP_MASK_DIG) in
             let '(x, u) :=
               for_up (Z.to_nat (nu n)) 0
                 (fun j '(x, u) =>
                    let r := uwrd_t (mu * di n j + u + di x (i + j)) in
                    (set_di x (i + j) (udig_t (Z.land r MP_MASK_DIG)),
                     udig_t (Z.shiftr r BiD)))
                 (x, 0) in
             prvReduceMontgomery_carry fuel x (i + nu n) u
         end)
      (Some x)
  with
  | None => None
  | Some x =>
      (* x = x/b**n.used *)
      let x := Clamp x in
      let x := prvRightShiftDigits x (nu n) in
      (* if x >= n then x = x - n *)
      if CompareMag x n =? MP_GT then prvSubMag x This (Ref n) else ok x
  end.

Fixpoint count_mask_digits (l : list Z) (n : nat) : Z :=
  match n, l with
  | O, _ => 0
  | S _, [] => 0
  | S n', h :: t => (if h =? MP_MASK_DIG then 1 else 0) + count_mask_digits t n'
  end.

Definition prvIsDrModulus (this : vlong) : bool :=
  if nu this =? 0 then false
  else if nu this =? 1 then true
  else nu this / 2 <=? count_mask_digits (d this) (Z.to_nat (nu this)).

(** [prvReduceDRSetup(n, mu)] (static): the final value of [*mu]. *)
Definition prvReduceDRSetup (n mu : vlong) : res vlong :=
  CHECK tmp1 <- prv2Expt Init (udig_t (GetNumBits n)) onfail mu ;
  Sub mu (Ref tmp1) (Ref n).

(** [prvReduceDR(x, n, mu)] (static): the final value of [*x]. *)
Fixpoint prvReduceDR_loop (fuel : nat) (q x n mu : vlong) : res vlong :=
  match fuel with
  | O => None
  | S fuel' =>
      let p := GetNumBits n in
      (* q = x/2**p, x = x mod 2**p *)
      CHECK (q, x') <- prvDivPow2 q (Ref x) p OSame onfail (obj_or x' x) ;
      let x := obj_or x' x in
      (* q = q * mu *)
      CHECK q <- Mul fuel q This (Ref mu) 0 onfail x ;
      (* x = x + q *)
      CHECK x <- prvAddMag x This (Ref q) onfail x ;
      if CompareMag x n =? MP_GT then
        CHECK x <- Sub x This (Ref n) onfail x ;
        prvReduceDR_loop fuel' q x n mu
      else ok x
  end.

Definition prvReduceDR (fuel : nat) (x n mu : vlong) : res vlong :=
  prvReduceDR_loop fuel Init x n mu.

(** [ModBarrett(a, b)]: [b] is not the receiver. *)
Definition ModBarrett (fuel : nat) (this : vlong) (a : ref) (b : vlong)
  : res vlong :=
  CHECK mu <- prvReduceBarrettSetup fuel b Init onfail this ;
  CHECK this <- (if is_this a then ok this else SetValue this a) onfail this ;
  CHECK this <- prvReduceBarrett fuel this b mu onfail this ;
  ok this.

(** [ModMontgomery(a, b)]: [b] is not the receiver. *)
Definition ModMontgomery (fuel : nat) (this : vlong) (a : ref) (b : vlong)
  : res vlong :=
  let '(ret, rho) := prvReduceMontgomerySetup b in
  if negb (ret =? 0) then Some (ret, this)
  else
    CHECK this <- (if is_this a then ok this else SetValue this a) onfail this ;
    CHECK this <- prvReduceMontgomery fuel this b rho onfail this ;
    ok this.

(** [ModDRExt(a, b)]: [b] is not the receiver. *)
Definition ModDRExt (fuel : nat) (this : vlong) (a : ref) (b : vlong)
  : res vlong :=
  CHECK mu <- prvReduceDRSetup b Init onfail this ;
  CHECK this <- (if is_this a then ok this else SetValue this a) onfail this ;
  CHECK this <- prvReduceDR fuel this b mu onfail this ;
  ok this.

(** ** GCD family *)

(** [while ((t.d[0] & 1) == 0)] of the binary extended algorithm, for
    [(tu, u1, u2)] and again for [(tv, v1, v2)]. *)
Fixpoint GCDExtBin_halve (fuel : nat) (ta tb t w1 w2 : vlong)
  : res (vlong * vlong * vlong) :=
  match fuel with
  | O => None
  | S fuel' =>
      if Z.land (di t 0) 1 =? 0 then
        CHECK t <- ShiftRight t This 1 onfail (t, w1, w2) ;
        CHECK (w1, w2) <-
          (if negb (Z.land (di w1 0) 1 =? 0) || negb (Z.land (di w2 0) 1 =? 0)
           then
             CHECK w1 <- Add w1 This (Ref tb) onfail (w1, w2) ;
             CHECK w2 <- Sub w2 This (Ref ta) onfail (w1, w2) ;
             ok (w1, w2)
           else ok (w1, w2))
          onfail (t, w1, w2) ;
        CHECK w1 <- ShiftRight w1 This 1 onfail (t, w1, w2) ;
        CHECK w2 <- ShiftRight w2 This 1 onfail (t, w1, w2) ;
        GCDExtBin_halve fuel' ta tb t w1 w2
      else ok (t, w1, w2)
  end.

Record gcd_state : Type := mk_gcd_state
  { g_tu : vlong; g_u1 : vlong; g_u2 : vlong;
    g_tv : vlong; g_v1 : vlong; g_v2 : vlong }.

(** The [do ... while (tu.nu != 0)] loop. *)
Fixpoint GCDExtBin_loop (fuel : nat) (ta tb : vlong) (st : gcd_state)
  : res gcd_state :=
  match fuel with
  | O => None
  | S fuel' =>
      CHECK (tu, u1, u2) <-
        GCDExtBin_halve fuel ta tb (g_tu st) (g_u1 st) (g_u2 st) onfail st ;
      CHECK (tv, v1, v2) <-
        GCDExtBin_halve fuel ta tb (g_tv st) (g_v1 st) (g_v2 st) onfail st ;
      CHECK st <-
        (if 0 <=? CompareMag tu tv then
           CHECK tu <- Sub tu This (Ref tv) onfail st ;
           CHECK u1 <- Sub u1 This (Ref v1) onfail st ;
           CHECK u2 <- Sub u2 This (Ref v2) onfail st ;
           ok (mk_gcd_state tu u1 u2 tv v1 v2)
         else
           CHECK tv <- Sub tv This (Ref tu) onfail st ;
           CHECK v1 <- Sub v1 This (Ref u1) onfail st ;
           CHECK v2 <- Sub v2 This (Ref u2) onfail st ;
           ok (mk_gcd_state tu u1 u2 tv v1 v2))
        onfail st ;
      if negb (nu (g_tu st) =? 0) then GCDExtBin_loop fuel' ta tb st
      else ok st
  end.

(** [while ((ta.d[0] & 1) == 0 && (tb.d[0] & 1) == 0)]: the common power
    of two. *)
Fixpoint GCDExtBin_twos (fuel : nat) (ta tb : vlong) (tg : Z)
  : res (vlong * vlong * Z) :=
  match fuel with
  | O => None
  | S fuel' =>
      if (Z.land (di ta 0) 1 =? 0) && (Z.land (di tb 0) 1 =? 0) then
        CHECK ta <- ShiftRight ta This 1 onfail (ta, tb, tg) ;
        CHECK tb <- ShiftRight tb This 1 onfail (ta, tb, tg) ;
        GCDExtBin_twos fuel' ta tb (tg + 1)
      else ok (ta, tb, tg)
  end.

(** [GCDExtBin(a, b, pY1, pY2)]: the output pointers are NULL or objects
    distinct from the receiver and the inputs; the result carries the
    receiver and the two objects. *)
Definition GCDExtBin (fuel : nat) (this : vlong) (a b : ref)
    (pY1 pY2 : option vlong) : res (vlong * option vlong * option vlong) :=
  let av := deref this a in
  let bv := deref this b in
  if (nu av =? 0) || (nu bv =? 0) then
    CHECK pY1 <- match pY1 with
                 | Some v => CHECK v <- SetValue_dig v 1 onfail (Some v) ;
                             ok (Some v)
                 | None => ok None
                 end
      onfail (this, pY1, pY2) ;
    CHECK pY2 <- match pY2 with
                 | Some v => CHECK v <- SetValue_dig v 0 onfail (Some v) ;
                             ok (Some v)
                 | None => ok None
                 end
      onfail (this, pY1, pY2) ;
    CHECK this <- SetValue_dig this 0 onfail (this, pY1, pY2) ;
    ok (this, pY1, pY2)
  else
    let unchanged := (this, pY1, pY2) in
    CHECK ta <- SetValue Init (Ref av) onfail unchanged ;
    CHECK tb <- SetValue Init (Ref bv) onfail unchanged ;
    CHECK (ta, tb, tg) <- GCDExtBin_twos fuel ta tb 0 onfail unchanged ;
    CHECK tu <- SetValue Init (Ref ta) onfail unchanged ;
    CHECK tv <- SetValue Init (Ref tb) onfail unchanged ;
    CHECK u1 <- SetValue_dig Init 1 onfail unchanged ;
    CHECK u2 <- SetValue_dig Init 0 onfail unchanged ;
    CHECK v1 <- SetValue_dig Init 0 onfail unchanged ;
    CHECK v2 <- SetValue_dig Init 1 onfail unchanged ;
    CHECK st <- GCDExtBin_loop fuel ta tb (mk_gcd_state tu u1 u2 tv v1 v2)
      onfail unchanged ;
    let pY1 := option_map (fun _ => g_v1 st) pY1 in
    let pY2 := option_map (fun _ => g_v2 st) pY2 in
    CHECK this <- SetValue this (Ref (g_tv st)) onfail (this, pY1, pY2) ;
    CHECK this <- (if 0 <? tg then ShiftLeft this This tg else ok this)
      onfail (this, pY1, pY2) ;
    ok (this, pY1, pY2).

(** [InvMod(a, n)]: X such that a*X = 1 (mod n). *)
Definition InvMod (fuel : nat) (this : vlong) (a n : ref) : res vlong :=
  let av := deref this a in
  let nv := deref this n in
  if (s av =? MP_NEG) || (s nv =? MP_NEG) then fail VLONG_ERR_NEGATIVE_ARG this
  else
    CHECK (gcd, Y1, _) <- GCDExtBin fuel Init (Ref av) (Ref nv) (Some Init) None
      onfail this ;
    if (nu gcd =? 1) && (di gcd 0 =? 1) then ok (obj_or Y1 Init)
    else fail VLONG_ERR_NO_INVERSE this.

(** ** Exponentiation *)

Definition TAB_SIZE : Z := 256.

Definition tget (M : list vlong) (i : Z) : vlong := nth (Z.to_nat i) M Init.

Fixpoint tupd (M : list vlong) (n : nat) (v : vlong) : list vlong :=
  match M, n with
  | [], _ => []
  | _ :: t, O => v :: t
  | h :: t, S n' => h :: tupd t n' v
  end.

Definition tset (M : list vlong) (i : Z) (v : vlong) : list vlong :=
  tupd M (Z.to_nat i) v.

(** The window size for an exponent of [x] bits. *)
Definition window_size (x : Z) : Z :=
  if x <=? 7 then 2
  else if x <=? 36 then 3
  else if x <=? 140 then 4
  else if x <=? 450 then 5
  else if x <=? 1303 then 6
  else if x <=? 3529 then 7
  else 8.

Record win_state : Type := mk_win_state
  { w_mode : Z; w_bitcnt : Z; w_buf : Z; w_digidx : Z;
    w_bitcpy : Z; w_bitbuf : Z; w_res : vlong }.

(** The sliding window engine.  [prvPowModBarrett] and
    [prvPowModMontgomery] hold the same text twice; they differ in the
    reduction [redux], which stands for the call with the modulus and its
    precomputed constant. *)
Section SlidingWindow.

Variable fuel : nat.
Variable redux : vlong -> res vlong.
Variable e : vlong.
Variable winsize : Z.

(** [res = res * res] followed by the reduction. *)
Definition sqr_redux (r : vlong) : res vlong :=
  CHECK r <- Mul fuel r This This 0 onfail r ;
  redux r.

(** [res = m * res] followed by the reduction. *)
Definition mul_redux (m r : vlong) : res vlong :=
  CHECK r <- Mul fuel r (Ref m) This 0 onfail r ;
  redux r.

(** The table of powers, from [M[1]]. *)
Definition build_table (M1 : vlong) : res (list vlong) :=
  let M := tset (repeat Init (Z.to_nat TAB_SIZE)) 1 M1 in
  let top := Z.shiftl 1 (winsize - 1) in
  CHECK Mtop <- Copy (tget M top) (Ref (tget M 1)) onfail M ;
  CHECK Mtop <-
    for_up (Z.to_nat (winsize - 1)) 0
      (fun _ (r : res vlong) =>
         CHECK m <- r onfail m ;
         CHECK m <- Mul fuel m This This 0 onfail m ;
         redux m)
      (ok Mtop)
    onfail M ;
  let M := tset M top Mtop in
  for_up (Z.to_nat (Z.shiftl 1 winsize - (top + 1))) (top + 1)
    (fun x (r : res (list vlong)) =>
       CHECK M <- r onfail M ;
       CHECK m <- Mul fuel (tget M x) (Ref (tget M (x - 1))) (Ref (tget M 1)) 0
         onfail M ;
       CHECK m <- redux m onfail M ;
       ok (tset M x m))
    (ok M).

Variable M : list vlong.

(** The [for (;;)] over the bits of the exponent; [cnt] bounds its rounds
    (one per bit, and the round that finds the digits exhausted). *)
Fixpoint window_loop (cnt : nat) (st : win_state) : res win_state :=
  match cnt with
  | O => None
  | S cnt' =>
      let bitcnt := w_bitcnt st - 1 in
      if (bitcnt =? 0) && (w_digidx st =? -1)
      then ok (mk_win_state (w_mode st) bitcnt (w_buf st) (w_digidx st)
                 (w_bitcpy st) (w_bitbuf st) (w_res st))
      else
        (* grab next digit as required *)
        let '(buf, digidx, bitcnt) :=
          if bitcnt =? 0
          then (di e (w_digidx st), w_digidx st - 1, BiD)
          else (w_buf st, w_digidx st, bitcnt) in
        (* grab the next msb from the exponent *)
        let y := Z.land (Z.shiftr buf (BiD - 1)) 1 in
        let buf := udig_t (Z.shiftl buf 1) in
        let mode := w_mode st in
        if (mode =? 0) && (y =? 0) then
          window_loop cnt'
            (mk_win_state mode bitcnt buf digidx
               (w_bitcpy st) (w_bitbuf st) (w_res st))
        else if (mode =? 1) && (y =? 0) then
          CHECK r <- sqr_redux (w_res st) onfail st ;
          window_loop cnt'
            (mk_win_state mode bitcnt buf digidx
               (w_bitcpy st) (w_bitbuf st) r)
        else
          (* else we add it to the window *)
          let bitcpy := w_bitcpy st + 1 in
          let bitbuf := Z.lor (w_bitbuf st) (Z.shiftl y (winsize - bitcpy)) in
          if bitcpy =? winsize then
            CHECK r <-
              for_up (Z.to_nat winsize) 0
                (fun _ (r : res vlong) => CHECK x <- r onfail x ; sqr_redux x)
                (ok (w_res st))
              onfail st ;
            CHECK r <- mul_redux (tget M bitbuf) r onfail st ;
            window_loop cnt' (mk_win_state 1 bitcnt buf digidx 0 0 r)
          else
            window_loop cnt'
              (mk_win_state 2 bitcnt buf digidx bitcpy bitbuf (w_res st))
  end.

(** If bits remain then square/multiply. *)
Definition window_drain (st : win_state) : res vlong :=
  if (w_mode st =? 2) && (0 <? w_bitcpy st) then
    CHECK (_, r) <-
      for_up (Z.to_nat (w_bitcpy st)) 0
        (fun _ (acc : res (Z * vlong)) =>
           CHECK (bitbuf, r) <- acc onfail (bitbuf, r) ;
           CHECK r <- sqr_redux r onfail (bitbuf, r) ;
           let bitbuf := Z.shiftl bitbuf 1 in
           if negb (Z.land bitbuf (Z.shiftl 1 winsize) =? 0) then
             CHECK r <- mul_redux (tget M 1) r onfail (bitbuf, r) ;
             ok (bitbuf, r)
           else ok (bitbuf, r))
        (ok (w_bitbuf st, w_res st))
      onfail r ;
    ok r
  else ok (w_res st).

(** Scan the exponent starting from [res0]. *)
Definition window_run (res0 : vlong) : res vlong :=
  CHECK st <-
    window_loop (Z.to_nat (BiD * nu e + 1))
      (mk_win_state 0 1 0 (nu e - 1) 0 0 res0)
    onfail res0 ;
  window_drain st.

End SlidingWindow.

(** [prvPowModBarrett(a, e, n, redmode)]: the receiver is written last, by
    [swap(res)], so the inputs are read as they are at the call. *)
Definition prvPowModBarrett (fuel : nat) (this : vlong) (a e n : vlong)
    (redmode : Z) : res vlong :=
  let winsize := window_size (GetNumBits e) in
  CHECK (mu, redux) <-
    (if redmode =? 0 then
       CHECK mu <- prvReduceBarrettSetup fuel n Init onfail (mu, prvReduceBarrett) ;
       ok (mu, prvReduceBarrett)
     else if redmode =? 1 then
       CHECK mu <- prvReduceDRSetup n Init onfail (mu, prvReduceDR) ;
       ok (mu, prvReduceDR)
     else fail VLONG_ERR_BAD_ARG_4 (Init, prvReduceDR))
    onfail this ;
  let redux := fun x => redux fuel x n mu in
  CHECK M1 <- Mod fuel Init (Ref a) (Ref n) onfail this ;
  CHECK M <- build_table fuel redux winsize M1 onfail this ;
  CHECK r <- SetValue_dig Init 1 onfail this ;
  CHECK r <- window_run fuel redux e winsize M r onfail this ;
  ok r.

(** [prvPowModMontgomery(a, e, n)] *)
Definition prvPowModMontgomery (fuel : nat) (this : vlong) (a e n : vlong)
  : res vlong :=
  let winsize := window_size (GetNumBits e) in
  let '(ret, mp) := prvReduceMontgomerySetup n in
  if negb (ret =? 0) then Some (ret, this)
  else
    let redux := fun x => prvReduceMontgomery fuel x n mp in
    (* now we need R mod m *)
    CHECK r <- prvMontgomeryNorm Init n onfail this ;
    (* now set M[1] to G * R mod m *)
    CHECK M1 <- MulMod fuel Init (Ref a) (Ref r) n onfail this ;
    CHECK M <- build_table fuel redux winsize M1 onfail this ;
    CHECK r <- window_run fuel redux e winsize M r onfail this ;
    (* fixup result if Montgomery reduction is used *)
    CHECK r <- redux r onfail this ;
    ok r.

(** [PowMod(a, e, n)]: X <- a^e (mod n).  The fuel also bounds the
    recursion on a negative exponent. *)
Fixpoint PowMod (fuel : nat) (this : vlong) (a e n : ref) : res vlong :=
  match fuel with
  | O => None
  | S fuel' =>
      let av := deref this a in
      let ev := deref this e in
      let nv := deref this n in
      (* modulus P must be positive *)
      if s nv =? MP_NEG then fail VLONG_ERR_NEGATIVE_ARG this
      else if s ev =? MP_NEG then
        (* if exponent X is negative we have to recurse *)
        (* first compute 1/G mod P *)
        CHECK tmpG <- InvMod fuel' Init (Ref av) (Ref nv) onfail this ;
        (* now get |X| *)
        CHECK tmpX <- SetValue Init (Ref ev) onfail this ;
        (* and now compute (1/G)**|X| instead of G**X [X < 0] *)
        CHECK this <- PowMod fuel' this a e n onfail this ;
        ok this
      else if prvIsDrModulus nv then prvPowModBarrett fuel' this av ev nv 1
      else if Z.land (di av 0) 1 =? 1
      then prvPowModMontgomery fuel' this av ev nv
      else prvPowModBarrett fuel' this av ev nv 0
  end.

(** ** Conversion *)

(** Characters are [char] codes.  [strlen]: the characters before the first
    NUL (a list without one is taken to be followed by it). *)
Fixpoint strlen_nat (l : list Z) : nat :=
  match l with
  | [] => O
  | c :: t => if c =? 0 then O else S (strlen_nat t)
  end.

Definition strlen (l : list Z) : Z := Z.of_nat (strlen_nat l).

(** [strchr(alphabet, c) - alphabet]; the terminator itself is found when
    [c] is NUL. *)
Fixpoint strchr (l : list Z) (c : Z) : option Z :=
  match l with
  | [] => if c =? 0 then Some 0 else None
  | h :: t =>
      if h =? c then Some 0
      else if h =? 0 then None
      else option_map (fun k => k + 1) (strchr t c)
  end.

(** The [char] codes of a string literal. *)
Fixpoint chars (str : string) : list Z :=
  match str with
  | EmptyString => []
  | String c t => Z.of_nat (nat_of_ascii c) :: chars t
  end.

(** The alphabet argument of [FromStringBuf]. *)
Inductive alphabet : Type :=
  | AlphaNull                     (* szCustomChars == NULL *)
  | AlphaDigChars                 (* MP_DIG_CHARS itself, as FromString passes it *)
  | AlphaCustom (chars : list Z).

Definition MP_DIG_CHARS : list Z :=
  [48; 49; 50; 51; 52; 53; 54; 55; 56; 57; 65; 66; 67; 68; 69; 70].

(** The value of a character in the canonical alphabet, or -1. *)
Definition hex_value (c : Z) : Z :=
  let dig := -1 in
  let dig := if (48 <=? c) && (c <=? 57) then c - 48 else dig in
  let dig := if (65 <=? c) && (c <=? 70) then c - 55 else dig in
  let dig := if (97 <=? c) && (c <=? 102) then c - 87 else dig in
  dig.

(** The radix 16 loop: [for (i = len - 1, j = 0; i >= 0; i--, j++)]. *)
Fixpoint FromStringBuf_hex (k : nat) (i j : Z) (pBuf : list Z)
    (is_dig_chars : bool) (pAlphabet : list Z) (this : vlong) : res vlong :=
  match k with
  | O => ok this
  | S k' =>
      let cd := j / (2 * CiD) in
      let cp := j mod (2 * CiD) in
      let c := dget pBuf i in
      if c =? 45 then ok (set_s this MP_NEG)
      else
        let odig :=
          if is_dig_chars
          then (if hex_value c <? 0 then None else Some (hex_value c))
          else strchr pAlphabet c in
        match odig with
        | None => fail VLONG_ERR_INVALID_CHAR this
        | Some dig =>
            let this := set_di this cd
                          (Z.lor (di this cd) (udig_t (Z.shiftl dig (cp * 4)))) in
            let this := if negb (dig =? 0) then set_nu this (cd + 1) else this in
            FromStringBuf_hex k' (i - 1) (j + 1) pBuf is_dig_chars pAlphabet this
        end
  end.

(** The generic loop: [for (i = 0; i < (int)len; i++)]. *)
Fixpoint FromStringBuf_gen (k : nat) (i : Z) (pBuf : list Z) (rd : Z)
    (is_dig_chars : bool) (pAlphabet : list Z) (this : vlong) : res vlong :=
  match k with
  | O => ok this
  | S k' =>
      let c := dget pBuf i in
      if (i =? 0) && (c =? 45)
      then FromStringBuf_gen k' (i + 1) pBuf rd is_dig_chars pAlphabet
             (set_s this MP_NEG)
      else
        let odig :=
          if is_dig_chars && (rd <=? 16)
          then (if (hex_value c <? 0) || (rd <=? hex_value c)
                then None else Some (hex_value c))
          else strchr pAlphabet c in
        match odig with
        | None => fail VLONG_ERR_INVALID_CHAR this
        | Some dig =>
            CALL this <- Mul_dig this This (sdig_t rd) ;
            CALL this <- (if s this =? MP_ZPOS
                          then Add_dig this This (sdig_t dig)
                          else Sub_dig this This (sdig_t dig)) ;
            FromStringBuf_gen k' (i + 1) pBuf rd is_dig_chars pAlphabet this
        end
  end.

(** [FromStringBuf(pBuf, nBufLen, nRadix, szCustomChars)]; [pBuf] is [None]
    for NULL. *)
Definition FromStringBuf (this : vlong) (pBuf : option (list Z))
    (nBufLen : Z) (nRadix : Z) (szCustomChars : alphabet) : res vlong :=
  let rd := size_t nRadix in
  match pBuf with
  | None => fail VLONG_ERR_BAD_ARG_1 this
  | Some pBuf =>
      let '(pAlphabet, is_dig_chars, rd) :=
        match szCustomChars with
        | AlphaNull => (MP_DIG_CHARS, true, rd)
        | AlphaDigChars =>
            (MP_DIG_CHARS, true, if rd =? 0 then strlen MP_DIG_CHARS else rd)
        | AlphaCustom chars =>
            (chars, false, if rd =? 0 then strlen chars else rd)
        end in
      let rd_max := match szCustomChars with AlphaNull => 16 | _ => 256 end in
      if (rd <? 2) || (rd_max <? rd) then fail VLONG_ERR_BAD_ARG_3 this
      else
        let len := if nBufLen =? 0 then strlen pBuf else nBufLen in
        let b := 8 in
        let b := if rd <? 256 then b - 1 else b in
        let b := if rd <? 128 then b - 1 else b in
        let b := if rd <? 64 then b - 1 else b in
        let b := if rd <? 32 then b - 1 else b in
        let b := if rd <? 16 then b - 1 else b in
        let b := if rd <? 8 then b - 1 else b in
        let b := if rd <? 4 then b - 1 else b in
        let nNeeds := BITS_TO_DIGITS (b * len) in
        let this := set_nu this 0 in
        let this := set_s this MP_ZPOS in
        CHECK this <- Grow this (nNeeds + 1) onfail this ;
        if rd =? 16 then
          CHECK this <- FromStringBuf_hex (Z.to_nat len) (len - 1) 0 pBuf
                          is_dig_chars pAlphabet this
            onfail this ;
          ok (if nu this =? 0 then SetZero this else this)
        else
          CHECK this <- FromStringBuf_gen (Z.to_nat len) 0 pBuf rd
                          is_dig_chars pAlphabet this
            onfail this ;
          ok this
  end.

(** [FromString(szNumber, radix)] *)
Definition FromString (this : vlong) (szNumber : option (list Z)) (radix : Z)
  : res vlong :=
  if (radix <? 2) || (16 <? radix) then fail VLONG_ERR_BAD_ARG_2 this
  else FromStringBuf this szNumber 0 radix AlphaDigChars.

(** *** BASE64 *)

(** "ABCDEFGHIJKLMNOPQRSTUVWXYZabcdefghijklmnopqrstuvwxyz0123456789+/" *)
Definition base64_enc (k : Z) : Z :=
  if k <? 26 then 65 + k
  else if k <? 52 then 97 + (k - 26)
  else if k <? 62 then 48 + (k - 52)
  else if k =? 62 then 43
  else 47.

Definition POS (c : Z) : Z :=
  if (65 <=? c) && (c <=? 90) then c - 65
  else if (97 <=? c) && (c <=? 122) then c - 97 + 26
  else if (48 <=? c) && (c <=? 57) then c - 48 + 52
  else if c =? 43 then 62
  else if c =? 47 then 63
  else if c =? 61 then -1
  else -2.

(** The decoding loop over groups of four characters; [q] is the offset
    into the scratch buffer [tmp].  It yields the buffer, the offset and the
    last [n[2]], [n[3]]. *)
Fixpoint FromBase64_loop (p : list Z) (tmp : list Z) (q : Z) (n2 n3 : Z)
  : Z * (list Z * Z * Z * Z) :=
  match p with
  | c0 :: c1 :: c2 :: c3 :: rest =>
      if c0 =? 0 then (VLONG_SUCCESS, (tmp, q, n2, n3))
      else
        let n0 := POS c0 in
        let n1 := POS c1 in
        let n2 := POS c2 in
        let n3 := POS c3 in
        if (n0 =? -1) || (n1 =? -1) then (VLONG_ERR_INVALID_CHAR, (tmp, q, n2, n3))
        else if (n2 =? -1) && negb (n3 =? -1)
        then (VLONG_ERR_INVALID_CHAR, (tmp, q, n2, n3))
        else
          let tmp := dset tmp q (uchar_t (Z.shiftl n0 2 + Z.shiftr n1 4)) in
          let tmp := if negb (n2 =? -1)
                     then dset tmp (q + 1)
                            (uchar_t (Z.shiftl (Z.land n1 15) 4 + Z.shiftr n2 2))
                     else tmp in
          let tmp := if negb (n3 =? -1)
                     then dset tmp (q + 2)
                            (uchar_t (Z.shiftl (Z.land n2 3) 6 + n3))
                     else tmp in
          FromBase64_loop rest tmp (q + 3) n2 n3
  | _ => (VLONG_SUCCESS, (tmp, q, n2, n3))
  end.

(** [FromBase64(szNumber)]; [scratch] is what the scratch buffer [tmp] holds
    before the decoding writes into it (it is at least as long as needed). *)
Definition FromBase64 (this : vlong) (scratch : list Z)
    (szNumber : option (list Z)) : res vlong :=
  match szNumber with
  | None => fail VLONG_ERR_BAD_ARG_1 this
  | Some sz =>
      let len := strlen sz in
      if len =? 0 then ok (SetZero this)
      else if negb (len mod 4 =? 0) then fail VLONG_ERR_BAD_ARG_1 this
      else
        let nNeedBytes := len / 4 * 3 in
        let tmp := new_buffer scratch (zlen scratch) (nNeedBytes + 1) in
        let '(ret, (tmp, q, n2, n3)) :=
          FromBase64_loop (firstn (Z.to_nat len) sz) tmp 0 0 0 in
        if negb (ret =? 0) then Some (ret, this)
        else
          let dlen := q - (if n2 =? -1 then 1 else 0)
                        - (if n3 =? -1 then 1 else 0) in
          CHECK this <- FromBinary this (tl tmp) (size_t (dlen - 1))
            onfail this ;
          let this := if dget tmp 0 =? 0
                      then set_s this MP_ZPOS else set_s this MP_NEG in
          ok (Clamp this)
  end.

(** The encoding loop; [i] is the index into the binary image [pBinB]. *)
Fixpoint ToBase64Buf_loop (k : nat) (pBinB : list Z) (nNeedsBin : Z) (i : Z)
  : list Z :=
  match k with
  | O => []
  | S k' =>
      if i <? nNeedsBin then
        let c := dget pBinB i in
        let i := i + 1 in
        let c := c * 256 in
        let c := if i <? nNeedsBin then c + dget pBinB i else c in
        let i := i + 1 in
        let c := c * 256 in
        let c := if i <? nNeedsBin then c + dget pBinB i else c in
        let i := i + 1 in
        base64_enc (Z.shiftr (Z.land c 16515072) 18)
          :: base64_enc (Z.shiftr (Z.land c 258048) 12)
          :: (if nNeedsBin + 1 <? i then 61
              else base64_enc (Z.shiftr (Z.land c 4032) 6))
          :: (if nNeedsBin <? i then 61 else base64_enc (Z.land c 63))
          :: ToBase64Buf_loop k' pBinB nNeedsBin i
      else []
  end.

(** [ToBase64Buf(pBuf, nBufLen)]: the status and the characters written
    before the terminating NUL. *)
Definition ToBase64Buf (this : vlong) : Z * list Z :=
  let nNeedsBin := (GetNumBits this + 7) / 8 + 1 in
  let sign_byte := if s this =? MP_ZPOS then 0 else 1 in
  let '(ret, bin) :=
    ToBinary this (repeat 0 (Z.to_nat (nNeedsBin - 1))) (nNeedsBin - 1) in
  if negb (ret =? VLONG_SUCCESS) then (ret, [])
  else
    (ret, ToBase64Buf_loop (Z.to_nat nNeedsBin) (sign_byte :: bin) nNeedsBin 0).

(** ** Generators *)

(** The default generator: [rand() % 256] for each byte; [rand] is the
    stream of values the C library returns. *)
Definition _local_prng (rand : nat -> Z) (nSize : Z) : Z * list Z :=
  (0, map (fun i => uchar_t (rand i mod 256)) (seq 0 (Z.to_nat nSize))).

(** [GenRandomBytes(bytes, pRNG_f, pRNG_ctx)]: [pRNG_f] is [None] for NULL;
    a generator maps the requested size to its status and the bytes it
    wrote. *)
Definition GenRandomBytes (this : vlong) (bytes : Z)
    (pRNG_f : option (Z -> Z * list Z)) (rand : nat -> Z) : res vlong :=
  if bytes <? 1 then fail VLONG_ERR_BAD_ARG_1 this
  else
    let pRNG_f2 := match pRNG_f with
                   | Some f => f
                   | None => _local_prng rand
                   end in
    CHECK this <- Grow this (CHARS_TO_DIGITS bytes + 1) onfail this ;
    let '(ret, out) := pRNG_f2 bytes in
    let buf := memcpy (repeat 0 (Z.to_nat (bytes + 1))) out bytes in
    if negb (ret =? 0) then Some (ret, this)
    else
      match FromBinary this buf bytes with
      | None => None
      | Some (ret, this) => Some (ret, set_nu this (CHARS_TO_DIGITS bytes))
      end.

Definition GenRandomBits (this : vlong) (bits : Z)
    (pRNG_f : option (Z -> Z * list Z)) (rand : nat -> Z) : res vlong :=
  let bt := (bits + 7) / 8 in
  let d2 := bits mod BiD in
  CHECK this <- (if 0 <? bt then GenRandomBytes this bt pRNG_f rand else ok this)
    onfail this ;
  let this :=
    if (0 <? d2) && (0 <? nu this) then
      let this := set_di this (nu this - 1)
                    (Z.land (di this (nu this - 1))
                            (Z.shiftr MP_MASK_DIG (BiD - d2))) in
      set_di this (nu this - 1)
        (Z.lor (di this (nu this - 1)) (udig_t (Z.shiftl 1 (d2 - 1))))
    else this in
  ok (if (d2 =? 0) && (0 <? nu this)
      then set_di this (nu this - 1)
             (Z.lor (di this (nu this - 1)) (udig_t (Z.shiftl 1 (BiD - 1))))
      else this).

(** ** Reading results *)

(** The status of a call together with the integer it leaves in the
    receiver. *)
Definition value_of (x : res vlong) : option (Z * Z) :=
  option_map (fun '(ret, v) => (ret, to_Z v)) x.

(** The status together with the integers a division leaves in the quotient
    and in the remainder. *)
Definition Div_dig_values (x : res (vlong * option Z))
  : option (Z * Z * option Z) :=
  option_map (fun '(ret, (q, r)) => (ret, to_Z q, r)) x.

Definition Div_values (x : res (vlong * option vlong))
  : option (Z * Z * option Z) :=
  option_map (fun '(ret, (q, r)) => (ret, to_Z q, option_map to_Z r)) x.

(** ** Representation invariants *)

(** The used digits lie inside the allocated buffer. *)
Definition in_buffer (v : vlong) : Prop := 0 <= nu v <= na v.

(** The clamp invariant: no leading zero digit, and zero is positive. *)
Definition clamped (v : vlong) : Prop :=
  (nu v = 0 \/ di v (nu v - 1) <> 0) /\ (nu v = 0 -> s v = MP_ZPOS).

(** * Well-formed objects *)

(** Every digit of the buffer is a 32-bit value. *)
Definition digits_ok (l : list Z) : Prop := Forall (fun x => 0 <= x < 2 ^ 32) l.

(** The magnitude an object denotes. *)
Definition magnitude (v : vlong) : Z := mag (d v) (Z.to_nat (nu v)).

(** A well-formed object: used digits inside the buffer, 32-bit digits, and
    a sign that is one of the two sign constants. *)
Definition well_formed (v : vlong) : Prop :=
  in_buffer v /\ digits_ok (d v) /\ (s v = MP_ZPOS \/ s v = MP_NEG).

(** The first [n] digits of the buffer are 32-bit values. *)
Definition prefix_ok (l : list Z) (n : Z) : Prop :=
  forall i, 0 <= i < n -> 0 <= dget l i < 2 ^ 32.

(** No leading zero digit. *)
Definition top_nonzero (v : vlong) : Prop :=
  nu v = 0 \/ di v (nu v - 1) <> 0.

(** [PowMod(a, udig_t e, n)]: the exponent object is a local [vlong] whose
    buffer is pointed at the digit ([na = 1], [d = &e]); its [nu] is the 0
    of [Init]. *)
Definition PowMod_udig (fuel : nat) (this : vlong) (a : ref) (e : Z) (n : ref)
  : res vlong :=
  PowMod fuel this a (Ref (mk_vlong MP_ZPOS [e] 0)) n.

(** [Abs(v)]: the sign is assigned whatever [Copy] returns. *)
Definition Abs (this : vlong) (v : ref) : res vlong :=
  match Copy this v with
  | None => None
  | Some (ret, this) => Some (ret, set_s this (if nu this =? 0 then 0 else 1))
  end.

(** * Properties *)

(** ** Digit buffers *)

Lemma upd_length (l : list Z) (n : nat) (x : Z) :
  length (upd l n x) = length l.
Proof.
  revert n; induction l as [|h t IH]; intros [|n]; simpl; auto.
Qed.

Lemma nth_upd_same (l : list Z) (n : nat) (x : Z) :
  (n < length l)%nat -> nth n (upd l n x) 0 = x.
Proof.
  revert n; induction l as [|h t IH]; intros [|n] H; simpl in *;
    try lia; auto.
  apply IH; lia.
Qed.

Lemma dget_dset_same (l : list Z) (i x : Z) :
  0 <= i < zlen l -> dget (dset l i x) i = x.
Proof.
  unfold dget, dset, zlen; intros H.
  destruct (i <? 0) eqn:E; [apply Z.ltb_lt in E; lia|].
  apply nth_upd_same; lia.
Qed.

Lemma dset_length (l : list Z) (i x : Z) : zlen (dset l i x) = zlen l.
Proof.
  unfold dset, zlen; destruct (i <? 0); auto.
  now rewrite upd_length.
Qed.

Lemma fill0_length (l : list Z) (from cnt : nat) :
  length (fill0 l from cnt) = length l.
Proof.
  revert from cnt; induction l as [|h t IH]; intros [|f] [|c]; simpl; auto.
Qed.

Lemma fill0_all (l : list Z) : fill0 l 0 (length l) = repeat 0 (length l).
Proof.
  induction l as [|h t IH]; simpl; auto.
  now rewrite IH.
Qed.

Lemma copy_digits_length (dst src : list Z) (n : nat) :
  length (copy_digits dst src n) = length dst.
Proof.
  revert dst src; induction n as [|n IH]; intros [|h t] src; simpl; auto.
Qed.

Lemma memset0_length (l : list Z) (from cnt : Z) :
  zlen (memset0 l from cnt) = zlen l.
Proof. unfold memset0, zlen; now rewrite fill0_length. Qed.

Lemma new_buffer_length (l : list Z) (used n : Z) :
  0 <= n -> zlen (new_buffer l used n) = n.
Proof.
  intros H; unfold new_buffer, memcpy, zlen.
  rewrite copy_digits_length, repeat_length; lia.
Qed.

(** ** Grow *)

Lemma Grow_ok (this : vlong) (n : Z) :
  n <= VLONG_MAX_DIGITS \/ n <= na this ->
  exists this', Grow this n = Some (VLONG_SUCCESS, this')
                /\ n <= na this' /\ nu this' = nu this /\ s this' = s this
                /\ na this <= na this'.
Proof.
  intros H; unfold Grow, ok, fail.
  destruct (n <=? na this) eqn:E1.
  - apply Z.leb_le in E1.
    eexists; split; [reflexivity|].
    destruct (nu this <? na this); unfold na, set_d; simpl;
      rewrite ?memset0_length; repeat split; auto; fold (na this); lia.
  - apply Z.leb_gt in E1.
    destruct (VLONG_MAX_DIGITS <? n) eqn:E2.
    + apply Z.ltb_lt in E2; lia.
    + eexists; split; [reflexivity|].
      assert (Hn : 0 <= n) by (unfold na, zlen in E1; lia).
      unfold na, set_d; simpl; rewrite new_buffer_length by exact Hn.
      fold (na this); repeat split; auto; lia.
Qed.

(** ** Clamp *)

Lemma Clamp_loop_top (k : nat) (dd : list Z) :
  let n := Clamp_loop k dd (Z.of_nat k) in
  0 <= n <= Z.of_nat k /\ (n = 0 \/ dget dd (n - 1) <> 0).
Proof.
  induction k as [|k IH]; [simpl; lia|].
  cbn [Clamp_loop].
  destruct (dget dd (Z.of_nat (S k) - 1) =? 0) eqn:E.
  - replace (Z.of_nat (S k) - 1) with (Z.of_nat k) by lia.
    cbv zeta in IH; split; [lia | tauto].
  - apply Z.eqb_neq in E; split; [lia | right; exact E].
Qed.

(** What [Clamp] establishes: no leading zero digit, and a positive zero. *)
Lemma Clamp_clamped (this : vlong) : 0 <= nu this -> clamped (Clamp this).
Proof.
  intros Hnu; unfold Clamp, clamped.
  destruct (0 <? nu this) eqn:E.
  - pose proof (Clamp_loop_top (Z.to_nat (nu this)) (d this)) as H.
    cbv zeta in H; rewrite Z2Nat.id in H by exact Hnu.
    destruct H as [_ H]; cbn [nu set_nu].
    destruct (Clamp_loop (Z.to_nat (nu this)) (d this) (nu this) =? 0) eqn:E0.
    + apply Z.eqb_eq in E0; unfold di; simpl; rewrite E0; auto.
    + apply Z.eqb_neq in E0; unfold di; simpl; split; [tauto | lia].
  - apply Z.ltb_ge in E; assert (E0 : nu this = 0) by lia.
    rewrite E0; simpl; auto.
Qed.

(** ** The vectors of the self-test, replayed on the embedding *)

Example selftest_Conversion :
  value_of (FromString Init (Some (chars "AaaBbBCccDddd012345fff")) 16)
  = Some (VLONG_SUCCESS, 0xAAABBBCCCDDDD012345FFF).
Proof. vm_compute; reflexivity. Qed.

Example selftest_bit77 :
  exists x, SetBit Init 77 1 = Some (VLONG_SUCCESS, x)
            /\ GetBit x 77 = 1 /\ GetBit x 76 = 0 /\ GetBit x 78 = 0.
Proof. eexists; repeat split. Qed.

Example selftest_SubLong_AddShort_SubShort :
  value_of (Sub (of_Z (2 ^ 64 + 1)) This (Ref (of_Z 3)))
  = Some (VLONG_SUCCESS, 0xFFFFFFFFFFFFFFFE)
  /\ value_of (Add_dig (of_Z 0xFFFFFFFFFFFFFFFE) This 3)
     = Some (VLONG_SUCCESS, 0x10000000000000001)
  /\ value_of (Sub_dig (of_Z 0x10000000000000001) This 3)
     = Some (VLONG_SUCCESS, 0xFFFFFFFFFFFFFFFE).
Proof. repeat split. Qed.

Example selftest_shifts :
  value_of (ShiftLeft Init (Ref (of_Z 1)) 31) = Some (VLONG_SUCCESS, 0x80000000)
  /\ value_of (ShiftRight Init (Ref (of_Z 0x80000000)) 30)
     = Some (VLONG_SUCCESS, 2).
Proof. repeat split. Qed.

Example selftest_Div_Sm :
  Div_dig_values (Div_dig (of_Z (100 * 2 ^ 100)) This 7 None)
  = Some (VLONG_SUCCESS, 0xE4924924924924924924924924, None)
  /\ Div_dig_values (Div_dig (of_Z 0xE4924924924924924924924924) This
                       1073741824 None)
     = Some (VLONG_SUCCESS, 0x3924924924924924924, None).
Proof. split; vm_compute; reflexivity. Qed.

Example selftest_Con10 :
  value_of (FromString Init (Some (chars "1099511627776")) 10)
  = Some (VLONG_SUCCESS, 0x10000000000).
Proof. vm_compute; reflexivity. Qed.

Example selftest_ToB64_FrB64 :
  ToBase64Buf (of_Z (- 0x1AABBCCF)) = (VLONG_SUCCESS, chars "ARqrvM8=")
  /\ value_of (FromBase64 (of_Z 3) [] (Some (chars "ARqrvM8=")))
     = Some (VLONG_SUCCESS, - 0x1AABBCCF).
Proof. split; vm_compute; reflexivity. Qed.

Example selftest_MulMsu :
  value_of (Mul 5 Init (Ref (of_Z 1234567900002)) (Ref (of_Z 4500001)) 0)
  = Some (VLONG_SUCCESS, 5555556784576900002).
Proof. vm_compute; reflexivity. Qed.

Example selftest_Base64 :
  value_of
    (FromBase64 (of_Z 4500001) []
       (Some (chars "AAs5z/9IWl2/TWquAwuRv7Dsa7o4nNjX+Fu6OYXBnF4k5AxUOhI8bgKKhz6eOHThtGI6RL45s05n3FwmcQ==")))
  = Some (VLONG_SUCCESS, 3 ^ 300).
Proof. vm_compute; reflexivity. Qed.

Example selftest_GCD_Ext_Bin :
  option_map (fun '(ret, (g, y1, y2)) =>
                (ret, to_Z g, option_map to_Z y1, option_map to_Z y2))
    (GCDExtBin 50 Init (Ref (of_Z 1239)) (Ref (of_Z 735))
       (Some Init) (Some Init))
  = Some (VLONG_SUCCESS, 21, Some 89, Some (-150)).
Proof. vm_compute; reflexivity. Qed.

Example selftest_Div_Long :
  Div_values
    (Div 50 Init
       (Ref (of_Z 12381723981720398712098376423748296873610000009999999988888888889999999999))
       (Ref (of_Z 234678087908071823794444444412222222222)) (Some Init))
  = Some (VLONG_SUCCESS, 52760460476269823791333933038493411,
          Some 23132396398098579386527306340675220757).
Proof. vm_compute; reflexivity. Qed.

(** The last vector, [2^8000 * 3^7000 mod 10^12], at a tenth of its size. *)
Example sample_BigMulLo :
  value_of (Mod 50 Init (Ref (of_Z (2 ^ 800 * 3 ^ 700)))
              (Ref (of_Z 1000000000000)))
  = Some (VLONG_SUCCESS, 327383781376).
Proof. vm_compute; reflexivity. Qed.

(** Both engines of [PowMod] on a 89-bit modulus: Montgomery for the odd
    base, Barrett for the even one. *)
Example PowMod_sample :
  value_of (PowMod 50 Init (Ref (of_Z 123456789)) (Ref (of_Z 65537))
              (Ref (of_Z (2 ^ 89 + 29))))
  = Some (VLONG_SUCCESS, 462530119094995115954289506)
  /\ value_of (PowMod 50 Init (Ref (of_Z 123456788)) (Ref (of_Z 65537))
                 (Ref (of_Z (2 ^ 89 + 29))))
     = Some (VLONG_SUCCESS, 281898114486821697764874726).
Proof. split; vm_compute; reflexivity. Qed.

(** ** Comparison against a machine digit *)

(** C10: for every strictly positive (nonzero, positive-sign) object [a] and
    every machine digit [v <= 0], [a.Compare(v)] returns -1, i.e. it reports
    [a < v]; the operators against such a scalar inherit this result: [a > v],
    [a >= v] and [a == v] are false, [a != v], [a < v] and [a <= v] are
    true. *)
Theorem C10_Compare_dig_positive_vs_nonpositive (a : vlong) (v : Z) :
  isZero a = false -> s a = MP_ZPOS -> v <= 0 ->
  Compare_dig a v = -1
  /\ op_gt_dig a v = false /\ op_ge_dig a v = false
  /\ op_eq_dig a v = false /\ op_ne_dig a v = true
  /\ op_lt_dig a v = true /\ op_le_dig a v = true.
Proof.
  intros Hz Hs Hv.
  assert (H : Compare_dig a v = -1).
  { unfold Compare_dig; rewrite Hz, Hs.
    replace (MP_ZPOS =? MP_NEG) with false by reflexivity.
    replace (MP_ZPOS =? MP_ZPOS) with true by reflexivity.
    assert (E : (v <=? 0) = true) by (apply Z.leb_le; exact Hv).
    rewrite E; reflexivity. }
  unfold op_gt_dig, op_ge_dig, op_eq_dig, op_ne_dig, op_lt_dig, op_le_dig.
  rewrite H; repeat split.
Qed.

Lemma C10_witness :
  isZero (of_Z 7) = false /\ s (of_Z 7) = MP_ZPOS /\ 0 <= 0
  /\ Compare_dig (of_Z 7) 0 = -1
  /\ op_gt_dig (of_Z 7) 0 = false /\ op_ge_dig (of_Z 7) 0 = false
  /\ op_eq_dig (of_Z 7) 0 = false /\ op_ne_dig (of_Z 7) 0 = true
  /\ op_lt_dig (of_Z 7) 0 = true /\ op_le_dig (of_Z 7) 0 = true.
Proof.
  split; [reflexivity|]. split; [reflexivity|]. split; [lia|].
  apply (C10_Compare_dig_positive_vs_nonpositive (of_Z 7) 0);
    [reflexivity | reflexivity | lia].
Defined.

(** ** Bits *)

Lemma udig_pow2 (pos : Z) : 0 <= pos < 32 -> udig_t (Z.shiftl 1 pos) = 2 ^ pos.
Proof.
  intros H; unfold udig_t.
  rewrite Z.shiftl_1_l.
  apply Z.mod_small; split; [apply Z.pow_nonneg; lia|].
  apply Z.pow_lt_mono_r; lia.
Qed.

Lemma bit_readback (x val pos : Z) :
  0 <= pos -> val = 2 ^ pos ->
  Z.shiftr (Z.land (Z.lor x val) val) pos = 1.
Proof.
  intros Hp Hv.
  assert (E : Z.land (Z.lor x val) val = val).
  { apply Z.bits_inj'; intros k Hk.
    rewrite Z.land_spec, Z.lor_spec.
    destruct (Z.testbit x k), (Z.testbit val k); reflexivity. }
  rewrite E, Hv, Z.shiftr_div_pow2 by exact Hp.
  apply Z.div_same.
  apply Z.pow_nonzero; lia.
Qed.

Lemma GetBit_out_of_range (this : vlong) (num : Z) :
  nu this <= num / BiD -> GetBit this num = VLONG_ERR_OUT_OF_RANGE.
Proof.
  intros H; unfold GetBit.
  assert (E : (nu this <=? num / BiD) = true) by (apply Z.leb_le; exact H).
  now rewrite E.
Qed.

Lemma GetBit_after_put (this : vlong) (num x : Z) :
  0 <= num -> num / BiD < nu this -> num / BiD < na this ->
  GetBit (set_di this (num / BiD)
            (Z.lor x (udig_t (Z.shiftl 1 (num mod BiD))))) num = 1.
Proof.
  intros Hn Hnu Hna; unfold GetBit.
  assert (Hpos : 0 <= num mod BiD < 32) by (apply Z.mod_pos_bound; reflexivity).
  assert (Hdig : 0 <= num / BiD) by (apply Z.div_pos; [exact Hn | reflexivity]).
  replace (nu (set_di this (num / BiD)
                 (Z.lor x (udig_t (Z.shiftl 1 (num mod BiD))))))
    with (nu this) by reflexivity.
  assert (E : (nu this <=? num / BiD) = false) by (apply Z.leb_gt; exact Hnu).
  rewrite E.
  unfold di, set_di, set_d; simpl.
  rewrite dget_dset_same by (unfold na in Hna; lia).
  apply bit_readback; [lia | apply udig_pow2; exact Hpos].
Qed.

(** C9 (as the code has it): for every object and every bit index, reading
    a bit at or beyond the stored digits ([num / BiD >= nu]) returns the
    status code VLONG_ERR_OUT_OF_RANGE (25) as the [char] result; and
    [SetBit(num, 1)], for an index below the digit ceiling, succeeds, grows
    the number so that the digit of the bit is used, and the bit then reads
    back as 1. *)
Theorem C9_GetBit_out_of_range_SetBit_grows (this : vlong) (num : Z) :
  (nu this <= num / BiD -> GetBit this num = 25)
  /\ (in_buffer this -> 0 <= num -> num / BiD < VLONG_MAX_DIGITS ->
      exists this',
        SetBit this num 1 = Some (VLONG_SUCCESS, this')
        /\ num / BiD < nu this' /\ nu this <= nu this'
        /\ GetBit this' num = 1).
Proof.
  split.
  - apply GetBit_out_of_range.
  - intros [Hnu0 Hnu] Hn Hmax.
    assert (Hdig : 0 <= num / BiD) by (apply Z.div_pos; [exact Hn | reflexivity]).
    assert (Hpos : 0 <= num mod BiD < 32) by (apply Z.mod_pos_bound; reflexivity).
    unfold SetBit.
    replace (Z.land 1 1) with 1 by reflexivity.
    replace (0 <? 1) with true by reflexivity.
    destruct (nu this <=? num / BiD) eqn:E.
    + apply Z.leb_le in E.
      destruct (Grow_ok this (num / BiD + 1)) as (g & Hg & Hna & Hgnu & _ & _);
        [left; lia|].
      rewrite Hg; simpl.
      eexists; split; [reflexivity|].
      split; [simpl; lia|]. split; [simpl; lia|].
      apply (GetBit_after_put (set_nu g (num / BiD + 1)) num); simpl;
        [exact Hn | lia | unfold na in *; simpl; lia].
    + apply Z.leb_gt in E.
      eexists; split; [reflexivity|].
      split; [simpl; lia|]. split; [simpl; lia|].
      apply GetBit_after_put; [exact Hn | exact E | lia].
Qed.

Lemma C9_witness :
  nu Init <= 77 / BiD /\ GetBit Init 77 = 25
  /\ nu Init <= 40000 / BiD /\ GetBit Init 40000 = 25
  /\ in_buffer Init /\ 0 <= 77 /\ 77 / BiD < VLONG_MAX_DIGITS
  /\ exists this',
       SetBit Init 77 1 = Some (VLONG_SUCCESS, this')
       /\ 77 / BiD < nu this' /\ nu Init <= nu this'
       /\ GetBit this' 77 = 1.
Proof.
  assert (H1 : nu Init <= 77 / BiD) by (vm_compute; discriminate).
  assert (H2 : nu Init <= 40000 / BiD) by (vm_compute; discriminate).
  assert (H3 : in_buffer Init) by (unfold in_buffer, na, zlen; simpl; lia).
  assert (H4 : 0 <= 77) by lia.
  assert (H5 : 77 / BiD < VLONG_MAX_DIGITS) by reflexivity.
  split; [exact H1|].
  split; [exact (proj1 (C9_GetBit_out_of_range_SetBit_grows Init 77) H1)|].
  split; [exact H2|].
  split; [exact (proj1 (C9_GetBit_out_of_range_SetBit_grows Init 40000) H2)|].
  split; [exact H3|]. split; [exact H4|]. split; [exact H5|].
  exact (proj2 (C9_GetBit_out_of_range_SetBit_grows Init 77) H3 H4 H5).
Defined.

(** C9, as stated, fails: on the zero object bit 0 lies beyond the stored
    digits and reading it yields 25, not 0. *)
Lemma C9_counterexample :
  nu Init <= 0 / BiD /\ GetBit Init 0 <> 0.
Proof.
  split; [vm_compute; discriminate | vm_compute; discriminate].
Qed.

(** Beyond the digit ceiling [SetBit] does not grow: the first bit of digit
    1024 is refused. *)
Lemma SetBit_beyond_ceiling :
  SetBit Init (BiD * VLONG_MAX_DIGITS) 1
  = Some (VLONG_ERR_MEMORY_EXEED, Init).
Proof. reflexivity. Qed.

(** ** Division by zero *)

(** C5 (as the code has it): for every dividend [a], the short [Div] and
    the short [Mod] with digit 0, and the long [Div] with a divisor whose
    used count is 0 (the source tests [b.nu == 0]), fail with
    VLONG_ERR_DIV_BY_ZERO and leave the receiver as it was; the long [Mod]
    with a divisor whose used count is 0 is guarded: it sets the receiver
    to zero and returns VLONG_SUCCESS. *)
Theorem C5_zero_divisor (fuel : nat) (this : vlong) (a b : ref)
    (r : option Z) (rv : option vlong) :
  nu (deref this b) = 0 ->
  Div_dig this a 0 r = Some (VLONG_ERR_DIV_BY_ZERO, (this, r))
  /\ Mod_dig this a 0 = Some (VLONG_ERR_DIV_BY_ZERO, this)
  /\ Div fuel this a b rv = Some (VLONG_ERR_DIV_BY_ZERO, (this, rv))
  /\ Mod fuel this a b = Some (VLONG_SUCCESS, SetZero this).
Proof.
  intros Hb; split; [|split; [|split]].
  - unfold Div_dig, prvDivInt; simpl.
    destruct a; reflexivity.
  - unfold Mod_dig, Div_dig, prvDivInt; simpl; reflexivity.
  - unfold Div, prvDivBig; simpl; rewrite Hb; simpl.
    destruct a, b, rv; reflexivity.
  - unfold Mod; rewrite Hb; reflexivity.
Qed.

Lemma C5_witness :
  nu (deref (of_Z 9) (Ref (of_Z 0))) = 0
  /\ Div_dig (of_Z 9) This 0 (Some 0)
     = Some (VLONG_ERR_DIV_BY_ZERO, (of_Z 9, Some 0))
  /\ Mod_dig (of_Z 9) This 0 = Some (VLONG_ERR_DIV_BY_ZERO, of_Z 9)
  /\ Div 50 (of_Z 9) This (Ref (of_Z 0)) None
     = Some (VLONG_ERR_DIV_BY_ZERO, (of_Z 9, None))
  /\ Mod 50 (of_Z 9) This (Ref (of_Z 0))
     = Some (VLONG_SUCCESS, SetZero (of_Z 9)).
Proof.
  split; [reflexivity|].
  apply (C5_zero_divisor 50 (of_Z 9) This (Ref (of_Z 0)) (Some 0) None).
  reflexivity.
Defined.

(** C5, as stated, fails for the long [Mod]: 7 mod 0, the divisor being the
    zero object of used count 0, returns VLONG_SUCCESS. *)
Lemma C5_counterexample :
  nu (of_Z 0) = 0
  /\ Mod 50 Init (Ref (of_Z 7)) (Ref (of_Z 0)) = Some (VLONG_SUCCESS, Init)
  /\ VLONG_SUCCESS <> VLONG_ERR_DIV_BY_ZERO.
Proof.
  split; [reflexivity|]. split; [reflexivity | discriminate].
Qed.

(** ** Parsing and the state of the receiver on error *)

(** After its argument checks [FromStringBuf] resets the receiver and grows
    it: what it then holds depends on the capacity alone. *)
Lemma Grow_after_reset (this1 this2 : vlong) (n : Z) :
  na this1 = na this2 ->
  Grow (set_s (set_nu this1 0) MP_ZPOS) n
  = Grow (set_s (set_nu this2 0) MP_ZPOS) n
  \/ exists r1 r2,
       Grow (set_s (set_nu this1 0) MP_ZPOS) n
       = Some (VLONG_ERR_MEMORY_EXEED, r1)
       /\ Grow (set_s (set_nu this2 0) MP_ZPOS) n
          = Some (VLONG_ERR_MEMORY_EXEED, r2).
Proof.
  destruct this1 as [s1 d1 n1], this2 as [s2 d2 n2].
  unfold Grow, na, set_s, set_nu, set_d; simpl.
  intros Hna; unfold na in Hna; simpl in Hna; rewrite <- Hna.
  assert (Hlen : length d1 = length d2) by (unfold zlen in Hna; lia).
  destruct (n <=? zlen d1).
  - left.
    destruct (0 <? zlen d1) eqn:E.
    + unfold ok, memset0, zlen; simpl. do 3 f_equal.
      rewrite Z.sub_0_r, !Nat2Z.id, fill0_all.
      now rewrite Hlen, fill0_all.
    + apply Z.ltb_ge in E; unfold zlen in E.
      destruct d1, d2; simpl in *; try lia; try discriminate.
      reflexivity.
  - destruct (VLONG_MAX_DIGITS <? n).
    + right; eexists; eexists; split; reflexivity.
    + left; unfold new_buffer, memcpy; simpl.
      destruct (repeat 0 (Z.to_nat n)); reflexivity.
Qed.

(** The radix test of [FromStringBuf]: without a custom alphabet the radix
    must lie in 2..16; with one, a radix 0 stands for the length of the
    alphabet and the radix must lie in 2..256. *)
Lemma FromStringBuf_radix_refused (this : vlong) (buf : list Z)
    (nBufLen nRadix : Z) (alpha : alphabet) :
  match alpha with
  | AlphaNull => (size_t nRadix <? 2) || (16 <? size_t nRadix)
  | AlphaDigChars =>
      let rd := if size_t nRadix =? 0 then strlen MP_DIG_CHARS
                else size_t nRadix in
      (rd <? 2) || (256 <? rd)
  | AlphaCustom chars =>
      let rd := if size_t nRadix =? 0 then strlen chars else size_t nRadix in
      (rd <? 2) || (256 <? rd)
  end = true ->
  FromStringBuf this (Some buf) nBufLen nRadix alpha
  = Some (VLONG_ERR_BAD_ARG_3, this).
Proof.
  intros H; unfold FromStringBuf.
  destruct alpha as [| |chars]; cbv beta iota zeta in *;
    rewrite H; reflexivity.
Qed.

(** C8 (as the code has it): a call that fails its argument checks leaves
    the receiver as it was: a NULL buffer gives VLONG_ERR_BAD_ARG_1 whatever
    the other arguments, and a radix out of range (2..16 without a custom
    alphabet, 2..256 with one) gives VLONG_ERR_BAD_ARG_3.  But a parse is
    not atomic: once past the checks [FromStringBuf] resets the receiver, so
    when it stops at an invalid character the receiver holds what the text
    scanned so far produced and nothing of its former value: any other
    receiver of the same capacity ends in the very same state. *)
Theorem C8_FromStringBuf_not_atomic (this1 this2 : vlong)
    (pBuf : option (list Z)) (nBufLen nRadix : Z) (alpha : alphabet) :
  FromStringBuf this1 None nBufLen nRadix alpha
  = Some (VLONG_ERR_BAD_ARG_1, this1)
  /\ (forall buf,
        match alpha with
        | AlphaNull => (size_t nRadix <? 2) || (16 <? size_t nRadix)
        | AlphaDigChars =>
            let rd := if size_t nRadix =? 0 then strlen MP_DIG_CHARS
                      else size_t nRadix in
            (rd <? 2) || (256 <? rd)
        | AlphaCustom chars =>
            let rd := if size_t nRadix =? 0 then strlen chars
                      else size_t nRadix in
            (rd <? 2) || (256 <? rd)
        end = true ->
        FromStringBuf this1 (Some buf) nBufLen nRadix alpha
        = Some (VLONG_ERR_BAD_ARG_3, this1))
  /\ (forall r,
        na this1 = na this2 ->
        FromStringBuf this1 pBuf nBufLen nRadix alpha
        = Some (VLONG_ERR_INVALID_CHAR, r) ->
        FromStringBuf this2 pBuf nBufLen nRadix alpha
        = Some (VLONG_ERR_INVALID_CHAR, r)).
Proof.
  split; [reflexivity|].
  split; [intros buf; apply FromStringBuf_radix_refused|].
  intros r Hna H.
  unfold FromStringBuf in *.
  destruct pBuf as [buf|]; [|discriminate H].
  destruct alpha as [| |chars]; cbv beta iota zeta in *.
  all: match type of H with
       | (if ?c then _ else _) = _ =>
           destruct c; [discriminate H|]
       end.
  all: match type of H with
       | context [Grow _ ?n] =>
           destruct (Grow_after_reset _ _ n Hna)
             as [E | (r1 & r2 & E1 & E2)];
           [rewrite <- E; exact H | rewrite E1 in H; discriminate H]
       end.
Qed.

Lemma C8_witness :
  FromStringBuf (of_Z 5) None 0 16 AlphaNull
  = Some (VLONG_ERR_BAD_ARG_1, of_Z 5)
  /\ (size_t 17 <? 2) || (16 <? size_t 17) = true
  /\ FromStringBuf (of_Z 5) (Some (chars "G1")) 0 17 AlphaNull
     = Some (VLONG_ERR_BAD_ARG_3, of_Z 5)
  /\ (let rd := if size_t 300 =? 0 then strlen (chars "01")
                else size_t 300 in
      (rd <? 2) || (256 <? rd)) = true
  /\ FromStringBuf (of_Z 5) (Some (chars "G1")) 0 300 (AlphaCustom (chars "01"))
     = Some (VLONG_ERR_BAD_ARG_3, of_Z 5)
  /\ na (of_Z 5) = na (of_Z 9)
  /\ FromStringBuf (of_Z 5) (Some (chars "G1")) 0 16 AlphaNull
     = Some (VLONG_ERR_INVALID_CHAR, mk_vlong MP_ZPOS [1; 0] 1)
  /\ FromStringBuf (of_Z 9) (Some (chars "G1")) 0 16 AlphaNull
     = Some (VLONG_ERR_INVALID_CHAR, mk_vlong MP_ZPOS [1; 0] 1).
Proof.
  assert (H1 : (size_t 17 <? 2) || (16 <? size_t 17) = true) by reflexivity.
  assert (H2 : (let rd := if size_t 300 =? 0 then strlen (chars "01")
                          else size_t 300 in
                (rd <? 2) || (256 <? rd)) = true) by reflexivity.
  assert (H3 : na (of_Z 5) = na (of_Z 9)) by reflexivity.
  assert (H4 : FromStringBuf (of_Z 5) (Some (chars "G1")) 0 16 AlphaNull
               = Some (VLONG_ERR_INVALID_CHAR, mk_vlong MP_ZPOS [1; 0] 1))
    by reflexivity.
  split;
    [exact (proj1 (C8_FromStringBuf_not_atomic (of_Z 5) (of_Z 9)
                     (Some (chars "G1")) 0 16 AlphaNull))|].
  split; [exact H1|].
  split;
    [exact (proj1 (proj2 (C8_FromStringBuf_not_atomic (of_Z 5) (of_Z 9)
                            (Some (chars "G1")) 0 17 AlphaNull))
              (chars "G1") H1)|].
  split; [exact H2|].
  split;
    [exact (proj1 (proj2 (C8_FromStringBuf_not_atomic (of_Z 5) (of_Z 9)
                            (Some (chars "G1")) 0 300
                            (AlphaCustom (chars "01"))))
              (chars "G1") H2)|].
  split; [exact H3|]. split; [exact H4|].
  exact (proj2 (proj2 (C8_FromStringBuf_not_atomic (of_Z 5) (of_Z 9)
                         (Some (chars "G1")) 0 16 AlphaNull))
           (mk_vlong MP_ZPOS [1; 0] 1) H3 H4).
Defined.

(** C8, as stated, fails: parsing the text "G1" in radix 16 into an object
    that holds 5 returns VLONG_ERR_INVALID_CHAR at the 'G' and leaves 1 in
    the receiver. *)
Lemma C8_counterexample :
  FromStringBuf (of_Z 5) (Some (chars "G1")) 0 16 AlphaNull
  = Some (VLONG_ERR_INVALID_CHAR, mk_vlong MP_ZPOS [1; 0] 1)
  /\ to_Z (mk_vlong MP_ZPOS [1; 0] 1) = 1
  /\ to_Z (of_Z 5) = 5.
Proof.
  split; [reflexivity|]. split; reflexivity.
Qed.

(** ** Modular exponentiation *)

(** The engine is chosen from the base: whenever the modulus is even and not
    DR-shaped and the base is odd, the Montgomery setup rejects the modulus
    and [PowMod] fails before it computes anything. *)
Lemma PowMod_odd_base_even_modulus (fuel : nat) (this : vlong) (a e n : ref) :
  s (deref this n) <> MP_NEG -> s (deref this e) <> MP_NEG ->
  prvIsDrModulus (deref this n) = false ->
  Z.land (di (deref this a) 0) 1 = 1 ->
  Z.land (di (deref this n) 0) 1 = 0 ->
  PowMod (S fuel) this a e n = Some (VLONG_ERR_BAD_ARG_1, this).
Proof.
  intros Hn He Hdr Ha Hn0.
  cbn [PowMod].
  apply Z.eqb_neq in Hn, He; rewrite Hn, He, Hdr, Ha.
  replace (1 =? 1) with true by reflexivity.
  unfold prvPowModMontgomery, prvReduceMontgomerySetup.
  rewrite Hn0; reflexivity.
Qed.

(** With a negative exponent [PowMod] never returns success: it returns an
    error of the inversion, or it does not return. *)
Lemma PowMod_negative_exponent_never_succeeds (fuel : nat) (this : vlong)
    (a e n : ref) (r : vlong) :
  s (deref this e) = MP_NEG ->
  PowMod fuel this a e n <> Some (VLONG_SUCCESS, r).
Proof.
  revert r; induction fuel as [|fuel IH]; intros r He; [discriminate|].
  cbn [PowMod]; rewrite He.
  replace (MP_NEG =? MP_NEG) with true by reflexivity.
  destruct (s (deref this n) =? MP_NEG); [discriminate|].
  destruct (InvMod fuel Init (Ref (deref this a)) (Ref (deref this n)))
    as [[ret1 tmpG]|]; [|discriminate].
  destruct (ret1 =? 0) eqn:E1; [|intros H; inversion H; subst; discriminate E1].
  destruct (SetValue Init (Ref (deref this e))) as [[ret2 tmpX]|];
    [|discriminate].
  destruct (ret2 =? 0) eqn:E2; [|intros H; inversion H; subst; discriminate E2].
  destruct (PowMod fuel this a e n) as [[ret3 this3]|] eqn:E; [|discriminate].
  destruct (ret3 =? 0) eqn:E3; [|intros H; inversion H; subst; discriminate E3].
  apply Z.eqb_eq in E3; subst ret3.
  exfalso; exact (IH this3 He eq_refl).
Qed.

(** C1, at a failing input: 2^32 is a positive modulus that is neither
    DR-shaped nor odd, so the engine should be Barrett; the test reads the
    low digit of the base instead of the modulus.  With the odd base 3 the
    Montgomery setup is run on the even modulus and [PowMod(3, 1, 2^32)]
    returns VLONG_ERR_BAD_ARG_1 with the receiver untouched, whatever the
    fuel; with the even base 4 the same exponent and modulus succeed. *)
Theorem C1_PowMod_engine_follows_base_parity (fuel : nat) :
  prvIsDrModulus (of_Z (2 ^ 32)) = false
  /\ Z.land (di (of_Z (2 ^ 32)) 0) 1 = 0
  /\ PowMod (S fuel) Init (Ref (of_Z 3)) (Ref (of_Z 1)) (Ref (of_Z (2 ^ 32)))
     = Some (VLONG_ERR_BAD_ARG_1, Init)
  /\ value_of (PowMod 50 Init (Ref (of_Z 4)) (Ref (of_Z 1))
                 (Ref (of_Z (2 ^ 32))))
     = Some (VLONG_SUCCESS, 4).
Proof.
  split; [reflexivity|]. split; [reflexivity|].
  split; [reflexivity | vm_compute; reflexivity].
Qed.

Lemma InvMod_3_7 (fuel : nat) :
  InvMod fuel Init (Ref (of_Z 3)) (Ref (of_Z 7)) = None
  \/ InvMod fuel Init (Ref (of_Z 3)) (Ref (of_Z 7))
     = Some (VLONG_SUCCESS, mk_vlong MP_ZPOS [5; 0] 1).
Proof.
  do 4 (destruct fuel as [|fuel]; [left; reflexivity|]).
  right; vm_compute; reflexivity.
Qed.

(** C6, at a failing input: 3 is invertible modulo 7 ([InvMod] yields 5),
    yet [PowMod(3, -1, 7)] never returns: after the inversion it calls
    itself on the unchanged arguments, so no amount of fuel produces a
    result. *)
Theorem C6_PowMod_negative_exponent_diverges (fuel : nat) :
  value_of (InvMod 4 Init (Ref (of_Z 3)) (Ref (of_Z 7)))
  = Some (VLONG_SUCCESS, 5)
  /\ PowMod fuel Init (Ref (of_Z 3)) (Ref (of_Z (-1))) (Ref (of_Z 7)) = None.
Proof.
  split; [reflexivity|].
  induction fuel as [|fuel IH]; [reflexivity|].
  cbn [PowMod].
  replace (s (deref Init (Ref (of_Z 7))) =? MP_NEG) with false by reflexivity.
  replace (s (deref Init (Ref (of_Z (-1)))) =? MP_NEG) with true by reflexivity.
  cbn [deref].
  destruct (InvMod_3_7 fuel) as [E | E]; rewrite E; [reflexivity|].
  replace (SetValue Init (Ref (of_Z (-1))))
    with (Some (VLONG_SUCCESS, mk_vlong MP_NEG [1] 1)) by reflexivity.
  cbv beta iota.
  replace (VLONG_SUCCESS =? 0) with true by reflexivity.
  cbv beta iota.
  rewrite IH; reflexivity.
Qed.

(** ** Division *)

(** A zero dividend: whatever the divisor digit from 2 on, the short
    division succeeds and hands the divisor back as the remainder. *)
Lemma Div_dig_zero_dividend (this a : vlong) (b r0 : Z) :
  nu a = 0 -> s a = MP_ZPOS -> 2 <= b < 2 ^ 31 ->
  exists q, Div_dig this (Ref a) b (Some r0)
            = Some (VLONG_SUCCESS, (q, Some b)).
Proof.
  intros Ha Hs Hb; unfold Div_dig.
  assert (Eb : (0 <? b) = true) by (apply Z.ltb_lt; lia).
  assert (Eu : udig_t b = b) by (apply Z.mod_small; lia).
  assert (Es : sdig_t b = b) by (unfold sdig_t; rewrite Z.mod_small; lia).
  rewrite Eb, Eu.
  assert (E1 : (b =? 1) = false) by (apply Z.eqb_neq; lia).
  rewrite E1; cbn [is_this deref].
  unfold prvDivInt.
  assert (E0 : (b =? 0) = false) by (apply Z.eqb_neq; lia).
  rewrite E0, Ha, Hs; cbn.
  rewrite Es; eexists; reflexivity.
Qed.

(** C2, at failing inputs.  Short division of the zero dividend by 5
    succeeds with quotient 0 and remainder 5 (the divisor is stored where the
    remainder 0 belongs), so [0 = 0 * 5 + r] and [|r| < 5] fail, and the short
    [Mod] gives 0 mod 5 = 5.  Two more defects of the same operations: the
    long division of 5 by 5 gives quotient 5 (the dividend is copied where 1
    belongs), and the short division of 10 by -3 divides by the digit
    reinterpreted as unsigned, giving quotient 0 and remainder 10. *)
Theorem C2_Div_zero_dividend_remainder :
  Div_dig_values (Div_dig Init (Ref (of_Z 0)) 5 (Some 0))
  = Some (VLONG_SUCCESS, 0, Some 5)
  /\ value_of (Mod_dig Init (Ref (of_Z 0)) 5) = Some (VLONG_SUCCESS, 5)
  /\ Div_values (Div 50 Init (Ref (of_Z 5)) (Ref (of_Z 5)) (Some Init))
     = Some (VLONG_SUCCESS, 5, Some 0)
  /\ Div_dig_values (Div_dig Init (Ref (of_Z 10)) (-3) (Some 0))
     = Some (VLONG_SUCCESS, 0, Some 10).
Proof.
  split; [reflexivity|]. split; [reflexivity|].
  split; [vm_compute; reflexivity | reflexivity].
Qed.

(** ** Reductions *)

(** C3, at failing inputs, all within [0 <= x < n^2].  [ModMontgomery(1, 7)]
    returns 2, which is [1 * R^-1 mod 7] for [R = 2^32] and not [1 mod 7]:
    the function runs one Montgomery reduction and nothing converts in or
    out of Montgomery form.  The final correction of all three reductions
    compares with [== MP_GT], so a residue equal to the modulus stays:
    [ModBarrett(3, 3)] returns 3, [ModDRExt(7, 7)] returns 7 and
    [ModMontgomery(7, 7)] returns 7, where plain [Mod] returns 0. *)
Theorem C3_reductions_disagree_with_Mod :
  value_of (ModMontgomery 50 Init (Ref (of_Z 1)) (of_Z 7))
  = Some (VLONG_SUCCESS, 2)
  /\ value_of (Mod 50 Init (Ref (of_Z 1)) (Ref (of_Z 7)))
     = Some (VLONG_SUCCESS, 1)
  /\ value_of (ModBarrett 50 Init (Ref (of_Z 3)) (of_Z 3))
     = Some (VLONG_SUCCESS, 3)
  /\ value_of (Mod 50 Init (Ref (of_Z 3)) (Ref (of_Z 3)))
     = Some (VLONG_SUCCESS, 0)
  /\ prvIsDrModulus (of_Z 7) = true
  /\ value_of (ModDRExt 50 Init (Ref (of_Z 7)) (of_Z 7))
     = Some (VLONG_SUCCESS, 7)
  /\ value_of (ModMontgomery 50 Init (Ref (of_Z 7)) (of_Z 7))
     = Some (VLONG_SUCCESS, 7)
  /\ value_of (Mod 50 Init (Ref (of_Z 7)) (Ref (of_Z 7)))
     = Some (VLONG_SUCCESS, 0).
Proof.
  repeat (split; [vm_compute; reflexivity|]).
  vm_compute; reflexivity.
Qed.

(** ** The clamp invariant *)

(** C4, at failing inputs.  [Xor] of two distinct objects that both hold 5
    succeeds and leaves one used digit that is zero; [GenRandomBytes(1)]
    with a generator that delivers the byte 0 does the same.  Neither
    clamps. *)
Theorem C4_Xor_and_GenRandomBytes_leave_unclamped :
  clamped (of_Z 5)
  /\ Xor Init (Ref (of_Z 5)) (Ref (of_Z 5)) false
     = Some (VLONG_SUCCESS, mk_vlong MP_ZPOS [0] 1)
  /\ ~ clamped (mk_vlong MP_ZPOS [0] 1)
  /\ GenRandomBytes Init 1 (Some (fun _ => (0, [0]))) (fun _ => 0)
     = Some (VLONG_SUCCESS, mk_vlong MP_ZPOS [0; 0] 1)
  /\ ~ clamped (mk_vlong MP_ZPOS [0; 0] 1).
Proof.
  split; [split; [right; discriminate | discriminate]|].
  split; [reflexivity|].
  split; [intros [[H | H] _]; [discriminate H | apply H; reflexivity]|].
  split; [reflexivity|].
  intros [[H | H] _]; [discriminate H | apply H; reflexivity].
Qed.

(** ** BASE64 *)

(** C7, at failing inputs.  The encoding of 5 is "AAU="; decoded into an
    object that holds 2^64 it succeeds and leaves 2^64 + 5, because
    [FromBinary] rewrites the low bytes and keeps the used count; likewise
    the encoding of zero, "AA==", leaves 2^64 in that object.  And the
    encoding of 2^8184, a number of 256 digits, decoded into a fresh object
    fails with VLONG_ERR_MEMORY_EXEED: [SetBytes] grows to a digit count
    taken from the byte count. *)
Theorem C7_FromBase64_of_ToBase64 :
  ToBase64Buf (of_Z 5) = (VLONG_SUCCESS, chars "AAU=")
  /\ value_of (FromBase64 (of_Z (2 ^ 64)) [] (Some (chars "AAU=")))
     = Some (VLONG_SUCCESS, 2 ^ 64 + 5)
  /\ ToBase64Buf (of_Z 0) = (VLONG_SUCCESS, chars "AA==")
  /\ value_of (FromBase64 (of_Z (2 ^ 64)) [] (Some (chars "AA==")))
     = Some (VLONG_SUCCESS, 2 ^ 64)
  /\ nu (of_Z (2 ^ 8184)) = 256
  /\ fst (ToBase64Buf (of_Z (2 ^ 8184))) = VLONG_SUCCESS
  /\ FromBase64 Init [] (Some (snd (ToBase64Buf (of_Z (2 ^ 8184)))))
     = Some (VLONG_ERR_MEMORY_EXEED, Init).
Proof.
  repeat (split; [vm_compute; reflexivity|]).
  vm_compute; reflexivity.
Qed.

(** * The arithmetic of the digit routines *)

(** Split the conjunctions of the goal, without unfolding definitions. *)
Ltac splits := repeat match goal with |- _ /\ _ => split end.

(** ** Reading and writing digits *)

Lemma dget_neg (l : list Z) (i : Z) : i < 0 -> dget l i = 0.
Proof.
  intros H; unfold dget.
  destruct (i <? 0) eqn:E; [reflexivity | apply Z.ltb_ge in E; lia].
Qed.

Lemma dget_nil (i : Z) : dget [] i = 0.
Proof. unfold dget; destruct (i <? 0); [|destruct (Z.to_nat i)]; reflexivity. Qed.

Lemma dget_cons (h : Z) (t : list Z) (i : Z) :
  0 <= i -> dget (h :: t) (i + 1) = dget t i.
Proof.
  intros H; unfold dget.
  destruct (i + 1 <? 0) eqn:E1; [apply Z.ltb_lt in E1; lia|].
  destruct (i <? 0) eqn:E2; [apply Z.ltb_lt in E2; lia|].
  replace (Z.to_nat (i + 1)) with (S (Z.to_nat i)) by lia.
  reflexivity.
Qed.

Lemma dget_beyond (l : list Z) (i : Z) : zlen l <= i -> dget l i = 0.
Proof.
  unfold dget, zlen; intros H.
  destruct (i <? 0); [reflexivity|].
  apply nth_overflow; lia.
Qed.

Lemma upd_beyond (l : list Z) (n : nat) (x : Z) :
  (length l <= n)%nat -> upd l n x = l.
Proof.
  revert n; induction l as [|h t IH]; intros [|n] H; simpl in *;
    try reflexivity; try lia.
  now rewrite IH by lia.
Qed.

Lemma nth_upd_other (l : list Z) (n m : nat) (x : Z) :
  n <> m -> nth m (upd l n x) 0 = nth m l 0.
Proof.
  revert n m; induction l as [|h t IH]; intros [|n] [|m] H; simpl;
    try reflexivity; try lia.
  apply IH; lia.
Qed.

Lemma dget_dset_other (l : list Z) (i j x : Z) :
  i <> j -> dget (dset l i x) j = dget l j.
Proof.
  intros H; unfold dget, dset.
  destruct (j <? 0) eqn:Ej; [reflexivity|].
  destruct (i <? 0) eqn:Ei; [reflexivity|].
  apply Z.ltb_ge in Ej, Ei.
  apply nth_upd_other; lia.
Qed.

Lemma dget_dset (l : list Z) (i j x : Z) :
  0 <= i < zlen l ->
  dget (dset l i x) j = if j =? i then x else dget l j.
Proof.
  intros H; destruct (j =? i) eqn:E.
  - apply Z.eqb_eq in E; subst j; now apply dget_dset_same.
  - apply Z.eqb_neq in E; apply dget_dset_other; lia.
Qed.

Lemma nth_fill0 (l : list Z) (from cnt k : nat) :
  nth k (fill0 l from cnt) 0
  = if ((from <=? k) && (k <? from + cnt))%nat then 0 else nth k l 0.
Proof.
  revert from cnt k; induction l as [|h t IH]; intros from cnt k.
  - simpl; destruct k; destruct ((from <=? _) && _)%nat; reflexivity.
  - destruct from as [|f].
    + destruct cnt as [|c].
      * simpl fill0.
        replace ((0 <=? k) && (k <? 0 + 0))%nat with false; [reflexivity|].
        symmetry; apply andb_false_iff; right; apply Nat.ltb_ge; lia.
      * simpl fill0; destruct k as [|k]; [reflexivity|].
        simpl nth; rewrite IH; simpl; reflexivity.
    + simpl fill0; destruct k as [|k]; [reflexivity|].
      simpl nth; rewrite IH; reflexivity.
Qed.

Lemma dget_memset0 (l : list Z) (from cnt i : Z) :
  0 <= from -> 0 <= cnt ->
  dget (memset0 l from cnt) i
  = if (from <=? i) && (i <? from + cnt) then 0 else dget l i.
Proof.
  intros Hf Hc; unfold dget, memset0.
  destruct (i <? 0) eqn:E.
  - destruct ((from <=? i) && (i <? from + cnt)); reflexivity.
  - apply Z.ltb_ge in E; rewrite nth_fill0.
    destruct ((from <=? i) && (i <? from + cnt)) eqn:E1.
    + apply andb_true_iff in E1; destruct E1 as [E1 E2].
      apply Z.leb_le in E1; apply Z.ltb_lt in E2.
      replace ((Z.to_nat from <=? Z.to_nat i)
               && (Z.to_nat i <? Z.to_nat from + Z.to_nat cnt))%nat with true;
        [reflexivity|].
      symmetry; apply andb_true_iff; split;
        [apply Nat.leb_le | apply Nat.ltb_lt]; lia.
    + replace ((Z.to_nat from <=? Z.to_nat i)
               && (Z.to_nat i <? Z.to_nat from + Z.to_nat cnt))%nat with false;
        [reflexivity|].
      symmetry; apply andb_false_iff.
      apply andb_false_iff in E1; destruct E1 as [E1 | E1].
      * left; apply Z.leb_gt in E1; apply Nat.leb_gt; lia.
      * right; apply Z.ltb_ge in E1; apply Nat.ltb_ge; lia.
Qed.

Lemma nth_copy_digits (dst src : list Z) (n k : nat) :
  nth k (copy_digits dst src n) 0
  = if ((k <? n) && (k <? length dst))%nat then nth k src 0 else nth k dst 0.
Proof.
  revert dst src k; induction n as [|n IH]; intros dst src k.
  - destruct dst; reflexivity.
  - destruct dst as [|h t].
    + simpl; rewrite andb_false_r; destruct k; reflexivity.
    + simpl copy_digits; destruct k as [|k].
      * simpl; destruct src; reflexivity.
      * simpl nth; rewrite IH.
        change (S k <? S n)%nat with (k <? n)%nat.
        change (S k <? length (h :: t))%nat with (k <? length t)%nat.
        destruct ((k <? n) && (k <? length t))%nat; [|reflexivity].
        destruct src; [destruct k|]; reflexivity.
Qed.

Lemma dget_memcpy (dst src : list Z) (n i : Z) :
  dget (memcpy dst src n) i
  = if (i <? n) && (i <? zlen dst) then dget src i else dget dst i.
Proof.
  unfold dget, memcpy, zlen.
  destruct (i <? 0) eqn:E.
  - destruct ((i <? n) && _); reflexivity.
  - apply Z.ltb_ge in E; rewrite nth_copy_digits.
    destruct ((i <? n) && (i <? Z.of_nat (length dst))) eqn:E1.
    + apply andb_true_iff in E1; destruct E1 as [E1 E2].
      apply Z.ltb_lt in E1, E2.
      replace ((Z.to_nat i <? Z.to_nat n) && (Z.to_nat i <? length dst))%nat
        with true; [reflexivity|].
      symmetry; apply andb_true_iff; split; apply Nat.ltb_lt; lia.
    + replace ((Z.to_nat i <? Z.to_nat n) && (Z.to_nat i <? length dst))%nat
        with false; [reflexivity|].
      symmetry; apply andb_false_iff.
      apply andb_false_iff in E1; destruct E1 as [E1 | E1];
        apply Z.ltb_ge in E1; [left | right]; apply Nat.ltb_ge; lia.
Qed.

Lemma memcpy_length (dst src : list Z) (n : Z) : zlen (memcpy dst src n) = zlen dst.
Proof. unfold memcpy, zlen; now rewrite copy_digits_length. Qed.

Lemma dget_repeat0 (n : nat) (i : Z) : dget (repeat 0 n) i = 0.
Proof.
  unfold dget; destruct (i <? 0); [reflexivity|].
  generalize (Z.to_nat i); induction n as [|n IH]; intros [|k]; simpl; auto.
Qed.

(** ** 32-bit digits *)

Lemma digits_ok_dget (l : list Z) (i : Z) :
  digits_ok l -> 0 <= dget l i < 2 ^ 32.
Proof.
  intros H; unfold dget.
  destruct (i <? 0); [lia|].
  destruct (nth_in_or_default (Z.to_nat i) l 0) as [Hin | Hd].
  - unfold digits_ok in H; rewrite Forall_forall in H; now apply H.
  - rewrite Hd; lia.
Qed.

Lemma digits_ok_upd (l : list Z) (n : nat) (x : Z) :
  digits_ok l -> 0 <= x < 2 ^ 32 -> digits_ok (upd l n x).
Proof.
  unfold digits_ok; intros H Hx; revert n.
  induction H as [|h t Hh Ht IH]; intros [|n]; simpl; constructor; auto.
Qed.

Lemma digits_ok_dset (l : list Z) (i x : Z) :
  digits_ok l -> 0 <= x < 2 ^ 32 -> digits_ok (dset l i x).
Proof.
  intros H Hx; unfold dset; destruct (i <? 0); [exact H|].
  now apply digits_ok_upd.
Qed.

Lemma digits_ok_repeat0 (n : nat) : digits_ok (repeat 0 n).
Proof.
  unfold digits_ok; induction n; simpl; constructor; [lia | assumption].
Qed.

Lemma digits_ok_fill0 (l : list Z) (from cnt : nat) :
  digits_ok l -> digits_ok (fill0 l from cnt).
Proof.
  unfold digits_ok; intros H; revert from cnt.
  induction H as [|h t Hh Ht IH]; intros [|f] [|c]; simpl;
    constructor; auto; lia.
Qed.

Lemma digits_ok_memset0 (l : list Z) (from cnt : Z) :
  digits_ok l -> digits_ok (memset0 l from cnt).
Proof. apply digits_ok_fill0. Qed.

Lemma digits_ok_copy_digits (dst src : list Z) (n : nat) :
  digits_ok dst -> digits_ok src -> digits_ok (copy_digits dst src n).
Proof.
  unfold digits_ok; revert dst src.
  induction n as [|n IH]; intros dst src Hd Hs; [destruct dst; exact Hd|].
  destruct dst as [|h t]; [constructor|].
  simpl; inversion Hd; subst; constructor.
  - destruct src; simpl; [lia | now inversion Hs].
  - apply IH; [assumption|].
    destruct src; simpl; [constructor | now inversion Hs].
Qed.

Lemma digits_ok_memcpy (dst src : list Z) (n : Z) :
  digits_ok dst -> digits_ok src -> digits_ok (memcpy dst src n).
Proof. apply digits_ok_copy_digits. Qed.

(** ** The value of a digit prefix *)

Lemma mag_nil (n : nat) : mag [] n = 0.
Proof. destruct n; reflexivity. Qed.

Lemma mag_0 (l : list Z) : mag l 0 = 0.
Proof. destruct l; reflexivity. Qed.

Lemma mag_cons (h : Z) (t : list Z) (n : nat) :
  mag (h :: t) (S n) = h + 2 ^ 32 * mag t n.
Proof. reflexivity. Qed.

Lemma mag_S (l : list Z) (n : nat) :
  mag l (S n) = mag l n + dget l (Z.of_nat n) * 2 ^ (32 * Z.of_nat n).
Proof.
  revert l; induction n as [|n IH]; intros [|h t].
  - rewrite dget_nil; reflexivity.
  - rewrite mag_cons, !mag_0.
    change (dget (h :: t) (Z.of_nat 0)) with h.
    change (2 ^ (32 * Z.of_nat 0)) with 1; lia.
  - rewrite !mag_nil, dget_nil; reflexivity.
  - rewrite (mag_cons h t (S n)), (mag_cons h t n), IH.
    replace (Z.of_nat (S n)) with (Z.of_nat n + 1) by lia.
    rewrite dget_cons by lia.
    replace (32 * (Z.of_nat n + 1)) with (32 + 32 * Z.of_nat n) by lia.
    rewrite Z.pow_add_r by lia; ring.
Qed.

Lemma mag_ext (l1 l2 : list Z) (n : nat) :
  (forall i, 0 <= i < Z.of_nat n -> dget l1 i = dget l2 i) ->
  mag l1 n = mag l2 n.
Proof.
  induction n as [|n IH]; intros H; [now rewrite !mag_0|].
  rewrite !mag_S, IH, H; [reflexivity | lia |].
  intros i Hi; apply H; lia.
Qed.

Lemma mag_bound (l : list Z) (n : nat) :
  digits_ok l -> 0 <= mag l n < 2 ^ (32 * Z.of_nat n).
Proof.
  intros H; induction n as [|n IH]; [rewrite mag_0; simpl; lia|].
  rewrite mag_S.
  pose proof (digits_ok_dget l (Z.of_nat n) H) as Hd.
  replace (32 * Z.of_nat (S n)) with (32 + 32 * Z.of_nat n) by lia.
  rewrite Z.pow_add_r by lia.
  assert (0 < 2 ^ (32 * Z.of_nat n)) by (apply Z.pow_pos_nonneg; lia).
  nia.
Qed.

Lemma mag_dset_above (l : list Z) (i x : Z) (n : nat) :
  Z.of_nat n <= i -> mag (dset l i x) n = mag l n.
Proof.
  intros H; apply mag_ext; intros j Hj; apply dget_dset_other; lia.
Qed.

Lemma mag_zero (l : list Z) (n : nat) :
  (forall i, 0 <= i < Z.of_nat n -> dget l i = 0) -> mag l n = 0.
Proof.
  induction n as [|n IH]; intros H; [apply mag_0|].
  rewrite mag_S, IH, H; [reflexivity | lia |].
  intros i Hi; apply H; lia.
Qed.

(** A non-zero top digit bounds the prefix from below. *)
Lemma mag_top (l : list Z) (n : nat) :
  digits_ok l -> dget l (Z.of_nat n) <> 0 ->
  2 ^ (32 * Z.of_nat n) <= mag l (S n).
Proof.
  intros H Hd; rewrite mag_S.
  pose proof (digits_ok_dget l (Z.of_nat n) H).
  pose proof (mag_bound l n H).
  assert (0 < 2 ^ (32 * Z.of_nat n)) by (apply Z.pow_pos_nonneg; lia).
  nia.
Qed.

(** ** Loop invariants *)

Lemma for_up_ind {St : Type} (P : Z -> St -> Prop) (f : Z -> St -> St)
  (n : nat) (i : Z) (st : St) :
  P i st ->
  (forall j st, i <= j < i + Z.of_nat n -> P j st -> P (j + 1) (f j st)) ->
  P (i + Z.of_nat n) (for_up n i f st).
Proof.
  revert i st; induction n as [|n IH]; intros i st H0 Hstep.
  - simpl; now rewrite Z.add_0_r.
  - cbn [for_up].
    replace (i + Z.of_nat (S n)) with (i + 1 + Z.of_nat n) by lia.
    apply IH.
    + apply Hstep; [lia | exact H0].
    + intros j st' Hj; apply Hstep; lia.
Qed.

Lemma for_down_ind {St : Type} (P : Z -> St -> Prop) (f : Z -> St -> St)
  (n : nat) (i : Z) (st : St) :
  P i st ->
  (forall j st, i - Z.of_nat n < j <= i -> P j st -> P (j - 1) (f j st)) ->
  P (i - Z.of_nat n) (for_down n i f st).
Proof.
  revert i st; induction n as [|n IH]; intros i st H0 Hstep.
  - simpl; now rewrite Z.sub_0_r.
  - cbn [for_down].
    replace (i - Z.of_nat (S n)) with (i - 1 - Z.of_nat n) by lia.
    apply IH.
    + apply Hstep; [lia | exact H0].
    + intros j st' Hj; apply Hstep; lia.
Qed.

(** ** Magnitudes *)

Lemma magnitude_ext (a b : vlong) :
  nu a = nu b -> (forall i, 0 <= i < nu a -> di a i = di b i) ->
  magnitude a = magnitude b.
Proof.
  intros Hn H; unfold magnitude; rewrite <- Hn.
  apply mag_ext; intros i Hi; apply H; lia.
Qed.

Lemma magnitude_bound (v : vlong) :
  digits_ok (d v) -> 0 <= magnitude v < 2 ^ (32 * Z.of_nat (Z.to_nat (nu v))).
Proof. intros H; apply mag_bound, H. Qed.

Lemma magnitude_nonneg (v : vlong) : digits_ok (d v) -> 0 <= magnitude v.
Proof. intros H; apply (magnitude_bound v H). Qed.

Lemma magnitude_zero (v : vlong) : nu v <= 0 -> magnitude v = 0.
Proof.
  intros H; unfold magnitude.
  replace (Z.to_nat (nu v)) with O by lia; apply mag_0.
Qed.

Lemma magnitude_top (v : vlong) :
  digits_ok (d v) -> 0 < nu v -> di v (nu v - 1) <> 0 ->
  2 ^ (32 * (nu v - 1)) <= magnitude v.
Proof.
  intros H Hn Ht; unfold magnitude.
  replace (Z.to_nat (nu v)) with (S (Z.to_nat (nu v - 1))) by lia.
  replace (32 * (nu v - 1)) with (32 * Z.of_nat (Z.to_nat (nu v - 1))) by lia.
  apply mag_top; [exact H|].
  replace (Z.of_nat (Z.to_nat (nu v - 1))) with (nu v - 1) by lia; exact Ht.
Qed.

Lemma magnitude_pos (v : vlong) :
  digits_ok (d v) -> 0 < nu v -> di v (nu v - 1) <> 0 -> 0 < magnitude v.
Proof.
  intros H Hn Ht; pose proof (magnitude_top v H Hn Ht).
  assert (0 < 2 ^ (32 * (nu v - 1))) by (apply Z.pow_pos_nonneg; lia).
  lia.
Qed.

(** ** Grow *)

Lemma Grow_spec (this : vlong) (n : Z) :
  n <= VLONG_MAX_DIGITS \/ n <= na this ->
  exists this', Grow this n = Some (VLONG_SUCCESS, this')
    /\ n <= na this' /\ na this <= na this'
    /\ nu this' = nu this /\ s this' = s this
    /\ (0 <= nu this -> forall i, i < nu this -> di this' i = di this i)
    /\ (digits_ok (d this) -> digits_ok (d this')).
Proof.
  intros H; unfold Grow, ok, fail.
  destruct (n <=? na this) eqn:E1.
  - apply Z.leb_le in E1.
    eexists; split; [reflexivity|].
    destruct (nu this <? na this) eqn:E2.
    + apply Z.ltb_lt in E2.
      unfold na, set_d, di; cbn [d nu s]; rewrite memset0_length.
      fold (na this); repeat apply conj; auto; try lia.
      * intros Hnu i Hi; rewrite dget_memset0 by lia.
        destruct (nu this <=? i) eqn:E3; [apply Z.leb_le in E3; lia|].
        reflexivity.
      * apply digits_ok_memset0.
    + repeat apply conj; auto; lia.
  - apply Z.leb_gt in E1.
    destruct (VLONG_MAX_DIGITS <? n) eqn:E2; [apply Z.ltb_lt in E2; lia|].
    eexists; split; [reflexivity|].
    assert (Hn : 0 <= n) by (unfold na, zlen in E1; lia).
    unfold na, set_d, di; cbn [d nu s].
    rewrite new_buffer_length by exact Hn.
    fold (na this); repeat apply conj; auto; try lia.
    + intros Hnu i Hi; unfold new_buffer; rewrite dget_memcpy.
      unfold zlen; rewrite repeat_length, Z2Nat.id by exact Hn.
      destruct (i <? nu this) eqn:E3; [|apply Z.ltb_ge in E3; lia].
      destruct (i <? n) eqn:E4; [reflexivity|].
      apply Z.ltb_ge in E4; cbn [andb].
      rewrite dget_repeat0; symmetry; apply dget_beyond.
      unfold na in E1; lia.
    + intros Hd; unfold new_buffer; apply digits_ok_memcpy;
        [apply digits_ok_repeat0 | exact Hd].
Qed.

Lemma Grow_fails (this : vlong) (n : Z) :
  na this < n -> VLONG_MAX_DIGITS < n ->
  Grow this n = Some (VLONG_ERR_MEMORY_EXEED, this).
Proof.
  intros H1 H2; unfold Grow, fail.
  destruct (n <=? na this) eqn:E1; [apply Z.leb_le in E1; lia|].
  destruct (VLONG_MAX_DIGITS <? n) eqn:E2; [reflexivity|].
  apply Z.ltb_ge in E2; lia.
Qed.

Lemma to_Z_magnitude (v : vlong) : to_Z v = s v * magnitude v.
Proof. reflexivity. Qed.

(** ** Clamp *)

Lemma Clamp_loop_mag (k : nat) (dd : list Z) :
  mag dd (Z.to_nat (Clamp_loop k dd (Z.of_nat k))) = mag dd k.
Proof.
  induction k as [|k IH]; [reflexivity|].
  cbn [Clamp_loop].
  destruct (dget dd (Z.of_nat (S k) - 1) =? 0) eqn:E.
  - replace (Z.of_nat (S k) - 1) with (Z.of_nat k) in * by lia.
    apply Z.eqb_eq in E; rewrite IH, mag_S, E; lia.
  - now rewrite Nat2Z.id.
Qed.

Lemma Clamp_spec (this : vlong) :
  0 <= nu this ->
  clamped (Clamp this) /\ magnitude (Clamp this) = magnitude this
  /\ to_Z (Clamp this) = to_Z this /\ d (Clamp this) = d this
  /\ 0 <= nu (Clamp this) <= nu this
  /\ (s (Clamp this) = s this \/ s (Clamp this) = MP_ZPOS).
Proof.
  intros Hnu; split; [now apply Clamp_clamped|].
  unfold Clamp.
  destruct (0 <? nu this) eqn:E.
  - pose proof (Clamp_loop_top (Z.to_nat (nu this)) (d this)) as H.
    pose proof (Clamp_loop_mag (Z.to_nat (nu this)) (d this)) as Hm.
    cbv zeta in H; rewrite Z2Nat.id in H, Hm by exact Hnu.
    destruct H as [Hr _]; cbn [nu set_nu].
    destruct (Clamp_loop (Z.to_nat (nu this)) (d this) (nu this) =? 0) eqn:E0.
    + apply Z.eqb_eq in E0.
      unfold to_Z, magnitude; cbn [s d nu set_s set_nu]; rewrite Hm.
      rewrite E0 in *; rewrite mag_0 in Hm; rewrite <- Hm.
      repeat apply conj; auto; lia.
    + unfold to_Z, magnitude; cbn [s d nu set_s set_nu]; rewrite Hm.
      repeat apply conj; auto; lia.
  - apply Z.ltb_ge in E; assert (E0 : nu this = 0) by lia.
    rewrite E0; cbn [Z.eqb].
    unfold to_Z, magnitude; cbn [s d nu set_s]; rewrite E0, mag_0.
    repeat apply conj; auto; lia.
Qed.

(** ** SetValue and Copy *)

Lemma SetValue_dig_spec (this : vlong) (v : Z) :
  - 2 ^ 31 <= v < 2 ^ 31 ->
  exists r, SetValue_dig this v = Some (VLONG_SUCCESS, r)
    /\ to_Z r = v /\ clamped r /\ in_buffer r /\ na this <= na r
    /\ (digits_ok (d this) -> digits_ok (d r)).
Proof.
  intros Hv; unfold SetValue_dig.
  destruct (v =? 0) eqn:E0.
  - apply Z.eqb_eq in E0; subst v.
    eexists; split; [reflexivity|].
    assert (Hs : s (SetZero this) = 1 /\ nu (SetZero this) = 0
                 /\ na (SetZero this) = na this
                 /\ (digits_ok (d this) -> digits_ok (d (SetZero this)))).
    { unfold SetZero; destruct (0 <? nu this); unfold na;
        cbn [s nu d set_s set_nu set_d]; rewrite ?memset0_length;
        repeat apply conj; auto using digits_ok_memset0. }
    destruct Hs as (Hs & Hn & Ha & Hd).
    assert (Hna : 0 <= na this) by (unfold na, zlen; lia).
    destruct (0 <? na (SetZero this));
      unfold to_Z, clamped, in_buffer, na; cbn [s nu d set_d];
      rewrite ?memset0_length; fold (na (SetZero this));
      rewrite Hs, Hn, Ha, mag_0; repeat apply conj; auto; try lia;
      try (unfold na; lia); intros; apply digits_ok_memset0; auto.
  - apply Z.eqb_neq in E0.
    assert (Hbuf : exists t, (if 1 <? na this
                              then ok (set_d this (memset0 (d this) 0 (na this)))
                              else Grow this 1) = Some (VLONG_SUCCESS, t)
                             /\ 1 <= na t /\ na this <= na t
                             /\ (digits_ok (d this) -> digits_ok (d t))).
    { destruct (1 <? na this) eqn:E1.
      - apply Z.ltb_lt in E1; eexists; split; [reflexivity|].
        unfold na; cbn [d set_d]; rewrite memset0_length; fold (na this).
        repeat apply conj; try lia; apply digits_ok_memset0.
      - apply Z.ltb_ge in E1; unfold Grow, ok.
        destruct (1 <=? na this) eqn:E2.
        + apply Z.leb_le in E2; eexists; split; [reflexivity|].
          destruct (nu this <? na this); unfold na; cbn [d set_d];
            rewrite ?memset0_length; fold (na this);
            repeat apply conj; try lia; auto using digits_ok_memset0.
        + apply Z.leb_gt in E2.
          change (VLONG_MAX_DIGITS <? 1) with false; cbv iota.
          eexists; split; [reflexivity|].
          unfold na; cbn [d set_d]; rewrite new_buffer_length by lia.
          fold (na this); repeat apply conj; try lia.
          intros Hd; unfold new_buffer; apply digits_ok_memcpy;
            [apply digits_ok_repeat0 | exact Hd]. }
    destruct Hbuf as (t & Et & Ht1 & Ht2 & Ht3); rewrite Et.
    change (VLONG_SUCCESS =? 0) with true; cbv iota.
    eexists; split; [reflexivity|].
    assert (Hm : forall sg x, 0 <= x < 2 ^ 32 ->
              magnitude (set_di (set_s (set_nu t 1) sg) 0 x) = x).
    { intros sg x Hx; unfold magnitude, set_di; cbn [d nu set_d set_s set_nu].
      change (Z.to_nat 1) with 1%nat; rewrite mag_S, mag_0.
      change (Z.of_nat 0) with 0; rewrite dget_dset_same by (fold (na t); lia).
      change (2 ^ (32 * 0)) with 1; lia. }
    destruct (0 <? v) eqn:E1.
    + apply Z.ltb_lt in E1.
      assert (Hu : udig_t v = v) by (unfold udig_t; apply Z.mod_small; lia).
      rewrite Hu, to_Z_magnitude, Hm by lia.
      unfold clamped, in_buffer, na, di, set_di;
        cbn [s nu d set_d set_s set_nu].
      rewrite dset_length; fold (na t).
      change (1 - 1) with 0; rewrite dget_dset_same by (fold (na t); lia).
      unfold MP_ZPOS; repeat apply conj; try lia; try (unfold na in *; lia).
      intros Hd; apply digits_ok_dset; [auto | lia].
    + apply Z.ltb_ge in E1.
      assert (Hu : udig_t (- v) = - v) by (unfold udig_t; apply Z.mod_small; lia).
      rewrite Hu, to_Z_magnitude, Hm by lia.
      unfold clamped, in_buffer, na, di, set_di;
        cbn [s nu d set_d set_s set_nu].
      rewrite dset_length; fold (na t).
      change (1 - 1) with 0; rewrite dget_dset_same by (fold (na t); lia).
      unfold MP_NEG; repeat apply conj; try lia; try (unfold na in *; lia).
      intros Hd; apply digits_ok_dset; [auto | lia].
Qed.

Lemma Copy_spec (this : vlong) (v : ref) :
  0 <= nu this ->
  nu (deref this v) <= na this \/ nu (deref this v) <= VLONG_MAX_DIGITS ->
  exists r, Copy this v = Some (VLONG_SUCCESS, r)
    /\ s r = s (deref this v) /\ nu r = nu (deref this v)
    /\ (forall i, i < nu r -> di r i = di (deref this v) i)
    /\ nu r <= na r /\ na this <= na r
    /\ (digits_ok (d this) -> digits_ok (d (deref this v)) -> digits_ok (d r)).
Proof.
  intros Hnu H; unfold Copy.
  destruct (na this <? nu (deref this v)) eqn:E.
  - apply Z.ltb_lt in E.
    destruct (Grow_spec this (nu (deref this v))) as
      (t & Et & Ht1 & Ht2 & Ht3 & Ht4 & Ht5 & Ht6); [lia|].
    specialize (Ht5 Hnu).
    rewrite Et; change (VLONG_SUCCESS =? 0) with true; cbv iota.
    destruct v as [|v]; cbn [deref] in *.
    + unfold na in E; fold (na this) in E.
      eexists; split; [reflexivity|].
      unfold di, na; cbn [s nu d]; rewrite memcpy_length; fold (na t).
      repeat apply conj; auto; try lia.
      * intros i Hi; rewrite dget_memcpy.
        destruct ((i <? nu t) && (i <? zlen (d t))); apply Ht5; lia.
      * intros Hd _; apply digits_ok_memcpy; auto.
    + eexists; split; [reflexivity|].
      unfold di, na; cbn [s nu d]; rewrite memcpy_length; fold (na t).
      repeat apply conj; auto; try lia.
      * intros i Hi; rewrite dget_memcpy.
        destruct (i <? nu v) eqn:E1; [|apply Z.ltb_ge in E1; lia].
        destruct (i <? zlen (d t)) eqn:E2; [reflexivity|].
        apply Z.ltb_ge in E2; fold (na t) in E2; lia.
      * intros Hd Hv; apply digits_ok_memcpy; auto.
  - apply Z.ltb_ge in E.
    unfold ok; change (VLONG_SUCCESS =? 0) with true; cbv iota.
    eexists; split; [reflexivity|].
    unfold di, na; cbn [s nu d]; rewrite memcpy_length; fold (na this).
    repeat apply conj; auto; try lia.
    + intros i Hi; rewrite dget_memcpy.
      destruct (i <? nu (deref this v)) eqn:E1; [|apply Z.ltb_ge in E1; lia].
      destruct (i <? zlen (d this)) eqn:E2; [reflexivity|].
      apply Z.ltb_ge in E2; fold (na this) in E2; lia.
    + intros Hd Hv; apply digits_ok_memcpy; auto.
Qed.

(** ** Comparisons *)

Lemma CompareMag_loop_spec (k : nat) (ad bd : list Z) :
  digits_ok ad -> digits_ok bd ->
  CompareMag_loop k ad bd = Z.sgn (mag ad k - mag bd k).
Proof.
  intros Ha Hb; induction k as [|k IH]; [now rewrite !mag_0|].
  cbn [CompareMag_loop]; rewrite !mag_S.
  pose proof (digits_ok_dget ad (Z.of_nat k) Ha) as Hda.
  pose proof (digits_ok_dget bd (Z.of_nat k) Hb) as Hdb.
  pose proof (mag_bound ad k Ha) as Hma.
  pose proof (mag_bound bd k Hb) as Hmb.
  set (P := 2 ^ (32 * Z.of_nat k)) in *.
  set (x := dget ad (Z.of_nat k)) in *.
  set (y := dget bd (Z.of_nat k)) in *.
  destruct (y <? x) eqn:E1.
  - apply Z.ltb_lt in E1; symmetry; apply Z.sgn_pos; nia.
  - apply Z.ltb_ge in E1.
    destruct (x <? y) eqn:E2.
    + apply Z.ltb_lt in E2; symmetry; apply Z.sgn_neg; nia.
    + apply Z.ltb_ge in E2; assert (x = y) by lia; subst y.
      rewrite IH; f_equal; lia.
Qed.

Lemma CompareMag_spec (a b : vlong) :
  well_formed a -> well_formed b -> clamped a -> clamped b ->
  CompareMag a b = Z.sgn (magnitude a - magnitude b).
Proof.
  intros (Hia & Hda & _) (Hib & Hdb & _) (Hca & _) (Hcb & _).
  unfold in_buffer in *; unfold CompareMag.
  pose proof (magnitude_bound a Hda) as Hma.
  pose proof (magnitude_bound b Hdb) as Hmb.
  rewrite Z2Nat.id in Hma, Hmb by lia.
  destruct (nu b <? nu a) eqn:E1.
  - apply Z.ltb_lt in E1.
    destruct Hca as [Hca | Hca]; [lia|].
    pose proof (magnitude_top a Hda ltac:(lia) Hca) as Ht.
    assert (2 ^ (32 * nu b) <= 2 ^ (32 * (nu a - 1)))
      by (apply Z.pow_le_mono_r; lia).
    symmetry; apply Z.sgn_pos; lia.
  - apply Z.ltb_ge in E1.
    destruct (nu a <? nu b) eqn:E2.
    + apply Z.ltb_lt in E2.
      destruct Hcb as [Hcb | Hcb]; [lia|].
      pose proof (magnitude_top b Hdb ltac:(lia) Hcb) as Ht.
      assert (2 ^ (32 * nu a) <= 2 ^ (32 * (nu b - 1)))
        by (apply Z.pow_le_mono_r; lia).
      symmetry; apply Z.sgn_neg; lia.
    + apply Z.ltb_ge in E2; assert (E : nu b = nu a) by lia.
      unfold magnitude; rewrite E.
      now apply CompareMag_loop_spec.
Qed.

Lemma clamped_sign (v : vlong) :
  well_formed v -> clamped v ->
  (nu v = 0 /\ magnitude v = 0 /\ s v = MP_ZPOS)
  \/ (0 < nu v /\ 0 < magnitude v).
Proof.
  intros (Hi & Hd & _) (Hc & Hs); unfold in_buffer in Hi.
  destruct (Z.eq_dec (nu v) 0) as [E | E].
  - left; repeat apply conj; auto; apply magnitude_zero; lia.
  - right; destruct Hc as [Hc | Hc]; [lia|].
    split; [lia | apply magnitude_pos; auto; lia].
Qed.

Lemma Compare_spec (a b : vlong) :
  well_formed a -> well_formed b -> clamped a -> clamped b ->
  Compare a b = Z.sgn (to_Z a - to_Z b).
Proof.
  intros Hwa Hwb Hca Hcb.
  pose proof (CompareMag_spec a b Hwa Hwb Hca Hcb) as Hab.
  pose proof (CompareMag_spec b a Hwb Hwa Hcb Hca) as Hba.
  pose proof (clamped_sign a Hwa Hca) as Ha.
  pose proof (clamped_sign b Hwb Hcb) as Hb.
  destruct Hwa as (_ & _ & Hsa), Hwb as (_ & _ & Hsb).
  rewrite !to_Z_magnitude; unfold Compare, MP_ZPOS, MP_NEG in *.
  destruct ((nu a =? 0) && (nu b =? 0)) eqn:E0.
  - apply andb_true_iff in E0; destruct E0 as [E1 E2].
    apply Z.eqb_eq in E1, E2.
    destruct Ha as [(_ & Ha & _) | Ha]; [|lia].
    destruct Hb as [(_ & Hb & _) | Hb]; [|lia].
    rewrite Ha, Hb, !Z.mul_0_r; reflexivity.
  - assert (Hnz : 0 < nu a \/ 0 < nu b).
    { apply andb_false_iff in E0; destruct E0 as [E0 | E0];
        apply Z.eqb_neq in E0; destruct Ha as [Ha | Ha], Hb as [Hb | Hb]; lia. }
    destruct (s a =? s b) eqn:E1; cbn [negb].
    + apply Z.eqb_eq in E1.
      destruct (s a <? 0) eqn:E2.
      * apply Z.ltb_lt in E2; rewrite Hba.
        assert (s a = -1) by lia; assert (s b = -1) by lia.
        f_equal; lia.
      * apply Z.ltb_ge in E2; rewrite Hab.
        assert (s a = 1) by lia; assert (s b = 1) by lia.
        f_equal; lia.
    + apply Z.eqb_neq in E1.
      destruct (s a <? 0) eqn:E2.
      * apply Z.ltb_lt in E2.
        assert (s a = -1) by lia; assert (s b = 1) by lia.
        symmetry; apply Z.sgn_neg.
        destruct Ha as [Ha | Ha]; [lia|]; destruct Hb as [Hb | Hb]; lia.
      * apply Z.ltb_ge in E2.
        assert (s a = 1) by lia; assert (s b = -1) by lia.
        symmetry; apply Z.sgn_pos.
        destruct Hb as [Hb | Hb]; [lia|]; destruct Ha as [Ha | Ha]; lia.
Qed.

(** ** Words and digits *)

Lemma pow32_pos (j : Z) : 0 <= j -> 0 < 2 ^ (32 * j).
Proof. intros H; apply Z.pow_pos_nonneg; lia. Qed.

Lemma pow32_succ (j : Z) : 0 <= j -> 2 ^ (32 * (j + 1)) = 2 ^ 32 * 2 ^ (32 * j).
Proof.
  intros H; replace (32 * (j + 1)) with (32 + 32 * j) by lia.
  apply Z.pow_add_r; lia.
Qed.

(** The low digit and the carry of a 64-bit word. *)
Lemma word_split (x : Z) :
  0 <= x < 2 ^ 64 ->
  udig_t (Z.land (uwrd_t x) MP_MASK_DIG) = x mod 2 ^ 32
  /\ udig_t (Z.shiftr (uwrd_t x) BiD) = x / 2 ^ 32.
Proof.
  intros H; unfold uwrd_t, udig_t, BiD.
  rewrite (Z.mod_small x (2 ^ 64)) by exact H.
  change MP_MASK_DIG with (Z.ones 32).
  rewrite Z.land_ones, Z.shiftr_div_pow2 by lia.
  split; [apply Z.mod_mod; lia|].
  apply Z.mod_small; split; [apply Z.div_pos; lia|].
  apply Z.div_lt_upper_bound; lia.
Qed.

(** The low digit and the borrow of a signed 64-bit difference. *)
Lemma diff_split (x : Z) :
  - 2 ^ 32 <= x < 2 ^ 32 ->
  udig_t (Z.land (swrd_t x) MP_MASK_DIG)
  = x + (if swrd_t x <? 0 then 1 else 0) * 2 ^ 32
  /\ 0 <= x + (if swrd_t x <? 0 then 1 else 0) * 2 ^ 32 < 2 ^ 32.
Proof.
  intros H; unfold swrd_t, udig_t.
  rewrite (Z.mod_small (x + 2 ^ 63) (2 ^ 64)) by lia.
  replace (x + 2 ^ 63 - 2 ^ 63) with x by lia.
  change MP_MASK_DIG with (Z.ones 32); rewrite Z.land_ones by lia.
  rewrite Z.mod_mod by lia.
  destruct (x <? 0) eqn:E.
  - apply Z.ltb_lt in E.
    replace (x mod 2 ^ 32) with ((x + 1 * 2 ^ 32) mod 2 ^ 32)
      by (apply Z.mod_add; lia).
    rewrite Z.mod_small by lia; lia.
  - apply Z.ltb_ge in E; rewrite Z.mod_small by lia; lia.
Qed.

Lemma mag_step (dd : list Z) (j x : Z) :
  0 <= j < zlen dd ->
  mag (dset dd j x) (Z.to_nat (j + 1))
  = mag dd (Z.to_nat j) + x * 2 ^ (32 * j).
Proof.
  intros H; replace (Z.to_nat (j + 1)) with (S (Z.to_nat j)) by lia.
  rewrite mag_S, mag_dset_above by lia.
  rewrite Z2Nat.id by lia; rewrite dget_dset_same by exact H; reflexivity.
Qed.

Lemma mag_next (dd : list Z) (j : Z) :
  0 <= j ->
  mag dd (Z.to_nat (j + 1)) = mag dd (Z.to_nat j) + dget dd j * 2 ^ (32 * j).
Proof.
  intros H; replace (Z.to_nat (j + 1)) with (S (Z.to_nat j)) by lia.
  rewrite mag_S, Z2Nat.id by lia; reflexivity.
Qed.

Lemma mag_bound_prefix (l : list Z) (n : nat) :
  prefix_ok l (Z.of_nat n) -> 0 <= mag l n < 2 ^ (32 * Z.of_nat n).
Proof.
  induction n as [|n IH]; intros H; [rewrite mag_0; simpl; lia|].
  rewrite mag_S.
  assert (Hd : 0 <= dget l (Z.of_nat n) < 2 ^ 32) by (apply H; lia).
  assert (Hm : 0 <= mag l n < 2 ^ (32 * Z.of_nat n))
    by (apply IH; intros i Hi; apply H; lia).
  replace (32 * Z.of_nat (S n)) with (32 + 32 * Z.of_nat n) by lia.
  rewrite Z.pow_add_r by lia.
  assert (0 < 2 ^ (32 * Z.of_nat n)) by (apply Z.pow_pos_nonneg; lia).
  nia.
Qed.

Lemma prefix_ok_0 (l : list Z) : prefix_ok l 0.
Proof. intros i Hi; lia. Qed.

Lemma prefix_ok_dset (l : list Z) (j x : Z) :
  prefix_ok l j -> 0 <= x < 2 ^ 32 -> 0 <= j < zlen l ->
  prefix_ok (dset l j x) (j + 1).
Proof.
  intros H Hx Hj i Hi; rewrite dget_dset by exact Hj.
  destruct (i =? j) eqn:E; [exact Hx|].
  apply Z.eqb_neq in E; apply H; lia.
Qed.

Lemma digits_ok_prefix (l : list Z) (n : Z) : digits_ok l -> prefix_ok l n.
Proof. intros H i _; now apply digits_ok_dget. Qed.

(** Carry propagation: the invariant of an addition loop that adds the
    digit [X i] and the carry at position [i]. *)
Lemma ripple_add (f : Z -> vlong * Z -> vlong * Z) (A X : Z -> Z)
  (n : nat) (i0 : Z) (c : vlong) (u : Z) :
  (forall i c u,
     f i (c, u)
     = (set_di c i (udig_t (Z.land (uwrd_t (X i + u)) MP_MASK_DIG)),
        udig_t (Z.shiftr (uwrd_t (X i + u)) BiD))) ->
  0 <= i0 -> i0 + Z.of_nat n <= na c ->
  (forall j, i0 <= j < i0 + Z.of_nat n ->
     0 <= X j <= 2 ^ 33 - 2 /\ A (j + 1) = A j + X j * 2 ^ (32 * j)) ->
  0 <= u <= 1 ->
  mag (d c) (Z.to_nat i0) + u * 2 ^ (32 * i0) = A i0 ->
  prefix_ok (d c) i0 ->
  exists c' u',
    for_up n i0 f (c, u) = (c', u') /\ 0 <= u' <= 1
    /\ mag (d c') (Z.to_nat (i0 + Z.of_nat n))
       + u' * 2 ^ (32 * (i0 + Z.of_nat n)) = A (i0 + Z.of_nat n)
    /\ prefix_ok (d c') (i0 + Z.of_nat n)
    /\ na c' = na c /\ s c' = s c /\ nu c' = nu c
    /\ (digits_ok (d c) -> digits_ok (d c')).
Proof.
  intros Hf Hi0 Hlen HX Hu H0 Hp0.
  pose (P := fun (j : Z) (st : vlong * Z) =>
    0 <= snd st <= 1
    /\ mag (d (fst st)) (Z.to_nat j) + snd st * 2 ^ (32 * j) = A j
    /\ prefix_ok (d (fst st)) j
    /\ na (fst st) = na c /\ s (fst st) = s c /\ nu (fst st) = nu c
    /\ (digits_ok (d c) -> digits_ok (d (fst st)))).
  assert (HP : P (i0 + Z.of_nat n) (for_up n i0 f (c, u))).
  { apply for_up_ind.
    - unfold P; cbn [fst snd]; repeat apply conj; auto; lia.
    - intros j [c1 u1] Hj (Hu1 & Hm & Hp & Hna & Hs & Hnu & Hd).
      cbn [fst snd] in *; rewrite Hf.
      destruct (HX j Hj) as [HXj HA].
      destruct (word_split (X j + u1)) as [E1 E2]; [lia|].
      rewrite E1, E2; unfold P; cbn [fst snd].
      assert (Hq : 0 <= (X j + u1) / 2 ^ 32 <= 1).
      { split; [apply Z.div_pos; lia|].
        assert ((X j + u1) / 2 ^ 32 < 2)
          by (apply Z.div_lt_upper_bound; lia); lia. }
      assert (Hr : 0 <= (X j + u1) mod 2 ^ 32 < 2 ^ 32)
        by (apply Z.mod_pos_bound; lia).
      unfold set_di, na; cbn [d s nu set_d]; rewrite dset_length.
      fold (na c1).
      split; [exact Hq|]; split.
      { rewrite mag_step by (fold (na c1); lia).
        rewrite HA, <- Hm, pow32_succ by lia.
        pose proof (Z.div_mod (X j + u1) (2 ^ 32) ltac:(lia)) as Hdm.
        nia. }
      split; [apply prefix_ok_dset; auto; fold (na c1); lia|].
      repeat apply conj; auto.
      intros Hd0; apply digits_ok_dset; auto. }
  destruct (for_up n i0 f (c, u)) as [c' u'].
  exists c', u'; split; [reflexivity | exact HP].
Qed.

(** Borrow propagation: the invariant of a subtraction loop that subtracts
    the borrow from the digit difference [X i] at position [i]. *)
Lemma ripple_sub (f : Z -> vlong * Z -> vlong * Z) (A X : Z -> Z)
  (n : nat) (i0 : Z) (c : vlong) (u : Z) :
  (forall i c u,
     f i (c, u)
     = (set_di c i (udig_t (Z.land (swrd_t (X i - u)) MP_MASK_DIG)),
        if swrd_t (X i - u) <? 0 then 1 else 0)) ->
  0 <= i0 -> i0 + Z.of_nat n <= na c ->
  (forall j, i0 <= j < i0 + Z.of_nat n ->
     - 2 ^ 32 < X j < 2 ^ 32 /\ A (j + 1) = A j + X j * 2 ^ (32 * j)) ->
  0 <= u <= 1 ->
  mag (d c) (Z.to_nat i0) - u * 2 ^ (32 * i0) = A i0 ->
  prefix_ok (d c) i0 ->
  exists c' u',
    for_up n i0 f (c, u) = (c', u') /\ 0 <= u' <= 1
    /\ mag (d c') (Z.to_nat (i0 + Z.of_nat n))
       - u' * 2 ^ (32 * (i0 + Z.of_nat n)) = A (i0 + Z.of_nat n)
    /\ prefix_ok (d c') (i0 + Z.of_nat n)
    /\ na c' = na c /\ s c' = s c /\ nu c' = nu c
    /\ (digits_ok (d c) -> digits_ok (d c')).
Proof.
  intros Hf Hi0 Hlen HX Hu H0 Hp0.
  pose (P := fun (j : Z) (st : vlong * Z) =>
    0 <= snd st <= 1
    /\ mag (d (fst st)) (Z.to_nat j) - snd st * 2 ^ (32 * j) = A j
    /\ prefix_ok (d (fst st)) j
    /\ na (fst st) = na c /\ s (fst st) = s c /\ nu (fst st) = nu c
    /\ (digits_ok (d c) -> digits_ok (d (fst st)))).
  assert (HP : P (i0 + Z.of_nat n) (for_up n i0 f (c, u))).
  { apply for_up_ind.
    - unfold P; cbn [fst snd]; repeat apply conj; auto; lia.
    - intros j [c1 u1] Hj (Hu1 & Hm & Hp & Hna & Hs & Hnu & Hd).
      cbn [fst snd] in *; rewrite Hf.
      destruct (HX j Hj) as [HXj HA].
      destruct (diff_split (X j - u1)) as [E1 E2]; [lia|].
      rewrite E1; unfold P; cbn [fst snd].
      set (b' := if swrd_t (X j - u1) <? 0 then 1 else 0) in *.
      assert (Hb' : 0 <= b' <= 1)
        by (unfold b'; destruct (swrd_t (X j - u1) <? 0); lia).
      unfold set_di, na; cbn [d s nu set_d]; rewrite dset_length.
      fold (na c1).
      split; [exact Hb'|]; split.
      { rewrite mag_step by (fold (na c1); lia).
        rewrite HA, <- Hm, pow32_succ by lia; ring. }
      split; [apply prefix_ok_dset; auto; fold (na c1); lia|].
      repeat apply conj; auto.
      intros Hd0; apply digits_ok_dset; auto. }
  destruct (for_up n i0 f (c, u)) as [c' u'].
  exists c', u'; split; [reflexivity | exact HP].
Qed.

(** ** Addition and subtraction of magnitudes *)

Lemma Grow_if (c : vlong) (n : Z) :
  n <= VLONG_MAX_DIGITS ->
  exists c1, (if na c <? n then Grow c n else ok c) = Some (VLONG_SUCCESS, c1)
    /\ n <= na c1 /\ na c <= na c1 /\ nu c1 = nu c /\ s c1 = s c
    /\ (0 <= nu c -> forall i, i < nu c -> di c1 i = di c i)
    /\ (digits_ok (d c) -> digits_ok (d c1)).
Proof.
  intros H; destruct (na c <? n) eqn:E.
  - apply Grow_spec; lia.
  - apply Z.ltb_ge in E; exists c; repeat apply conj; auto; lia.
Qed.

Lemma magnitude_top' (v : vlong) :
  digits_ok (d v) -> 0 <= nu v -> top_nonzero v ->
  nu v = 0 \/ 2 ^ (32 * (nu v - 1)) <= magnitude v.
Proof.
  intros Hd Hn [Ht | Ht]; [left; exact Ht|].
  destruct (Z.eq_dec (nu v) 0) as [E | E]; [left; exact E|].
  right; apply magnitude_top; auto; lia.
Qed.

Lemma prvAddMag_spec (this : vlong) (a b : ref) :
  well_formed (deref this a) -> well_formed (deref this b) ->
  nu (deref this a) < VLONG_MAX_DIGITS ->
  nu (deref this b) < VLONG_MAX_DIGITS ->
  exists r, prvAddMag this a b = Some (VLONG_SUCCESS, r)
    /\ s r = s this
    /\ magnitude r = magnitude (deref this a) + magnitude (deref this b)
    /\ in_buffer r /\ (digits_ok (d this) -> digits_ok (d r))
    /\ Z.max (nu (deref this a)) (nu (deref this b)) <= nu r
       <= Z.max (nu (deref this a)) (nu (deref this b)) + 1
    /\ (top_nonzero (deref this a) -> top_nonzero (deref this b) ->
        top_nonzero r).
Proof.
  intros (Hia & Hda & _) (Hib & Hdb & _) Hla Hlb.
  unfold prvAddMag; cbv zeta.
  set (av := deref this a) in *; set (bv := deref this b) in *.
  set (nmin := if nu av <? nu bv then nu av else nu bv).
  set (nmax := if nu bv <? nu av then nu av else nu bv).
  set (x := if nu av <? nu bv then bv else av).
  set (M := mag (d av) (Z.to_nat nmin) + mag (d bv) (Z.to_nat nmin)
            - mag (d x) (Z.to_nat nmin)).
  pose proof (magnitude_nonneg av Hda) as Hma0.
  pose proof (magnitude_nonneg bv Hdb) as Hmb0.
  assert (F : 0 <= nmin <= nmax /\ nmax < VLONG_MAX_DIGITS /\ digits_ok (d x)
              /\ nmax = Z.max (nu av) (nu bv)
              /\ mag (d x) (Z.to_nat nmax) + M = magnitude av + magnitude bv
              /\ (top_nonzero av -> top_nonzero bv ->
                  nmax = 0
                  \/ 2 ^ (32 * (nmax - 1)) <= magnitude av + magnitude bv)).
  { unfold in_buffer in Hia, Hib.
    assert (Ta : top_nonzero av -> nu av = 0
                 \/ 2 ^ (32 * (nu av - 1)) <= magnitude av)
      by (apply magnitude_top'; auto; lia).
    assert (Tb : top_nonzero bv -> nu bv = 0
                 \/ 2 ^ (32 * (nu bv - 1)) <= magnitude bv)
      by (apply magnitude_top'; auto; lia).
    unfold M, nmin, nmax, x, magnitude in *.
    destruct (nu av <? nu bv) eqn:E1; destruct (nu bv <? nu av) eqn:E2;
      try apply Z.ltb_lt in E1; try apply Z.ltb_lt in E2;
      try apply Z.ltb_ge in E1; try apply Z.ltb_ge in E2;
      repeat apply conj; auto; try lia;
      try (intros Ha Hb; specialize (Ta Ha); specialize (Tb Hb); lia).
    replace (nu bv) with (nu av) by lia; lia. }
  destruct F as (Hmm & Hmax & Hdx & Hnmax & HM & Htop).
  set (c0 := if is_this a || is_this b then Init else this).
  assert (Hc0 : digits_ok (d this) -> digits_ok (d c0)).
  { unfold c0; destruct (is_this a || is_this b); [intros _; constructor | auto]. }
  destruct (Grow_if c0 (nmax + 1)) as (c1 & E1 & Hn1 & _ & _ & Hs1 & _ & Hd1);
    [lia|].
  rewrite E1; change (VLONG_SUCCESS =? 0) with true; cbv iota.
  set (c2 := set_nu (set_d c1 (memset0 (d c1) 0 (nu this))) nmax).
  assert (Hc2 : na c2 = na c1 /\ s c2 = s c1 /\ nu c2 = nmax
                /\ (digits_ok (d c1) -> digits_ok (d c2))).
  { unfold c2, na; cbn [d s nu set_d set_nu]; rewrite memset0_length.
    repeat apply conj; auto using digits_ok_memset0. }
  destruct Hc2 as (Hn2 & Hs2 & Hu2 & Hd2).
  match goal with
  | |- context [for_up (Z.to_nat nmin) 0 ?f (c2, 0)] =>
      destruct (ripple_add f
                  (fun j => mag (d av) (Z.to_nat j) + mag (d bv) (Z.to_nat j))
                  (fun i => di av i + di bv i)
                  (Z.to_nat nmin) 0 c2 0)
        as (c3 & u3 & E3 & Hu3 & Hm3 & Hp3 & Hn3 & Hs3 & Hnu3 & Hd3)
  end.
  { intros i c u; reflexivity. }
  { lia. }
  { lia. }
  { intros j Hj; split.
    - pose proof (digits_ok_dget (d av) j Hda).
      pose proof (digits_ok_dget (d bv) j Hdb).
      unfold di; lia.
    - rewrite !mag_next by lia; unfold di; ring. }
  { lia. }
  { change (Z.to_nat 0) with 0%nat; rewrite !mag_0; lia. }
  { apply prefix_ok_0. }
  rewrite E3; cbv iota beta.
  replace (0 + Z.of_nat (Z.to_nat nmin)) with nmin in Hm3, Hp3 by lia.
  match goal with
  | |- context [for_up (Z.to_nat (nmax - nmin)) nmin ?f (c3, u3)] =>
      destruct (ripple_add f
                  (fun j => mag (d x) (Z.to_nat j) + M)
                  (fun i => di x i)
                  (Z.to_nat (nmax - nmin)) nmin c3 u3)
        as (c4 & u4 & E4 & Hu4 & Hm4 & Hp4 & Hn4 & Hs4 & Hnu4 & Hd4)
  end.
  { intros i c u; reflexivity. }
  { lia. }
  { lia. }
  { intros j Hj; split.
    - pose proof (digits_ok_dget (d x) j Hdx); unfold di; lia.
    - rewrite mag_next by lia; unfold di; ring. }
  { lia. }
  { rewrite Hm3; unfold M; ring. }
  { exact Hp3. }
  rewrite E4; cbv iota beta.
  replace (nmin + Z.of_nat (Z.to_nat (nmax - nmin))) with nmax in Hm4, Hp4
    by lia.
  rewrite HM in Hm4.
  set (r0 := if 0 <? u4 then set_nu (set_di c4 nmax u4) (nu c4 + 1) else c4).
  assert (Hr0 : s r0 = s c0 /\ magnitude r0 = magnitude av + magnitude bv
                /\ in_buffer r0 /\ (digits_ok (d this) -> digits_ok (d r0))
                /\ nmax <= nu r0 <= nmax + 1
                /\ (top_nonzero av -> top_nonzero bv -> top_nonzero r0)).
  { unfold r0; destruct (0 <? u4) eqn:E5.
    - apply Z.ltb_lt in E5.
      unfold magnitude at 1; unfold in_buffer, top_nonzero at 3, na, di, set_di;
        cbn [s d nu set_d set_nu].
      rewrite dset_length; fold (na c4).
      rewrite Hnu4, Hnu3, Hu2, mag_step by (fold (na c4); lia).
      replace (nmax + 1 - 1) with nmax by lia.
      rewrite dget_dset_same by (fold (na c4); lia).
      repeat apply conj; try lia.
      intros Hd; apply digits_ok_dset; [auto 10 | lia].
    - apply Z.ltb_ge in E5; assert (u4 = 0) by lia; subst u4.
      unfold magnitude at 1; unfold in_buffer, top_nonzero at 3.
      rewrite Hnu4, Hnu3, Hu2.
      repeat apply conj; try lia; auto 10.
      intros Ta Tb; destruct (Htop Ta Tb) as [Hz | Hz]; [left; exact Hz|].
      destruct (Z.eq_dec nmax 0) as [Ez | Ez]; [left; exact Ez|].
      right; intros Ht; unfold di in Ht.
      assert (Hlow : 0 <= mag (d c4) (Z.to_nat (nmax - 1))
                     < 2 ^ (32 * (nmax - 1))).
      { pose proof (mag_bound_prefix (d c4) (Z.to_nat (nmax - 1))) as Hb.
        rewrite Z2Nat.id in Hb by lia; apply Hb.
        intros i Hi; apply Hp4; lia. }
      pose proof (mag_next (d c4) (nmax - 1) ltac:(lia)) as Hnx.
      replace (nmax - 1 + 1) with nmax in Hnx by lia.
      rewrite Ht in Hnx; lia. }
  destruct Hr0 as (Hsr & Hmr & Hir & Hdr & Hnr & Htr).
  eexists; split; [reflexivity|].
  subst c0; destruct (is_this a || is_this b).
  - unfold prvMovePtr, magnitude, in_buffer, top_nonzero, di, na in *;
      cbn [s d nu].
    repeat apply conj; auto; lia.
  - unfold in_buffer in *; repeat apply conj; auto; lia.
Qed.

Lemma prvSubMag_spec (this : vlong) (a b : ref) :
  well_formed (deref this a) -> well_formed (deref this b) ->
  nu (deref this b) <= nu (deref this a) ->
  magnitude (deref this b) <= magnitude (deref this a) ->
  nu (deref this a) <= VLONG_MAX_DIGITS ->
  exists r, prvSubMag this a b = Some (VLONG_SUCCESS, r)
    /\ to_Z r = s this * (magnitude (deref this a) - magnitude (deref this b))
    /\ magnitude r = magnitude (deref this a) - magnitude (deref this b)
    /\ (s r = s this \/ s r = MP_ZPOS)
    /\ clamped r /\ in_buffer r /\ (digits_ok (d this) -> digits_ok (d r))
    /\ nu r <= nu (deref this a).
Proof.
  intros (Hia & Hda & _) (Hib & Hdb & _) Hnab Hmab Hla.
  unfold prvSubMag; cbv zeta.
  set (av := deref this a) in *; set (bv := deref this b) in *.
  unfold in_buffer in Hia, Hib.
  set (c0 := if is_this a || is_this b then Init else this).
  assert (Hc0 : digits_ok (d this) -> digits_ok (d c0)).
  { unfold c0; destruct (is_this a || is_this b); [intros _; constructor | auto]. }
  destruct (Grow_if c0 (nu av)) as (c1 & E1 & Hn1 & _ & _ & Hs1 & _ & Hd1);
    [lia|].
  rewrite E1; change (VLONG_SUCCESS =? 0) with true; cbv iota.
  set (c2 := set_nu (set_d c1 (memset0 (d c1) 0 (nu av))) (nu av)).
  assert (Hc2 : na c2 = na c1 /\ s c2 = s c1 /\ nu c2 = nu av
                /\ (digits_ok (d c1) -> digits_ok (d c2))).
  { unfold c2, na; cbn [d s nu set_d set_nu]; rewrite memset0_length.
    repeat apply conj; auto using digits_ok_memset0. }
  destruct Hc2 as (Hn2 & Hs2 & Hu2 & Hd2).
  match goal with
  | |- context [for_up (Z.to_nat (nu bv)) 0 ?f (c2, 0)] =>
      destruct (ripple_sub f
                  (fun j => mag (d av) (Z.to_nat j) - mag (d bv) (Z.to_nat j))
                  (fun i => di av i - di bv i)
                  (Z.to_nat (nu bv)) 0 c2 0)
        as (c3 & u3 & E3 & Hu3 & Hm3 & Hb3 & Hn3 & Hs3 & Hnu3 & Hd3)
  end.
  { intros i c u; reflexivity. }
  { lia. }
  { lia. }
  { intros j Hj; split.
    - pose proof (digits_ok_dget (d av) j Hda).
      pose proof (digits_ok_dget (d bv) j Hdb).
      unfold di; lia.
    - rewrite !mag_next by lia; unfold di; ring. }
  { lia. }
  { change (Z.to_nat 0) with 0%nat; rewrite !mag_0; lia. }
  { apply prefix_ok_0. }
  rewrite E3; cbv iota beta.
  replace (0 + Z.of_nat (Z.to_nat (nu bv))) with (nu bv) in Hm3, Hb3 by lia.
  match goal with
  | |- context [for_up (Z.to_nat (nu av - nu bv)) (nu bv) ?f (c3, u3)] =>
      destruct (ripple_sub f
                  (fun j => mag (d av) (Z.to_nat j) - magnitude bv)
                  (fun i => di av i)
                  (Z.to_nat (nu av - nu bv)) (nu bv) c3 u3)
        as (c4 & u4 & E4 & Hu4 & Hm4 & Hb4 & Hn4 & Hs4 & Hnu4 & Hd4)
  end.
  { intros i c u; reflexivity. }
  { lia. }
  { lia. }
  { intros j Hj; split.
    - pose proof (digits_ok_dget (d av) j Hda); unfold di; lia.
    - rewrite mag_next by lia; unfold di; ring. }
  { lia. }
  { exact Hm3. }
  { exact Hb3. }
  rewrite E4; cbv iota beta.
  replace (nu bv + Z.of_nat (Z.to_nat (nu av - nu bv))) with (nu av)
    in Hm4, Hb4 by lia.
  fold (magnitude av) in Hm4.
  assert (Hu0 : u4 = 0).
  { pose proof (pow32_pos (nu av) ltac:(lia)).
    pose proof (mag_bound_prefix (d c4) (Z.to_nat (nu av))) as Hb.
    rewrite Z2Nat.id in Hb by lia; specialize (Hb Hb4); nia. }
  subst u4.
  set (r0 := if is_this a || is_this b then prvMovePtr this c4 else c4).
  assert (Hr0 : s r0 = s this /\ nu r0 = nu av /\ d r0 = d c4).
  { unfold r0, c0 in *; destruct (is_this a || is_this b);
      unfold prvMovePtr; cbn [s d nu]; repeat apply conj; auto; lia. }
  destruct Hr0 as (Hsr & Hnr & Hdr).
  destruct (Clamp_spec r0) as (Hcl & Hmg & Htz & Hdd & Hnn & Hss); [lia|].
  assert (Hmr : magnitude r0 = magnitude av - magnitude bv).
  { unfold magnitude at 1; rewrite Hnr, Hdr; lia. }
  eexists; split; [reflexivity|].
  unfold in_buffer, na; rewrite Hdd, Hdr; fold (na c4).
  rewrite Htz, Hmg, to_Z_magnitude, Hmr, Hsr.
  split; [reflexivity|]; split; [reflexivity|].
  split; [destruct Hss as [Hss | Hss]; [left; congruence | right; exact Hss]|].
  split; [exact Hcl|]; split; [lia|]; split; [auto 10 | lia].
Qed.

(** ** Signed addition and subtraction *)

(** Assigning the sign of the receiver first, as [Add] and [Sub] do, does
    not change the digits an argument denotes, also when the argument is the
    receiver. *)
Lemma deref_set_s (this : vlong) (x : Z) (a : ref) :
  x = MP_ZPOS \/ x = MP_NEG ->
  well_formed (deref this a) ->
  well_formed (deref (set_s this x) a)
  /\ magnitude (deref (set_s this x) a) = magnitude (deref this a)
  /\ nu (deref (set_s this x) a) = nu (deref this a)
  /\ (top_nonzero (deref this a) -> top_nonzero (deref (set_s this x) a)).
Proof.
  intros Hx Hw; destruct a as [|v]; cbn [deref]; [|tauto].
  destruct Hw as (Hi & Hd & _).
  split; [split; [exact Hi | split; [exact Hd | exact Hx]]|].
  split; [reflexivity|]; split; [reflexivity|]; intros H; exact H.
Qed.

Lemma CompareMag_nu (a b : vlong) :
  (CompareMag a b = MP_LT -> nu a <= nu b)
  /\ (CompareMag a b = MP_GT -> nu b <= nu a)
  /\ (CompareMag a b <> MP_LT -> nu b <= nu a)
  /\ (CompareMag a b <> MP_GT -> nu a <= nu b).
Proof.
  unfold CompareMag, MP_LT, MP_GT.
  destruct (nu b <? nu a) eqn:E1.
  - apply Z.ltb_lt in E1; repeat apply conj; intros; lia.
  - apply Z.ltb_ge in E1.
    destruct (nu a <? nu b) eqn:E2.
    + apply Z.ltb_lt in E2; repeat apply conj; intros; lia.
    + apply Z.ltb_ge in E2; repeat apply conj; intros; lia.
Qed.

Lemma Add_spec (this : vlong) (a b : ref) :
  well_formed (deref this a) -> well_formed (deref this b) ->
  clamped (deref this a) -> clamped (deref this b) ->
  nu (deref this a) < VLONG_MAX_DIGITS ->
  nu (deref this b) < VLONG_MAX_DIGITS ->
  exists r, Add this a b = Some (VLONG_SUCCESS, r)
    /\ to_Z r = to_Z (deref this a) + to_Z (deref this b)
    /\ clamped r /\ in_buffer r
    /\ (s r = MP_ZPOS \/ s r = MP_NEG)
    /\ (digits_ok (d this) -> digits_ok (d r))
    /\ nu r <= Z.max (nu (deref this a)) (nu (deref this b)) + 1.
Proof.
  intros Hwa Hwb Hca Hcb Hla Hlb.
  pose proof (CompareMag_spec _ _ Hwa Hwb Hca Hcb) as Hcmp.
  pose proof (CompareMag_nu (deref this a) (deref this b)) as (N1 & _ & N3 & _).
  pose proof (Z.sgn_spec (magnitude (deref this a) - magnitude (deref this b)))
    as Hsg.
  assert (Hsa : s (deref this a) = MP_ZPOS \/ s (deref this a) = MP_NEG)
    by apply Hwa.
  assert (Hsb : s (deref this b) = MP_ZPOS \/ s (deref this b) = MP_NEG)
    by apply Hwb.
  unfold Add; cbv zeta.
  destruct (s (deref this a) =? s (deref this b)) eqn:Es.
  - apply Z.eqb_eq in Es.
    destruct (deref_set_s this (s (deref this a)) a Hsa Hwa)
      as (Wa & Ma & Na & Ta).
    destruct (deref_set_s this (s (deref this a)) b Hsa Hwb)
      as (Wb & Mb & Nb & Tb).
    destruct (prvAddMag_spec (set_s this (s (deref this a))) a b Wa Wb)
      as (r & Er & Sr & Mr & Ir & Dr & Nr & Tr); [lia | lia |].
    exists r; split; [exact Er|].
    rewrite Ma, Mb in Mr; rewrite Na, Nb in Nr; cbn [s set_s] in Sr.
    rewrite !to_Z_magnitude, Mr, Sr, <- Es.
    split; [ring|]; split; [|split; [exact Ir|split; [congruence|split]]].
    + split; [apply Tr; [apply Ta, Hca | apply Tb, Hcb]|].
      intros Hz; rewrite Sr; apply Hca.
      destruct Hwa as (Hia & _); unfold in_buffer in Hia; lia.
    + exact Dr.
    + lia.
  - apply Z.eqb_neq in Es.
    destruct (CompareMag (deref this a) (deref this b) =? MP_LT) eqn:El.
    + apply Z.eqb_eq in El.
      destruct (deref_set_s this (s (deref this b)) a Hsb Hwa)
        as (Wa & Ma & Na & Ta).
      destruct (deref_set_s this (s (deref this b)) b Hsb Hwb)
        as (Wb & Mb & Nb & Tb).
      destruct (prvSubMag_spec (set_s this (s (deref this b))) b a Wb Wa)
        as (r & Er & Zr & Mr & Sr & Cr & Ir & Dr & Nr).
      { rewrite Na, Nb; auto. }
      { rewrite Ma, Mb; unfold MP_LT in *; lia. }
      { lia. }
      exists r; split; [exact Er|].
      rewrite Ma, Mb in Zr; rewrite Nb in Nr; cbn [s set_s] in Zr, Sr.
      rewrite Zr, !to_Z_magnitude.
      split; [unfold MP_ZPOS, MP_NEG in *; nia|].
      split; [exact Cr|]; split; [exact Ir|]; split; [|split; [exact Dr | lia]].
      destruct Sr as [Sr | Sr]; rewrite Sr; auto.
    + apply Z.eqb_neq in El.
      destruct (deref_set_s this (s (deref this a)) a Hsa Hwa)
        as (Wa & Ma & Na & Ta).
      destruct (deref_set_s this (s (deref this a)) b Hsa Hwb)
        as (Wb & Mb & Nb & Tb).
      destruct (prvSubMag_spec (set_s this (s (deref this a))) a b Wa Wb)
        as (r & Er & Zr & Mr & Sr & Cr & Ir & Dr & Nr).
      { rewrite Na, Nb; auto. }
      { rewrite Ma, Mb; unfold MP_LT in *; lia. }
      { lia. }
      exists r; split; [exact Er|].
      rewrite Ma, Mb in Zr; rewrite Na in Nr; cbn [s set_s] in Zr, Sr.
      rewrite Zr, !to_Z_magnitude.
      split; [unfold MP_ZPOS, MP_NEG in *; nia|].
      split; [exact Cr|]; split; [exact Ir|]; split; [|split; [exact Dr | lia]].
      destruct Sr as [Sr | Sr]; rewrite Sr; auto.
Qed.

Lemma Sub_spec (this : vlong) (a b : ref) :
  well_formed (deref this a) -> well_formed (deref this b) ->
  clamped (deref this a) -> clamped (deref this b) ->
  nu (deref this a) < VLONG_MAX_DIGITS ->
  nu (deref this b) < VLONG_MAX_DIGITS ->
  exists r, Sub this a b = Some (VLONG_SUCCESS, r)
    /\ to_Z r = to_Z (deref this a) - to_Z (deref this b)
    /\ clamped r /\ in_buffer r
    /\ (s r = MP_ZPOS \/ s r = MP_NEG)
    /\ (digits_ok (d this) -> digits_ok (d r))
    /\ nu r <= Z.max (nu (deref this a)) (nu (deref this b)) + 1.
Proof.
  intros Hwa Hwb Hca Hcb Hla Hlb.
  pose proof (CompareMag_spec _ _ Hwa Hwb Hca Hcb) as Hcmp.
  pose proof (CompareMag_nu (deref this a) (deref this b)) as (_ & N2 & _ & N4).
  pose proof (Z.sgn_spec (magnitude (deref this a) - magnitude (deref this b)))
    as Hsg.
  assert (Hsa : s (deref this a) = MP_ZPOS \/ s (deref this a) = MP_NEG)
    by apply Hwa.
  assert (Hsb : s (deref this b) = MP_ZPOS \/ s (deref this b) = MP_NEG)
    by apply Hwb.
  unfold Sub; cbv zeta.
  destruct (s (deref this a) =? s (deref this b)) eqn:Es; cbn [negb].
  - apply Z.eqb_eq in Es.
    destruct (CompareMag (deref this a) (deref this b) =? MP_GT) eqn:El.
    + apply Z.eqb_eq in El.
      destruct (deref_set_s this (s (deref this a)) a Hsa Hwa)
        as (Wa & Ma & Na & Ta).
      destruct (deref_set_s this (s (deref this a)) b Hsa Hwb)
        as (Wb & Mb & Nb & Tb).
      destruct (prvSubMag_spec (set_s this (s (deref this a))) a b Wa Wb)
        as (r & Er & Zr & Mr & Sr & Cr & Ir & Dr & Nr).
      { rewrite Na, Nb; auto. }
      { rewrite Ma, Mb; unfold MP_GT in *; lia. }
      { lia. }
      exists r; split; [exact Er|].
      rewrite Ma, Mb in Zr; rewrite Na in Nr; cbn [s set_s] in Zr, Sr.
      rewrite Zr, !to_Z_magnitude, <- Es.
      split; [ring|].
      split; [exact Cr|]; split; [exact Ir|]; split; [|split; [exact Dr | lia]].
      destruct Sr as [Sr | Sr]; rewrite Sr; auto.
    + apply Z.eqb_neq in El.
      set (sx := if s (deref this a) =? MP_ZPOS then MP_NEG else MP_ZPOS).
      assert (Hsx : (sx = MP_ZPOS \/ sx = MP_NEG) /\ sx = - s (deref this a)).
      { unfold sx, MP_ZPOS, MP_NEG in *.
        destruct (s (deref this a) =? 1) eqn:E1;
          [apply Z.eqb_eq in E1 | apply Z.eqb_neq in E1]; lia. }
      destruct Hsx as [Hsx Hsx'].
      destruct (deref_set_s this sx a Hsx Hwa) as (Wa & Ma & Na & Ta).
      destruct (deref_set_s this sx b Hsx Hwb) as (Wb & Mb & Nb & Tb).
      destruct (prvSubMag_spec (set_s this sx) b a Wb Wa)
        as (r & Er & Zr & Mr & Sr & Cr & Ir & Dr & Nr).
      { rewrite Na, Nb; auto. }
      { rewrite Ma, Mb; unfold MP_GT in *; lia. }
      { lia. }
      exists r; split; [exact Er|].
      rewrite Ma, Mb in Zr; rewrite Nb in Nr; cbn [s set_s] in Zr, Sr.
      rewrite Zr, !to_Z_magnitude, <- Es, Hsx'.
      split; [ring|].
      split; [exact Cr|]; split; [exact Ir|]; split; [|split; [exact Dr | lia]].
      destruct Sr as [Sr | Sr]; rewrite Sr; auto.
  - apply Z.eqb_neq in Es.
    destruct (deref_set_s this (s (deref this a)) a Hsa Hwa)
      as (Wa & Ma & Na & Ta).
    destruct (deref_set_s this (s (deref this a)) b Hsa Hwb)
      as (Wb & Mb & Nb & Tb).
    destruct (prvAddMag_spec (set_s this (s (deref this a))) a b Wa Wb)
      as (r & Er & Sr & Mr & Ir & Dr & Nr & Tr); [lia | lia |].
    exists r; split; [exact Er|].
    rewrite Ma, Mb in Mr; rewrite Na, Nb in Nr; cbn [s set_s] in Sr.
    rewrite !to_Z_magnitude, Mr, Sr.
    split; [unfold MP_ZPOS, MP_NEG in *; nia|].
    split; [|split; [exact Ir|split; [congruence|split]]].
    + split; [apply Tr; [apply Ta, Hca | apply Tb, Hcb]|].
      intros Hz; rewrite Sr; apply Hca.
      destruct Hwa as (Hia & _); unfold in_buffer in Hia; lia.
    + exact Dr.
    + lia.
Qed.

(** ** Multiplication by a digit *)

Lemma di_deref_set_di (t : vlong) (a : ref) (j x i : Z) :
  i <> j -> di (deref (set_di t j x) a) i = di (deref t a) i.
Proof.
  intros H; destruct a as [|v]; cbn [deref]; [|reflexivity].
  unfold di, set_di; cbn [d set_d]; apply dget_dset_other; lia.
Qed.

Lemma prvMulDig_spec (this : vlong) (a : ref) (b : Z) :
  well_formed (deref this a) -> in_buffer this -> 0 <= b < 2 ^ 32 ->
  nu (deref this a) < VLONG_MAX_DIGITS ->
  exists r, prvMulDig this a b = Some (VLONG_SUCCESS, r)
    /\ s r = s this
    /\ magnitude r = magnitude (deref this a) * b
    /\ in_buffer r /\ (digits_ok (d this) -> digits_ok (d r))
    /\ nu (deref this a) <= nu r <= nu (deref this a) + 1.
Proof.
  intros (Hia & Hda & _) Hit Hb Hla; unfold in_buffer in Hia, Hit.
  unfold prvMulDig.
  set (an := nu (deref this a)) in *.
  assert (HG : exists t1,
             (if nu this <? an + 1 then Grow this (an + 1) else ok this)
             = Some (VLONG_SUCCESS, t1)
             /\ an + 1 <= na t1 /\ s t1 = s this /\ nu (deref t1 a) = an
             /\ magnitude (deref t1 a) = magnitude (deref this a)
             /\ digits_ok (d (deref t1 a))
             /\ (digits_ok (d this) -> digits_ok (d t1))).
  { destruct (nu this <? an + 1) eqn:E.
    - destruct (Grow_spec this (an + 1)) as
        (t1 & E1 & H1 & H2 & H3 & H4 & H5 & H6); [lia|].
      exists t1; split; [exact E1|].
      destruct a as [|v]; cbn [deref] in *; repeat apply conj; auto.
      apply magnitude_ext; [exact H3|].
      intros i Hi; apply H5; lia.
    - apply Z.ltb_ge in E; exists this; repeat apply conj; auto; lia. }
  destruct HG as (t1 & E1 & Hn1 & Hs1 & Hu1 & Hm1 & Hd1 & Hdd1).
  rewrite E1; change (VLONG_SUCCESS =? 0) with true; cbv iota zeta.
  rewrite Hu1.
  set (a0 := deref t1 a) in *.
  set (t2 := set_nu t1 an).
  pose (P := fun (j : Z) (st : vlong * Z) =>
    0 <= snd st < 2 ^ 32
    /\ mag (d (fst st)) (Z.to_nat j) + snd st * 2 ^ (32 * j)
       = mag (d a0) (Z.to_nat j) * b
    /\ na (fst st) = na t1 /\ s (fst st) = s t1 /\ nu (fst st) = an
    /\ (forall i, j <= i -> di (deref (fst st) a) i = di a0 i)
    /\ (digits_ok (d t1) -> digits_ok (d (fst st)))).
  match goal with
  | |- context [for_up (Z.to_nat an) 0 ?f (t2, 0)] =>
      assert (HP : P (0 + Z.of_nat (Z.to_nat an)) (for_up (Z.to_nat an) 0 f (t2, 0)));
      [|destruct (for_up (Z.to_nat an) 0 f (t2, 0)) as [t3 u3]]
  end.
  { apply for_up_ind.
    - unfold P; cbn [fst snd].
      change (Z.to_nat 0) with 0%nat; rewrite !mag_0.
      repeat apply conj; auto; try lia.
      intros i _; unfold t2, a0; destruct a; reflexivity.
    - intros j [t u] Hj (Hu & Hm & Hna & Hs & Hnu & Hrd & Hd).
      cbn [fst snd] in *.
      pose proof (digits_ok_dget (d a0) j Hd1) as Hdj.
      rewrite (Hrd j) by lia; fold (di a0 j) in Hdj.
      destruct (word_split (di a0 j * b + u)) as [W1 W2]; [nia|].
      rewrite W1, W2; unfold P; cbn [fst snd].
      assert (Hq : 0 <= (di a0 j * b + u) / 2 ^ 32 < 2 ^ 32).
      { split; [apply Z.div_pos; nia|].
        apply Z.div_lt_upper_bound; nia. }
      assert (Hr : 0 <= (di a0 j * b + u) mod 2 ^ 32 < 2 ^ 32)
        by (apply Z.mod_pos_bound; lia).
      split; [exact Hq|]; split.
      { unfold set_di; cbn [d set_d].
        rewrite mag_step by (fold (na t); lia).
        rewrite mag_next by lia; fold (di a0 j).
        rewrite pow32_succ by lia.
        pose proof (Z.div_mod (di a0 j * b + u) (2 ^ 32) ltac:(lia)) as Hdm.
        nia. }
      unfold set_di at 1 2 3, na; cbn [d s nu set_d]; rewrite dset_length.
      fold (na t); repeat apply conj; auto.
      + intros i Hi; rewrite di_deref_set_di by lia; apply Hrd; lia.
      + intros Hd0; apply digits_ok_dset; auto. }
  destruct HP as (Hu3 & Hm3 & Hn3 & Hs3 & Hnu3 & _ & Hd3).
  cbn [fst snd] in *.
  replace (0 + Z.of_nat (Z.to_nat an)) with an in Hm3 by lia.
  assert (Hma : mag (d a0) (Z.to_nat an) = magnitude (deref this a))
    by (rewrite <- Hm1; unfold magnitude; rewrite Hu1; reflexivity).
  rewrite Hma in Hm3.
  eexists; split; [reflexivity|].
  destruct (0 <? u3) eqn:E5.
  - apply Z.ltb_lt in E5.
    unfold magnitude at 1; unfold in_buffer, na, set_di;
      cbn [s d nu set_d set_nu].
    rewrite dset_length; fold (na t3).
    rewrite Hnu3, mag_step by (fold (na t3); lia).
    repeat apply conj; try lia.
    intros Hd; apply digits_ok_dset; [auto | lia].
  - apply Z.ltb_ge in E5; assert (u3 = 0) by lia; subst u3.
    unfold magnitude at 1; unfold in_buffer; rewrite Hnu3.
    repeat apply conj; try lia; auto.
Qed.

Lemma Mul_dig_spec (this : vlong) (a : ref) (b : Z) :
  well_formed (deref this a) -> in_buffer this -> - 2 ^ 31 < b < 2 ^ 31 ->
  nu (deref this a) < VLONG_MAX_DIGITS ->
  exists r, Mul_dig this a b = Some (VLONG_SUCCESS, r)
    /\ to_Z r = to_Z (deref this a) * b
    /\ in_buffer r /\ (s r = MP_ZPOS \/ s r = MP_NEG)
    /\ (digits_ok (d this) -> digits_ok (d r))
    /\ nu r <= nu (deref this a) + 1.
Proof.
  intros Hwa Hit Hb Hla; unfold Mul_dig.
  set (b1 := if 0 <? b then udig_t b else udig_t (- b)).
  assert (Hb1 : b1 = Z.abs b).
  { unfold b1, udig_t; destruct (0 <? b) eqn:E;
      [apply Z.ltb_lt in E | apply Z.ltb_ge in E];
      rewrite Z.mod_small by lia; lia. }
  destruct (prvMulDig_spec this a b1 Hwa Hit) as
    (r0 & E0 & Hs0 & Hm0 & Hi0 & Hd0 & Hn0); [lia | exact Hla |].
  rewrite E0; change (VLONG_SUCCESS =? 0) with true; cbv iota zeta.
  assert (Hsa : s (deref r0 a) = s (deref this a))
    by (destruct a; [exact Hs0 | reflexivity]).
  rewrite Hsa.
  destruct Hwa as (_ & _ & Hs).
  eexists; split; [reflexivity|].
  set (sa := s (deref this a)) in *.
  rewrite !to_Z_magnitude; fold sa.
  destruct (((sa =? MP_ZPOS) && (b <? 0)) || ((sa =? MP_NEG) && (0 <? b)))
    eqn:E.
  - unfold magnitude at 1, in_buffer, na; cbn [s d nu set_s].
    fold (magnitude r0); rewrite Hm0, Hb1.
    split; [|repeat apply conj; auto; apply Hi0 || lia].
    apply orb_true_iff in E; destruct E as [E | E];
      apply andb_true_iff in E; destruct E as [E1 E2];
      apply Z.eqb_eq in E1; apply Z.ltb_lt in E2; rewrite E1;
      unfold MP_ZPOS, MP_NEG;
      [rewrite Z.abs_neq by lia | rewrite Z.abs_eq by lia]; ring.
  - unfold magnitude at 1, in_buffer, na; cbn [s d nu set_s].
    fold (magnitude r0); rewrite Hm0, Hb1.
    split; [|repeat apply conj; auto; apply Hi0 || lia].
    apply orb_false_iff in E; destruct E as [E1 E2].
    apply andb_false_iff in E1; apply andb_false_iff in E2.
    unfold MP_ZPOS, MP_NEG in *.
    destruct Hs as [Hs | Hs]; rewrite Hs in *.
    + destruct E1 as [E1 | E1]; [discriminate|].
      apply Z.ltb_ge in E1; rewrite Z.abs_eq by lia; ring.
    + destruct E2 as [E2 | E2]; [discriminate|].
      apply Z.ltb_ge in E2; rewrite Z.abs_neq by lia; ring.
Qed.

(** ** Shifting digit prefixes *)

(** A prefix splits into its low [k] digits and the digits above them. *)
Lemma mag_split (l l' : list Z) (k n : nat) :
  (forall i, 0 <= i < Z.of_nat n -> dget l' i = dget l (i + Z.of_nat k)) ->
  mag l (k + n) = mag l k + 2 ^ (32 * Z.of_nat k) * mag l' n.
Proof.
  induction n as [|n IH]; intros H.
  - rewrite Nat.add_0_r, mag_0; lia.
  - replace (k + S n)%nat with (S (k + n)) by lia.
    rewrite !mag_S, IH, H by (try lia; intros i Hi; apply H; lia).
    replace (Z.of_nat (k + n)) with (Z.of_nat n + Z.of_nat k) by lia.
    replace (32 * (Z.of_nat n + Z.of_nat k))
      with (32 * Z.of_nat k + 32 * Z.of_nat n) by lia.
    rewrite Z.pow_add_r by lia; ring.
Qed.

Lemma mag_dset_inside (l : list Z) (j x : Z) (n : nat) :
  0 <= j < Z.of_nat n -> j < zlen l ->
  mag (dset l j x) n = mag l n + (x - dget l j) * 2 ^ (32 * j).
Proof.
  intros Hj Hl; induction n as [|n IH]; [lia|].
  rewrite !mag_S.
  destruct (Z.eq_dec j (Z.of_nat n)) as [E | E].
  - subst j; rewrite mag_dset_above by lia.
    rewrite dget_dset_same by lia; ring.
  - rewrite IH by lia; rewrite dget_dset_other by lia; ring.
Qed.

(** A value below [2^k] and a multiple of [2^k] have no bit in common. *)
Lemma lor_disjoint (a c k : Z) :
  0 <= k -> 0 <= a < 2 ^ k -> 0 <= c ->
  Z.lor a (c * 2 ^ k) = a + c * 2 ^ k.
Proof.
  intros Hk Ha Hc.
  assert (Hl : Z.land a (c * 2 ^ k) = 0).
  { apply Z.bits_inj'; intros i Hi.
    rewrite Z.land_spec, Z.bits_0, <- Z.shiftl_mul_pow2 by lia.
    destruct (Z.lt_ge_cases i k) as [E | E].
    - rewrite Z.shiftl_spec_low by lia; apply andb_false_r.
    - replace (Z.testbit a i) with false; [reflexivity|].
      symmetry; destruct (Z.eq_dec a 0) as [-> | Hz]; [apply Z.bits_0|].
      apply Z.bits_above_log2; [lia|].
      apply Z.lt_le_trans with k; [|exact E].
      apply Z.log2_lt_pow2; lia. }
  rewrite <- Z.lxor_lor by exact Hl.
  symmetry; apply Z.add_nocarry_lxor; exact Hl.
Qed.

Lemma land_ones_mask (x b2 : Z) :
  0 < b2 < 32 -> Z.land x (udig_t (Z.shiftl 1 b2 - 1)) = x mod 2 ^ b2.
Proof.
  intros H; rewrite Z.shiftl_1_l.
  assert (0 < 2 ^ b2 <= 2 ^ 31).
  { split; [apply Z.pow_pos_nonneg; lia|].
    apply Z.pow_le_mono_r; lia. }
  unfold udig_t; rewrite Z.mod_small by lia.
  replace (2 ^ b2 - 1) with (Z.ones b2)
    by (rewrite Z.ones_equiv; lia).
  apply Z.land_ones; lia.
Qed.

Lemma prvLeftShiftDigits_spec (this : vlong) (digs : Z) :
  in_buffer this -> 0 <= digs -> nu this + digs <= VLONG_MAX_DIGITS ->
  exists r, prvLeftShiftDigits this digs = Some (VLONG_SUCCESS, r)
    /\ s r = s this /\ nu r = nu this + digs
    /\ magnitude r = magnitude this * 2 ^ (32 * digs)
    /\ in_buffer r /\ na this <= na r
    /\ (digits_ok (d this) -> digits_ok (d r)).
Proof.
  intros Hi Hdg Hlim; unfold in_buffer in Hi; unfold prvLeftShiftDigits.
  destruct (digs =? 0) eqn:E0.
  - apply Z.eqb_eq in E0; subst digs.
    exists this; unfold in_buffer; rewrite Z.add_0_r, Z.mul_0_r.
    change (2 ^ 0) with 1; repeat apply conj; auto; lia.
  - apply Z.eqb_neq in E0.
    destruct (Grow_if this (nu this + digs) Hlim)
      as (t1 & E1 & Hn1 & Hna1 & Hnu1 & Hs1 & Hk1 & Hd1).
    rewrite E1; change (VLONG_SUCCESS =? 0) with true; cbv iota zeta.
    specialize (Hk1 ltac:(lia)).
    rewrite Hnu1.
    set (n := nu this) in *; set (orig := d t1).
    assert (Hlo : n + digs <= zlen orig) by exact Hn1.
    pose (PA := fun (i : Z) (dd : list Z) =>
      zlen dd = zlen orig
      /\ (forall k, n + digs - i <= k < n + digs ->
            dget dd k = dget orig (k - digs))
      /\ (forall k, k < n + digs - i -> dget dd k = dget orig k)
      /\ (digits_ok orig -> digits_ok dd)).
    match goal with
    | |- context [for_up (Z.to_nat n) 0 ?f orig] =>
        assert (HA : PA (0 + Z.of_nat (Z.to_nat n)) (for_up (Z.to_nat n) 0 f orig));
        [|set (ddA := for_up (Z.to_nat n) 0 f orig) in *]
    end.
    { apply for_up_ind.
      - unfold PA; repeat apply conj; auto; intros; lia.
      - intros i dd Hi' (Hl & Hhi & Hlow & Hok).
        unfold PA; rewrite dset_length.
        split; [exact Hl|]; split; [|split].
        + intros k Hk; rewrite dget_dset by lia.
          destruct (k =? n + digs - 1 - i) eqn:Ek.
          * apply Z.eqb_eq in Ek; subst k.
            rewrite Hlow by lia; f_equal; lia.
          * apply Z.eqb_neq in Ek; apply Hhi; lia.
        + intros k Hk; rewrite dget_dset_other by lia; apply Hlow; lia.
        + intros Ho; apply digits_ok_dset; [auto|].
          apply digits_ok_dget; auto. }
    replace (0 + Z.of_nat (Z.to_nat n)) with n in HA by lia.
    destruct HA as (HlA & HhiA & _ & HokA).
    pose (PB := fun (i : Z) (dd : list Z) =>
      zlen dd = zlen orig
      /\ (forall k, 0 <= k < i -> dget dd k = 0)
      /\ (forall k, i <= k -> dget dd k = dget ddA k)
      /\ (digits_ok orig -> digits_ok dd)).
    match goal with
    | |- context [for_up (Z.to_nat digs) 0 ?f ddA] =>
        assert (HB : PB (0 + Z.of_nat (Z.to_nat digs))
                        (for_up (Z.to_nat digs) 0 f ddA));
        [|set (ddB := for_up (Z.to_nat digs) 0 f ddA) in *]
    end.
    { apply for_up_ind.
      - unfold PB; repeat apply conj; auto; intros; lia.
      - intros i dd Hi' (Hl & Hz & Hrest & Hok).
        unfold PB; rewrite dset_length.
        split; [exact Hl|]; split; [|split].
        + intros k Hk; rewrite dget_dset by lia.
          destruct (k =? i) eqn:Ek; [reflexivity|].
          apply Z.eqb_neq in Ek; apply Hz; lia.
        + intros k Hk; rewrite dget_dset_other by lia; apply Hrest; lia.
        + intros Ho; apply digits_ok_dset; [auto | lia]. }
    replace (0 + Z.of_nat (Z.to_nat digs)) with digs in HB by lia.
    destruct HB as (HlB & HzB & HrB & HokB).
    eexists; split; [reflexivity|].
    unfold magnitude at 1, in_buffer, na; cbn [s d nu set_d set_nu].
    rewrite HlB; fold (na t1).
    replace (Z.to_nat (n + digs)) with (Z.to_nat digs + Z.to_nat n)%nat by lia.
    rewrite (mag_split ddB orig).
    + rewrite (mag_zero ddB) by (intros i Hi'; apply HzB; lia).
      rewrite Z2Nat.id by lia.
      assert (Hm : mag orig (Z.to_nat n) = magnitude this).
      { unfold magnitude; fold n; apply mag_ext.
        intros i Hi'; apply (Hk1 i); lia. }
      rewrite Hm; repeat apply conj; auto; try lia.
    + intros i Hi'; rewrite Z2Nat.id by lia.
      rewrite HrB, HhiA by lia; f_equal; lia.
Qed.

(** ** Shifting left by bits *)

Lemma shl_loop (f : Z -> list Z * Z -> list Z * Z) (orig : list Z) (n b2 : Z) :
  (forall i dd u,
     f i (dd, u)
     = (dset dd i (Z.land (uwrd_t (Z.shiftl (dget dd i) b2 + u)) MP_MASK_DIG),
        udig_t (Z.shiftr (uwrd_t (Z.shiftl (dget dd i) b2 + u)) BiD))) ->
  0 < b2 < 32 -> 0 <= n <= zlen orig -> digits_ok orig ->
  exists dd u,
    for_up (Z.to_nat n) 0 f (orig, 0) = (dd, u)
    /\ 0 <= u < 2 ^ b2
    /\ mag dd (Z.to_nat n) + u * 2 ^ (32 * n) = mag orig (Z.to_nat n) * 2 ^ b2
    /\ zlen dd = zlen orig /\ digits_ok dd.
Proof.
  intros Hf Hb Hn Hok.
  assert (Hpb : 0 < 2 ^ b2 <= 2 ^ 31).
  { split; [apply Z.pow_pos_nonneg; lia | apply Z.pow_le_mono_r; lia]. }
  pose (P := fun (j : Z) (st : list Z * Z) =>
    0 <= snd st < 2 ^ b2
    /\ mag (fst st) (Z.to_nat j) + snd st * 2 ^ (32 * j)
       = mag orig (Z.to_nat j) * 2 ^ b2
    /\ zlen (fst st) = zlen orig /\ digits_ok (fst st)
    /\ (forall i, j <= i -> dget (fst st) i = dget orig i)).
  assert (HP : P (0 + Z.of_nat (Z.to_nat n)) (for_up (Z.to_nat n) 0 f (orig, 0))).
  { apply for_up_ind.
    - unfold P; cbn [fst snd]; change (Z.to_nat 0) with 0%nat.
      rewrite mag_0; repeat apply conj; auto; lia.
    - intros j [dd u] Hj (Hu & Hm & Hl & Hd & Hrest).
      cbn [fst snd] in *; rewrite Hf, Hrest by lia.
      pose proof (digits_ok_dget orig j Hok) as Hdj.
      set (x := dget orig j) in *.
      rewrite Z.shiftl_mul_pow2 by lia.
      assert (Hsum : 0 <= x * 2 ^ b2 + u < 2 ^ 32 * 2 ^ b2) by nia.
      assert (Hw : uwrd_t (x * 2 ^ b2 + u) = x * 2 ^ b2 + u)
        by (unfold uwrd_t; apply Z.mod_small; nia).
      rewrite Hw; unfold BiD.
      change MP_MASK_DIG with (Z.ones 32).
      rewrite Z.land_ones, Z.shiftr_div_pow2 by lia.
      assert (Hq : 0 <= (x * 2 ^ b2 + u) / 2 ^ 32 < 2 ^ b2).
      { split; [apply Z.div_pos; lia|].
        apply Z.div_lt_upper_bound; lia. }
      assert (Hr : 0 <= (x * 2 ^ b2 + u) mod 2 ^ 32 < 2 ^ 32)
        by (apply Z.mod_pos_bound; lia).
      unfold udig_t.
      rewrite (Z.mod_small ((x * 2 ^ b2 + u) / 2 ^ 32) (2 ^ 32)) by lia.
      unfold P; cbn [fst snd]; rewrite dset_length.
      split; [exact Hq|]; split; [|split; [exact Hl|split]].
      + rewrite mag_step by lia.
        rewrite mag_next by lia; fold x.
        rewrite pow32_succ by lia.
        pose proof (Z.div_mod (x * 2 ^ b2 + u) (2 ^ 32) ltac:(lia)) as Hdm.
        nia.
      + apply digits_ok_dset; auto.
      + intros i Hi; rewrite dget_dset_other by lia; apply Hrest; lia. }
  destruct (for_up (Z.to_nat n) 0 f (orig, 0)) as [dd u].
  replace (0 + Z.of_nat (Z.to_nat n)) with n in HP by lia.
  destruct HP as (H1 & H2 & H3 & H4 & _); cbn [fst snd] in *.
  exists dd, u; repeat apply conj; auto; lia.
Qed.

(** A conditional [Grow] of a well-formed object keeps what it denotes. *)
Lemma Grow_spec_if_keep (t : vlong) (n : Z) :
  n <= VLONG_MAX_DIGITS -> 0 <= nu t <= na t -> digits_ok (d t) ->
  exists t2, (if na t <? n then Grow t n else ok t) = Some (VLONG_SUCCESS, t2)
    /\ n <= na t2 /\ s t2 = s t /\ nu t2 = nu t
    /\ magnitude t2 = magnitude t /\ digits_ok (d t2).
Proof.
  intros Hn Hi Hd.
  destruct (Grow_if t n Hn) as (t2 & E & H1 & H2 & H3 & H4 & H5 & H6).
  exists t2; repeat apply conj; auto.
  apply magnitude_ext; [exact H3|].
  intros i Hi'; apply H5; lia.
Qed.

Lemma SetValue_if (this : vlong) (a : ref) :
  well_formed (deref this a) -> in_buffer this -> digits_ok (d this) ->
  nu (deref this a) <= VLONG_MAX_DIGITS ->
  exists t, (if is_this a then ok this else SetValue this a)
            = Some (VLONG_SUCCESS, t)
    /\ s t = s (deref this a) /\ nu t = nu (deref this a)
    /\ magnitude t = magnitude (deref this a)
    /\ in_buffer t /\ digits_ok (d t) /\ na this <= na t
    /\ (forall i, i < nu t -> di t i = di (deref this a) i).
Proof.
  intros (Hia & Hda & _) Hit Hdt Hla; unfold in_buffer in *.
  destruct a as [|v]; cbn [is_this deref] in *.
  - exists this; repeat apply conj; auto; lia.
  - unfold SetValue.
    destruct (Copy_spec this (Ref v)) as
      (t & Et & Hs & Hn & Hk & Hb & Hna & Hd); [lia | cbn [deref]; lia |].
    cbn [deref] in *; exists t; repeat apply conj; auto; try lia.
    apply magnitude_ext; [exact Hn|].
    intros i Hi; apply Hk; lia.
Qed.

Lemma ShiftLeft_nonneg_spec (this : vlong) (a : ref) (bits : Z) :
  well_formed (deref this a) -> in_buffer this -> digits_ok (d this) ->
  0 <= bits -> nu (deref this a) + bits / 32 + 1 <= VLONG_MAX_DIGITS ->
  exists r, ShiftLeft_nonneg this a bits = Some (VLONG_SUCCESS, r)
    /\ s r = s (deref this a)
    /\ magnitude r = magnitude (deref this a) * 2 ^ bits
    /\ in_buffer r /\ digits_ok (d r)
    /\ nu (deref this a) + bits / 32 <= nu r
       <= nu (deref this a) + bits / 32 + 1.
Proof.
  intros Hwa Hit Hdt Hb Hlim.
  assert (Hq : 0 <= bits / 32) by (apply Z.div_pos; lia).
  assert (Hna0 : 0 <= nu (deref this a)) by apply Hwa.
  unfold ShiftLeft_nonneg, BiD.
  destruct (SetValue_if this a Hwa Hit Hdt) as
    (t1 & E1 & Hs1 & Hn1 & Hm1 & Hi1 & Hd1 & _ & _); [lia|].
  rewrite E1; change (VLONG_SUCCESS =? 0) with true; cbv iota.
  destruct (Grow_spec_if_keep t1 (nu t1 + bits / 32 + 1))
    as (t2 & E2 & Hn2 & Hs2 & Hu2 & Hm2 & Hd2); [lia | apply Hi1 | exact Hd1 |].
  rewrite E2; change (VLONG_SUCCESS =? 0) with true; cbv iota.
  assert (HL : exists t3,
             (if 32 <=? bits then prvLeftShiftDigits t2 (bits / 32) else ok t2)
             = Some (VLONG_SUCCESS, t3)
             /\ s t3 = s t2 /\ nu t3 = nu t2 + bits / 32
             /\ magnitude t3 = magnitude t2 * 2 ^ (32 * (bits / 32))
             /\ in_buffer t3 /\ na t2 <= na t3 /\ digits_ok (d t3)).
  { destruct (32 <=? bits) eqn:E.
    - destruct (prvLeftShiftDigits_spec t2 (bits / 32)) as
        (t3 & E3 & H1 & H2 & H3 & H4 & H5 & H6); [| lia | lia |].
      + unfold in_buffer in *; lia.
      + exists t3; splits; auto.
    - apply Z.leb_gt in E.
      rewrite Z.div_small by lia; rewrite Z.add_0_r, Z.mul_0_r.
      change (2 ^ 0) with 1; exists t2; unfold in_buffer in *.
      repeat apply conj; auto; lia. }
  destruct HL as (t3 & E3 & Hs3 & Hn3 & Hm3 & Hi3 & Hna3 & Hd3).
  rewrite E3; change (VLONG_SUCCESS =? 0) with true; cbv iota zeta.
  assert (Hbits : 2 ^ bits = 2 ^ (32 * (bits / 32)) * 2 ^ (bits mod 32)).
  { rewrite <- Z.pow_add_r by (try apply Z.mod_pos_bound; lia).
    f_equal; apply Z.div_mod; lia. }
  pose proof (Z.mod_pos_bound bits 32 ltac:(lia)) as Hb2.
  set (b2 := bits mod 32) in *.
  destruct (0 <? b2) eqn:Eb.
  - apply Z.ltb_lt in Eb.
    match goal with
    | |- context [for_up (Z.to_nat (nu t3)) 0 ?f (d t3, 0)] =>
        destruct (shl_loop f (d t3) (nu t3) b2) as
          (dd & u & E4 & Hu4 & Hm4 & Hl4 & Hd4)
    end.
    { intros i dd u; reflexivity. }
    { lia. }
    { unfold in_buffer, na in Hi3; lia. }
    { exact Hd3. }
    rewrite E4; cbv iota beta.
    fold (magnitude t3) in Hm4.
    eexists; split; [reflexivity|].
    destruct (0 <? u) eqn:E5.
    + apply Z.ltb_lt in E5.
      unfold magnitude at 1, in_buffer, na, set_di;
        cbn [s d nu set_d set_nu].
      rewrite dset_length, Hl4; fold (na t3).
      assert (Hroom : nu t3 < na t3) by lia.
      rewrite mag_step by (rewrite Hl4; fold (na t3); unfold in_buffer in Hi3; lia).
      rewrite Hm4, Hm3, Hm2, Hm1, Hbits.
      unfold in_buffer in Hi3.
      repeat apply conj; try lia; try congruence; try ring.
      apply digits_ok_dset; [exact Hd4|].
      assert (2 ^ b2 <= 2 ^ 31) by (apply Z.pow_le_mono_r; lia); lia.
    + apply Z.ltb_ge in E5; assert (u = 0) by lia; subst u.
      unfold magnitude at 1, in_buffer, na; cbn [s d nu set_d].
      rewrite Hl4; fold (na t3); unfold in_buffer in Hi3.
      replace (mag dd (Z.to_nat (nu t3))) with (magnitude t3 * 2 ^ b2) by lia.
      rewrite Hm3, Hm2, Hm1, Hbits.
      repeat apply conj; try lia; try congruence; try ring; auto.
  - apply Z.ltb_ge in Eb; assert (Hz : b2 = 0) by lia.
    rewrite Hz in Hbits; change (2 ^ 0) with 1 in Hbits.
    exists t3; split; [reflexivity|].
    rewrite Hm3, Hm2, Hm1, Hbits.
    repeat apply conj; try lia; try congruence; try ring; auto.
Qed.

(** ** Shifting right *)

Lemma SetZero_spec (this : vlong) :
  s (SetZero this) = MP_ZPOS /\ nu (SetZero this) = 0
  /\ na (SetZero this) = na this /\ magnitude (SetZero this) = 0
  /\ (digits_ok (d this) -> digits_ok (d (SetZero this))).
Proof.
  unfold SetZero, magnitude; destruct (0 <? nu this); unfold na;
    cbn [s nu d set_s set_nu set_d]; rewrite ?memset0_length;
    change (Z.to_nat 0) with 0%nat; rewrite mag_0;
    splits; auto using digits_ok_memset0.
Qed.

Lemma div_pow_small (m a b : Z) :
  0 <= m < 2 ^ a -> 0 <= a <= b -> m / 2 ^ b = 0.
Proof.
  intros Hm Hab; apply Z.div_small.
  assert (2 ^ a <= 2 ^ b) by (apply Z.pow_le_mono_r; lia); lia.
Qed.

Lemma prvRightShiftDigits_spec (this : vlong) (digs : Z) :
  in_buffer this -> digits_ok (d this) -> 0 <= digs ->
  let r := prvRightShiftDigits this digs in
  magnitude r = magnitude this / 2 ^ (32 * digs)
  /\ nu r = Z.max (nu this - digs) 0
  /\ (s r = s this \/ nu r = 0)
  /\ na r = na this /\ digits_ok (d r).
Proof.
  intros Hi Hd Hdg; unfold in_buffer in Hi; cbv zeta.
  unfold prvRightShiftDigits.
  destruct (digs =? 0) eqn:E0.
  - apply Z.eqb_eq in E0; subst digs.
    rewrite Z.mul_0_r; change (2 ^ 0) with 1; rewrite Z.div_1_r.
    splits; auto; lia.
  - apply Z.eqb_neq in E0.
    destruct (nu this <=? digs) eqn:E1.
    + apply Z.leb_le in E1.
      destruct (SetZero_spec this) as (H1 & H2 & H3 & H4 & H5).
      rewrite H4, H2.
      pose proof (magnitude_bound this Hd) as Hb.
      rewrite Z2Nat.id in Hb by lia.
      rewrite (div_pow_small _ (32 * nu this)) by (try exact Hb; lia).
      splits; auto; lia.
    + apply Z.leb_gt in E1.
      set (n := nu this) in *; set (orig := d this) in *.
      assert (Hlen : n <= zlen orig) by exact (proj2 Hi).
      pose (PA := fun (i : Z) (dd : list Z) =>
        zlen dd = zlen orig
        /\ (forall k, 0 <= k < i -> dget dd k = dget orig (k + digs))
        /\ (forall k, i <= k -> dget dd k = dget orig k)
        /\ digits_ok dd).
      match goal with
      | |- context [for_up (Z.to_nat (n - digs)) 0 ?f orig] =>
          assert (HA : PA (0 + Z.of_nat (Z.to_nat (n - digs)))
                          (for_up (Z.to_nat (n - digs)) 0 f orig));
          [|set (ddA := for_up (Z.to_nat (n - digs)) 0 f orig) in *]
      end.
      { apply for_up_ind.
        - unfold PA; splits; auto; intros; lia.
        - intros i dd Hi' (Hl & Hlo & Hrest & Hok).
          unfold PA; rewrite dset_length.
          split; [exact Hl|]; split; [|split].
          + intros k Hk; rewrite dget_dset by lia.
            destruct (k =? i) eqn:Ek.
            * apply Z.eqb_eq in Ek; subst k; apply Hrest; lia.
            * apply Z.eqb_neq in Ek; apply Hlo; lia.
          + intros k Hk; rewrite dget_dset_other by lia; apply Hrest; lia.
          + apply digits_ok_dset; [auto | apply digits_ok_dget; auto]. }
      replace (0 + Z.of_nat (Z.to_nat (n - digs))) with (n - digs) in HA by lia.
      destruct HA as (HlA & HloA & _ & HokA).
      pose (PB := fun (i : Z) (dd : list Z) =>
        zlen dd = zlen orig
        /\ (forall k, k < n - digs -> dget dd k = dget ddA k)
        /\ digits_ok dd).
      match goal with
      | |- context [for_up (Z.to_nat digs) (n - digs) ?f ddA] =>
          assert (HB : PB (n - digs + Z.of_nat (Z.to_nat digs))
                          (for_up (Z.to_nat digs) (n - digs) f ddA));
          [|set (ddB := for_up (Z.to_nat digs) (n - digs) f ddA) in *]
      end.
      { apply for_up_ind.
        - unfold PB; splits; auto.
        - intros i dd Hi' (Hl & Hlo & Hok).
          unfold PB; rewrite dset_length.
          split; [exact Hl|]; split.
          + intros k Hk; rewrite dget_dset_other by lia; apply Hlo; lia.
          + apply digits_ok_dset; [auto | lia]. }
      destruct HB as (HlB & HloB & HokB).
      unfold magnitude, na; cbn [s d nu set_d set_nu]; fold n orig.
      rewrite HlB.
      replace (Z.to_nat n) with (Z.to_nat digs + Z.to_nat (n - digs))%nat by lia.
      rewrite (mag_split orig ddB).
      * rewrite Z2Nat.id by lia.
        pose proof (mag_bound orig (Z.to_nat digs) Hd) as Hb.
        rewrite Z2Nat.id in Hb by lia.
        rewrite Z.add_comm, Z.mul_comm, Z.div_add_l, (Z.div_small (mag orig _))
          by lia.
        splits; auto; lia.
      * intros i Hi'; rewrite Z2Nat.id by lia.
        rewrite HloB, HloA by lia; reflexivity.
Qed.

Lemma shr_loop (f : Z -> list Z * Z -> list Z * Z) (orig : list Z) (n b2 : Z) :
  (forall i dd t,
     f i (dd, t)
     = (dset dd i
          (Z.lor (Z.shiftr (dget dd i) b2)
                 (udig_t (Z.shiftl t (BiD - b2)))),
        Z.land (dget dd i) (udig_t (Z.shiftl 1 b2 - 1)))) ->
  0 < b2 < 32 -> 0 <= n <= zlen orig -> digits_ok orig ->
  exists dd t,
    for_down (Z.to_nat n) (n - 1) f (orig, 0) = (dd, t)
    /\ mag dd (Z.to_nat n) = mag orig (Z.to_nat n) / 2 ^ b2
    /\ zlen dd = zlen orig /\ digits_ok dd.
Proof.
  intros Hf Hb Hn Hok.
  assert (Hpb : 0 < 2 ^ b2) by (apply Z.pow_pos_nonneg; lia).
  assert (Hpc : 0 < 2 ^ (32 - b2)) by (apply Z.pow_pos_nonneg; lia).
  assert (Hpp : 2 ^ (32 - b2) * 2 ^ b2 = 2 ^ 32).
  { rewrite <- Z.pow_add_r by lia; f_equal; lia. }
  pose (P := fun (j : Z) (st : list Z * Z) =>
    0 <= snd st < 2 ^ b2
    /\ (mag (fst st) (Z.to_nat n) - mag (fst st) (Z.to_nat (j + 1))) * 2 ^ b2
       + snd st * 2 ^ (32 * (j + 1))
       = mag orig (Z.to_nat n) - mag orig (Z.to_nat (j + 1))
    /\ (forall i, i <= j -> dget (fst st) i = dget orig i)
    /\ zlen (fst st) = zlen orig /\ digits_ok (fst st)).
  assert (HP : P (n - 1 - Z.of_nat (Z.to_nat n))
                 (for_down (Z.to_nat n) (n - 1) f (orig, 0))).
  { apply for_down_ind.
    - unfold P; cbn [fst snd].
      replace (n - 1 + 1) with n by lia; splits; auto; lia.
    - intros j [dd t] Hj (Ht & Hm & Hlo & Hl & Hd).
      cbn [fst snd] in *; rewrite Hf, Hlo by lia.
      pose proof (digits_ok_dget orig j Hok) as Hdj.
      set (x := dget orig j) in *.
      rewrite land_ones_mask by lia.
      rewrite Z.shiftr_div_pow2, Z.shiftl_mul_pow2 by (unfold BiD; lia).
      unfold BiD.
      assert (Hq : 0 <= x / 2 ^ b2 < 2 ^ (32 - b2)).
      { split; [apply Z.div_pos; lia|].
        apply Z.div_lt_upper_bound; [lia|]; rewrite Z.mul_comm; lia. }
      assert (Hts : 0 <= t * 2 ^ (32 - b2) < 2 ^ 32) by nia.
      unfold udig_t; rewrite (Z.mod_small (t * 2 ^ (32 - b2))) by lia.
      rewrite lor_disjoint by lia.
      pose proof (Z.mod_pos_bound x (2 ^ b2) Hpb) as Hr.
      pose proof (Z.div_mod x (2 ^ b2) ltac:(lia)) as Hdm.
      set (q := x / 2 ^ b2) in *; set (r := x mod 2 ^ b2) in *.
      unfold P; cbn [fst snd]; rewrite dset_length.
      split; [exact Hr|]; split; [|split; [|split; [exact Hl|]]].
      + replace (j - 1 + 1) with j by lia.
        rewrite mag_dset_inside by lia.
        rewrite mag_dset_above by lia.
        rewrite Hlo by lia; fold x.
        rewrite (mag_next orig j) in Hm by lia; fold x in Hm.
        rewrite (mag_next dd j) in Hm by lia.
        rewrite Hlo in Hm by lia; fold x in Hm.
        rewrite pow32_succ in Hm by lia.
        set (Bj := 2 ^ (32 * j)) in *.
        set (Pb := 2 ^ b2) in *; set (Pc := 2 ^ (32 - b2)) in *.
        assert (Hx : (q + t * Pc) * Pb = x - r + t * 2 ^ 32)
          by (rewrite <- Hpp; lia).
        replace ((mag dd (Z.to_nat n) + (q + t * Pc - x) * Bj
                  - mag dd (Z.to_nat j)) * Pb)
          with ((mag dd (Z.to_nat n) - (mag dd (Z.to_nat j) + x * Bj)) * Pb
                + (q + t * Pc) * Pb * Bj) by ring.
        rewrite Hx; lia.
      + intros i Hi; rewrite dget_dset_other by lia; apply Hlo; lia.
      + apply digits_ok_dset; [auto | nia]. }
  destruct (for_down (Z.to_nat n) (n - 1) f (orig, 0)) as [dd t].
  replace (n - 1 - Z.of_nat (Z.to_nat n)) with (-1) in HP by lia.
  destruct HP as (H1 & H2 & _ & H3 & H4); cbn [fst snd] in *.
  change (Z.to_nat (-1 + 1)) with 0%nat in H2; rewrite !mag_0 in H2.
  change (2 ^ (32 * (-1 + 1))) with 1 in H2.
  exists dd, t; splits; auto.
  apply Z.div_unique with t; lia.
Qed.

Lemma ShiftRight_nonneg_spec (this : vlong) (a : ref) (bits : Z) :
  well_formed (deref this a) -> in_buffer this -> digits_ok (d this) ->
  0 <= bits -> nu (deref this a) <= VLONG_MAX_DIGITS ->
  exists r, ShiftRight_nonneg this a bits = Some (VLONG_SUCCESS, r)
    /\ magnitude r = magnitude (deref this a) / 2 ^ bits
    /\ to_Z r = s (deref this a) * (magnitude (deref this a) / 2 ^ bits)
    /\ (s r = MP_ZPOS \/ s r = MP_NEG)
    /\ in_buffer r /\ digits_ok (d r) /\ nu r <= nu (deref this a).
Proof.
  intros Hwa Hit Hdt Hb Hlim.
  assert (Hq : 0 <= bits / 32) by (apply Z.div_pos; lia).
  assert (Hsa : s (deref this a) = MP_ZPOS \/ s (deref this a) = MP_NEG)
    by apply Hwa.
  unfold ShiftRight_nonneg, BiD.
  destruct (SetValue_if this a Hwa Hit Hdt Hlim) as
    (t1 & E1 & Hs1 & Hn1 & Hm1 & Hi1 & Hd1 & _ & _).
  rewrite E1; rewrite <- Hm1, <- Hs1, <- Hn1.
  rewrite <- Hn1 in Hlim.
  clear E1 Hm1 Hn1 Hwa; rewrite <- Hs1 in Hsa; clear Hs1.
  unfold in_buffer in Hi1.
  pose proof (magnitude_bound t1 Hd1) as Hbd.
  rewrite Z2Nat.id in Hbd by lia.
  assert (Hbits : bits = 32 * (bits / 32) + bits mod 32)
    by (apply Z.div_mod; lia).
  pose proof (Z.mod_pos_bound bits 32 ltac:(lia)) as Hb2.
  destruct (nu t1 <=? bits / 32) eqn:E2.
  - apply Z.leb_le in E2.
    destruct (SetZero_spec t1) as (H1 & H2 & H3 & H4 & H5).
    eexists; split; [reflexivity|].
    rewrite to_Z_magnitude, H4, H1.
    rewrite (div_pow_small _ (32 * nu t1)) by (try exact Hbd; lia).
    unfold in_buffer; rewrite H2, H3.
    splits; auto; lia.
  - apply Z.leb_gt in E2.
    destruct (Grow_spec_if_keep t1 (nu t1 - bits / 32))
      as (t2 & Eg & Hn2 & Hs2 & Hu2 & Hm2 & Hd2); [lia | lia | exact Hd1 |].
    rewrite Eg; change (VLONG_SUCCESS =? 0) with true; cbv iota.
    assert (Hi2 : in_buffer t2).
    { unfold in_buffer; rewrite Hu2; split; [lia|].
      destruct (Grow_if t1 (nu t1 - bits / 32)) as (t2' & Eg' & _ & Hna & _);
        [lia|].
      rewrite Eg in Eg'; injection Eg' as <-; lia. }
    set (t3 := if 32 <=? bits then prvRightShiftDigits t2 (bits / 32) else t2).
    assert (H3 : magnitude t3 = magnitude t2 / 2 ^ (32 * (bits / 32))
                 /\ nu t3 = nu t2 - bits / 32 /\ s t3 = s t2
                 /\ na t3 = na t2 /\ digits_ok (d t3)).
    { unfold t3; destruct (32 <=? bits) eqn:E.
      - pose proof (prvRightShiftDigits_spec t2 (bits / 32) Hi2 Hd2 Hq) as Hr.
        cbv zeta in Hr; destruct Hr as (R1 & R2 & R3 & R4 & R5).
        splits; auto; lia.
      - apply Z.leb_gt in E; rewrite (Z.div_small bits 32) by lia.
        rewrite Z.mul_0_r; change (2 ^ 0) with 1; rewrite Z.div_1_r.
        splits; auto; lia. }
    destruct H3 as (Hm3 & Hn3 & Hs3 & Hna3 & Hd3).
    destruct (nu t3 =? 0) eqn:E3; [apply Z.eqb_eq in E3; lia|].
    cbv zeta.
    set (b2 := bits mod 32) in *.
    set (t4 := if 0 <? b2
               then let '(dd, _) :=
                      for_down (Z.to_nat (nu t3)) (nu t3 - 1)
                        (fun i '(dd, tmp1) =>
                           (dset dd i
                              (Z.lor (Z.shiftr (dget dd i) b2)
                                     (udig_t (Z.shiftl tmp1 (32 - b2)))),
                            Z.land (dget dd i) (udig_t (Z.shiftl 1 b2 - 1))))
                        (d t3, 0) in
                    set_d t3 dd
               else t3).
    assert (H4 : magnitude t4 = magnitude t3 / 2 ^ b2
                 /\ nu t4 = nu t3 /\ s t4 = s t3 /\ na t4 = na t3
                 /\ digits_ok (d t4)).
    { unfold t4; destruct (0 <? b2) eqn:E.
      - apply Z.ltb_lt in E.
        match goal with
        | |- context [for_down (Z.to_nat (nu t3)) (nu t3 - 1) ?f (d t3, 0)] =>
            destruct (shr_loop f (d t3) (nu t3) b2) as
              (dd & tt & E4 & Hm4 & Hl4 & Hd4)
        end.
        { intros i dd tt; reflexivity. }
        { lia. }
        { unfold in_buffer, na in *; lia. }
        { exact Hd3. }
        rewrite E4; unfold magnitude, na; cbn [s d nu set_d].
        splits; auto.
      - apply Z.ltb_ge in E; assert (Hz : b2 = 0) by lia.
        rewrite Hz; change (2 ^ 0) with 1; rewrite Z.div_1_r.
        splits; auto. }
    destruct H4 as (Hm4 & Hn4 & Hs4 & Hna4 & Hd4).
    fold t4.
    assert (Hval : magnitude t4 = magnitude t1 / 2 ^ bits).
    { rewrite Hm4, Hm3, Hm2.
      pose proof (pow32_pos (bits / 32) Hq).
      assert (0 < 2 ^ b2) by (apply Z.pow_pos_nonneg; lia).
      rewrite Z.div_div by lia.
      rewrite <- Z.pow_add_r by lia; rewrite <- Hbits; reflexivity. }
    set (t5 := if di t4 (nu t4 - 1) =? 0 then set_nu t4 (nu t4 - 1) else t4).
    assert (H5 : magnitude t5 = magnitude t4 /\ 0 <= nu t5 <= nu t4
                 /\ s t5 = s t4 /\ na t5 = na t4 /\ d t5 = d t4).
    { unfold t5; destruct (di t4 (nu t4 - 1) =? 0) eqn:E.
      - apply Z.eqb_eq in E.
        unfold magnitude, na; cbn [s d nu set_nu].
        pose proof (mag_next (d t4) (nu t4 - 1) ltac:(lia)) as Hnx.
        replace (nu t4 - 1 + 1) with (nu t4) in Hnx by lia.
        unfold di in E; rewrite E in Hnx.
        splits; auto; lia.
      - splits; auto; lia. }
    destruct H5 as (Hm5 & Hn5 & Hs5 & Hna5 & Hd5).
    eexists; split; [reflexivity|].
    rewrite <- Hval, <- Hm5.
    destruct (nu t5 =? 0) eqn:E5.
    + apply Z.eqb_eq in E5.
      rewrite to_Z_magnitude.
      unfold magnitude, in_buffer, na; cbn [s d nu set_s].
      rewrite E5, Hd5; change (Z.to_nat 0) with 0%nat; rewrite mag_0.
      splits; auto; try lia.
      unfold zlen; lia.
    + apply Z.eqb_neq in E5.
      rewrite to_Z_magnitude, Hs5, Hs4, Hs3, Hs2.
      unfold in_buffer; rewrite Hna5, Hna4, Hna3, Hd5.
      unfold in_buffer in Hi2.
      splits; auto; try lia.
Qed.

(** ** Powers of two *)

Lemma prvIsPow2_loop_spec (n : nat) (x acc : Z) :
  0 <= x < 2 ^ Z.of_nat n ->
  prvIsPow2_loop n x acc = acc + (if x =? 0 then 0 else Z.log2 x + 1).
Proof.
  revert x acc; induction n as [|n IH]; intros x acc Hx.
  - change (2 ^ Z.of_nat 0) with 1 in Hx; assert (x = 0) by lia; subst x.
    simpl; lia.
  - cbn [prvIsPow2_loop].
    destruct (x =? 0) eqn:E; [lia|].
    apply Z.eqb_neq in E.
    rewrite IH.
    + rewrite Z.shiftr_div_pow2 by lia; change (2 ^ 1) with 2.
      destruct (x / 2 =? 0) eqn:E2.
      * apply Z.eqb_eq in E2.
        assert (x = 1) by (pose proof (Z.div_mod x 2 ltac:(lia));
                           pose proof (Z.mod_pos_bound x 2 ltac:(lia)); lia).
        subst x; simpl; lia.
      * apply Z.eqb_neq in E2.
        assert (2 <= x).
        { destruct (Z.lt_ge_cases x 2) as [H | H]; [|exact H].
          rewrite Z.div_small in E2 by lia; lia. }
        change (x / 2) with (x / 2 ^ 1); rewrite <- Z.shiftr_div_pow2 by lia.
        rewrite Z.log2_shiftr by lia.
        assert (1 <= Z.log2 x) by (apply Z.log2_le_pow2; simpl; lia).
        lia.
    + rewrite Z.shiftr_div_pow2 by lia; change (2 ^ 1) with 2.
      split; [apply Z.div_pos; lia|].
      apply Z.div_lt_upper_bound; [lia|].
      rewrite Nat2Z.inj_succ, Z.pow_succ_r in Hx by lia; lia.
Qed.

Lemma land_pred_pow2 (b : Z) :
  0 < b -> Z.land b (b - 1) = 0 -> b = 2 ^ Z.log2 b.
Proof.
  intros Hb Hl.
  pose proof (Z.log2_spec b Hb) as [H1 H2].
  pose proof (Z.log2_nonneg b) as Hk.
  destruct (Z.eq_dec b (2 ^ Z.log2 b)) as [E | E]; [exact E|].
  exfalso.
  assert (Hlog : Z.log2 (b - 1) = Z.log2 b).
  { apply Z.log2_unique; [exact Hk|]; rewrite <- Z.add_1_r in *; lia. }
  assert (Hbit : Z.testbit (Z.land b (b - 1)) (Z.log2 b) = true).
  { rewrite Z.land_spec, Z.bit_log2 by lia.
    rewrite <- Hlog, Z.bit_log2 by lia; reflexivity. }
  rewrite Hl, Z.bits_0 in Hbit; discriminate.
Qed.

Lemma prvIsPow2_spec (b : Z) :
  0 < b < 2 ^ 32 ->
  (fst (prvIsPow2 b) = 1 \/ fst (prvIsPow2 b) = 0)
  /\ (fst (prvIsPow2 b) = 1 ->
      b = 2 ^ snd (prvIsPow2 b) /\ 0 <= snd (prvIsPow2 b) < 32)
  /\ (forall k, 0 <= k < 32 -> b = 2 ^ k -> prvIsPow2 b = (1, k)).
Proof.
  intros Hb; unfold prvIsPow2.
  assert (Hu : udig_t (b - 1) = b - 1) by (unfold udig_t; apply Z.mod_small; lia).
  rewrite Hu.
  assert (Hix : prvIsPow2_loop 32 (Z.shiftr b 1) 0 = Z.log2 b).
  { rewrite prvIsPow2_loop_spec.
    - rewrite Z.shiftr_div_pow2 by lia; change (2 ^ 1) with 2.
      destruct (b / 2 =? 0) eqn:E2.
      + apply Z.eqb_eq in E2.
        assert (b = 1) by (pose proof (Z.div_mod b 2 ltac:(lia));
                           pose proof (Z.mod_pos_bound b 2 ltac:(lia)); lia).
        subst b; reflexivity.
      + apply Z.eqb_neq in E2.
        assert (2 <= b).
        { destruct (Z.lt_ge_cases b 2) as [H | H]; [|exact H].
          rewrite Z.div_small in E2 by lia; lia. }
        change (b / 2) with (b / 2 ^ 1); rewrite <- Z.shiftr_div_pow2 by lia.
        rewrite Z.log2_shiftr by lia.
        assert (1 <= Z.log2 b) by (apply Z.log2_le_pow2; simpl; lia).
        lia.
    - rewrite Z.shiftr_div_pow2 by lia; change (2 ^ 1) with 2.
      split; [apply Z.div_pos; lia|].
      apply Z.div_lt_upper_bound; [lia|].
      change (2 ^ Z.of_nat 32) with (2 ^ 32); lia. }
  rewrite Hix.
  destruct (b =? 0) eqn:E0; [apply Z.eqb_eq in E0; lia|].
  cbn [orb].
  destruct (Z.land b (b - 1) =? 0) eqn:E1; cbn [negb fst snd].
  - apply Z.eqb_eq in E1.
    pose proof (land_pred_pow2 b ltac:(lia) E1) as Hp.
    assert (Hk : 0 <= Z.log2 b < 32).
    { split; [apply Z.log2_nonneg|].
      apply Z.log2_lt_pow2; lia. }
    splits; auto; try lia.
    intros k Hk' Ek; f_equal.
    rewrite Ek; apply Z.log2_pow2; lia.
  - apply Z.eqb_neq in E1.
    splits; auto; try lia.
    intros k Hk Ek; exfalso; apply E1.
    rewrite Ek; replace (2 ^ k - 1) with (Z.ones k)
      by (rewrite Z.ones_equiv; lia).
    rewrite Z.land_ones by lia; apply Z.mod_same.
    apply Z.pow_nonzero; lia.
Qed.

(** ** Division by a digit *)

Lemma udig_sdig (w : Z) : 0 <= w < 2 ^ 32 -> udig_t (sdig_t w) = w.
Proof.
  intros H; unfold udig_t, sdig_t.
  rewrite Zminus_mod_idemp_l.
  replace (w + 2 ^ 31 - 2 ^ 31) with w by lia.
  apply Z.mod_small; exact H.
Qed.

Lemma sdig_small (x : Z) : - 2 ^ 31 <= x < 2 ^ 31 -> sdig_t x = x.
Proof.
  intros H; unfold sdig_t; rewrite Z.mod_small by lia; lia.
Qed.

Lemma mag_mod_low (l : list Z) (n : nat) :
  (0 < n)%nat -> mag l n mod 2 ^ 32 = dget l 0 mod 2 ^ 32.
Proof.
  induction n as [|n IH]; [lia|]; intros _.
  rewrite mag_S.
  destruct n as [|n].
  - rewrite mag_0; change (Z.of_nat 0) with 0.
    change (2 ^ (32 * 0)) with 1; f_equal; lia.
  - rewrite <- IH by lia.
    replace (32 * Z.of_nat (S n)) with (32 + 32 * Z.of_nat n) by lia.
    rewrite Z.pow_add_r by lia.
    replace (dget l (Z.of_nat (S n)) * (2 ^ 32 * 2 ^ (32 * Z.of_nat n)))
      with (dget l (Z.of_nat (S n)) * 2 ^ (32 * Z.of_nat n) * 2 ^ 32) by ring.
    apply Z.mod_add; lia.
Qed.

Lemma divint_loop (f : Z -> option vlong * Z -> option vlong * Z)
  (a : vlong) (b : Z) (v : vlong) :
  (forall i v w,
     f i (Some v, w)
     = let w1 := Z.lor (uwrd_t (Z.shiftl w BiD)) (di a i) in
       let '(t, w2) := if b <=? w1
                       then (udig_t (w1 / b), uwrd_t (w1 - udig_t (w1 / b) * b))
                       else (0, w1) in
       (Some (set_di v i (udig_t t)), w2)) ->
  2 <= b < 2 ^ 32 -> digits_ok (d a) -> 0 <= nu a <= na v ->
  exists v' w,
    for_down (Z.to_nat (nu a)) (nu a - 1) f (Some v, 0) = (Some v', w)
    /\ mag (d v') (Z.to_nat (nu a)) = magnitude a / b
    /\ w = magnitude a mod b
    /\ na v' = na v /\ s v' = s v /\ nu v' = nu v
    /\ (digits_ok (d v) -> digits_ok (d v')).
Proof.
  intros Hf Hb Hda Hn.
  set (n := nu a) in *.
  pose (P := fun (j : Z) (st : option vlong * Z) =>
    exists v1, fst st = Some v1
    /\ 0 <= snd st < b
    /\ (mag (d v1) (Z.to_nat n) - mag (d v1) (Z.to_nat (j + 1))) * b
       + snd st * 2 ^ (32 * (j + 1))
       = mag (d a) (Z.to_nat n) - mag (d a) (Z.to_nat (j + 1))
    /\ na v1 = na v /\ s v1 = s v /\ nu v1 = nu v
    /\ (digits_ok (d v) -> digits_ok (d v1))).
  assert (HP : P (n - 1 - Z.of_nat (Z.to_nat n))
                 (for_down (Z.to_nat n) (n - 1) f (Some v, 0))).
  { apply for_down_ind.
    - exists v; cbn [fst snd]; replace (n - 1 + 1) with n by lia.
      splits; auto; lia.
    - intros j [q1 w] Hj (v1 & Eq & Hw & Hm & Hna & Hs & Hnu & Hd).
      cbn [fst snd] in *; subst q1; rewrite Hf; cbv zeta.
      pose proof (digits_ok_dget (d a) j Hda) as Hdj; fold (di a j) in Hdj.
      set (x := di a j) in *.
      assert (Hw1 : Z.lor (uwrd_t (Z.shiftl w BiD)) x = x + w * 2 ^ 32).
      { unfold BiD; rewrite Z.shiftl_mul_pow2 by lia.
        unfold uwrd_t; rewrite Z.mod_small by nia.
        rewrite Z.lor_comm; apply lor_disjoint; lia. }
      rewrite Hw1.
      set (w1 := x + w * 2 ^ 32) in *.
      assert (Hw1b : 0 <= w1 < b * 2 ^ 32) by (unfold w1; nia).
      assert (Hq : 0 <= w1 / b < 2 ^ 32).
      { split; [apply Z.div_pos; lia|].
        apply Z.div_lt_upper_bound; lia. }
      pose proof (Z.mod_pos_bound w1 b ltac:(lia)) as Hr.
      pose proof (Z.div_mod w1 b ltac:(lia)) as Hdm.
      assert (Hpair : (if b <=? w1
                       then (udig_t (w1 / b), uwrd_t (w1 - udig_t (w1 / b) * b))
                       else (0, w1)) = (w1 / b, w1 mod b)).
      { destruct (b <=? w1) eqn:E.
        - unfold udig_t; rewrite (Z.mod_small (w1 / b)) by lia.
          unfold uwrd_t; f_equal.
          replace (w1 - w1 / b * b) with (w1 mod b) by lia.
          apply Z.mod_small; lia.
        - apply Z.leb_gt in E.
          rewrite Z.div_small, Z.mod_small by lia; reflexivity. }
      rewrite Hpair.
      assert (Hu : udig_t (w1 / b) = w1 / b)
        by (unfold udig_t; apply Z.mod_small; lia).
      rewrite Hu.
      exists (set_di v1 j (w1 / b)); cbn [fst snd].
      unfold set_di, na; cbn [d s nu set_d]; rewrite dset_length.
      fold (na v1).
      split; [reflexivity|]; split; [exact Hr|]; split; [|splits; auto].
      + replace (j - 1 + 1) with j by lia.
        assert (Hjl : j < zlen (d v1)) by (fold (na v1); lia).
        rewrite mag_dset_inside by lia.
        rewrite mag_dset_above by lia.
        rewrite (mag_next (d a) j) in Hm by lia; fold (di a j) in Hm.
        fold x in Hm.
        rewrite (mag_next (d v1) j) in Hm by lia.
        rewrite pow32_succ in Hm by lia.
        set (Bj := 2 ^ (32 * j)) in *.
        set (y := dget (d v1) j) in *.
        replace ((mag (d v1) (Z.to_nat n) + (w1 / b - y) * Bj
                  - mag (d v1) (Z.to_nat j)) * b + w1 mod b * Bj)
          with ((mag (d v1) (Z.to_nat n) - (mag (d v1) (Z.to_nat j) + y * Bj)) * b
                + (b * (w1 / b) + w1 mod b) * Bj) by ring.
        rewrite <- Hdm; unfold w1; lia.
      + intros Hd0; apply digits_ok_dset; auto. }
  destruct (for_down (Z.to_nat n) (n - 1) f (Some v, 0)) as [q1 w].
  replace (n - 1 - Z.of_nat (Z.to_nat n)) with (-1) in HP by lia.
  destruct HP as (v1 & Eq & Hw & Hm & H3 & H4 & H5 & H6); cbn [fst snd] in *.
  subst q1.
  change (Z.to_nat (-1 + 1)) with 0%nat in Hm; rewrite !mag_0 in Hm.
  change (2 ^ (32 * (-1 + 1))) with 1 in Hm.
  unfold magnitude; fold n.
  exists v1, w; splits; auto.
  - apply Z.div_unique with w; lia.
  - apply Z.mod_unique with (mag (d v1) (Z.to_nat n)); lia.
Qed.

Lemma prvDivInt_spec (a v : vlong) (b r0 : Z) :
  well_formed a -> 0 < nu a <= VLONG_MAX_DIGITS -> 2 <= b < 2 ^ 32 ->
  in_buffer v -> digits_ok (d v) ->
  exists v',
    prvDivInt a b (OObj v) (Some r0)
    = Some (VLONG_SUCCESS, (Some v', Some (magnitude a mod b)))
    /\ magnitude v' = magnitude a / b
    /\ in_buffer v' /\ digits_ok (d v') /\ nu v' <= nu a.
Proof.
  intros Hwa Hna Hb Hiv Hdv.
  pose proof Hwa as (Hia & Hda & Hsa).
  unfold prvDivInt; cbv zeta.
  destruct (b =? 0) eqn:E0; [apply Z.eqb_eq in E0; lia|].
  destruct (nu a =? 0) eqn:E1; [apply Z.eqb_eq in E1; lia|].
  destruct (b =? 1) eqn:E2; [apply Z.eqb_eq in E2; lia|].
  destruct (prvIsPow2_spec b ltac:(lia)) as (Hf & Hp & _).
  destruct (prvIsPow2 b) as [pow2 ix]; cbn [fst snd] in *.
  destruct (pow2 =? 0) eqn:E3; cbn [negb].
  - (* the general case *)
    destruct (Grow_spec v (nu a)) as
      (v1 & Eg & Hn1 & Hna1 & Hnu1 & Hs1 & _ & Hd1); [lia|].
    rewrite Eg; change (VLONG_SUCCESS =? 0) with true; cbv iota.
    unfold ok at 1; change (VLONG_SUCCESS =? 0) with true; cbv iota.
    cbn [option_map].
    match goal with
    | |- context [for_down (Z.to_nat (nu a)) (nu a - 1) ?f
                    (Some (set_nu v1 (nu a)), 0)] =>
        destruct (divint_loop f a b (set_nu v1 (nu a))) as
          (v2 & w & El & Hm & Hw & H3 & H4 & H5 & H6)
    end.
    { intros i v0 w; reflexivity. }
    { exact Hb. }
    { exact Hda. }
    { unfold na; cbn [d set_nu]; fold (na v1); lia. }
    rewrite El; cbv iota beta; cbn [option_map].
    cbn [nu set_nu] in H5.
    assert (Hwb : 0 <= w < 2 ^ 32).
    { subst w; pose proof (Z.mod_pos_bound (magnitude a) b ltac:(lia)); lia. }
    rewrite udig_sdig by exact Hwb; subst w.
    exists v2; split; [reflexivity|].
    unfold magnitude at 1, in_buffer; rewrite H5, Hm.
    unfold na in H3; cbn [d set_nu] in H3; fold (na v2) (na v1) in H3.
    cbn [d set_nu] in H6.
    splits; auto; lia.
  - (* a power of two *)
    apply Z.eqb_neq in E3.
    destruct Hf as [Hf | Hf]; [|lia].
    destruct (Hp Hf) as [Hpow Hix].
    assert (Hix1 : 1 <= ix).
    { destruct (Z.eq_dec ix 0) as [-> | Hne]; [simpl in Hpow; lia | lia]. }
    unfold prvDivPow2; cbn [is_this deref]; unfold ShiftRight.
    destruct (ix <? 0) eqn:E4; [apply Z.ltb_lt in E4; lia|].
    destruct (ShiftRight_nonneg_spec v (Ref a) ix) as
      (r & Er & Hm & _ & _ & Hir & Hdr & Hnr); cbn [deref]; auto; try lia.
    rewrite Er; change (VLONG_SUCCESS =? 0) with true; cbv iota.
    unfold ok at 1; change (VLONG_SUCCESS =? 0) with true; cbv iota.
    cbn [option_map].
    assert (Hrem : Z.land (di a 0) (udig_t (udig_t (Z.shiftl 1 ix) - 1))
                   = magnitude a mod b).
    { rewrite Z.shiftl_1_l.
      assert (Hpi : 0 < 2 ^ ix < 2 ^ 32) by lia.
      unfold udig_t; rewrite (Z.mod_small (2 ^ ix)) by lia.
      rewrite (Z.mod_small (2 ^ ix - 1)) by lia.
      replace (2 ^ ix - 1) with (Z.ones ix) by (rewrite Z.ones_equiv; lia).
      rewrite Z.land_ones by lia.
      rewrite Hpow.
      assert (Hdiv : (2 ^ ix | 2 ^ 32)).
      { exists (2 ^ (32 - ix)); rewrite <- Z.pow_add_r by lia; f_equal; lia. }
      rewrite <- (Z.mod_mod_divide (magnitude a) (2 ^ 32) (2 ^ ix)) by exact Hdiv.
      rewrite <- (Z.mod_mod_divide (di a 0) (2 ^ 32) (2 ^ ix)) by exact Hdiv.
      f_equal; unfold magnitude, di; symmetry; apply mag_mod_low; lia. }
    rewrite Hrem.
    exists r; split; [reflexivity|].
    rewrite Hm, Hpow; splits; auto.
Qed.

Lemma quot_rem_signed (sg m b : Z) :
  sg = MP_ZPOS \/ sg = MP_NEG -> 0 <= m -> 0 < b ->
  Z.quot (sg * m) b = sg * (m / b) /\ Z.rem (sg * m) b = sg * (m mod b).
Proof.
  unfold MP_ZPOS, MP_NEG; intros [-> | ->] Hm Hb.
  - rewrite !Z.mul_1_l; split;
      [apply Z.quot_div_nonneg | apply Z.rem_mod_nonneg]; lia.
  - replace (-1 * m) with (- m) by lia.
    rewrite Z.quot_opp_l, Z.rem_opp_l by lia.
    rewrite Z.quot_div_nonneg, Z.rem_mod_nonneg by lia; lia.
Qed.

Lemma Div_dig_spec (this : vlong) (a : ref) (b r0 : Z) :
  well_formed (deref this a) -> in_buffer this -> digits_ok (d this) ->
  0 < nu (deref this a) <= VLONG_MAX_DIGITS -> 0 < b < 2 ^ 31 ->
  exists q,
    Div_dig this a b (Some r0)
    = Some (VLONG_SUCCESS, (q, Some (Z.rem (to_Z (deref this a)) b)))
    /\ to_Z q = Z.quot (to_Z (deref this a)) b
    /\ in_buffer q /\ digits_ok (d q) /\ (2 <= b -> clamped q).
Proof.
  intros Hwa Hit Hdt Hna Hb.
  pose proof Hwa as (Hia & Hda & Hsa).
  pose proof (magnitude_nonneg _ Hda) as Hm0.
  destruct (quot_rem_signed (s (deref this a)) (magnitude (deref this a)) b)
    as [HQ HR]; auto; try lia.
  rewrite to_Z_magnitude, HQ, HR.
  unfold Div_dig; cbv zeta.
  assert (Hub : udig_t b = b) by (unfold udig_t; apply Z.mod_small; lia).
  destruct (0 <? b) eqn:Eb; [|apply Z.ltb_ge in Eb; lia].
  rewrite Hub.
  set (signq := if ((b <? 0) && (s (deref this a) =? MP_ZPOS))
                   || (true && (s (deref this a) =? MP_NEG))
                then MP_NEG else MP_ZPOS).
  assert (Hsq : signq = s (deref this a)).
  { unfold signq; destruct (b <? 0) eqn:E; [apply Z.ltb_lt in E; lia|].
    cbn [andb orb]; unfold MP_ZPOS, MP_NEG in *.
    destruct Hsa as [-> | ->]; reflexivity. }
  destruct (b =? 1) eqn:E1.
  - apply Z.eqb_eq in E1; subst b.
    destruct (SetValue_if this a Hwa Hit Hdt) as
      (t1 & Et & Hs1 & Hn1 & Hm1 & Hi1 & Hd1 & _ & _); [lia|].
    rewrite Et; change (VLONG_SUCCESS =? 0) with true; cbv iota.
    cbn [option_map].
    rewrite Z.div_1_r, Z.mod_1_r, Z.mul_0_r.
    eexists; split; [reflexivity|].
    rewrite to_Z_magnitude; unfold magnitude at 1, in_buffer, na.
    cbn [s d nu set_s]; fold (magnitude t1); rewrite Hm1, Hsq.
    splits; auto; try apply Hi1; lia.
  - apply Z.eqb_neq in E1.
    set (x := if is_this a then Init else this).
    assert (Hx : in_buffer x /\ digits_ok (d x)).
    { unfold x; destruct (is_this a); [|auto].
      split; [unfold in_buffer, na, zlen; simpl; lia | constructor]. }
    destruct Hx as [Hix Hdx].
    destruct (prvDivInt_spec (deref this a) x b 0 Hwa) as
      (v' & Ev & Hmv & Hiv & Hdv & Hnv); auto; try lia.
    rewrite Ev; change (VLONG_SUCCESS =? 0) with true; cbv iota.
    cbn [obj_or option_map].
    pose proof (Z.mod_pos_bound (magnitude (deref this a)) b ltac:(lia)) as Hr.
    set (r := magnitude (deref this a) mod b) in *.
    assert (Hrem : (if s (deref this a) =? MP_NEG
                    then sdig_t (- sdig_t r) else sdig_t r)
                   = s (deref this a) * r).
    { rewrite (sdig_small r) by lia.
      unfold MP_ZPOS, MP_NEG in *.
      destruct Hsa as [-> | ->]; cbn [Z.eqb Pos.eqb];
        rewrite ?sdig_small by lia; lia. }
    rewrite Hrem.
    set (y := set_s (if is_this a then prvMovePtr this v' else v') signq).
    assert (Hy : s y = s (deref this a) /\ magnitude y = magnitude v'
                 /\ nu y = nu v' /\ d y = d v').
    { unfold y, magnitude; destruct (is_this a); unfold prvMovePtr;
        cbn [s d nu set_s]; auto. }
    destruct Hy as (Hsy & Hmy & Hny & Hdy).
    unfold in_buffer in Hiv.
    destruct (Clamp_spec y) as (Hcl & Hmg & Htz & Hdd & Hnn & _); [lia|].
    eexists; split; [reflexivity|].
    rewrite Htz, to_Z_magnitude, Hsy, Hmy, Hmv.
    unfold in_buffer, na; rewrite Hdd, Hdy; fold (na v').
    splits; auto; lia.
Qed.

(** ** Schoolbook multiplication *)

Lemma mul_inner (f : Z -> vlong * Z -> vlong * Z) (acc0 : vlong)
  (ai : Z) (b : vlong) (i nb : Z) (D : nat) :
  (forall j t u,
     f j (t, u)
     = (set_di t (i + j)
          (udig_t (Z.land (uwrd_t (di t (i + j) + ai * di b j + u))
                          MP_MASK_DIG)),
        udig_t (Z.shiftr (uwrd_t (di t (i + j) + ai * di b j + u)) BiD))) ->
  0 <= ai < 2 ^ 32 -> digits_ok (d b) -> digits_ok (d acc0) ->
  0 <= i -> 0 <= nb -> i + nb <= Z.of_nat D <= na acc0 ->
  exists t u,
    for_up (Z.to_nat nb) 0 f (acc0, 0) = (t, u)
    /\ 0 <= u < 2 ^ 32
    /\ mag (d t) D + u * 2 ^ (32 * (i + nb))
       = mag (d acc0) D + ai * mag (d b) (Z.to_nat nb) * 2 ^ (32 * i)
    /\ (forall k, i + nb <= k -> di t k = di acc0 k)
    /\ na t = na acc0 /\ s t = s acc0 /\ nu t = nu acc0
    /\ digits_ok (d t).
Proof.
  intros Hf Hai Hdb Hd0 Hi Hnb HD.
  pose (P := fun (j : Z) (st : vlong * Z) =>
    0 <= snd st < 2 ^ 32
    /\ mag (d (fst st)) D + snd st * 2 ^ (32 * (i + j))
       = mag (d acc0) D + ai * mag (d b) (Z.to_nat j) * 2 ^ (32 * i)
    /\ (forall k, i + j <= k -> di (fst st) k = di acc0 k)
    /\ na (fst st) = na acc0 /\ s (fst st) = s acc0 /\ nu (fst st) = nu acc0
    /\ digits_ok (d (fst st))).
  assert (HP : P (0 + Z.of_nat (Z.to_nat nb))
                 (for_up (Z.to_nat nb) 0 f (acc0, 0))).
  { apply for_up_ind.
    - unfold P; cbn [fst snd]; change (Z.to_nat 0) with 0%nat.
      rewrite mag_0; splits; auto; lia.
    - intros j [t u] Hj (Hu & Hm & Hrest & Hna & Hs & Hnu & Hd).
      cbn [fst snd] in *; rewrite Hf, Hrest by lia.
      pose proof (digits_ok_dget (d acc0) (i + j) Hd0) as Hx.
      pose proof (digits_ok_dget (d b) j Hdb) as Hbj.
      fold (di acc0 (i + j)) in Hx; fold (di b j) in Hbj.
      set (x := di acc0 (i + j)) in *; set (bj := di b j) in *.
      destruct (word_split (x + ai * bj + u)) as [W1 W2]; [nia|].
      rewrite W1, W2; unfold P; cbn [fst snd].
      set (r := x + ai * bj + u) in *.
      assert (Hq : 0 <= r / 2 ^ 32 < 2 ^ 32).
      { split; [apply Z.div_pos; nia|].
        apply Z.div_lt_upper_bound; nia. }
      assert (Hr : 0 <= r mod 2 ^ 32 < 2 ^ 32) by (apply Z.mod_pos_bound; lia).
      pose proof (Z.div_mod r (2 ^ 32) ltac:(lia)) as Hdm.
      unfold set_di, na, di; cbn [d s nu set_d]; rewrite dset_length.
      fold (na t).
      split; [exact Hq|]; split; [|splits; auto].
      + rewrite mag_dset_inside by (fold (na t); lia).
        assert (Hxt : dget (d t) (i + j) = x) by (apply Hrest; lia).
        rewrite Hxt.
        rewrite (mag_next (d b) j) by lia; fold (di b j); fold bj.
        replace (32 * (i + (j + 1))) with (32 + 32 * (i + j)) by lia.
        rewrite Z.pow_add_r by lia.
        replace (32 * (i + j)) with (32 * i + 32 * j) in * by lia.
        rewrite Z.pow_add_r in * by lia.
        set (Bi := 2 ^ (32 * i)) in *; set (Bj := 2 ^ (32 * j)) in *.
        replace (mag (d t) D + (r mod 2 ^ 32 - x) * (Bi * Bj)
                 + r / 2 ^ 32 * (2 ^ 32 * (Bi * Bj)))
          with (mag (d t) D
                + (2 ^ 32 * (r / 2 ^ 32) + r mod 2 ^ 32 - x) * (Bi * Bj))
          by ring.
        rewrite <- Hdm; unfold r.
        replace (x + ai * bj + u - x) with (ai * bj + u) by lia.
        replace (mag (d t) D) with
          (mag (d acc0) D + ai * mag (d b) (Z.to_nat j) * Bi - u * (Bi * Bj))
          by lia.
        ring.
      + intros k Hk; rewrite dget_dset_other by lia; apply Hrest; lia.
      + apply digits_ok_dset; auto. }
  destruct (for_up (Z.to_nat nb) 0 f (acc0, 0)) as [t u].
  replace (0 + Z.of_nat (Z.to_nat nb)) with nb in HP by lia.
  exists t, u; split; [reflexivity | exact HP].
Qed.

Lemma prvMulBaseline_spec (this a b : vlong) :
  well_formed a -> well_formed b -> in_buffer this -> digits_ok (d this) ->
  nu a + nu b <= VLONG_MAX_DIGITS ->
  exists r, prvMulBaseline this a b (nu a + nu b) = Some (VLONG_SUCCESS, r)
    /\ magnitude r = magnitude a * magnitude b
    /\ clamped r /\ in_buffer r /\ digits_ok (d r)
    /\ nu r <= nu a + nu b /\ na this <= na r.
Proof.
  intros (Hia & Hda & _) (Hib & Hdb & _) Hit Hdt Hlim.
  unfold in_buffer in Hia, Hib, Hit.
  unfold prvMulBaseline; cbv zeta.
  rewrite Z.ltb_irrefl.
  set (digs := nu a + nu b) in *.
  assert (HG : exists t1,
             (if nu this <? digs then Grow this digs else ok this)
             = Some (VLONG_SUCCESS, t1)
             /\ digs <= na t1 /\ na this <= na t1 /\ digits_ok (d t1)).
  { destruct (nu this <? digs) eqn:E.
    - destruct (Grow_spec this digs) as
        (t1 & E1 & H1 & H2 & H3 & H4 & H5 & H6); [lia|].
      exists t1; splits; auto.
    - apply Z.ltb_ge in E; exists this; splits; auto; lia. }
  destruct HG as (t1 & E1 & Hn1 & Hna1 & Hd1).
  rewrite E1; change (VLONG_SUCCESS =? 0) with true; cbv iota.
  cbn [nu set_nu d set_d].
  replace (if digs <? nu b then digs else nu b) with (nu b)
    by (destruct (digs <? nu b) eqn:E; [apply Z.ltb_lt in E; lia | reflexivity]).
  set (t2 := set_d (set_nu t1 digs) (memset0 (d t1) 0 digs)).
  set (D := Z.to_nat digs).
  set (Mb := mag (d b) (Z.to_nat (nu b))).
  pose (Q := fun (i : Z) (t : vlong) =>
    mag (d t) D = mag (d a) (Z.to_nat i) * Mb
    /\ (forall k, i + nu b <= k < digs -> di t k = 0)
    /\ na t = na t1 /\ nu t = digs /\ digits_ok (d t)).
  match goal with
  | |- context [for_up (Z.to_nat (nu a)) 0 ?f t2] =>
      assert (HQ : Q (0 + Z.of_nat (Z.to_nat (nu a)))
                     (for_up (Z.to_nat (nu a)) 0 f t2));
      [|set (t3 := for_up (Z.to_nat (nu a)) 0 f t2) in *]
  end.
  { apply for_up_ind.
    - unfold Q, t2, na, di; cbn [d nu set_d set_nu].
      rewrite memset0_length; change (Z.to_nat 0) with 0%nat.
      rewrite mag_0, Z.mul_0_l.
      splits; auto using digits_ok_memset0.
      + apply mag_zero; intros k Hk; rewrite dget_memset0 by lia.
        destruct ((0 <=? k) && (k <? 0 + digs)) eqn:E; [reflexivity|].
        apply andb_false_iff in E; destruct E as [E | E];
          [apply Z.leb_gt in E | apply Z.ltb_ge in E]; unfold D in Hk; lia.
      + intros k Hk; rewrite dget_memset0 by lia.
        destruct ((0 <=? k) && (k <? 0 + digs)) eqn:E; [reflexivity|].
        apply andb_false_iff in E; destruct E as [E | E];
          [apply Z.leb_gt in E | apply Z.ltb_ge in E]; lia.
    - intros i t Hi (Hm & Hz & Hna & Hnu & Hd).
      pose proof (digits_ok_dget (d a) i Hda) as Hai; fold (di a i) in Hai.
      match goal with
      | |- Q _ (let '(_, _) := for_up (Z.to_nat (nu b)) 0 ?g (t, 0) in _) =>
          destruct (mul_inner g t (di a i) b i (nu b) D) as
            (t' & u & Ei & Hu & Hmi & Hrest & Hna' & Hs' & Hnu' & Hd')
      end.
      { intros j t0 u0; reflexivity. }
      { exact Hai. }
      { exact Hdb. }
      { exact Hd. }
      { lia. }
      { lia. }
      { unfold D; rewrite Hna; lia. }
      rewrite Ei.
      destruct (i + nu b <? digs) eqn:E; [|apply Z.ltb_ge in E; lia].
      unfold Q, set_di, na, di; cbn [d nu set_d].
      rewrite dset_length; fold (na t').
      assert (Hzero : dget (d t') (i + nu b) = 0).
      { fold (di t' (i + nu b)); rewrite Hrest by lia; apply Hz; lia. }
      splits; try lia; try (unfold na in *; lia).
      + rewrite mag_dset_inside by (unfold D; fold (na t'); lia).
        rewrite Hzero, (mag_next (d a) i) by lia; fold (di a i).
        fold Mb in Hmi; lia.
      + intros k Hk; rewrite dget_dset_other by lia.
        fold (di t' k); rewrite Hrest by lia; apply Hz; lia.
      + apply digits_ok_dset; auto. }
  replace (0 + Z.of_nat (Z.to_nat (nu a))) with (nu a) in HQ by lia.
  destruct HQ as (Hm3 & _ & Hna3 & Hnu3 & Hd3).
  destruct (Clamp_spec t3) as (Hcl & Hmg & _ & Hdd & Hnn & _); [lia|].
  eexists; split; [reflexivity|].
  rewrite Hmg; unfold magnitude at 1, in_buffer, na.
  rewrite Hdd, Hnu3; fold (na t3); fold D; rewrite Hm3.
  splits; auto; try lia; try (unfold na in *; lia).
Qed.

Lemma Mul_spec (fuel : nat) (this : vlong) (a b : ref) :
  well_formed (deref this a) -> well_formed (deref this b) ->
  in_buffer this -> digits_ok (d this) ->
  nu (deref this a) + nu (deref this b) <= VLONG_MAX_DIGITS ->
  Z.min (nu (deref this a)) (nu (deref this b)) < VLONG_KARATSUBA_MUL_CUTOFF ->
  exists r, Mul (S fuel) this a b 0 = Some (VLONG_SUCCESS, r)
    /\ to_Z r = to_Z (deref this a) * to_Z (deref this b)
    /\ in_buffer r /\ digits_ok (d r)
    /\ (s r = MP_ZPOS \/ s r = MP_NEG)
    /\ nu r <= nu (deref this a) + nu (deref this b)
    /\ (top_nonzero (deref this a) -> top_nonzero (deref this b) ->
        top_nonzero r).
Proof.
  intros Hwa Hwb Hit Hdt Hlim Hmin.
  pose proof Hwa as (Hia & Hda & Hsa); pose proof Hwb as (Hib & Hdb & Hsb).
  unfold in_buffer in Hia, Hib.
  cbn [Mul]; unfold Mul_body; cbv zeta.
  set (av := deref this a) in *; set (bv := deref this b) in *.
  set (sign := if s av =? s bv then MP_ZPOS else MP_NEG).
  assert (Hsign : (sign = MP_ZPOS \/ sign = MP_NEG) /\ sign = s av * s bv).
  { unfold sign, MP_ZPOS, MP_NEG in *.
    destruct Hsa as [-> | ->], Hsb as [-> | ->]; cbn; auto. }
  destruct Hsign as [Hsg Hsg'].
  destruct ((nu av =? 0) || (nu bv =? 0)) eqn:Ez.
  - destruct (SetZero_spec this) as (H1 & H2 & H3 & H4 & H5).
    eexists; split; [reflexivity|].
    rewrite !to_Z_magnitude, H4, H1.
    assert (Hz : magnitude av = 0 \/ magnitude bv = 0).
    { apply orb_true_iff in Ez; destruct Ez as [E | E]; apply Z.eqb_eq in E;
        [left | right]; apply magnitude_zero; lia. }
    unfold in_buffer, top_nonzero; rewrite H2, H3.
    splits; auto; try lia.
    unfold na, zlen; lia.
  - apply orb_false_iff in Ez; destruct Ez as [Ea Eb].
    apply Z.eqb_neq in Ea, Eb.
    set (x := if is_this a || is_this b then Init else this).
    assert (Hx : in_buffer x /\ digits_ok (d x)).
    { unfold x; destruct (is_this a || is_this b); [|auto].
      split; [unfold in_buffer, na, zlen; simpl; lia | constructor]. }
    destruct Hx as [Hix Hdx]; unfold in_buffer in Hix.
    assert (HG : exists x1,
               (if nu x <? nu av + nu bv then Grow x (nu av + nu bv) else ok x)
               = Some (VLONG_SUCCESS, x1)
               /\ in_buffer x1 /\ digits_ok (d x1)).
    { destruct (nu x <? nu av + nu bv) eqn:E.
      - destruct (Grow_spec x (nu av + nu bv)) as
          (x1 & E1 & H1 & H2 & H3 & H4 & H5 & H6); [lia|].
        exists x1; unfold in_buffer; splits; auto; lia.
      - exists x; unfold in_buffer; splits; auto; lia. }
    destruct HG as (x1 & E1 & Hi1 & Hd1).
    rewrite E1; change (VLONG_SUCCESS =? 0) with true; cbv iota.
    change (0 <? 0) with false; cbn [andb].
    replace (VLONG_KARATSUBA_MUL_CUTOFF
             <=? (if nu av <? nu bv then nu av else nu bv)) with false.
    2:{ symmetry; apply Z.leb_gt.
        destruct (nu av <? nu bv) eqn:E;
          [apply Z.ltb_lt in E | apply Z.ltb_ge in E]; lia. }
    destruct (prvMulBaseline_spec x1 av bv Hwa Hwb Hi1 Hd1 Hlim) as
      (r & Er & Hm & Hcl & Hir & Hdr & Hnr & _).
    rewrite Er.
    destruct (nu av + nu bv <? nu r) eqn:E; [apply Z.ltb_lt in E; lia|].
    eexists; split; [reflexivity|].
    set (y := if is_this a || is_this b then prvMovePtr this r else r).
    assert (Hy : magnitude y = magnitude r /\ nu y = nu r /\ d y = d r).
    { unfold y, magnitude; destruct (is_this a || is_this b);
        unfold prvMovePtr; cbn [s d nu]; auto. }
    destruct Hy as (Hmy & Hny & Hdy).
    rewrite !to_Z_magnitude; unfold magnitude at 1, in_buffer, top_nonzero, na, di.
    cbn [s d nu set_s]; fold (magnitude y).
    rewrite Hmy, Hm, Hny, Hdy, Hsg'.
    unfold in_buffer, na in Hir.
    splits; auto; try lia; try ring.
    intros _ _; apply Hcl.
Qed.

(** ** The Montgomery constant *)

Lemma land4_spec (y : Z) : Z.land y 4 = 4 * ((y / 4) mod 2).
Proof.
  destruct (Z.testbit y 2) eqn:E.
  - pose proof E as E'; apply Z.testbit_true in E'; [|lia].
    change (2 ^ 2) with 4 in E'; rewrite E'.
    apply Z.bits_inj'; intros i Hi.
    rewrite Z.land_spec; change (4 * 1) with (2 ^ 2); change 4 with (2 ^ 2).
    rewrite Z.pow2_bits_eqb by lia.
    destruct (Z.eqb_spec 2 i) as [<- | Hne]; [rewrite E; reflexivity|].
    apply andb_false_r.
  - pose proof E as E'; apply Z.testbit_false in E'; [|lia].
    change (2 ^ 2) with 4 in E'; rewrite E'.
    apply Z.bits_inj'; intros i Hi.
    rewrite Z.land_spec, Z.mul_0_r, Z.bits_0; change 4 with (2 ^ 2).
    rewrite Z.pow2_bits_eqb by lia.
    destruct (Z.eqb_spec 2 i) as [<- | Hne]; [rewrite E; reflexivity|].
    apply andb_false_r.
Qed.

Lemma bit2_mod8 (y : Z) : (y / 4) mod 2 = (y mod 8) / 4.
Proof.
  pose proof (Z.div_mod y 8 ltac:(lia)) as Hy.
  pose proof (Z.mod_pos_bound y 8 ltac:(lia)) as Ht.
  set (k := y / 8) in *; set (t := y mod 8) in *.
  rewrite Hy at 1.
  replace (8 * k + t) with (2 * k * 4 + t) by ring.
  rewrite Z.div_add_l by lia.
  rewrite Z.add_comm, Z.mul_comm, Z.mod_add by lia.
  apply Z.mod_small; split; [apply Z.div_pos; lia|].
  apply Z.div_lt_upper_bound; lia.
Qed.

(** The seed of the iteration inverts [b] modulo 16. *)
Lemma montgomery_seed (b : Z) :
  0 <= b < 2 ^ 32 -> b mod 2 = 1 ->
  (udig_t (udig_t (Z.shiftl (Z.land (udig_t (b + 2)) 4) 1) + b) * b - 1)
    mod 16 = 0.
Proof.
  intros Hb Hodd; unfold udig_t.
  rewrite land4_spec, Z.shiftl_mul_pow2 by lia.
  change (2 ^ 1) with 2.
  pose proof (Z.div_mod b 16 ltac:(lia)) as Hdm.
  pose proof (Z.mod_pos_bound b 16 ltac:(lia)) as Hr.
  set (q := b / 16) in *; set (r := b mod 16) in *.
  (* the bit of (b + 2) that is tested depends on b mod 16 only *)
  assert (Hc : ((b + 2) mod 2 ^ 32 / 4) mod 2 = ((r + 2) / 4) mod 2).
  { assert (H8 : (2 ^ 3 | 2 ^ 32)) by (exists (2 ^ 29); reflexivity).
    assert (Hy : ((b + 2) mod 2 ^ 32) mod 2 ^ 3 = (r + 2) mod 2 ^ 3).
    { rewrite Z.mod_mod_divide by exact H8.
      rewrite Hdm; change (2 ^ 3) with 8.
      replace (16 * q + r + 2) with (r + 2 + (2 * q) * 8) by ring.
      apply Z.mod_add; lia. }
    change (2 ^ 3) with 8 in Hy.
    rewrite !bit2_mod8, Hy; reflexivity. }
  rewrite Hc; set (c := ((r + 2) / 4) mod 2).
  assert (H16 : (16 | 2 ^ 32)) by (exists (2 ^ 28); reflexivity).
  apply Z.mod_divide; [lia|].
  set (x := ((4 * c * 2) mod 2 ^ 32 + b) mod 2 ^ 32).
  assert (Hx : exists m, x = 8 * c + b + 16 * m).
  { unfold x.
    pose proof (Z.div_mod (4 * c * 2) (2 ^ 32) ltac:(lia)) as H1.
    pose proof (Z.div_mod ((4 * c * 2) mod 2 ^ 32 + b) (2 ^ 32) ltac:(lia)) as H2.
    destruct H16 as [z Hz].
    exists (- z * ((4 * c * 2) / 2 ^ 32)
            - z * (((4 * c * 2) mod 2 ^ 32 + b) / 2 ^ 32)).
    rewrite Hz in *; lia. }
  destruct Hx as [m Hm]; rewrite Hm.
  assert (Hcases : r = 1 \/ r = 3 \/ r = 5 \/ r = 7
                   \/ r = 9 \/ r = 11 \/ r = 13 \/ r = 15).
  { pose proof (Z.div_mod b 2 ltac:(lia)) as Hd2.
    rewrite Hodd in Hd2; clearbody q r; lia. }
  unfold c; clear x Hm Hc c; clearbody q r.
  destruct Hcases as [-> | [-> | [-> | [-> | [-> | [-> | [-> | ->]]]]]]];
    subst b.
  - exists (16 * q * q + 2 * q + (16 * q + 1) * m); vm_compute (((1 + 2) / 4) mod 2); ring.
  - exists (16 * q * q + 14 * q + 2 + (16 * q + 3) * m); vm_compute (((3 + 2) / 4) mod 2); ring.
  - exists (16 * q * q + 18 * q + 4 + (16 * q + 5) * m); vm_compute (((5 + 2) / 4) mod 2); ring.
  - exists (16 * q * q + 14 * q + 3 + (16 * q + 7) * m); vm_compute (((7 + 2) / 4) mod 2); ring.
  - exists (16 * q * q + 18 * q + 5 + (16 * q + 9) * m); vm_compute (((9 + 2) / 4) mod 2); ring.
  - exists (16 * q * q + 30 * q + 13 + (16 * q + 11) * m); vm_compute (((11 + 2) / 4) mod 2); ring.
  - exists (16 * q * q + 34 * q + 17 + (16 * q + 13) * m); vm_compute (((13 + 2) / 4) mod 2); ring.
  - exists (16 * q * q + 30 * q + 14 + (16 * q + 15) * m); vm_compute (((15 + 2) / 4) mod 2); ring.
Qed.

(** One step of the iteration doubles the number of inverted bits. *)
Lemma montgomery_step (b x k : Z) :
  0 < k -> 2 * k <= 32 -> (x * b - 1) mod 2 ^ k = 0 ->
  (udig_t (x * udig_t (2 - udig_t (b * x))) * b - 1) mod 2 ^ (2 * k) = 0.
Proof.
  intros Hk Hk2 H.
  assert (Hp : 0 < 2 ^ k) by (apply Z.pow_pos_nonneg; lia).
  apply Z.mod_divide in H; [|lia]; destruct H as [t Ht].
  apply Z.mod_divide; [apply Z.pow_nonzero; lia|].
  assert (Hu : udig_t (x * udig_t (2 - udig_t (b * x)))
               = (x * (2 - b * x)) mod 2 ^ 32).
  { unfold udig_t.
    rewrite Zminus_mod_idemp_r, Z.mul_mod_idemp_r by lia; reflexivity. }
  rewrite Hu.
  pose proof (Z.div_mod (x * (2 - b * x)) (2 ^ 32) ltac:(lia)) as Hdm.
  set (m := (x * (2 - b * x)) / 2 ^ 32) in *.
  set (y := (x * (2 - b * x)) mod 2 ^ 32) in *.
  assert (H32 : 2 ^ 32 = 2 ^ (2 * k) * 2 ^ (32 - 2 * k)).
  { rewrite <- Z.pow_add_r by lia; f_equal; lia. }
  assert (H2k : 2 ^ (2 * k) = 2 ^ k * 2 ^ k).
  { rewrite <- Z.pow_add_r by lia; f_equal; lia. }
  exists (- t * t - m * 2 ^ (32 - 2 * k) * b).
  replace (y * b - 1) with (x * (2 - b * x) * b - 1 - 2 ^ 32 * m * b) by lia.
  replace (x * (2 - b * x) * b - 1) with (- ((x * b - 1) * (x * b - 1)))
    by ring.
  rewrite Ht, H32, H2k; ring.
Qed.

Lemma prvReduceMontgomerySetup_spec (n : vlong) :
  0 <= di n 0 < 2 ^ 32 ->
  (di n 0 mod 2 = 0 ->
   prvReduceMontgomerySetup n = (VLONG_ERR_BAD_ARG_1, 0))
  /\ (di n 0 mod 2 = 1 ->
      fst (prvReduceMontgomerySetup n) = VLONG_SUCCESS
      /\ 0 <= snd (prvReduceMontgomerySetup n) < 2 ^ 32
      /\ (snd (prvReduceMontgomerySetup n) * di n 0 + 1) mod 2 ^ 32 = 0).
Proof.
  intros Hb; unfold prvReduceMontgomerySetup; cbv zeta.
  set (b := di n 0) in *.
  assert (Hl : Z.land b 1 = b mod 2)
    by (change 1 with (Z.ones 1); apply Z.land_ones; lia).
  rewrite Hl; split; intros Hpar; rewrite Hpar; [reflexivity|].
  change (1 =? 0) with false; cbv iota; cbn [fst snd].
  pose proof (montgomery_seed b Hb Hpar) as H4.
  change 16 with (2 ^ 4) in H4.
  apply (montgomery_step b _ 4) in H4; [|lia|lia].
  apply (montgomery_step b _ (2 * 4)) in H4; [|lia|lia].
  apply (montgomery_step b _ (2 * (2 * 4))) in H4; [|lia|lia].
  change (2 * (2 * (2 * 4))) with 32 in H4.
  match type of H4 with
  | (?x * b - 1) mod _ = 0 => set (xx := x) in *
  end.
  assert (Hr : udig_t (unot xx + 1) = (- xx) mod 2 ^ 32).
  { unfold unot, udig_t; rewrite Zplus_mod_idemp_l.
    f_equal; unfold Z.lnot; lia. }
  rewrite Hr; split; [reflexivity|]; split; [apply Z.mod_pos_bound; lia|].
  apply Z.mod_divide in H4; [|lia]; destruct H4 as [t Ht].
  apply Z.mod_divide; [lia|].
  pose proof (Z.div_mod (- xx) (2 ^ 32) ltac:(lia)) as Hdm.
  exists (- t - (- xx) / 2 ^ 32 * b).
  replace ((- xx) mod 2 ^ 32) with (- xx - 2 ^ 32 * ((- xx) / 2 ^ 32)) by lia.
  replace ((- xx - 2 ^ 32 * (- xx / 2 ^ 32)) * b + 1)
    with (- (xx * b - 1) - 2 ^ 32 * (- xx / 2 ^ 32) * b) by ring.
  rewrite Ht; ring.
Qed.

(** ** The BASE64 alphabet *)

Ltac bool_hyps :=
  repeat match goal with
         | H : (_ && _) = true |- _ => apply andb_true_iff in H; destruct H
         | H : (_ && _) = false |- _ => apply andb_false_iff in H; destruct H
         | H : (_ <? _) = true |- _ => apply Z.ltb_lt in H
         | H : (_ <? _) = false |- _ => apply Z.ltb_ge in H
         | H : (_ <=? _) = true |- _ => apply Z.leb_le in H
         | H : (_ <=? _) = false |- _ => apply Z.leb_gt in H
         | H : (_ =? _) = true |- _ => apply Z.eqb_eq in H
         | H : (_ =? _) = false |- _ => apply Z.eqb_neq in H
         end.

Ltac case_if :=
  match goal with
  | |- context [if ?b then _ else _] =>
      let E := fresh "E" in destruct b eqn:E; bool_hyps; try lia
  end.

Lemma base64_enc_cases (k : Z) :
  0 <= k < 64 ->
  (k < 26 /\ base64_enc k = 65 + k)
  \/ (26 <= k < 52 /\ base64_enc k = 71 + k)
  \/ (52 <= k < 62 /\ base64_enc k = k - 4)
  \/ (k = 62 /\ base64_enc k = 43)
  \/ (k = 63 /\ base64_enc k = 47).
Proof.
  intros Hk; unfold base64_enc; repeat case_if.
Qed.

Lemma POS_base64_enc (k : Z) : 0 <= k < 64 -> POS (base64_enc k) = k.
Proof.
  intros Hk.
  destruct (base64_enc_cases k Hk)
    as [[H ->] | [[H ->] | [[H ->] | [[H ->] | [H ->]]]]];
    unfold POS; repeat case_if.
Qed.

(** ** Random numbers *)

Lemma Grow_status (this : vlong) (n : Z) :
  (exists r, Grow this n = Some (VLONG_SUCCESS, r) /\ n <= na r
             /\ na this <= na r /\ nu r = nu this)
  \/ Grow this n = Some (VLONG_ERR_MEMORY_EXEED, this).
Proof.
  destruct (Z_le_gt_dec n (na this)) as [H | H].
  - left; destruct (Grow_spec this n) as (r & E & H1 & H2 & H3 & _); [lia|].
    exists r; auto.
  - destruct (Z_le_gt_dec n VLONG_MAX_DIGITS) as [H' | H'].
    + left; destruct (Grow_spec this n) as (r & E & H1 & H2 & H3 & _); [lia|].
      exists r; auto.
    + right; apply Grow_fails; lia.
Qed.

Lemma for_up_set_di (n : nat) (i0 : Z) (g h : Z -> vlong -> Z) (t : vlong) :
  let r := for_up n i0 (fun i this => set_di this (g i this) (h i this)) t in
  na r = na t /\ nu r = nu t /\ s r = s t.
Proof.
  cbv zeta; revert i0 t; induction n as [|n IH]; intros i0 t; [auto|].
  cbn [for_up]; destruct (IH (i0 + 1) (set_di t (g i0 t) (h i0 t)))
    as (H1 & H2 & H3).
  rewrite H1, H2, H3; unfold set_di, na; cbn [d s nu set_d].
  rewrite dset_length; auto.
Qed.

Lemma SetBytes_status (this : vlong) (start count : Z) (buf : list Z) :
  (exists r, SetBytes this start count buf = Some (VLONG_SUCCESS, r))
  \/ SetBytes this start count buf = Some (VLONG_ERR_MEMORY_EXEED, this).
Proof.
  unfold SetBytes.
  destruct (nu this * CiD <? start + count).
  - destruct (Grow_status this (start + count + 1)) as [(r & E & _) | E];
      rewrite E.
    + left; change (VLONG_SUCCESS =? 0) with true; cbv iota.
      unfold ok at 1; change (VLONG_SUCCESS =? 0) with true; cbv iota.
      eexists; reflexivity.
    + right; reflexivity.
  - left; unfold ok at 1; change (VLONG_SUCCESS =? 0) with true; cbv iota.
    eexists; reflexivity.
Qed.

Lemma GenRandomBytes_status (this : vlong) (bytes : Z) (rand : nat -> Z) :
  exists ret r,
    GenRandomBytes this bytes None rand = Some (ret, r)
    /\ (ret = VLONG_SUCCESS \/ ret = VLONG_ERR_BAD_ARG_1
        \/ ret = VLONG_ERR_MEMORY_EXEED)
    /\ ret <> VLONG_WRN_INSECURE_RNG.
Proof.
  assert (Hne : forall ret,
            ret = VLONG_SUCCESS \/ ret = VLONG_ERR_BAD_ARG_1
            \/ ret = VLONG_ERR_MEMORY_EXEED ->
            ret <> VLONG_WRN_INSECURE_RNG).
  { unfold VLONG_SUCCESS, VLONG_ERR_BAD_ARG_1, VLONG_ERR_MEMORY_EXEED,
      VLONG_WRN_INSECURE_RNG; intros ret H; lia. }
  unfold GenRandomBytes.
  destruct (bytes <? 1); [do 2 eexists; split; [reflexivity|]; auto|].
  destruct (Grow_status this (CHARS_TO_DIGITS bytes + 1)) as [(t & E & _) | E];
    rewrite E.
  - change (VLONG_SUCCESS =? 0) with true; cbv iota.
    unfold _local_prng; change (negb (0 =? 0)) with false; cbv iota.
    unfold FromBinary.
    match goal with
    | |- context [SetBytes ?x ?s0 ?c ?b] =>
        destruct (SetBytes_status x s0 c b) as [(r & Er) | Er]; rewrite Er
    end; do 2 eexists; split; [reflexivity | | reflexivity |]; auto.
  - do 2 eexists; split; [reflexivity|]; auto.
Qed.

Lemma GetNumBits_loop_spec (n : nat) (x acc : Z) :
  0 <= x < 2 ^ Z.of_nat n ->
  GetNumBits_loop n x acc = acc + (if x =? 0 then 0 else Z.log2 x + 1).
Proof.
  intros H; rewrite <- (prvIsPow2_loop_spec n x acc) by exact H.
  clear H; revert x acc; induction n as [|n IH]; intros x acc; [reflexivity|].
  cbn [GetNumBits_loop prvIsPow2_loop]; rewrite IH; reflexivity.
Qed.

Lemma lor_range (a b n : Z) :
  0 <= n -> 0 <= a < 2 ^ n -> 0 <= b < 2 ^ n -> 0 <= Z.lor a b < 2 ^ n.
Proof.
  intros Hn Ha Hb.
  assert (H0 : 0 <= Z.lor a b) by (apply Z.lor_nonneg; lia).
  split; [exact H0|].
  destruct (Z.eq_dec (Z.lor a b) 0) as [E | E];
    [rewrite E; apply Z.pow_pos_nonneg; lia|].
  apply Z.log2_lt_pow2; [lia|].
  rewrite Z.log2_lor by lia.
  destruct (Z.eq_dec a 0) as [-> | Hna]; destruct (Z.eq_dec b 0) as [-> | Hnb].
  - exfalso; apply E; reflexivity.
  - rewrite Z.max_r by (simpl; apply Z.log2_nonneg).
    apply Z.log2_lt_pow2; lia.
  - rewrite Z.max_l by (simpl; apply Z.log2_nonneg).
    apply Z.log2_lt_pow2; lia.
  - apply Z.max_lub_lt; apply Z.log2_lt_pow2; lia.
Qed.

Lemma land_range (x m : Z) : 0 <= x -> 0 <= m -> 0 <= Z.land x m <= x.
Proof.
  intros Hx Hm; split; [apply Z.land_nonneg; lia|].
  destruct (Z.eq_dec x 0) as [-> | Hne]; [rewrite Z.land_0_l; lia|].
  destruct (Z.eq_dec (Z.land x m) 0) as [E | E]; [lia|].
  assert (H0 : 0 <= Z.land x m) by (apply Z.land_nonneg; lia).
  apply Z.lt_succ_r.
  assert (Hsub : forall i, Z.testbit (Z.land x m) i = true -> Z.testbit x i = true).
  { intros i Hi; rewrite Z.land_spec in Hi.
    apply andb_true_iff in Hi; tauto. }
  rewrite <- Z.add_1_r.
  assert (Z.land x m = x - Z.land x (Z.lnot m)); [|
    assert (0 <= Z.land x (Z.lnot m)) by (apply Z.land_nonneg; lia); lia].
  assert (Hd : Z.land (Z.land x m) (Z.land x (Z.lnot m)) = 0).
  { apply Z.bits_inj'; intros i Hi.
    rewrite !Z.land_spec, Z.lnot_spec, Z.bits_0 by lia.
    destruct (Z.testbit x i), (Z.testbit m i); reflexivity. }
  assert (Hs : Z.lor (Z.land x m) (Z.land x (Z.lnot m)) = x).
  { apply Z.bits_inj'; intros i Hi.
    rewrite Z.lor_spec, !Z.land_spec, Z.lnot_spec by lia.
    destruct (Z.testbit x i), (Z.testbit m i); reflexivity. }
  pose proof (Z.add_nocarry_lxor _ _ Hd) as Hadd.
  rewrite Z.lxor_lor in Hadd by exact Hd.
  rewrite Hs in Hadd; lia.
Qed.

Lemma SetBytes_loop_spec (count : Z) (buf : list Z) (t : vlong) :
  digits_ok (d t) ->
  let r := for_up (Z.to_nat count) 0
             (fun i this =>
                let dig := (0 + count - i - 1) / CiD in
                let pos := (0 + count - i - 1) mod CiD in
                let val := udig_t (Z.shiftl 255 (pos * 8)) in
                set_di this dig
                  (Z.lor (Z.land (di this dig) (unot val))
                         (udig_t (Z.shiftl (uchar_t (dget buf i)) (pos * 8)))))
             t in
  na r = na t /\ nu r = nu t /\ s r = s t /\ digits_ok (d r).
Proof.
  intros Hd; cbv zeta.
  pose (P := fun (i : Z) (x : vlong) =>
    na x = na t /\ nu x = nu t /\ s x = s t /\ digits_ok (d x)).
  match goal with
  | |- context [for_up ?n 0 ?f t] =>
      assert (HP : P (0 + Z.of_nat n) (for_up n 0 f t))
  end.
  { apply for_up_ind; [unfold P; auto|].
    intros i x Hi (H1 & H2 & H3 & H4).
    unfold P, set_di, na; cbn [d s nu set_d]; rewrite dset_length.
    fold (na x); splits; auto.
    apply digits_ok_dset; [exact H4|].
    apply (lor_range _ _ 32); [lia | |].
    - pose proof (digits_ok_dget (d x) ((0 + count - i - 1) / CiD) H4) as Hx.
      fold (di x ((0 + count - i - 1) / CiD)) in Hx.
      assert (Hm : 0 <= unot (udig_t (Z.shiftl 255 ((0 + count - i - 1) mod CiD * 8)))).
      { unfold unot, udig_t; apply Z.mod_pos_bound; lia. }
      pose proof (land_range _ _ (proj1 Hx) Hm); lia.
    - unfold udig_t; apply Z.mod_pos_bound; lia. }
  exact HP.
Qed.

Lemma GenRandomBytes_ok (this : vlong) (bytes : Z) (rand : nat -> Z) :
  digits_ok (d this) -> 1 <= bytes -> bytes + 1 <= VLONG_MAX_DIGITS ->
  exists r, GenRandomBytes this bytes None rand = Some (VLONG_SUCCESS, r)
    /\ nu r = CHARS_TO_DIGITS bytes /\ CHARS_TO_DIGITS bytes + 1 <= na r
    /\ s r = MP_ZPOS /\ digits_ok (d r).
Proof.
  intros Hd Hb Hlim; unfold GenRandomBytes.
  destruct (bytes <? 1) eqn:E0; [apply Z.ltb_lt in E0; lia|].
  assert (Hcd : 1 <= CHARS_TO_DIGITS bytes <= bytes).
  { unfold CHARS_TO_DIGITS, CiD; split.
    - apply Z.div_le_lower_bound; lia.
    - apply Z.div_le_upper_bound; lia. }
  destruct (Grow_spec this (CHARS_TO_DIGITS bytes + 1)) as
    (t1 & E1 & Hn1 & _ & _ & _ & _ & Hd1); [lia|].
  rewrite E1; change (VLONG_SUCCESS =? 0) with true; cbv iota.
  unfold _local_prng; change (negb (0 =? 0)) with false; cbv iota.
  unfold FromBinary, SetBytes.
  set (t1' := set_s t1 MP_ZPOS).
  assert (HG : exists t2,
             (if nu t1' * CiD <? 0 + bytes
              then (CHECK this0 <- Grow t1' (0 + bytes + 1) onfail this0;
                    ok (set_nu this0 (CHARS_TO_DIGITS (0 + bytes))))
              else ok t1') = Some (VLONG_SUCCESS, t2)
             /\ na t1 <= na t2 /\ s t2 = MP_ZPOS /\ digits_ok (d t2)).
  { destruct (nu t1' * CiD <? 0 + bytes).
    - destruct (Grow_spec t1' (0 + bytes + 1)) as
        (t2 & E2 & _ & Hn2 & _ & Hs2 & _ & Hd2); [lia|].
      rewrite E2; change (VLONG_SUCCESS =? 0) with true; cbv iota.
      eexists; split; [reflexivity|].
      unfold na in *; cbn [d s nu set_nu set_s] in *; splits; auto.
    - exists t1'; splits; auto; unfold na; cbn; lia. }
  destruct HG as (t2 & E2 & Hn2 & Hs2 & Hd2).
  rewrite E2; change (VLONG_SUCCESS =? 0) with true; cbv iota.
  unfold ok.
  pose proof (SetBytes_loop_spec bytes
                (memcpy (repeat 0 (Z.to_nat (bytes + 1)))
                   (map (fun i => uchar_t (rand i mod 256))
                      (seq 0 (Z.to_nat bytes))) bytes) t2 Hd2) as Hl.
  cbv zeta in Hl; destruct Hl as (L1 & L2 & L3 & L4).
  eexists; split; [reflexivity|].
  unfold na in *; cbn [d s nu set_nu]; splits; auto; try lia.
Qed.

Lemma GenRandomBits_spec (this : vlong) (bits : Z) (rand : nat -> Z) :
  digits_ok (d this) -> 0 < bits -> (bits + 7) / 8 + 1 <= VLONG_MAX_DIGITS ->
  exists r, GenRandomBits this bits None rand = Some (VLONG_SUCCESS, r)
    /\ GetNumBits r = bits /\ s r = MP_ZPOS
    /\ nu r = BITS_TO_DIGITS bits.
Proof.
  intros Hd Hb Hlim; unfold GenRandomBits; cbv zeta.
  set (bt := (bits + 7) / 8) in *.
  assert (Hbt : 1 <= bt) by (unfold bt; apply Z.div_le_lower_bound; lia).
  destruct (0 <? bt) eqn:E0; [|apply Z.ltb_ge in E0; lia].
  destruct (GenRandomBytes_ok this bt rand Hd Hbt Hlim) as
    (r0 & E1 & Hnu & Hna & Hs & Hd0).
  rewrite E1; change (VLONG_SUCCESS =? 0) with true; cbv iota.
  pose proof (Z.mod_pos_bound bits 32 ltac:(lia)) as Hd2.
  pose proof (Z.div_mod bits 32 ltac:(lia)) as Hdm.
  unfold BiD; set (d2 := bits mod 32) in *.
  assert (Hn : nu r0 = BITS_TO_DIGITS bits
               /\ 32 * (nu r0 - 1) + (if d2 =? 0 then 32 else d2) = bits).
  { rewrite Hnu; unfold CHARS_TO_DIGITS, BITS_TO_DIGITS, CiD, BiD, bt.
    set (k := bits / 32) in *.
    assert (H1 : (bits + 7) / 8 = 4 * k + (d2 + 7) / 8).
    { rewrite Hdm; replace (32 * k + d2 + 7) with (4 * k * 8 + (d2 + 7)) by ring.
      apply Z.div_add_l; lia. }
    assert (H2 : (bits + 32 - 1) / 32 = k + (d2 + 31) / 32).
    { rewrite Hdm at 1.
      replace (32 * k + d2 + 32 - 1) with (k * 32 + (d2 + 31)) by ring.
      apply Z.div_add_l; lia. }
    rewrite H1, H2.
    replace (4 * k + (d2 + 7) / 8 + 4 - 1) with (k * 4 + ((d2 + 7) / 8 + 3))
      by ring.
    rewrite Z.div_add_l by lia.
    clear - Hd2 Hdm; clearbody d2 k.
    destruct (d2 =? 0) eqn:E; [apply Z.eqb_eq in E | apply Z.eqb_neq in E];
      Z.div_mod_to_equations; lia. }
  destruct Hn as [Hn1 Hn2].
  assert (Hpos : 0 < nu r0).
  { rewrite Hnu; unfold CHARS_TO_DIGITS, CiD.
    apply Z.div_str_pos; lia. }
  set (n := nu r0) in *.
  assert (Hget : forall r v,
            nu r = n -> di r (n - 1) = v -> 0 < v < 2 ^ 32 ->
            GetNumBits r = 32 * (n - 1) + Z.log2 v + 1).
  { intros r v Hr Hv Hvr; unfold GetNumBits, isZero, BiD.
    rewrite Hr, Hv.
    destruct (n =? 0) eqn:E; [apply Z.eqb_eq in E; lia|].
    rewrite GetNumBits_loop_spec by (change (2 ^ Z.of_nat 32) with (2 ^ 32); lia).
    destruct (v =? 0) eqn:Ev; [apply Z.eqb_eq in Ev; lia|].
    destruct (1 <? n) eqn:E1'; [lia|].
    apply Z.ltb_ge in E1'; lia. }
  assert (Hlen : 0 <= n - 1 < zlen (d r0)) by (unfold na in Hna; lia).
  pose proof (digits_ok_dget (d r0) (n - 1) Hd0) as Htop.
  fold (di r0 (n - 1)) in Htop.
  destruct (0 <? d2) eqn:Ed.
  - apply Z.ltb_lt in Ed.
    destruct (0 <? n) eqn:En; [|apply Z.ltb_ge in En; lia].
    cbn [andb].
    destruct (d2 =? 0) eqn:Ez; [apply Z.eqb_eq in Ez; lia|].
    cbn [andb].
    eexists; split; [reflexivity|].
    set (m := Z.land (di r0 (n - 1)) (Z.shiftr MP_MASK_DIG (32 - d2))).
    assert (Hm : 0 <= m < 2 ^ d2).
    { unfold m; change MP_MASK_DIG with (Z.ones 32).
      rewrite Z.shiftr_div_pow2, Z.ones_div_pow2 by lia.
      replace (32 - (32 - d2)) with d2 by lia.
      rewrite Z.land_ones by lia; apply Z.mod_pos_bound.
      apply Z.pow_pos_nonneg; lia. }
    assert (Hp : udig_t (Z.shiftl 1 (d2 - 1)) = 2 ^ (d2 - 1)).
    { rewrite Z.shiftl_1_l; unfold udig_t; apply Z.mod_small.
      split; [apply Z.pow_nonneg; lia | apply Z.pow_lt_mono_r; lia]. }
    assert (Hpp : 0 < 2 ^ (d2 - 1) < 2 ^ d2).
    { split; [apply Z.pow_pos_nonneg; lia | apply Z.pow_lt_mono_r; lia]. }
    assert (Hd2le : 2 ^ d2 <= 2 ^ 32) by (apply Z.pow_le_mono_r; lia).
    set (v := Z.lor m (2 ^ (d2 - 1))).
    assert (Hv : 0 <= v < 2 ^ d2) by (apply lor_range; lia).
    assert (Hlog : Z.log2 v = d2 - 1).
    { unfold v; rewrite Z.log2_lor by lia.
      rewrite Z.log2_pow2 by lia.
      apply Z.max_r.
      destruct (Z.eq_dec m 0) as [-> | Hne]; [simpl; lia|].
      assert (Z.log2 m < d2) by (apply Z.log2_lt_pow2; lia); lia. }
    assert (Hvne : v <> 0).
    { unfold v; intros Hz; apply Z.lor_eq_0_iff in Hz; lia. }
    rewrite (Hget _ v).
    + unfold set_di; cbn [s d nu set_d]; splits; auto; lia.
    + reflexivity.
    + unfold set_di, di; cbn [s d nu set_d]; fold n.
      rewrite dget_dset_same by (rewrite dset_length; lia).
      rewrite dget_dset_same by lia.
      fold (di r0 (n - 1)); fold m; rewrite Hp; reflexivity.
    + lia.
  - apply Z.ltb_ge in Ed; assert (Ez : d2 = 0) by lia.
    rewrite Ez in *; cbn [andb Z.eqb] in *.
    assert (En : (0 <? nu r0) = true) by (apply Z.ltb_lt; exact Hpos).
    rewrite En.
    eexists; split; [reflexivity|].
    assert (Hp : udig_t (Z.shiftl 1 (32 - 1)) = 2 ^ 31) by reflexivity.
    set (v := Z.lor (di r0 (n - 1)) (2 ^ 31)).
    assert (Hv : 0 <= v < 2 ^ 32) by (apply lor_range; lia).
    assert (Hlog : Z.log2 v = 31).
    { unfold v; rewrite Z.log2_lor by lia.
      change (Z.log2 (2 ^ 31)) with 31.
      apply Z.max_r.
      destruct (Z.eq_dec (di r0 (n - 1)) 0) as [-> | Hne]; [simpl; lia|].
      assert (Z.log2 (di r0 (n - 1)) < 32) by (apply Z.log2_lt_pow2; lia); lia. }
    assert (Hvne : v <> 0).
    { unfold v; intros Hz; apply Z.lor_eq_0_iff in Hz; lia. }
    rewrite (Hget _ v).
    + unfold set_di; cbn [s d nu set_d]; splits; auto; lia.
    + reflexivity.
    + unfold set_di, di; cbn [s d nu set_d]; fold n.
      rewrite dget_dset_same by lia.
      fold (di r0 (n - 1)); rewrite Hp; reflexivity.
    + lia.
Qed.

(** ** A machine digit as exponent *)

Lemma GetNumBits_zero (e : vlong) : nu e = 0 -> GetNumBits e = 0.
Proof. intros H; unfold GetNumBits, isZero; rewrite H; reflexivity. Qed.

Lemma window_run_zero (fuel : nat) (redux : vlong -> res vlong) (e : vlong)
  (winsize : Z) (M : list vlong) (res0 : vlong) :
  nu e = 0 -> window_run fuel redux e winsize M res0 = Some (VLONG_SUCCESS, res0).
Proof. intros H; unfold window_run; rewrite H; reflexivity. Qed.

Ltac step_match :=
  match goal with
  | |- match ?x with _ => _ end = match ?x with _ => _ end =>
      destruct x
  | |- (if ?x then _ else _) = (if ?x then _ else _) => destruct x
  | |- (let '(_, _) := ?x in _) = (let '(_, _) := ?x in _) => destruct x
  end.

Lemma prvPowModBarrett_zero_exp (fuel : nat) (this a e e' n : vlong)
  (redmode : Z) :
  nu e = 0 -> nu e' = 0 ->
  prvPowModBarrett fuel this a e n redmode
  = prvPowModBarrett fuel this a e' n redmode.
Proof.
  intros H H'; unfold prvPowModBarrett.
  rewrite (GetNumBits_zero e H), (GetNumBits_zero e' H'); cbv zeta.
  repeat (first [ reflexivity
                | rewrite !window_run_zero by assumption; reflexivity
                | step_match ]).
Qed.

Lemma prvPowModMontgomery_zero_exp (fuel : nat) (this a e e' n : vlong) :
  nu e = 0 -> nu e' = 0 ->
  prvPowModMontgomery fuel this a e n = prvPowModMontgomery fuel this a e' n.
Proof.
  intros H H'; unfold prvPowModMontgomery.
  rewrite (GetNumBits_zero e H), (GetNumBits_zero e' H'); cbv zeta.
  repeat (first [ reflexivity
                | rewrite !window_run_zero by assumption; reflexivity
                | step_match ]).
Qed.

Lemma PowMod_udig_ignores_e (fuel : nat) (this : vlong) (a : ref) (e : Z)
  (n : ref) :
  PowMod_udig fuel this a e n = PowMod fuel this a (Ref Init) n.
Proof.
  unfold PowMod_udig; destruct fuel as [|fuel]; [reflexivity|].
  cbn [PowMod deref s]; cbv zeta.
  destruct (s (deref this n) =? MP_NEG); [reflexivity|].
  change (MP_ZPOS =? MP_NEG) with false; cbv iota.
  destruct (prvIsDrModulus (deref this n)).
  - apply prvPowModBarrett_zero_exp; reflexivity.
  - destruct (Z.land (di (deref this a) 0) 1 =? 1).
    + apply prvPowModMontgomery_zero_exp; reflexivity.
    + apply prvPowModBarrett_zero_exp; reflexivity.
Qed.

(** ** Abs *)

Lemma Abs_spec (this : vlong) (v : ref) :
  0 <= nu this -> well_formed (deref this v) ->
  nu (deref this v) <= VLONG_MAX_DIGITS ->
  exists r, Abs this v = Some (VLONG_SUCCESS, r)
    /\ to_Z r = Z.abs (to_Z (deref this v))
    /\ (nu (deref this v) = 0 ->
        s r = 0
        /\ forall p, 0 < nu p -> s p = MP_ZPOS -> Compare r p = MP_GT).
Proof.
  intros Hnu (Hi & Hd & Hs) Hlim; unfold in_buffer in Hi; unfold Abs.
  destruct (Copy_spec this v Hnu) as (t & Et & Hst & Hnt & Hk & _); [lia|].
  rewrite Et; eexists; split; [reflexivity|].
  assert (Hm : magnitude t = magnitude (deref this v)).
  { apply magnitude_ext; [exact Hnt|]; intros i Hi'; apply Hk; lia. }
  pose proof (magnitude_nonneg _ Hd) as Hm0.
  rewrite !to_Z_magnitude; unfold magnitude at 1; cbn [s d nu set_s].
  fold (magnitude t); rewrite Hm, Hnt.
  destruct (nu (deref this v) =? 0) eqn:E.
  - apply Z.eqb_eq in E; rewrite (magnitude_zero (deref this v)) by lia.
    split; [rewrite !Z.mul_0_r; reflexivity|].
    intros _; split; [reflexivity|].
    intros p Hp Hsp; unfold Compare; cbn [s d nu set_s].
    rewrite Hnt, E, Hsp; cbn [Z.eqb].
    destruct (nu p =? 0) eqn:Ep; [apply Z.eqb_eq in Ep; lia|].
    reflexivity.
  - apply Z.eqb_neq in E; split; [|intros Hz; lia].
    unfold MP_ZPOS, MP_NEG in Hs; destruct Hs as [-> | ->]; lia.
Qed.

(** ** Bits of the magnitude *)

Lemma land_pow2 (x k : Z) :
  0 <= k -> Z.land x (2 ^ k) = if Z.testbit x k then 2 ^ k else 0.
Proof.
  intros Hk; apply Z.bits_inj'; intros i Hi.
  rewrite Z.land_spec, Z.pow2_bits_eqb by lia.
  destruct (Z.eqb_spec k i) as [<- | Hne].
  - destruct (Z.testbit x k); [|rewrite Z.bits_0; reflexivity].
    rewrite Z.pow2_bits_true by lia; reflexivity.
  - rewrite andb_false_r.
    destruct (Z.testbit x k); [|rewrite Z.bits_0; reflexivity].
    rewrite Z.pow2_bits_false by lia; reflexivity.
Qed.

Lemma dget_skipn (l : list Z) (k : nat) (i : Z) :
  0 <= i -> dget (skipn k l) i = dget l (i + Z.of_nat k).
Proof.
  intros Hi; unfold dget.
  destruct (i <? 0) eqn:E1; [apply Z.ltb_lt in E1; lia|].
  destruct (i + Z.of_nat k <? 0) eqn:E2; [apply Z.ltb_lt in E2; lia|].
  replace (Z.to_nat (i + Z.of_nat k)) with (k + Z.to_nat i)%nat by lia.
  generalize (Z.to_nat i); clear; intros m; revert l.
  induction k as [|k IH]; intros l; [reflexivity|].
  destruct l as [|h t]; [destruct m; reflexivity|].
  cbn [skipn Nat.add nth]; apply IH.
Qed.

Lemma testbit_mag (l : list Z) (n : nat) (num : Z) :
  digits_ok l -> 0 <= num -> num / 32 < Z.of_nat n ->
  Z.testbit (mag l n) num = Z.testbit (dget l (num / 32)) (num mod 32).
Proof.
  intros Hd Hnum Hn.
  pose proof (Z.div_mod num 32 ltac:(lia)) as Hdm.
  pose proof (Z.mod_pos_bound num 32 ltac:(lia)) as Hp.
  assert (Hk : 0 <= num / 32) by (apply Z.div_pos; lia).
  set (k := num / 32) in *; set (p := num mod 32) in *.
  replace n with (Z.to_nat k + (n - Z.to_nat k))%nat by lia.
  rewrite (mag_split l (skipn (Z.to_nat k) l))
    by (intros i Hi; apply dget_skipn; lia).
  rewrite Z2Nat.id by lia.
  set (M' := mag (skipn (Z.to_nat k) l) (n - Z.to_nat k)).
  pose proof (mag_bound l (Z.to_nat k) Hd) as Hb.
  rewrite Z2Nat.id in Hb by lia.
  rewrite Hdm; replace (32 * k + p) with (p + 32 * k) by lia.
  rewrite <- Z.shiftr_spec, Z.shiftr_div_pow2 by lia.
  rewrite Z.mul_comm, Z.div_add, Z.div_small by lia.
  rewrite Z.add_0_l.
  rewrite <- (Z.mod_pow2_bits_low M' 32 p) by lia.
  unfold M'; rewrite mag_mod_low by lia.
  rewrite dget_skipn by lia; rewrite Z2Nat.id by lia.
  rewrite Z.add_0_l, Z.mod_pow2_bits_low by lia; reflexivity.
Qed.

Lemma GetBit_spec (this : vlong) (num : Z) :
  digits_ok (d this) -> 0 <= num -> num / 32 < nu this ->
  GetBit this num = Z.b2z (Z.testbit (magnitude this) num).
Proof.
  intros Hd Hnum Hn; unfold GetBit, BiD.
  destruct (nu this <=? num / 32) eqn:E; [apply Z.leb_le in E; lia|].
  pose proof (Z.mod_pos_bound num 32 ltac:(lia)) as Hp.
  rewrite udig_pow2 by exact Hp.
  unfold magnitude; rewrite testbit_mag by (auto; lia).
  fold (di this (num / 32)).
  rewrite land_pow2 by lia.
  destruct (Z.testbit (di this (num / 32)) (num mod 32)); cbn [Z.b2z].
  - rewrite Z.shiftr_div_pow2 by lia; apply Z.div_same.
    apply Z.pow_nonzero; lia.
  - apply Z.shiftr_0_l.
Qed.

(** ** Shifting zero to the left *)

Lemma ShiftLeft_zero_unclamped (this : vlong) (a : ref) (bits : Z) :
  well_formed (deref this a) -> in_buffer this -> digits_ok (d this) ->
  nu (deref this a) = 0 -> 32 <= bits -> bits / 32 + 1 <= VLONG_MAX_DIGITS ->
  exists r, ShiftLeft this a bits = Some (VLONG_SUCCESS, r)
    /\ to_Z r = 0 /\ 0 < nu r /\ ~ clamped r.
Proof.
  intros Hwa Hit Hdt Hz Hb Hlim; unfold ShiftLeft.
  destruct (bits <? 0) eqn:E; [apply Z.ltb_lt in E; lia|].
  destruct (ShiftLeft_nonneg_spec this a bits Hwa Hit Hdt) as
    (r & Er & Hs & Hm & Hi & Hd & Hn); [lia | lia |].
  exists r; split; [exact Er|].
  rewrite (magnitude_zero (deref this a)) in Hm by lia.
  rewrite Z.mul_0_l in Hm.
  assert (Hq : 1 <= bits / 32) by (apply Z.div_le_lower_bound; lia).
  rewrite to_Z_magnitude, Hm, Z.mul_0_r.
  split; [reflexivity|]; split; [lia|].
  intros [[Hc | Hc] _]; [lia|].
  pose proof (magnitude_pos r Hd ltac:(lia) Hc); lia.
Qed.

(** ** Long division when the dividend is not larger than the divisor *)

Lemma Div_smaller (fuel : nat) (this a b r0 : vlong) :
  well_formed a -> well_formed b -> clamped a -> clamped b ->
  0 <= nu r0 -> nu a <= VLONG_MAX_DIGITS ->
  magnitude a < magnitude b ->
  exists q r,
    Div fuel this (Ref a) (Ref b) (Some r0) = Some (VLONG_SUCCESS, (q, Some r))
    /\ to_Z q = 0 /\ to_Z r = to_Z a.
Proof.
  intros Hwa Hwb Hca Hcb Hr0 Hlim Hlt.
  pose proof (CompareMag_spec a b Hwa Hwb Hca Hcb) as Hcmp.
  rewrite Z.sgn_neg in Hcmp by lia.
  assert (Hnb : nu b <> 0).
  { intros Hz; rewrite (magnitude_zero b) in Hlt by lia.
    pose proof (magnitude_nonneg a (proj1 (proj2 Hwa))); lia. }
  unfold Div, prvDivBig; cbn [is_this deref obj_or cA cB cQ cR].
  destruct (nu b =? 0) eqn:E0; [apply Z.eqb_eq in E0; lia|].
  rewrite Hcmp; change (-1 =? MP_LT) with true; cbv iota.
  cbn [getR getQ a_from putR putQ cA cB cQ cR].
  destruct (Copy_spec r0 (Ref a) Hr0) as (v & Ev & Hs & Hn & Hk & _);
    [cbn [deref]; lia|].
  cbn [deref] in *; rewrite Ev.
  change (VLONG_SUCCESS =? 0) with true; cbv iota.
  unfold ok at 1; change (VLONG_SUCCESS =? 0) with true; cbv iota.
  cbn [getR getQ a_from putR putQ cA cB cQ cR option_map].
  do 2 eexists; split; [reflexivity|].
  cbn [cQ cR].
  destruct (SetZero_spec this) as (_ & _ & _ & Hm & _).
  rewrite !to_Z_magnitude, Hm, Hs; split; [lia|].
  f_equal; apply magnitude_ext; [exact Hn|].
  intros i Hi; apply Hk; lia.
Qed.

Lemma Div_equal_magnitude (fuel : nat) (this a b r0 : vlong) :
  well_formed a -> well_formed b -> clamped a -> clamped b ->
  0 <= nu this -> 0 < nu a <= VLONG_MAX_DIGITS ->
  magnitude a = magnitude b ->
  exists q r,
    Div fuel this (Ref a) (Ref b) (Some r0) = Some (VLONG_SUCCESS, (q, Some r))
    /\ to_Z q = (if s a =? s b then 1 else -1) * magnitude a
    /\ to_Z r = 0.
Proof.
  intros Hwa Hwb Hca Hcb Hnt Hlim Heq.
  pose proof (CompareMag_spec a b Hwa Hwb Hca Hcb) as Hcmp.
  rewrite Heq, Z.sub_diag in Hcmp; cbn [Z.sgn] in Hcmp.
  assert (Hnb : nu b <> 0).
  { intros Hz; rewrite (magnitude_zero b) in Heq by lia.
    destruct (clamped_sign a Hwa Hca) as [Hc | Hc]; lia. }
  unfold Div, prvDivBig; cbn [is_this deref obj_or cA cB cQ cR].
  destruct (nu b =? 0) eqn:E0; [apply Z.eqb_eq in E0; lia|].
  rewrite Hcmp; change (0 =? MP_LT) with false; change (0 =? MP_EQ) with true.
  cbv iota.
  cbn [getR getQ a_from putR putQ cA cB cQ cR].
  unfold SetValue.
  destruct (Copy_spec this (Ref a) Hnt) as (v & Ev & Hs & Hn & Hk & _);
    [cbn [deref]; lia|].
  cbn [deref] in *; rewrite Ev.
  cbn [getR getQ a_from putR putQ cA cB cQ cR option_map].
  do 2 eexists; split; [reflexivity|].
  cbn [cQ cR].
  destruct (SetZero_spec r0) as (_ & _ & _ & Hm & _).
  rewrite !to_Z_magnitude, Hm; unfold magnitude at 1; cbn [s d nu set_s].
  fold (magnitude v); split; [|lia].
  replace (magnitude v) with (magnitude a)
    by (symmetry; apply magnitude_ext; [exact Hn|]; intros i Hi; apply Hk; lia).
  destruct (s a =? s b); reflexivity.
Qed.

(** ** The short remainder *)

Lemma Mod_dig_spec (this : vlong) (a : ref) (b : Z) :
  well_formed (deref this a) ->
  0 < nu (deref this a) <= VLONG_MAX_DIGITS -> 0 < b < 2 ^ 31 ->
  exists r, Mod_dig this a b = Some (VLONG_SUCCESS, r)
    /\ to_Z r = Z.rem (to_Z (deref this a)) b
    /\ clamped r
    /\ ModDig (deref this a) b = Some (Z.rem (to_Z (deref this a)) b).
Proof.
  intros Hwa Hna Hb.
  assert (HI : in_buffer Init /\ digits_ok (d Init)).
  { split; [unfold in_buffer, na, zlen; simpl; lia | constructor]. }
  destruct HI as [HiI HdI].
  destruct (Div_dig_spec Init (Ref (deref this a)) b 0) as
    (q & Eq & _); cbn [deref]; auto.
  cbn [deref] in Eq.
  pose proof Hwa as (Hia & Hda & Hsa).
  pose proof (magnitude_nonneg _ Hda) as Hm0.
  destruct (quot_rem_signed (s (deref this a)) (magnitude (deref this a)) b)
    as [_ HR]; auto; try lia.
  pose proof (Z.mod_pos_bound (magnitude (deref this a)) b ltac:(lia)) as Hr.
  assert (Hrange : - 2 ^ 31 <= Z.rem (to_Z (deref this a)) b < 2 ^ 31).
  { rewrite to_Z_magnitude, HR; unfold MP_ZPOS, MP_NEG in Hsa.
    destruct Hsa as [-> | ->]; lia. }
  destruct (SetValue_dig_spec this _ Hrange) as (r & Er & Hv & Hc & _).
  unfold Mod_dig, ModDig; rewrite Eq.
  change (VLONG_SUCCESS =? VLONG_SUCCESS) with true; cbv iota.
  destruct (b =? 0) eqn:E0; [apply Z.eqb_eq in E0; lia|].
  exists r; splits; auto.
Qed.

(** ** Shifts by a signed count *)




(** ** The bit length *)

Lemma log2_shifted (t k low : Z) :
  0 < t -> 0 <= k -> 0 <= low < 2 ^ k ->
  Z.log2 (low + t * 2 ^ k) = Z.log2 t + k.
Proof.
  intros Ht Hk Hl.
  pose proof (Z.log2_spec t Ht) as [L1 L2].
  pose proof (Z.log2_nonneg t) as L0.
  apply Z.log2_unique; [lia|].
  replace (Z.succ (Z.log2 t + k)) with (Z.succ (Z.log2 t) + k) by lia.
  rewrite !Z.pow_add_r by lia.
  assert (0 < 2 ^ k) by (apply Z.pow_pos_nonneg; lia).
  split; nia.
Qed.

Lemma GetNumBits_spec (this : vlong) :
  well_formed this -> clamped this ->
  GetNumBits this
  = if magnitude this =? 0 then 0 else Z.log2 (magnitude this) + 1.
Proof.
  intros (Hb & Hd & _) (Hc & _).
  unfold in_buffer in Hb.
  destruct (Z.eq_dec (nu this) 0) as [H0 | H0].
  - rewrite GetNumBits_zero by exact H0.
    unfold magnitude; rewrite H0; change (Z.to_nat 0) with 0%nat;
    rewrite mag_0; reflexivity.
  - destruct Hc as [Hc | Hc]; [contradiction|].
    pose proof (digits_ok_dget _ (nu this - 1) Hd) as Ht.
    fold (di this (nu this - 1)) in Ht.
    pose proof (magnitude_top this Hd ltac:(lia) Hc) as Hm.
    assert (0 < 2 ^ (32 * (nu this - 1))) by (apply Z.pow_pos_nonneg; lia).
    destruct (magnitude this =? 0) eqn:E; [apply Z.eqb_eq in E; lia|].
    unfold GetNumBits, isZero.
    destruct (nu this =? 0) eqn:E0; [apply Z.eqb_eq in E0; lia|].
    rewrite GetNumBits_loop_spec by (change (Z.of_nat 32) with 32; lia).
    destruct (di this (nu this - 1) =? 0) eqn:E1;
      [apply Z.eqb_eq in E1; contradiction|].
    unfold magnitude.
    replace (Z.to_nat (nu this)) with (Z.to_nat (nu this - 1 + 1)) by lia.
    rewrite mag_next by lia.
    fold (di this (nu this - 1)).
    rewrite log2_shifted;
      [| lia | lia
       | pose proof (mag_bound (d this) (Z.to_nat (nu this - 1)) Hd) as Hmb;
         rewrite Z2Nat.id in Hmb by lia; exact Hmb].
    unfold BiD.
    destruct (1 <? nu this) eqn:E2;
      [apply Z.ltb_lt in E2 | apply Z.ltb_ge in E2]; lia.
Qed.

(** ** Exclusive or *)

Lemma lxor_range (a b n : Z) :
  0 <= n -> 0 <= a < 2 ^ n -> 0 <= b < 2 ^ n -> 0 <= Z.lxor a b < 2 ^ n.
Proof.
  intros Hn Ha Hb.
  assert (H0 : 0 <= Z.lxor a b) by (apply Z.lxor_nonneg; lia).
  split; [exact H0|].
  destruct (Z.eq_dec (Z.lxor a b) 0) as [E | E];
    [rewrite E; apply Z.pow_pos_nonneg; lia|].
  apply Z.log2_lt_pow2; [lia|].
  eapply Z.le_lt_trans; [apply Z.log2_lxor; lia|].
  destruct (Z.eq_dec a 0) as [-> | Hna]; destruct (Z.eq_dec b 0) as [-> | Hnb].
  - exfalso; apply E; reflexivity.
  - rewrite Z.max_r by (simpl; apply Z.log2_nonneg).
    apply Z.log2_lt_pow2; lia.
  - rewrite Z.max_l by (simpl; apply Z.log2_nonneg).
    apply Z.log2_lt_pow2; lia.
  - apply Z.max_lub_lt; apply Z.log2_lt_pow2; lia.
Qed.

Lemma testbit_small (a n : Z) : 0 <= a < 2 ^ n -> 0 <= n -> Z.testbit a n = false.
Proof.
  intros Ha Hn.
  destruct (Z.eq_dec a 0) as [-> | Hz]; [apply Z.bits_0|].
  apply Z.bits_above_log2; [lia|].
  apply Z.log2_lt_pow2; lia.
Qed.

(** Bit [n] of a magnitude is bit [n mod 32] of digit [n / 32]. *)
Lemma testbit_magnitude (v : vlong) (n : Z) :
  digits_ok (d v) -> 0 <= nu v -> 0 <= n ->
  Z.testbit (magnitude v) n
  = if n / 32 <? nu v then Z.testbit (di v (n / 32)) (n mod 32) else false.
Proof.
  intros Hd Hnu Hn; unfold magnitude.
  destruct (n / 32 <? nu v) eqn:E;
    [apply Z.ltb_lt in E | apply Z.ltb_ge in E].
  - apply testbit_mag; [exact Hd | exact Hn | lia].
  - pose proof (mag_bound (d v) (Z.to_nat (nu v)) Hd) as Hb.
    rewrite Z2Nat.id in Hb by lia.
    apply testbit_small; [|exact Hn].
    split; [lia|].
    eapply Z.lt_le_trans; [apply Hb|].
    apply Z.pow_le_mono_r; [lia|].
    pose proof (Z.div_mod n 32 ltac:(lia)).
    pose proof (Z.mod_pos_bound n 32 ltac:(lia)); lia.
Qed.

Lemma di_deref_agree (c c' : vlong) (t : ref) (j : Z) :
  di c' j = di c j -> di (deref c' t) j = di (deref c t) j.
Proof. destruct t; simpl; auto. Qed.

(** The digit loop of [Xor], run on a receiver that holds the digits of
    [x]. *)
Lemma Xor_loop (f : Z -> vlong -> vlong) (c : vlong) (x y : ref) (n : nat) :
  (forall i c', f i c'
     = set_di c' i (Z.lxor (di (deref c' x) i) (di (deref c' y) i))) ->
  Z.of_nat n <= na c -> digits_ok (d c) ->
  digits_ok (d (deref c y)) ->
  (forall i, 0 <= i < Z.of_nat n -> di (deref c x) i = di c i) ->
  let r := for_up n 0 f c in
  nu r = nu c /\ s r = s c /\ na r = na c /\ digits_ok (d r)
  /\ forall i, di r i = if (0 <=? i) && (i <? Z.of_nat n)
                        then Z.lxor (di c i) (di (deref c y) i) else di c i.
Proof.
  intros Hf Hna Hd Hdy Hx r.
  pose (P := fun (j : Z) (c' : vlong) =>
    nu c' = nu c /\ s c' = s c /\ na c' = na c /\ digits_ok (d c')
    /\ forall i, di c' i = if (0 <=? i) && (i <? j)
                           then Z.lxor (di c i) (di (deref c y) i)
                           else di c i).
  assert (HP : P (0 + Z.of_nat n) r).
  { apply for_up_ind.
    - unfold P; splits; auto.
      intros i; destruct (0 <=? i) eqn:E1; destruct (i <? 0) eqn:E2;
        try reflexivity.
      apply Z.leb_le in E1; apply Z.ltb_lt in E2; lia.
    - intros j c' Hj (I1 & I2 & I3 & I4 & I5).
      rewrite Hf.
      assert (Hcj : di c' j = di c j).
      { rewrite I5.
        destruct (j <? j) eqn:E; [apply Z.ltb_lt in E; lia|].
        rewrite andb_false_r; reflexivity. }
      rewrite (di_deref_agree c c' x j Hcj), (di_deref_agree c c' y j Hcj).
      rewrite Hx by lia.
      unfold P, set_di, na, di in *; cbn [d s nu set_d].
      rewrite dset_length; splits; auto.
      + apply digits_ok_dset; [exact I4|].
        apply lxor_range; [lia | apply digits_ok_dget; exact Hd
                          | apply digits_ok_dget; exact Hdy].
      + intros i; rewrite dget_dset by lia.
        destruct (i =? j) eqn:E; [apply Z.eqb_eq in E; subst i|].
        * destruct (0 <=? j) eqn:E1; [|apply Z.leb_gt in E1; lia].
          destruct (j <? j + 1) eqn:E2; [|apply Z.ltb_ge in E2; lia].
          reflexivity.
        * apply Z.eqb_neq in E; rewrite I5.
          destruct (0 <=? i); cbn [andb]; [|reflexivity].
          destruct (i <? j) eqn:E3; destruct (i <? j + 1) eqn:E4;
            try reflexivity;
            [apply Z.ltb_lt in E3; apply Z.ltb_ge in E4
            |apply Z.ltb_ge in E3; apply Z.ltb_lt in E4]; lia. }
  rewrite Z.add_0_l in HP; exact HP.
Qed.

(** What the loop leaves is the exclusive or of the two magnitudes. *)
Lemma Xor_value (r c : vlong) (y : vlong) :
  digits_ok (d r) -> digits_ok (d c) -> digits_ok (d y) ->
  0 <= nu y <= nu c -> nu r = nu c ->
  (forall i, di r i = if (0 <=? i) && (i <? nu y)
                      then Z.lxor (di c i) (di y i) else di c i) ->
  magnitude r = Z.lxor (magnitude c) (magnitude y).
Proof.
  intros Hr Hc Hy Hn Hnu Hdi.
  apply Z.bits_inj'; intros n Hn0.
  rewrite Z.lxor_spec.
  rewrite (testbit_magnitude r), (testbit_magnitude c), (testbit_magnitude y)
    by (assumption || lia).
  assert (Hk : 0 <= n / 32) by (apply Z.div_pos; lia).
  rewrite Hnu, Hdi.
  destruct (0 <=? n / 32) eqn:E0; [|apply Z.leb_gt in E0; lia].
  cbn [andb].
  destruct (n / 32 <? nu y) eqn:E1;
    [apply Z.ltb_lt in E1 | apply Z.ltb_ge in E1];
    destruct (n / 32 <? nu c) eqn:E2;
    try (apply Z.ltb_lt in E2); try (apply Z.ltb_ge in E2); try lia.
  - apply Z.lxor_spec.
  - rewrite xorb_false_r; reflexivity.
  - reflexivity.
Qed.

Lemma Xor_run (f : Z -> vlong -> vlong) (c : vlong) (x : ref) (y : vlong) :
  (forall i c', f i c'
     = set_di c' i (Z.lxor (di (deref c' x) i) (di y i))) ->
  in_buffer c -> digits_ok (d c) -> well_formed y -> nu y <= nu c ->
  (forall i, 0 <= i < nu y -> di (deref c x) i = di c i) ->
  let r := for_up (Z.to_nat (nu y)) 0 f c in
  magnitude r = Z.lxor (magnitude c) (magnitude y)
  /\ nu r = nu c /\ s r = s c /\ in_buffer r /\ digits_ok (d r).
Proof.
  intros Hf Hb Hd (Hyb & Hyd & _) Hn Hx r.
  unfold in_buffer in *.
  destruct (Xor_loop f c x (Ref y) (Z.to_nat (nu y))) as
    (R1 & R2 & R3 & R4 & R5); try assumption.
  - rewrite Z2Nat.id by lia; lia.
  - intros i Hi; apply Hx; lia.
  - fold r in R1, R2, R3, R4, R5.
    rewrite Z2Nat.id in R5 by lia; cbn [deref] in R5.
    splits; auto; try lia.
    apply (Xor_value r c y); auto; lia.
Qed.

Lemma Xor_spec (this : vlong) (a b : ref) :
  well_formed (deref this a) -> well_formed (deref this b) ->
  in_buffer this -> digits_ok (d this) ->
  nu (deref this a) <= VLONG_MAX_DIGITS ->
  nu (deref this b) <= VLONG_MAX_DIGITS ->
  is_this a && is_this b = false ->
  (is_this a = true -> nu (deref this b) <= nu this) ->
  (is_this b = true -> nu (deref this a) <= nu this) ->
  exists r, Xor this a b false = Some (VLONG_SUCCESS, r)
    /\ magnitude r
       = Z.lxor (magnitude (deref this a)) (magnitude (deref this b))
    /\ nu r = Z.max (nu (deref this a)) (nu (deref this b))
    /\ in_buffer r /\ digits_ok (d r).
Proof.
  intros Hwa Hwb Hb Hd Hna Hnb Hnot Ha Hb'.
  pose proof (proj1 Hwa) as Hia; pose proof (proj1 Hwb) as Hib.
  unfold in_buffer in Hia, Hib.
  unfold Xor; rewrite Hnot; cbn [orb].
  destruct a as [|a]; destruct b as [|b]; cbn [is_this deref andb negb] in *;
    try discriminate.
  - (* the receiver and another object *)
    specialize (Ha eq_refl).
    assert (Hmin : (if nu this <? nu b then nu this else nu b) = nu b).
    { destruct (nu this <? nu b) eqn:E; [apply Z.ltb_lt in E; lia | auto]. }
    rewrite Hmin.
    destruct (nu b <? nu this) eqn:E; cbn [is_this negb andb deref];
      unfold ok;
      match goal with
      | |- context [for_up _ _ ?f _] =>
          destruct (Xor_run f this This b) as (R1 & R2 & R3 & R4 & R5);
            try assumption;
            try (intros; cbn [deref]; first [reflexivity
                                            | rewrite Z.lxor_comm; reflexivity])
      end;
      (eexists; split; [reflexivity|]; splits; auto; lia).
  - specialize (Hb' eq_refl).
    assert (Hmin : (if nu a <? nu this then nu a else nu this) = nu a).
    { destruct (nu a <? nu this) eqn:E; [auto | apply Z.ltb_ge in E; lia]. }
    rewrite Hmin.
    destruct (nu this <? nu a) eqn:E; [apply Z.ltb_lt in E; lia|].
    cbn [is_this negb andb deref]; unfold ok.
    match goal with
    | |- context [for_up _ _ ?f _] =>
        destruct (Xor_run f this This a) as (R1 & R2 & R3 & R4 & R5);
          try assumption;
          try (intros; cbn [deref]; first [reflexivity
                                          | rewrite Z.lxor_comm; reflexivity])
    end.
    eexists; split; [reflexivity|]; splits; auto; try lia.
    rewrite Z.lxor_comm; exact R1.
  - (* two other objects: the longer one is copied first *)
    destruct (nu b <? nu a) eqn:E;
      [apply Z.ltb_lt in E | apply Z.ltb_ge in E];
      cbn [is_this negb andb deref].
    + assert (Hmin : (if nu a <? nu b then nu a else nu b) = nu b).
      { destruct (nu a <? nu b) eqn:E'; [apply Z.ltb_lt in E'; lia | auto]. }
      rewrite Hmin.
      destruct (SetValue_if this (Ref a) Hwa Hb Hd Hna) as
        (t & Et & T1 & T2 & T3 & T4 & T5 & T6 & T7).
      cbn [is_this deref] in *; rewrite Et; cbn; unfold ok.
      match goal with
      | |- context [for_up _ _ ?f _] =>
          destruct (Xor_run f t (Ref a) b) as (R1 & R2 & R3 & R4 & R5);
            try assumption;
            try (intros; cbn [deref]; reflexivity)
      end.
      * lia.
      * intros i Hi; cbn [deref]; symmetry; apply T7; lia.
      * eexists; split; [reflexivity|]; splits; auto; try lia.
        rewrite R1, T3; reflexivity.
    + assert (Hmin : (if nu a <? nu b then nu a else nu b) = nu a).
      { destruct (nu a <? nu b) eqn:E'; [auto | apply Z.ltb_ge in E'; lia]. }
      rewrite Hmin.
      destruct (SetValue_if this (Ref b) Hwb Hb Hd Hnb) as
        (t & Et & T1 & T2 & T3 & T4 & T5 & T6 & T7).
      cbn [is_this deref] in *; rewrite Et; cbn; unfold ok.
      match goal with
      | |- context [for_up _ _ ?f _] =>
          destruct (Xor_run f t (Ref b) a) as (R1 & R2 & R3 & R4 & R5);
            try assumption;
            try (intros; cbn [deref]; reflexivity)
      end.
      * lia.
      * intros i Hi; cbn [deref]; symmetry; apply T7; lia.
      * eexists; split; [reflexivity|]; splits; auto; try lia.
        rewrite R1, T3; apply Z.lxor_comm.
Qed.

(** ** Adding and subtracting one digit *)

Lemma land_mask (x : Z) : Z.land x MP_MASK_DIG = x mod 2 ^ 32.
Proof. change MP_MASK_DIG with (Z.ones 32); apply Z.land_ones; lia. Qed.

Lemma uwrd_small (x : Z) : 0 <= x < 2 ^ 64 -> uwrd_t x = x.
Proof. intros H; apply Z.mod_small; exact H. Qed.

Lemma udig_small (x : Z) : 0 <= x < 2 ^ 32 -> udig_t x = x.
Proof. intros H; apply Z.mod_small; exact H. Qed.

(** The carry loop of [Add(a, sdig_t)] adds the incoming carry to the
    digits from [i] on. *)
Lemma Add_dig_loop_spec (a : ref) (k : nat) :
  forall (i : Z) (c : vlong) (u : Z),
  0 <= i -> i + Z.of_nat k <= na c -> digits_ok (d c) -> 0 <= u <= 1 ->
  (forall j c', i <= j < i + Z.of_nat k -> di c' j = di c j ->
     di (deref c' a) j = di c j) ->
  exists c' u',
    Add_dig_loop k i a c u = (c', u')
    /\ 0 <= u' <= 1
    /\ nu c' = nu c /\ s c' = s c /\ na c' = na c /\ digits_ok (d c')
    /\ mag (d c') (Z.to_nat (i + Z.of_nat k))
       + u' * 2 ^ (32 * (i + Z.of_nat k))
       = mag (d c) (Z.to_nat (i + Z.of_nat k)) + u * 2 ^ (32 * i)
    /\ (forall j, i + Z.of_nat k <= j -> di c' j = di c j).
Proof.
  induction k as [|k IH]; intros i c u Hi Hna Hd Hu Hrd.
  - exists c, u; cbn [Add_dig_loop]; splits; auto; try lia.
    change (Z.of_nat 0) with 0; rewrite Z.add_0_r; reflexivity.
  - cbn [Add_dig_loop].
    destruct (0 <? u) eqn:E; [apply Z.ltb_lt in E | apply Z.ltb_ge in E].
    + assert (u = 1) by lia; subst u.
      rewrite (Hrd i c) by (try reflexivity; lia).
      pose proof (digits_ok_dget (d c) i Hd) as Hdi; fold (di c i) in Hdi.
      rewrite land_mask, (uwrd_small (di c i + 1)) by lia.
      set (x := (di c i + 1) mod 2 ^ 32).
      assert (Hx : 0 <= x < 2 ^ 32) by (apply Z.mod_pos_bound; lia).
      assert (Hq : 0 <= (di c i + 1) / 2 ^ 32 <= 1).
      { split; [apply Z.div_pos; lia|].
        apply Z.lt_succ_r, Z.div_lt_upper_bound; lia. }
      unfold BiD; rewrite Z.shiftr_div_pow2 by lia.
      rewrite udig_small by lia.
      set (u1 := (di c i + 1) / 2 ^ 32) in *.
      pose proof (Z.div_mod (di c i + 1) (2 ^ 32) ltac:(lia)) as Hdm.
      fold x u1 in Hdm.
      assert (Hlen : zlen (d c) = na c) by reflexivity.
      destruct (IH (i + 1) (set_di c i x) u1) as
        (c' & u' & E' & U' & N1 & N2 & N3 & N4 & N5 & N6).
      * lia.
      * unfold set_di, na; cbn [d set_d]; rewrite dset_length.
        fold (na c); lia.
      * apply digits_ok_dset; auto.
      * exact Hq.
      * intros j c0 Hj Hc0.
        assert (Hsame : di (set_di c i x) j = di c j).
        { unfold set_di, di; cbn [d set_d].
          apply dget_dset_other; lia. }
        rewrite Hsame in *; apply Hrd; [lia | exact Hc0].
      * exists c', u'; split; [exact E'|].
        replace (i + 1 + Z.of_nat k) with (i + Z.of_nat (S k)) in * by lia.
        unfold set_di, na in *; cbn [d s nu set_d] in *.
        rewrite dset_length in N3.
        splits; auto; try lia.
        -- rewrite N5, mag_dset_inside by lia.
           fold (di c i).
           rewrite pow32_succ by lia. nia.
        -- intros j Hj; rewrite N6 by lia.
           unfold di; cbn [d]; apply dget_dset_other; lia.
    + assert (u = 0) by lia; subst u.
      exists c, 0; splits; auto; lia.
Qed.

(** The borrow loop of [Sub(a, sdig_t)]. *)
Lemma Sub_dig_loop_spec (a : ref) (k : nat) :
  forall (i : Z) (c : vlong) (u : Z),
  0 <= i -> i + Z.of_nat k <= na c -> digits_ok (d c) -> 0 <= u <= 1 ->
  (forall j c', i <= j < i + Z.of_nat k -> di c' j = di c j ->
     di (deref c' a) j = di c j) ->
  exists c' u',
    Sub_dig_loop k i a c u = (c', u')
    /\ 0 <= u' <= 1
    /\ nu c' = nu c /\ s c' = s c /\ na c' = na c /\ digits_ok (d c')
    /\ mag (d c') (Z.to_nat (i + Z.of_nat k))
       - u' * 2 ^ (32 * (i + Z.of_nat k))
       = mag (d c) (Z.to_nat (i + Z.of_nat k)) - u * 2 ^ (32 * i)
    /\ (forall j, i + Z.of_nat k <= j -> di c' j = di c j).
Proof.
  induction k as [|k IH]; intros i c u Hi Hna Hd Hu Hrd.
  - exists c, u; cbn [Sub_dig_loop]; splits; auto; try lia.
    change (Z.of_nat 0) with 0; rewrite Z.add_0_r; reflexivity.
  - cbn [Sub_dig_loop].
    destruct (0 <? u) eqn:E; [apply Z.ltb_lt in E | apply Z.ltb_ge in E].
    + assert (u = 1) by lia; subst u.
      rewrite (Hrd i c) by (try reflexivity; lia).
      pose proof (digits_ok_dget (d c) i Hd) as Hdi; fold (di c i) in Hdi.
      destruct (diff_split (di c i - 1)) as [D1 D2]; [lia|].
      rewrite D1.
      set (u1 := if swrd_t (di c i - 1) <? 0 then 1 else 0) in *.
      assert (Hq : 0 <= u1 <= 1)
        by (unfold u1; destruct (swrd_t (di c i - 1) <? 0); lia).
      set (x := di c i - 1 + u1 * 2 ^ 32) in *.
      assert (Hlen : zlen (d c) = na c) by reflexivity.
      destruct (IH (i + 1) (set_di c i x) u1) as
        (c' & u' & E' & U' & N1 & N2 & N3 & N4 & N5 & N6).
      * lia.
      * unfold set_di, na; cbn [d set_d]; rewrite dset_length.
        fold (na c); lia.
      * apply digits_ok_dset; auto.
      * exact Hq.
      * intros j c0 Hj Hc0.
        assert (Hsame : di (set_di c i x) j = di c j).
        { unfold set_di, di; cbn [d set_d].
          apply dget_dset_other; lia. }
        rewrite Hsame in *; apply Hrd; [lia | exact Hc0].
      * exists c', u'; split; [exact E'|].
        replace (i + 1 + Z.of_nat k) with (i + Z.of_nat (S k)) in * by lia.
        unfold set_di, na in *; cbn [d s nu set_d] in *.
        rewrite dset_length in N3.
        splits; auto; try lia.
        -- rewrite N5, mag_dset_inside by lia.
           fold (di c i).
           rewrite pow32_succ by lia. unfold x; nia.
        -- intros j Hj; rewrite N6 by lia.
           unfold di; cbn [d]; apply dget_dset_other; lia.
    + assert (u = 0) by lia; subst u.
      exists c, 0; splits; auto; lia.
Qed.

(** The two calls that open both routines: make room, then copy [a] unless
    it is the receiver. *)
Lemma addsub_prepare (this : vlong) (a : ref) (n : Z) :
  well_formed (deref this a) -> in_buffer this -> digits_ok (d this) ->
  nu (deref this a) <= n -> n <= VLONG_MAX_DIGITS ->
  exists c1 t,
    (if na this <? n then Grow this n else ok this) = Some (VLONG_SUCCESS, c1)
    /\ (if is_this a then ok c1 else SetValue c1 a) = Some (VLONG_SUCCESS, t)
    /\ s t = s (deref this a) /\ nu t = nu (deref this a)
    /\ magnitude t = magnitude (deref this a)
    /\ n <= na t /\ digits_ok (d t)
    /\ nu (deref t a) = nu (deref this a)
    /\ s (deref t a) = s (deref this a)
    /\ (forall i, 0 <= i < nu (deref this a) -> di (deref t a) i = di t i)
    /\ (forall i, 0 <= i < nu (deref this a) ->
          di t i = di (deref this a) i).
Proof.
  intros Hwa Hb Hd Hn Hmax.
  pose proof Hwa as (Hia & Hda & Hsa); unfold in_buffer in Hia, Hb.
  destruct (Grow_if this n Hmax) as (c1 & E1 & G1 & G2 & G3 & G4 & G5 & G6).
  specialize (G5 ltac:(lia)); specialize (G6 Hd).
  exists c1.
  assert (Hwc : well_formed (deref c1 a)).
  { destruct a as [|v]; cbn [deref] in *; [|exact Hwa].
    unfold well_formed, in_buffer; rewrite G3, G4; splits; auto; lia. }
  assert (Hnc : nu (deref c1 a) = nu (deref this a))
    by (destruct a; cbn [deref]; auto).
  destruct (SetValue_if c1 a Hwc) as
    (t & Et & T1 & T2 & T3 & T4 & T5 & T6 & T7); [| exact G6 | |].
  { unfold in_buffer; lia. }
  { lia. }
  exists t; unfold in_buffer in T4.
  destruct a as [|v]; cbn [deref is_this] in *.
  - inversion Et; subst t; clear Et.
    splits; auto; try lia.
    + apply magnitude_ext; [exact G3|]; intros i Hi; apply G5; lia.
    + intros i Hi; apply G5; lia.
  - splits; auto; try lia.
    + intros i Hi; symmetry; apply T7; lia.
    + intros i Hi; apply T7; lia.
Qed.

Lemma deref_set_di_nu (t : vlong) (a : ref) (i x : Z) :
  nu (deref (set_di t i x) a) = nu (deref t a)
  /\ s (deref (set_di t i x) a) = s (deref t a).
Proof. destruct a; split; reflexivity. Qed.

(** A digit count whose magnitude reaches its top digit has a nonzero top
    digit. *)
Lemma top_from_magnitude (l : list Z) (n : Z) :
  digits_ok l -> 0 < n -> 2 ^ (32 * (n - 1)) <= mag l (Z.to_nat n) ->
  dget l (n - 1) <> 0.
Proof.
  intros Hd Hn Hm E.
  replace (Z.to_nat n) with (Z.to_nat (n - 1 + 1)) in Hm by lia.
  rewrite mag_next, E in Hm by lia.
  pose proof (mag_bound l (Z.to_nat (n - 1)) Hd) as Hb.
  rewrite Z2Nat.id in Hb by lia; lia.
Qed.

(** The addition of the magnitudes in [Add(a, sdig_t b)], reached when the
    signs agree.  The digit is converted with [(uwrd_t) b]; the sum of the
    lowest digit and [b] is what the loop starts from. *)
Lemma add_branch (fuel : nat) (this : vlong) (a : ref) (b : Z) :
  well_formed (deref this a) -> in_buffer this -> digits_ok (d this) ->
  0 < nu (deref this a) < VLONG_MAX_DIGITS ->
  - 2 ^ 31 < b < 2 ^ 31 -> b <> 0 ->
  signs_differ (s (deref this a)) b = false ->
  0 <= di (deref this a) 0 + b ->
  exists r, AddSub_dig (S fuel) false this a b = Some (VLONG_SUCCESS, r)
    /\ s r = s (deref this a)
    /\ magnitude r = magnitude (deref this a) + b
    /\ in_buffer r /\ digits_ok (d r)
    /\ nu (deref this a) <= nu r
    /\ (0 < b -> top_nonzero (deref this a) -> top_nonzero r).
Proof.
  intros Hwa Hb Hd Hnu Hbr Hb0 Hsg Hlow.
  cbn [AddSub_dig negb].
  destruct (b =? 0) eqn:E0; [apply Z.eqb_eq in E0; contradiction|].
  destruct (nu (deref this a) =? 0) eqn:E1; [apply Z.eqb_eq in E1; lia|].
  rewrite Hsg.
  destruct (addsub_prepare this a (nu (deref this a) + 1) Hwa Hb Hd) as
    (c1 & t & Ec & Et & T1 & T2 & T3 & T4 & T5 & T6 & T7 & T8 & T9);
    [lia | lia |].
  rewrite Ec; change (VLONG_SUCCESS =? 0) with true; cbv iota.
  rewrite Et; change (VLONG_SUCCESS =? 0) with true; cbv iota zeta.
  set (n := nu (deref this a)) in *.
  pose proof (digits_ok_dget (d (deref this a)) 0 (proj1 (proj2 Hwa))) as Hd0.
  fold (di (deref this a) 0) in Hd0.
  set (d0 := di (deref this a) 0) in *.
  set (t3 := set_di t (nu t) 0).
  assert (Hrd0 : di (deref t3 a) 0 = d0).
  { unfold t3; rewrite di_deref_set_di by lia.
    rewrite T8, T9 by lia; reflexivity. }
  rewrite Hrd0.
  assert (Hsum : uwrd_t (d0 + uwrd_t b) = d0 + b).
  { unfold uwrd_t; rewrite Z.add_mod_idemp_r by lia.
    apply Z.mod_small; lia. }
  rewrite Hsum, land_mask.
  unfold BiD; rewrite Z.shiftr_div_pow2 by lia.
  assert (Hq : 0 <= (d0 + b) / 2 ^ 32 <= 1).
  { split; [apply Z.div_pos; lia|].
    apply Z.lt_succ_r, Z.div_lt_upper_bound; lia. }
  assert (Hx : 0 <= (d0 + b) mod 2 ^ 32 < 2 ^ 32)
    by (apply Z.mod_pos_bound; lia).
  pose proof (Z.div_mod (d0 + b) (2 ^ 32) ltac:(lia)) as Hdm.
  rewrite !udig_small by lia.
  set (x := (d0 + b) mod 2 ^ 32) in *.
  set (u := (d0 + b) / 2 ^ 32) in *.
  set (t4 := set_di t3 0 x).
  destruct (deref_set_di_nu t3 a 0 x) as [N4 _]; fold t4 in N4.
  destruct (deref_set_di_nu t a (nu t) 0) as [N3 _]; fold t3 in N3.
  rewrite N4, N3, T6.
  assert (Hna4 : na t4 = na t).
  { unfold t4, t3, set_di, na; cbn [d set_d]; rewrite !dset_length; auto. }
  assert (Hd4 : digits_ok (d t4)).
  { unfold t4, t3, set_di; cbn [d set_d].
    apply digits_ok_dset; [apply digits_ok_dset|]; auto; lia. }
  destruct (Add_dig_loop_spec a (Z.to_nat (n - 1)) 1 t4 u) as
    (c5 & u5 & E5 & U5 & N5 & S5 & A5 & D5 & M5 & K5).
  { lia. }
  { rewrite Hna4; lia. }
  { exact Hd4. }
  { exact Hq. }
  { intros j c' Hj Hc'.
    destruct a as [|v]; cbn [deref] in *; [exact Hc'|].
    unfold t4, t3, set_di, di in *; cbn [d set_d] in *.
    rewrite !dget_dset_other by lia.
    apply T8; lia. }
  rewrite E5; cbv iota beta.
  replace (1 + Z.of_nat (Z.to_nat (n - 1))) with n in * by lia.
  assert (Hm4 : mag (d t4) (Z.to_nat n) = magnitude (deref this a) + x - d0).
  { unfold t4, t3, set_di; cbn [d set_d].
    assert (zlen (d t) = na t) by reflexivity.
    rewrite mag_dset_inside by (rewrite ?dset_length; lia).
    rewrite mag_dset_above by lia.
    rewrite dget_dset_other by lia.
    fold (di t 0); rewrite T9 by lia; fold d0.
    rewrite <- T3; unfold magnitude; rewrite T2.
    change (2 ^ (32 * 0)) with 1; lia. }
  rewrite Hm4 in M5.
  change (2 ^ (32 * 1)) with (2 ^ 32) in M5.
  assert (Htop : di c5 n = 0).
  { rewrite K5 by lia.
    unfold t4, t3, set_di, di; cbn [d set_d].
    rewrite dget_dset_other by lia.
    rewrite T2; apply dget_dset_same.
    fold (na t); lia. }
  set (M := magnitude (deref this a)) in *.
  assert (Hs4 : s t4 = s (deref this a))
    by (unfold t4, t3, set_di; cbn [s set_d]; exact T1).
  eexists; split; [reflexivity|].
  destruct (0 <? u5) eqn:E6; [apply Z.ltb_lt in E6 | apply Z.ltb_ge in E6].
  - assert (u5 = 1) by lia; subst u5.
    unfold magnitude, in_buffer, top_nonzero, set_nu, set_di, na, di;
      cbn [s d nu set_d].
    rewrite dset_length, N5.
    replace (nu t4) with n by (unfold t4, t3, set_di; cbn [nu set_d]; lia).
    assert (Hlen : zlen (d c5) = na t) by (fold (na c5); lia).
    splits; auto; try lia.
    + rewrite mag_step by lia. lia.
    + apply digits_ok_dset; auto; lia.
    + intros _ _; right.
      replace (n + 1 - 1) with n by lia.
      rewrite dget_dset_same by lia; lia.
  - assert (u5 = 0) by lia; subst u5.
    assert (Hn5 : nu c5 = n)
      by (rewrite N5; unfold t4, t3, set_di; cbn [nu set_d]; lia).
    unfold magnitude, in_buffer, top_nonzero; rewrite Hn5.
    splits; auto; try lia.
    + intros Hbp Ht; right.
      apply top_from_magnitude; [exact D5 | lia |].
      destruct (magnitude_top' (deref this a)) as [Hz | Hz];
        [apply Hwa | lia | exact Ht | lia |].
      fold n in Hz; lia.
Qed.

(** The subtraction of the magnitudes in [Sub(a, sdig_t b)], reached when
    the signs agree. *)
Lemma sub_branch (fuel : nat) (this : vlong) (a : ref) (b : Z) :
  well_formed (deref this a) -> clamped (deref this a) ->
  in_buffer this -> digits_ok (d this) ->
  0 < nu (deref this a) <= VLONG_MAX_DIGITS ->
  - 2 ^ 31 < b < 2 ^ 31 -> b <> 0 ->
  signs_differ (s (deref this a)) b = false ->
  exists r, AddSub_dig (S fuel) true this a b = Some (VLONG_SUCCESS, r)
    /\ to_Z r = to_Z (deref this a) - b
    /\ clamped r /\ in_buffer r /\ digits_ok (d r).
Proof.
  intros Hwa Hca Hb Hd Hnu Hbr Hb0 Hsg.
  cbn [AddSub_dig negb].
  destruct (b =? 0) eqn:E0; [apply Z.eqb_eq in E0; contradiction|].
  destruct (nu (deref this a) =? 0) eqn:E1; [apply Z.eqb_eq in E1; lia|].
  rewrite Hsg; cbv zeta.
  set (ba := if 0 <? b then udig_t b else udig_t (- b)).
  assert (Hba : 0 < ba < 2 ^ 31 /\ s (deref this a) * ba = b).
  { pose proof Hwa as (_ & _ & Hs).
    unfold signs_differ, ba, MP_ZPOS, MP_NEG in *.
    destruct (0 <? b) eqn:Ep; [apply Z.ltb_lt in Ep | apply Z.ltb_ge in Ep];
      rewrite udig_small by lia.
    - destruct Hs as [Hs | Hs]; rewrite Hs in *; [lia|].
      cbn in Hsg; discriminate.
    - destruct Hs as [Hs | Hs]; rewrite Hs in *; [|lia].
      destruct (b <? 0) eqn:En; [cbn in Hsg; discriminate|].
      apply Z.ltb_ge in En; lia. }
  clearbody ba; destruct Hba as [Hba Hsb].
  destruct (addsub_prepare this a (nu (deref this a)) Hwa Hb Hd) as
    (c1 & t & Ec & Et & T1 & T2 & T3 & T4 & T5 & T6 & T7 & T8 & T9);
    [lia | lia |].
  rewrite Ec; change (VLONG_SUCCESS =? 0) with true; cbv iota.
  rewrite Et; change (VLONG_SUCCESS =? 0) with true; cbv iota.
  pose proof (digits_ok_dget (d (deref this a)) 0 (proj1 (proj2 Hwa))) as Hd0.
  fold (di (deref this a) 0) in Hd0.
  rewrite (to_Z_magnitude (deref this a)).
  assert (Hmt : 2 ^ (32 * (nu (deref this a) - 1)) <= magnitude (deref this a)).
  { destruct (magnitude_top' (deref this a)) as [Hz | Hz];
      [apply Hwa | lia | apply Hca | lia | exact Hz]. }
  set (n := nu (deref this a)) in *.
  set (M := magnitude (deref this a)) in *.
  set (sg := s (deref this a)) in *.
  assert (Hrd0 : di (deref t a) 0 = di (deref this a) 0)
    by (rewrite T8, T9 by lia; reflexivity).
  assert (Ht0 : di t 0 = di (deref this a) 0) by (apply T9; lia).
  set (d0 := di (deref this a) 0) in *.
  assert (Hlen : zlen (d t) = na t) by reflexivity.
  rewrite T6, Hrd0.
  destruct ((n =? 1) && (d0 <=? ba)) eqn:Ecase.
  - (* a single digit not above [ba] *)
    apply andb_prop in Ecase; destruct Ecase as [En Ele].
    apply Z.eqb_eq in En; apply Z.leb_le in Ele.
    assert (HM : M = d0).
    { unfold M, magnitude; fold n; rewrite En.
      change (Z.to_nat 1) with (Z.to_nat (0 + 1)); rewrite mag_next by lia.
      change (Z.to_nat 0) with 0%nat; rewrite mag_0.
      change (2 ^ (32 * 0)) with 1; unfold d0, di; lia. }
    rewrite Ht0, udig_small by lia.
    set (t5 := set_di t 0 (ba - d0)).
    assert (Hs5 : s (deref t5 a) = sg).
    { destruct (deref_set_di_nu t a 0 (ba - d0)) as [_ H]; fold t5 in H.
      rewrite H; exact T7. }
    rewrite Hs5.
    set (sg' := if sg =? MP_ZPOS then MP_NEG else MP_ZPOS).
    assert (Hsg' : sg' = - sg).
    { pose proof Hwa as (_ & _ & Hs); fold sg in Hs.
      unfold sg', MP_ZPOS, MP_NEG in *.
      destruct Hs as [-> | ->]; reflexivity. }
    assert (H50 : di (set_s t5 sg') 0 = ba - d0).
    { unfold t5, set_s, set_di, di; cbn [d set_d].
      apply dget_dset_same; lia. }
    rewrite H50.
    eexists; split; [reflexivity|].
    destruct (ba - d0 =? 0) eqn:Ez;
      [apply Z.eqb_eq in Ez | apply Z.eqb_neq in Ez].
    + unfold to_Z, clamped, in_buffer, na, set_nu, set_s, t5, set_di;
        cbn [s d nu set_d].
      change (Z.to_nat 0) with 0%nat; rewrite mag_0, dset_length.
      splits; auto; try lia; try nia.
      apply digits_ok_dset; auto; lia.
    + unfold to_Z, clamped, in_buffer, na, set_s, t5, set_di, di;
        cbn [s d nu set_d].
      rewrite T2; fold n; rewrite En, dset_length.
      change (Z.to_nat 1) with (Z.to_nat (0 + 1)).
      rewrite mag_step by lia.
      change (Z.to_nat 0) with 0%nat; rewrite mag_0.
      change (2 ^ (32 * 0)) with 1; change (1 - 1) with 0.
      rewrite dget_dset_same by lia.
      splits; auto; try lia; try nia.
      apply digits_ok_dset; auto; lia.
  - (* the magnitude of [a] exceeds [ba] *)
    assert (Hgt : ba < M).
    { apply andb_false_iff in Ecase; destruct Ecase as [En | Ele].
      - apply Z.eqb_neq in En.
        assert (2 ^ 32 <= 2 ^ (32 * (n - 1)))
          by (apply Z.pow_le_mono_r; lia).
        lia.
      - apply Z.leb_gt in Ele.
        destruct (Z.eq_dec n 1) as [En | En].
        + assert (HM : M = d0).
          { unfold M, magnitude; fold n; rewrite En.
            change (Z.to_nat 1) with (Z.to_nat (0 + 1));
              rewrite mag_next by lia.
            change (Z.to_nat 0) with 0%nat; rewrite mag_0.
            change (2 ^ (32 * 0)) with 1; unfold d0, di; lia. }
          lia.
        + assert (2 ^ 32 <= 2 ^ (32 * (n - 1)))
            by (apply Z.pow_le_mono_r; lia).
          lia. }
    destruct (diff_split (d0 - ba)) as [D1 D2]; [lia|].
    rewrite D1.
    set (u := if swrd_t (d0 - ba) <? 0 then 1 else 0) in *.
    assert (Hu : 0 <= u <= 1)
      by (unfold u; destruct (swrd_t (d0 - ba) <? 0); lia).
    set (x := d0 - ba + u * 2 ^ 32) in *.
    set (t4 := set_di t 0 x).
    destruct (deref_set_di_nu t a 0 x) as [N4 _]; fold t4 in N4.
    rewrite N4, T6.
    assert (Hna4 : na t4 = na t).
    { unfold t4, set_di, na; cbn [d set_d]; rewrite dset_length; auto. }
    assert (Hd4 : digits_ok (d t4)).
    { unfold t4, set_di; cbn [d set_d]; apply digits_ok_dset; auto. }
    destruct (Sub_dig_loop_spec a (Z.to_nat (n - 1)) 1 t4 u) as
      (c5 & u5 & E5 & U5 & N5 & S5 & A5 & D5 & M5 & K5).
    { lia. }
    { rewrite Hna4; lia. }
    { exact Hd4. }
    { exact Hu. }
    { intros j c' Hj Hc'.
      destruct a as [|v]; cbn [deref] in *; [exact Hc'|].
      unfold t4, set_di, di in *; cbn [d set_d] in *.
      rewrite !dget_dset_other by lia.
      apply T8; lia. }
    rewrite E5; cbv iota beta.
    replace (1 + Z.of_nat (Z.to_nat (n - 1))) with n in * by lia.
    assert (Hm4 : mag (d t4) (Z.to_nat n) = M + x - d0).
    { unfold t4, set_di; cbn [d set_d].
      rewrite mag_dset_inside by lia.
      fold (di t 0); rewrite Ht0.
      rewrite <- T3; unfold magnitude; rewrite T2.
      change (2 ^ (32 * 0)) with 1; lia. }
    rewrite Hm4 in M5.
    change (2 ^ (32 * 1)) with (2 ^ 32) in M5.
    pose proof (mag_bound (d c5) (Z.to_nat n) D5) as Hb5.
    rewrite Z2Nat.id in Hb5 by lia.
    assert (Hu5 : u5 = 0) by (unfold x in M5; nia).
    subst u5.
    assert (Hm5 : mag (d c5) (Z.to_nat n) = M - ba) by (unfold x in M5; lia).
    assert (Hn5 : nu c5 = n)
      by (rewrite N5; unfold t4, set_di; cbn [nu set_d]; lia).
    assert (Hs5 : s c5 = sg)
      by (rewrite S5; unfold t4, set_di; cbn [s set_d]; exact T1).
    assert (Hna5 : n <= na c5) by (rewrite A5, Hna4; lia).
    rewrite Hn5.
    eexists; split; [reflexivity|].
    destruct (di c5 (n - 1) =? 0) eqn:Ez;
      [apply Z.eqb_eq in Ez | apply Z.eqb_neq in Ez].
    + assert (Hm6 : mag (d c5) (Z.to_nat (n - 1)) = M - ba).
      { rewrite <- Hm5.
        replace (Z.to_nat n) with (Z.to_nat (n - 1 + 1)) by lia.
        rewrite mag_next by lia.
        fold (di c5 (n - 1)); rewrite Ez; lia. }
      assert (Hn2 : 2 <= n).
      { destruct (Z.eq_dec n 1) as [En | En]; [|lia].
        rewrite En in Hm6; change (Z.to_nat (1 - 1)) with 0%nat in Hm6.
        rewrite mag_0 in Hm6; lia. }
      unfold to_Z, clamped, in_buffer, na, set_nu, di in *;
        cbn [s d nu].
      rewrite Hm6, Hs5.
      splits; auto; try lia; try nia.
      right.
      apply top_from_magnitude; [exact D5 | lia |].
      rewrite Hm6.
      replace (32 * (n - 1)) with (32 + 32 * (n - 1 - 1)) in Hmt by lia.
      rewrite Z.pow_add_r in Hmt by lia.
      assert (0 < 2 ^ (32 * (n - 1 - 1))) by (apply Z.pow_pos_nonneg; lia).
      nia.
    + unfold to_Z, clamped, in_buffer.
      rewrite Hn5, Hm5, Hs5.
      splits; auto; try lia; try nia.
Qed.

Lemma AddSub_dig_zero (f : nat) (sub : bool) (this : vlong) (a : ref) (b : Z) :
  b <> 0 -> nu (deref this a) = 0 ->
  AddSub_dig (S f) sub this a b
  = SetValue_dig this (if sub then sdig_t (- b) else b).
Proof.
  intros Hb Hn; cbn [AddSub_dig].
  destruct (b =? 0) eqn:E; [apply Z.eqb_eq in E; contradiction|].
  rewrite Hn; reflexivity.
Qed.

Lemma AddSub_dig_exchange (f : nat) (sub : bool) (this : vlong) (a : ref)
    (b : Z) :
  b <> 0 -> nu (deref this a) <> 0 ->
  signs_differ (s (deref this a)) b = true ->
  AddSub_dig (S f) sub this a b
  = AddSub_dig f (negb sub) this a (sdig_t (- b)).
Proof.
  intros Hb Hn Hs; cbn [AddSub_dig].
  destruct (b =? 0) eqn:E; [apply Z.eqb_eq in E; contradiction|].
  destruct (nu (deref this a) =? 0) eqn:E1;
    [apply Z.eqb_eq in E1; contradiction|].
  rewrite Hs; reflexivity.
Qed.

Lemma signs_differ_cases (sg b : Z) :
  sg = MP_ZPOS \/ sg = MP_NEG -> b <> 0 ->
  (signs_differ sg b = true
   /\ ((sg = MP_ZPOS /\ b < 0) \/ (sg = MP_NEG /\ 0 < b)))
  \/ (signs_differ sg b = false
      /\ ((sg = MP_ZPOS /\ 0 < b) \/ (sg = MP_NEG /\ b < 0))).
Proof.
  unfold signs_differ, MP_ZPOS, MP_NEG; intros [-> | ->] Hb; cbn;
    destruct (0 <? b) eqn:E1; destruct (b <? 0) eqn:E2;
    try apply Z.ltb_lt in E1; try apply Z.ltb_lt in E2;
    try apply Z.ltb_ge in E1; try apply Z.ltb_ge in E2;
    try lia; cbn; auto.
Qed.

(** The four sign cases of [Add(a, sdig_t b)] and [Sub(a, sdig_t b)].  With
    [sub = false] the routine is Add, with [sub = true] it is Sub of the
    digit [b], that is the addition of [- b]. *)
Lemma AddSub_dig_good (sub : bool) (this : vlong) (a : ref) (b : Z) :
  well_formed (deref this a) -> clamped (deref this a) ->
  in_buffer this -> digits_ok (d this) ->
  nu (deref this a) < VLONG_MAX_DIGITS ->
  - 2 ^ 31 < b < 2 ^ 31 -> b <> 0 ->
  s (deref this a) = MP_ZPOS \/ 0 < (if sub then - b else b) ->
  exists r, AddSub_dig 3 sub this a b = Some (VLONG_SUCCESS, r)
    /\ to_Z r = to_Z (deref this a) + (if sub then - b else b)
    /\ clamped r /\ in_buffer r /\ digits_ok (d r).
Proof.
  intros Hwa Hca Hb Hd Hnu Hbr Hb0 Hok.
  pose proof Hwa as (Hia & Hda & Hsa); unfold in_buffer in Hia.
  destruct (Z.eq_dec (nu (deref this a)) 0) as [Hz | Hz].
  - (* a zero [a]: the digit is stored *)
    rewrite AddSub_dig_zero by assumption.
    destruct (SetValue_dig_spec this (if sub then sdig_t (- b) else b)) as
      (r & E & R1 & R2 & R3 & _ & R5).
    { destruct sub; [rewrite sdig_small by lia|]; lia. }
    exists r; split; [exact E|].
    rewrite R1, to_Z_magnitude, magnitude_zero by lia.
    splits; auto.
    destruct sub; [rewrite sdig_small by lia|]; lia.
  - assert (Hpos : 0 < nu (deref this a)) by lia.
    assert (Hadd : forall c, - 2 ^ 31 < c < 2 ^ 31 -> c <> 0 ->
              s (deref this a) = MP_ZPOS -> 0 < c ->
              exists r, AddSub_dig 2 false this a c = Some (VLONG_SUCCESS, r)
                /\ to_Z r = to_Z (deref this a) + c
                /\ clamped r /\ in_buffer r /\ digits_ok (d r)).
    { intros c Hc Hc0 Hs Hcp.
      pose proof (digits_ok_dget (d (deref this a)) 0 Hda) as Hd0.
      fold (di (deref this a) 0) in Hd0.
      destruct (add_branch 1 this a c Hwa Hb Hd) as
        (r & E & R1 & R2 & R3 & R4 & R5 & R6); try lia.
      { rewrite Hs; unfold signs_differ, MP_ZPOS, MP_NEG; cbn.
        destruct (c <? 0) eqn:E; [apply Z.ltb_lt in E; lia | reflexivity]. }
      exists r; split; [exact E|].
      rewrite !to_Z_magnitude, R1, R2, Hs; unfold MP_ZPOS.
      splits; auto; try lia.
      unfold clamped; split; [apply R6; [lia | apply Hca] | lia]. }
    destruct (signs_differ_cases (s (deref this a)) b Hsa Hb0) as
      [[Hdf Hc] | [Hdf Hc]].
    + (* the signs differ: the opposite routine runs on [- b] *)
      rewrite AddSub_dig_exchange by assumption.
      rewrite sdig_small by lia.
      destruct sub; cbn [negb].
      * destruct Hc as [[Hs Hbn] | [Hs Hbp]];
          [| rewrite Hs in Hok; unfold MP_ZPOS, MP_NEG in Hok; lia].
        apply Hadd; auto; lia.
      * destruct (sub_branch 1 this a (- b) Hwa Hca Hb Hd) as
          (r & E & R1 & R2 & R3 & R4); try lia.
        { destruct (signs_differ_cases (s (deref this a)) (- b) Hsa)
            as [[_ Hc'] | [Hdf' _]]; [lia | | exact Hdf'].
          unfold MP_ZPOS, MP_NEG in *; lia. }
        exists r; split; [exact E|]; splits; auto; lia.
    + (* the signs agree *)
      destruct sub.
      * destruct (sub_branch 2 this a b Hwa Hca Hb Hd) as
          (r & E & R1 & R2 & R3 & R4); try lia; try assumption.
        exists r; split; [exact E|]; splits; auto; lia.
      * destruct Hc as [[Hs Hbp] | [Hs Hbn]];
          [| rewrite Hs in Hok; unfold MP_ZPOS, MP_NEG in Hok; lia].
        pose proof (digits_ok_dget (d (deref this a)) 0 Hda) as Hd0.
        fold (di (deref this a) 0) in Hd0.
        destruct (add_branch 2 this a b Hwa Hb Hd) as
          (r & E & R1 & R2 & R3 & R4 & R5 & R6); try lia; try assumption.
        exists r; split; [exact E|].
        rewrite !to_Z_magnitude, R1, R2, Hs; unfold MP_ZPOS.
        splits; auto; try lia.
        unfold clamped; split; [apply R6; [lia | apply Hca] | lia].
Qed.

(** The remaining sign case: a negative [a] and the addition of a negative
    digit.  The magnitudes are added with [(uwrd_t) b], which is
    [2^64 - |b|]: while [|b|] does not exceed the lowest digit the sum wraps
    to the difference, and the result is [a - b]. *)
Lemma AddSub_dig_negatives (sub : bool) (this : vlong) (a : ref) (b : Z) :
  well_formed (deref this a) -> clamped (deref this a) ->
  in_buffer this -> digits_ok (d this) ->
  nu (deref this a) < VLONG_MAX_DIGITS ->
  - 2 ^ 31 < b < 2 ^ 31 ->
  s (deref this a) = MP_NEG ->
  (if sub then - b else b) < 0 ->
  - (if sub then - b else b) <= di (deref this a) 0 ->
  exists r, AddSub_dig 3 sub this a b = Some (VLONG_SUCCESS, r)
    /\ to_Z r = to_Z (deref this a) - (if sub then - b else b).
Proof.
  intros Hwa Hca Hb Hd Hnu Hbr Hs Hneg Hlow.
  pose proof Hwa as (Hia & Hda & Hsa); unfold in_buffer in Hia.
  assert (Hpos : 0 < nu (deref this a)).
  { destruct Hca as [_ Hz].
    destruct (Z.eq_dec (nu (deref this a)) 0) as [E | E]; [|lia].
    specialize (Hz E); rewrite Hs in Hz; discriminate. }
  assert (Hadd : forall f c, - 2 ^ 31 < c < 2 ^ 31 -> c < 0 ->
            - c <= di (deref this a) 0 ->
            exists r, AddSub_dig (S f) false this a c
                      = Some (VLONG_SUCCESS, r)
              /\ to_Z r = to_Z (deref this a) - c).
  { intros f c Hc Hcn Hcl.
    destruct (add_branch f this a c Hwa Hb Hd) as
      (r & E & R1 & R2 & _); try lia.
    { rewrite Hs; unfold signs_differ, MP_ZPOS, MP_NEG; cbn.
      destruct (0 <? c) eqn:E; [apply Z.ltb_lt in E; lia | reflexivity]. }
    exists r; split; [exact E|].
    rewrite !to_Z_magnitude, R1, R2, Hs; unfold MP_NEG; lia. }
  destruct sub.
  - rewrite AddSub_dig_exchange; try lia.
    + rewrite sdig_small by lia; cbn [negb]; apply Hadd; lia.
    + rewrite Hs; unfold signs_differ, MP_ZPOS, MP_NEG; cbn.
      destruct (0 <? b) eqn:E; [reflexivity | apply Z.ltb_ge in E; lia].
  - apply Hadd; lia.
Qed.

(** * Further properties of the code *)

(** Evaluate the side conditions of a statement on concrete objects. *)
Ltac concrete_atom :=
  solve [ reflexivity | intros; discriminate | lia
        | left; concrete_atom | right; concrete_atom ].

Ltac concrete :=
  unfold well_formed, digits_ok;
  repeat match goal with
         | |- _ /\ _ => split
         | |- Forall _ _ => constructor
         end;
  vm_compute;
  repeat match goal with |- _ /\ _ => split end;
  concrete_atom.

(** ** Memory management *)

(** X1: [Grow(n)] succeeds whenever [n] is within the digit ceiling or within
    the present allocation; it then provides at least [n] digits and keeps
    the sign, the used count and the value.  A request beyond both fails
    with VLONG_ERR_MEMORY_EXEED and leaves the receiver as it was. *)
Theorem X1_Grow_keeps_value (this : vlong) (n : Z) :
  0 <= nu this ->
  (n <= VLONG_MAX_DIGITS \/ n <= na this ->
   exists r, Grow this n = Some (VLONG_SUCCESS, r)
     /\ n <= na r /\ na this <= na r
     /\ nu r = nu this /\ s r = s this /\ to_Z r = to_Z this)
  /\ (na this < n -> VLONG_MAX_DIGITS < n ->
      Grow this n = Some (VLONG_ERR_MEMORY_EXEED, this)).
Proof.
  intros Hnu; split.
  - intros H; destruct (Grow_spec this n H) as
      (r & E & H1 & H2 & H3 & H4 & H5 & _).
    exists r; splits; auto.
    rewrite !to_Z_magnitude, H4; f_equal.
    apply magnitude_ext; [exact H3|].
    intros i Hi; apply H5; lia.
  - apply Grow_fails.
Qed.

Lemma X1_witness :
  0 <= nu (mk_vlong 1 [5; 7] 2)
  /\ (3 <= VLONG_MAX_DIGITS \/ 3 <= na (mk_vlong 1 [5; 7] 2) ->
      exists r, Grow (mk_vlong 1 [5; 7] 2) 3 = Some (VLONG_SUCCESS, r)
        /\ 3 <= na r /\ na (mk_vlong 1 [5; 7] 2) <= na r
        /\ nu r = nu (mk_vlong 1 [5; 7] 2) /\ s r = s (mk_vlong 1 [5; 7] 2)
        /\ to_Z r = to_Z (mk_vlong 1 [5; 7] 2))
  /\ (na (mk_vlong 1 [5; 7] 2) < 3 -> VLONG_MAX_DIGITS < 3 ->
      Grow (mk_vlong 1 [5; 7] 2) 3
      = Some (VLONG_ERR_MEMORY_EXEED, mk_vlong 1 [5; 7] 2)).
Proof.
  split; [simpl; lia|].
  apply (X1_Grow_keeps_value (mk_vlong 1 [5; 7] 2) 3); simpl; lia.
Defined.

(** X2: [Clamp] removes the leading zero digits: it establishes the clamp
    invariant (no leading zero digit, zero is positive) and does not change
    the value. *)
Theorem X2_Clamp_keeps_value (this : vlong) :
  0 <= nu this ->
  clamped (Clamp this) /\ to_Z (Clamp this) = to_Z this
  /\ 0 <= nu (Clamp this) <= nu this /\ d (Clamp this) = d this.
Proof.
  intros H; destruct (Clamp_spec this H) as (H1 & _ & H3 & H4 & H5 & _).
  splits; auto; lia.
Qed.

Lemma X2_witness :
  0 <= nu (mk_vlong (-1) [9; 0; 0] 3)
  /\ clamped (Clamp (mk_vlong (-1) [9; 0; 0] 3))
  /\ to_Z (Clamp (mk_vlong (-1) [9; 0; 0] 3)) = to_Z (mk_vlong (-1) [9; 0; 0] 3)
  /\ 0 <= nu (Clamp (mk_vlong (-1) [9; 0; 0] 3))
     <= nu (mk_vlong (-1) [9; 0; 0] 3)
  /\ d (Clamp (mk_vlong (-1) [9; 0; 0] 3)) = d (mk_vlong (-1) [9; 0; 0] 3).
Proof.
  split; [simpl; lia|].
  apply (X2_Clamp_keeps_value (mk_vlong (-1) [9; 0; 0] 3)); simpl; lia.
Defined.

(** X3: [SetValue(sdig_t v)] succeeds on every receiver and leaves a
    clamped object of value [v] whose used digits lie in its buffer. *)
Theorem X3_SetValue_dig_value (this : vlong) (v : Z) :
  - 2 ^ 31 <= v < 2 ^ 31 ->
  exists r, SetValue_dig this v = Some (VLONG_SUCCESS, r)
    /\ to_Z r = v /\ clamped r /\ in_buffer r /\ na this <= na r.
Proof.
  intros H; destruct (SetValue_dig_spec this v H) as
    (r & E & H1 & H2 & H3 & H4 & _).
  exists r; splits; auto.
Qed.

Lemma X3_witness :
  - 2 ^ 31 <= -12 < 2 ^ 31
  /\ exists r, SetValue_dig Init (-12) = Some (VLONG_SUCCESS, r)
       /\ to_Z r = -12 /\ clamped r /\ in_buffer r /\ na Init <= na r.
Proof.
  split; [lia|].
  apply (X3_SetValue_dig_value Init (-12)); lia.
Defined.

(** X4: [Copy(v)] (and [SetValue(const vlong &)]) of an object whose used
    count is within the ceiling or within the receiver's allocation succeeds
    and gives the receiver the sign, the used count and the value of [v];
    a source that fits neither fails with VLONG_ERR_MEMORY_EXEED and leaves
    the receiver as it was. *)
Theorem X4_Copy_value (this v : vlong) :
  0 <= nu this -> 0 <= nu v ->
  (nu v <= na this \/ nu v <= VLONG_MAX_DIGITS ->
   exists r, Copy this (Ref v) = Some (VLONG_SUCCESS, r)
     /\ s r = s v /\ nu r = nu v /\ to_Z r = to_Z v /\ nu r <= na r)
  /\ (na this < nu v -> VLONG_MAX_DIGITS < nu v ->
      Copy this (Ref v) = Some (VLONG_ERR_MEMORY_EXEED, this)).
Proof.
  intros Hnu Hv; split.
  - intros H; destruct (Copy_spec this (Ref v) Hnu H) as
      (r & E & H1 & H2 & H3 & H4 & _).
    cbn [deref] in *; exists r; splits; auto.
    rewrite !to_Z_magnitude, H1; f_equal.
    apply magnitude_ext; [exact H2|].
    intros i Hi; apply H3; lia.
  - intros H1 H2; unfold Copy; cbn [deref].
    destruct (na this <? nu v) eqn:E; [|apply Z.ltb_ge in E; lia].
    rewrite Grow_fails by lia; reflexivity.
Qed.

Lemma X4_witness :
  0 <= nu Init /\ 0 <= nu (mk_vlong (-1) [9; 4] 2)
  /\ (nu (mk_vlong (-1) [9; 4] 2) <= na Init
      \/ nu (mk_vlong (-1) [9; 4] 2) <= VLONG_MAX_DIGITS ->
      exists r, Copy Init (Ref (mk_vlong (-1) [9; 4] 2))
                = Some (VLONG_SUCCESS, r)
        /\ s r = s (mk_vlong (-1) [9; 4] 2)
        /\ nu r = nu (mk_vlong (-1) [9; 4] 2)
        /\ to_Z r = to_Z (mk_vlong (-1) [9; 4] 2) /\ nu r <= na r)
  /\ (na Init < nu (mk_vlong (-1) [9; 4] 2) ->
      VLONG_MAX_DIGITS < nu (mk_vlong (-1) [9; 4] 2) ->
      Copy Init (Ref (mk_vlong (-1) [9; 4] 2))
      = Some (VLONG_ERR_MEMORY_EXEED, Init)).
Proof.
  split; [simpl; lia|]. split; [simpl; lia|].
  apply (X4_Copy_value Init (mk_vlong (-1) [9; 4] 2)); simpl; lia.
Defined.

(** ** Comparisons *)

(** X5: on well-formed, clamped objects [CompareMag(a, b)] is the sign of
    [|a| - |b|]: MP_GT (1), MP_EQ (0) or MP_LT (-1). *)
Theorem X5_CompareMag_sign (a b : vlong) :
  well_formed a -> well_formed b -> clamped a -> clamped b ->
  CompareMag a b = Z.sgn (Z.abs (to_Z a) - Z.abs (to_Z b)).
Proof.
  intros Hwa Hwb Hca Hcb.
  rewrite (CompareMag_spec a b Hwa Hwb Hca Hcb), !to_Z_magnitude.
  pose proof (magnitude_nonneg a (proj1 (proj2 Hwa))).
  pose proof (magnitude_nonneg b (proj1 (proj2 Hwb))).
  destruct Hwa as (_ & _ & [-> | ->]), Hwb as (_ & _ & [-> | ->]);
    unfold MP_ZPOS, MP_NEG; f_equal; lia.
Qed.

Lemma X5_witness :
  well_formed (mk_vlong (-1) [9; 4] 2) /\ well_formed (mk_vlong 1 [7] 1)
  /\ clamped (mk_vlong (-1) [9; 4] 2) /\ clamped (mk_vlong 1 [7] 1)
  /\ CompareMag (mk_vlong (-1) [9; 4] 2) (mk_vlong 1 [7] 1)
     = Z.sgn (Z.abs (to_Z (mk_vlong (-1) [9; 4] 2))
              - Z.abs (to_Z (mk_vlong 1 [7] 1))).
Proof.
  assert (H1 : well_formed (mk_vlong (-1) [9; 4] 2)) by concrete.
  assert (H2 : well_formed (mk_vlong 1 [7] 1)) by concrete.
  assert (H3 : clamped (mk_vlong (-1) [9; 4] 2)) by concrete.
  assert (H4 : clamped (mk_vlong 1 [7] 1)) by concrete.
  split; [exact H1|]. split; [exact H2|]. split; [exact H3|].
  split; [exact H4|].
  apply (X5_CompareMag_sign _ _ H1 H2 H3 H4).
Defined.

(** X6: on well-formed, clamped objects [Compare(v)] is the sign of the
    difference of the two values. *)
Theorem X6_Compare_sign (a b : vlong) :
  well_formed a -> well_formed b -> clamped a -> clamped b ->
  Compare a b = Z.sgn (to_Z a - to_Z b).
Proof. apply Compare_spec. Qed.

Lemma X6_witness :
  well_formed (mk_vlong (-1) [9; 4] 2) /\ well_formed (mk_vlong 1 [7] 1)
  /\ clamped (mk_vlong (-1) [9; 4] 2) /\ clamped (mk_vlong 1 [7] 1)
  /\ Compare (mk_vlong (-1) [9; 4] 2) (mk_vlong 1 [7] 1)
     = Z.sgn (to_Z (mk_vlong (-1) [9; 4] 2) - to_Z (mk_vlong 1 [7] 1)).
Proof.
  assert (H1 : well_formed (mk_vlong (-1) [9; 4] 2)) by concrete.
  assert (H2 : well_formed (mk_vlong 1 [7] 1)) by concrete.
  assert (H3 : clamped (mk_vlong (-1) [9; 4] 2)) by concrete.
  assert (H4 : clamped (mk_vlong 1 [7] 1)) by concrete.
  split; [exact H1|]. split; [exact H2|]. split; [exact H3|].
  split; [exact H4|].
  apply (X6_Compare_sign _ _ H1 H2 H3 H4).
Defined.

(** ** Addition and subtraction *)

(** X7: on well-formed, clamped operands below the digit ceiling [Add(a, b)]
    succeeds and leaves the clamped sum of the two values, for every
    combination of signs and for operands that alias the receiver. *)
Theorem X7_Add_value (this : vlong) (a b : ref) :
  well_formed (deref this a) ->
  well_formed (deref this b) ->
  clamped (deref this a) ->
  clamped (deref this b) ->
  nu (deref this a) < VLONG_MAX_DIGITS ->
  nu (deref this b) < VLONG_MAX_DIGITS ->
  exists r, Add this a b = Some (VLONG_SUCCESS, r)
    /\ to_Z r = to_Z (deref this a) + to_Z (deref this b)
    /\ clamped r /\ in_buffer r.
Proof.
  intros H1 H2 H3 H4 H5 H6.
  destruct (Add_spec this a b H1 H2 H3 H4 H5 H6) as
    (r & E & R1 & R2 & R3 & _).
  exists r; splits; auto.
Qed.

Lemma X7_witness :
  (well_formed (deref Init (Ref (mk_vlong 1 [5] 1))))
  /\ (well_formed (deref Init (Ref (mk_vlong (-1) [9] 1))))
  /\ (clamped (deref Init (Ref (mk_vlong 1 [5] 1))))
  /\ (clamped (deref Init (Ref (mk_vlong (-1) [9] 1))))
  /\ (nu (deref Init (Ref (mk_vlong 1 [5] 1))) < VLONG_MAX_DIGITS)
  /\ (nu (deref Init (Ref (mk_vlong (-1) [9] 1))) < VLONG_MAX_DIGITS)
  /\ (exists r, Add Init (Ref (mk_vlong 1 [5] 1)) (Ref (mk_vlong (-1) [9] 1)) = Some (VLONG_SUCCESS, r)
       /\ to_Z r = to_Z (deref Init (Ref (mk_vlong 1 [5] 1))) + to_Z (deref Init (Ref (mk_vlong (-1) [9] 1)))
       /\ clamped r /\ in_buffer r).
Proof.
  assert (H1 : well_formed (deref Init (Ref (mk_vlong 1 [5] 1)))) by concrete.
  assert (H2 : well_formed (deref Init (Ref (mk_vlong (-1) [9] 1)))) by concrete.
  assert (H3 : clamped (deref Init (Ref (mk_vlong 1 [5] 1)))) by concrete.
  assert (H4 : clamped (deref Init (Ref (mk_vlong (-1) [9] 1)))) by concrete.
  assert (H5 : nu (deref Init (Ref (mk_vlong 1 [5] 1))) < VLONG_MAX_DIGITS) by concrete.
  assert (H6 : nu (deref Init (Ref (mk_vlong (-1) [9] 1))) < VLONG_MAX_DIGITS) by concrete.
  pose proof (X7_Add_value Init (Ref (mk_vlong 1 [5] 1)) (Ref (mk_vlong (-1) [9] 1)) H1 H2 H3 H4 H5 H6) as H.
  repeat (split; [assumption|]); exact H.
Defined.

(** X8: on well-formed, clamped operands below the digit ceiling [Sub(a, b)]
    succeeds and leaves the clamped difference of the two values, for every
    combination of signs and for operands that alias the receiver. *)
Theorem X8_Sub_value (this : vlong) (a b : ref) :
  well_formed (deref this a) ->
  well_formed (deref this b) ->
  clamped (deref this a) ->
  clamped (deref this b) ->
  nu (deref this a) < VLONG_MAX_DIGITS ->
  nu (deref this b) < VLONG_MAX_DIGITS ->
  exists r, Sub this a b = Some (VLONG_SUCCESS, r)
    /\ to_Z r = to_Z (deref this a) - to_Z (deref this b)
    /\ clamped r /\ in_buffer r.
Proof.
  intros H1 H2 H3 H4 H5 H6.
  destruct (Sub_spec this a b H1 H2 H3 H4 H5 H6) as
    (r & E & R1 & R2 & R3 & _).
  exists r; splits; auto.
Qed.

Lemma X8_witness :
  (well_formed (deref Init (Ref (mk_vlong 1 [5] 1))))
  /\ (well_formed (deref Init (Ref (mk_vlong (-1) [9] 1))))
  /\ (clamped (deref Init (Ref (mk_vlong 1 [5] 1))))
  /\ (clamped (deref Init (Ref (mk_vlong (-1) [9] 1))))
  /\ (nu (deref Init (Ref (mk_vlong 1 [5] 1))) < VLONG_MAX_DIGITS)
  /\ (nu (deref Init (Ref (mk_vlong (-1) [9] 1))) < VLONG_MAX_DIGITS)
  /\ (exists r, Sub Init (Ref (mk_vlong 1 [5] 1)) (Ref (mk_vlong (-1) [9] 1)) = Some (VLONG_SUCCESS, r)
       /\ to_Z r = to_Z (deref Init (Ref (mk_vlong 1 [5] 1))) - to_Z (deref Init (Ref (mk_vlong (-1) [9] 1)))
       /\ clamped r /\ in_buffer r).
Proof.
  assert (H1 : well_formed (deref Init (Ref (mk_vlong 1 [5] 1)))) by concrete.
  assert (H2 : well_formed (deref Init (Ref (mk_vlong (-1) [9] 1)))) by concrete.
  assert (H3 : clamped (deref Init (Ref (mk_vlong 1 [5] 1)))) by concrete.
  assert (H4 : clamped (deref Init (Ref (mk_vlong (-1) [9] 1)))) by concrete.
  assert (H5 : nu (deref Init (Ref (mk_vlong 1 [5] 1))) < VLONG_MAX_DIGITS) by concrete.
  assert (H6 : nu (deref Init (Ref (mk_vlong (-1) [9] 1))) < VLONG_MAX_DIGITS) by concrete.
  pose proof (X8_Sub_value Init (Ref (mk_vlong 1 [5] 1)) (Ref (mk_vlong (-1) [9] 1)) H1 H2 H3 H4 H5 H6) as H.
  repeat (split; [assumption|]); exact H.
Defined.

(** ** Operations with one digit *)

(** X9: [Mul(a, sdig_t b)] on a well-formed [a] below the digit ceiling
    succeeds and leaves the product of the value of [a] and the signed
    digit [b]. *)
Theorem X9_Mul_dig_value (this : vlong) (a : ref) (b : Z) :
  well_formed (deref this a) ->
  in_buffer this ->
  - 2 ^ 31 < b < 2 ^ 31 ->
  nu (deref this a) < VLONG_MAX_DIGITS ->
  exists r, Mul_dig this a b = Some (VLONG_SUCCESS, r)
    /\ to_Z r = to_Z (deref this a) * b
    /\ in_buffer r /\ nu r <= nu (deref this a) + 1.
Proof.
  intros H1 H2 H3 H4.
  destruct (Mul_dig_spec this a b H1 H2 H3 H4) as
    (r & E & R1 & R2 & _ & _ & R5).
  exists r; splits; auto.
Qed.

Lemma X9_witness :
  (well_formed (deref Init (Ref (mk_vlong (-1) [5] 1))))
  /\ (in_buffer Init)
  /\ (- 2 ^ 31 < (-3) < 2 ^ 31)
  /\ (nu (deref Init (Ref (mk_vlong (-1) [5] 1))) < VLONG_MAX_DIGITS)
  /\ (exists r, Mul_dig Init (Ref (mk_vlong (-1) [5] 1)) (-3) = Some (VLONG_SUCCESS, r)
       /\ to_Z r = to_Z (deref Init (Ref (mk_vlong (-1) [5] 1))) * (-3)
       /\ in_buffer r /\ nu r <= nu (deref Init (Ref (mk_vlong (-1) [5] 1))) + 1).
Proof.
  assert (H1 : well_formed (deref Init (Ref (mk_vlong (-1) [5] 1)))) by concrete.
  assert (H2 : in_buffer Init) by concrete.
  assert (H3 : - 2 ^ 31 < (-3) < 2 ^ 31) by concrete.
  assert (H4 : nu (deref Init (Ref (mk_vlong (-1) [5] 1))) < VLONG_MAX_DIGITS) by concrete.
  pose proof (X9_Mul_dig_value Init (Ref (mk_vlong (-1) [5] 1)) (-3) H1 H2 H3 H4) as H.
  repeat (split; [assumption|]); exact H.
Defined.

(** X10: [Div(a, sdig_t b, &r)] with a nonzero well-formed dividend and a
    positive digit divisor succeeds with the quotient truncated toward zero
    and the remainder carrying the sign of the dividend, as C does for
    machine integers: [a = q * b + r]. *)
Theorem X10_Div_dig_truncates (this : vlong) (a : ref) (b r0 : Z) :
  well_formed (deref this a) ->
  in_buffer this ->
  digits_ok (d this) ->
  0 < nu (deref this a) <= VLONG_MAX_DIGITS ->
  0 < b < 2 ^ 31 ->
  exists q r,
    Div_dig this a b (Some r0) = Some (VLONG_SUCCESS, (q, Some r))
    /\ to_Z q = Z.quot (to_Z (deref this a)) b
    /\ r = Z.rem (to_Z (deref this a)) b
    /\ to_Z (deref this a) = to_Z q * b + r
    /\ in_buffer q.
Proof.
  intros H1 H2 H3 H4 H5.
  destruct (Div_dig_spec this a b r0 H1 H2 H3 H4 H5) as
    (q & E & R1 & R2 & _).
  exists q, (Z.rem (to_Z (deref this a)) b); splits; auto.
  rewrite R1.
  pose proof (Z.quot_rem' (to_Z (deref this a)) b); lia.
Qed.

Lemma X10_witness :
  (well_formed (deref Init (Ref (mk_vlong (-1) [7] 1))))
  /\ (in_buffer Init)
  /\ (digits_ok (d Init))
  /\ (0 < nu (deref Init (Ref (mk_vlong (-1) [7] 1))) <= VLONG_MAX_DIGITS)
  /\ (0 < 2 < 2 ^ 31)
  /\ (exists q r,
       Div_dig Init (Ref (mk_vlong (-1) [7] 1)) 2 (Some 0) = Some (VLONG_SUCCESS, (q, Some r))
       /\ to_Z q = Z.quot (to_Z (deref Init (Ref (mk_vlong (-1) [7] 1)))) 2
       /\ r = Z.rem (to_Z (deref Init (Ref (mk_vlong (-1) [7] 1)))) 2
       /\ to_Z (deref Init (Ref (mk_vlong (-1) [7] 1))) = to_Z q * 2 + r
       /\ in_buffer q).
Proof.
  assert (H1 : well_formed (deref Init (Ref (mk_vlong (-1) [7] 1)))) by concrete.
  assert (H2 : in_buffer Init) by concrete.
  assert (H3 : digits_ok (d Init)) by concrete.
  assert (H4 : 0 < nu (deref Init (Ref (mk_vlong (-1) [7] 1))) <= VLONG_MAX_DIGITS) by concrete.
  assert (H5 : 0 < 2 < 2 ^ 31) by concrete.
  pose proof (X10_Div_dig_truncates Init (Ref (mk_vlong (-1) [7] 1)) 2 0 H1 H2 H3 H4 H5) as H.
  repeat (split; [assumption|]); exact H.
Defined.

(** X11: [Mod(a, sdig_t b)] and [ModDig(b)] with a nonzero well-formed
    dividend and a positive digit divisor give the remainder of the
    truncating division, which carries the sign of the dividend. *)
Theorem X11_Mod_dig_value (this : vlong) (a : ref) (b : Z) :
  well_formed (deref this a) ->
  0 < nu (deref this a) <= VLONG_MAX_DIGITS ->
  0 < b < 2 ^ 31 ->
  exists r, Mod_dig this a b = Some (VLONG_SUCCESS, r)
    /\ to_Z r = Z.rem (to_Z (deref this a)) b
    /\ clamped r
    /\ ModDig (deref this a) b = Some (Z.rem (to_Z (deref this a)) b).
Proof.
  apply Mod_dig_spec.
Qed.

Lemma X11_witness :
  (well_formed (deref Init (Ref (mk_vlong (-1) [7] 1))))
  /\ (0 < nu (deref Init (Ref (mk_vlong (-1) [7] 1))) <= VLONG_MAX_DIGITS)
  /\ (0 < 4 < 2 ^ 31)
  /\ (exists r, Mod_dig Init (Ref (mk_vlong (-1) [7] 1)) 4 = Some (VLONG_SUCCESS, r)
       /\ to_Z r = Z.rem (to_Z (deref Init (Ref (mk_vlong (-1) [7] 1)))) 4
       /\ clamped r
       /\ ModDig (deref Init (Ref (mk_vlong (-1) [7] 1))) 4 = Some (Z.rem (to_Z (deref Init (Ref (mk_vlong (-1) [7] 1)))) 4)).
Proof.
  assert (H1 : well_formed (deref Init (Ref (mk_vlong (-1) [7] 1)))) by concrete.
  assert (H2 : 0 < nu (deref Init (Ref (mk_vlong (-1) [7] 1))) <= VLONG_MAX_DIGITS) by concrete.
  assert (H3 : 0 < 4 < 2 ^ 31) by concrete.
  pose proof (X11_Mod_dig_value Init (Ref (mk_vlong (-1) [7] 1)) 4 H1 H2 H3) as H.
  repeat (split; [assumption|]); exact H.
Defined.

(** X12: [prvIsPow2(b, &p)] answers 1 exactly for the powers of two
    [2^0 .. 2^31], and then stores the exponent in [p]; on every other
    nonzero digit it answers 0. *)
Theorem X12_prvIsPow2_exact (b : Z) :
  0 < b < 2 ^ 32 ->
  (fst (prvIsPow2 b) = 1 \/ fst (prvIsPow2 b) = 0)
  /\ (fst (prvIsPow2 b) = 1 ->
      b = 2 ^ snd (prvIsPow2 b) /\ 0 <= snd (prvIsPow2 b) < 32)
  /\ (forall k, 0 <= k < 32 -> b = 2 ^ k -> prvIsPow2 b = (1, k)).
Proof.
  apply prvIsPow2_spec.
Qed.

Lemma X12_witness :
  (0 < 8 < 2 ^ 32)
  /\ ((fst (prvIsPow2 8) = 1 \/ fst (prvIsPow2 8) = 0)
     /\ (fst (prvIsPow2 8) = 1 ->
         8 = 2 ^ snd (prvIsPow2 8) /\ 0 <= snd (prvIsPow2 8) < 32)
     /\ (forall k, 0 <= k < 32 -> 8 = 2 ^ k -> prvIsPow2 8 = (1, k))).
Proof.
  assert (H1 : 0 < 8 < 2 ^ 32) by concrete.
  pose proof (X12_prvIsPow2_exact 8 H1) as H.
  repeat (split; [assumption|]); exact H.
Defined.

(** ** Shifts *)





(** X15: [ShiftLeft] of zero by 32 bits or more succeeds with value zero but
    a positive used count: the digit shift raises [nu] and nothing clamps
    afterwards, so the result breaks the clamp invariant. *)
Theorem X15_ShiftLeft_zero_not_clamped (this : vlong) (a : ref) (bits : Z) :
  well_formed (deref this a) ->
  in_buffer this ->
  digits_ok (d this) ->
  nu (deref this a) = 0 ->
  32 <= bits ->
  bits / 32 + 1 <= VLONG_MAX_DIGITS ->
  exists r, ShiftLeft this a bits = Some (VLONG_SUCCESS, r)
    /\ to_Z r = 0 /\ 0 < nu r /\ ~ clamped r.
Proof.
  apply ShiftLeft_zero_unclamped.
Qed.

Lemma X15_witness :
  (well_formed (deref Init (Ref Init)))
  /\ (in_buffer Init)
  /\ (digits_ok (d Init))
  /\ (nu (deref Init (Ref Init)) = 0)
  /\ (32 <= 40)
  /\ (40 / 32 + 1 <= VLONG_MAX_DIGITS)
  /\ (exists r, ShiftLeft Init (Ref Init) 40 = Some (VLONG_SUCCESS, r)
       /\ to_Z r = 0 /\ 0 < nu r /\ ~ clamped r).
Proof.
  assert (H1 : well_formed (deref Init (Ref Init))) by concrete.
  assert (H2 : in_buffer Init) by concrete.
  assert (H3 : digits_ok (d Init)) by concrete.
  assert (H4 : nu (deref Init (Ref Init)) = 0) by concrete.
  assert (H5 : 32 <= 40) by concrete.
  assert (H6 : 40 / 32 + 1 <= VLONG_MAX_DIGITS) by concrete.
  pose proof (X15_ShiftLeft_zero_not_clamped Init (Ref Init) 40 H1 H2 H3 H4 H5 H6) as H.
  repeat (split; [assumption|]); exact H.
Defined.
(** ** Multiplication *)

(** X16: [Mul(a, b)] on well-formed operands, when the shorter one is below
    the Karatsuba cutoff (so the schoolbook routine runs) and the digit
    counts add up to at most the ceiling, succeeds and leaves the product
    of the two values; the result has no leading zero digit when the
    operands have none. *)
Theorem X16_Mul_value (fuel : nat) (this : vlong) (a b : ref) :
  well_formed (deref this a) ->
  well_formed (deref this b) ->
  in_buffer this ->
  digits_ok (d this) ->
  nu (deref this a) + nu (deref this b) <= VLONG_MAX_DIGITS ->
  Z.min (nu (deref this a)) (nu (deref this b)) < VLONG_KARATSUBA_MUL_CUTOFF ->
  exists r, Mul (S fuel) this a b 0 = Some (VLONG_SUCCESS, r)
    /\ to_Z r = to_Z (deref this a) * to_Z (deref this b)
    /\ in_buffer r /\ digits_ok (d r)
    /\ nu r <= nu (deref this a) + nu (deref this b)
    /\ (top_nonzero (deref this a) -> top_nonzero (deref this b) ->
        top_nonzero r).
Proof.
  intros H1 H2 H3 H4 H5 H6.
  destruct (Mul_spec fuel this a b H1 H2 H3 H4 H5 H6) as
    (r & E & R1 & R2 & R3 & _ & R5 & R6).
  exists r; splits; auto.
Qed.

Lemma X16_witness :
  (well_formed (deref Init (Ref (mk_vlong 1 [5; 3] 2))))
  /\ (well_formed (deref Init (Ref (mk_vlong (-1) [9] 1))))
  /\ (in_buffer Init)
  /\ (digits_ok (d Init))
  /\ (nu (deref Init (Ref (mk_vlong 1 [5; 3] 2))) + nu (deref Init (Ref (mk_vlong (-1) [9] 1))) <= VLONG_MAX_DIGITS)
  /\ (Z.min (nu (deref Init (Ref (mk_vlong 1 [5; 3] 2)))) (nu (deref Init (Ref (mk_vlong (-1) [9] 1)))) < VLONG_KARATSUBA_MUL_CUTOFF)
  /\ (exists r, Mul (S 0%nat) Init (Ref (mk_vlong 1 [5; 3] 2)) (Ref (mk_vlong (-1) [9] 1)) 0 = Some (VLONG_SUCCESS, r)
       /\ to_Z r = to_Z (deref Init (Ref (mk_vlong 1 [5; 3] 2))) * to_Z (deref Init (Ref (mk_vlong (-1) [9] 1)))
       /\ in_buffer r /\ digits_ok (d r)
       /\ nu r <= nu (deref Init (Ref (mk_vlong 1 [5; 3] 2))) + nu (deref Init (Ref (mk_vlong (-1) [9] 1)))
       /\ (top_nonzero (deref Init (Ref (mk_vlong 1 [5; 3] 2))) -> top_nonzero (deref Init (Ref (mk_vlong (-1) [9] 1))) ->
           top_nonzero r)).
Proof.
  assert (H1 : well_formed (deref Init (Ref (mk_vlong 1 [5; 3] 2)))) by concrete.
  assert (H2 : well_formed (deref Init (Ref (mk_vlong (-1) [9] 1)))) by concrete.
  assert (H3 : in_buffer Init) by concrete.
  assert (H4 : digits_ok (d Init)) by concrete.
  assert (H5 : nu (deref Init (Ref (mk_vlong 1 [5; 3] 2))) + nu (deref Init (Ref (mk_vlong (-1) [9] 1))) <= VLONG_MAX_DIGITS) by concrete.
  assert (H6 : Z.min (nu (deref Init (Ref (mk_vlong 1 [5; 3] 2)))) (nu (deref Init (Ref (mk_vlong (-1) [9] 1)))) < VLONG_KARATSUBA_MUL_CUTOFF) by concrete.
  pose proof (X16_Mul_value 0%nat Init (Ref (mk_vlong 1 [5; 3] 2)) (Ref (mk_vlong (-1) [9] 1)) H1 H2 H3 H4 H5 H6) as H.
  repeat (split; [assumption|]); exact H.
Defined.

(** ** Montgomery setup *)

(** X17: for a modulus that has a digit buffer,
    [prvReduceMontgomerySetup(n, &rho)] rejects a lowest digit that is even
    with VLONG_ERR_BAD_ARG_1; for an odd lowest digit it succeeds with
    [rho = -1/n[0] mod 2^32], that is [rho * n[0] + 1] is a multiple of
    [2^32].  (The routine reads [n.d[0]] without a test: on an object that
    has no buffer the source reads through a null pointer.) *)
Theorem X17_Montgomery_setup_inverse (n : vlong) :
  0 < na n ->
  0 <= di n 0 < 2 ^ 32 ->
  (di n 0 mod 2 = 0 ->
   prvReduceMontgomerySetup n = (VLONG_ERR_BAD_ARG_1, 0))
  /\ (di n 0 mod 2 = 1 ->
      fst (prvReduceMontgomerySetup n) = VLONG_SUCCESS
      /\ 0 <= snd (prvReduceMontgomerySetup n) < 2 ^ 32
      /\ (snd (prvReduceMontgomerySetup n) * di n 0 + 1) mod 2 ^ 32 = 0).
Proof.
  intros _; apply prvReduceMontgomerySetup_spec.
Qed.

Lemma X17_witness :
  (0 < na (mk_vlong 1 [7] 1))
  /\ (0 <= di (mk_vlong 1 [7] 1) 0 < 2 ^ 32)
  /\ ((di (mk_vlong 1 [7] 1) 0 mod 2 = 0 ->
      prvReduceMontgomerySetup (mk_vlong 1 [7] 1) = (VLONG_ERR_BAD_ARG_1, 0))
     /\ (di (mk_vlong 1 [7] 1) 0 mod 2 = 1 ->
         fst (prvReduceMontgomerySetup (mk_vlong 1 [7] 1)) = VLONG_SUCCESS
         /\ 0 <= snd (prvReduceMontgomerySetup (mk_vlong 1 [7] 1)) < 2 ^ 32
         /\ (snd (prvReduceMontgomerySetup (mk_vlong 1 [7] 1))
             * di (mk_vlong 1 [7] 1) 0 + 1) mod 2 ^ 32 = 0)).
Proof.
  assert (H0 : 0 < na (mk_vlong 1 [7] 1)) by concrete.
  assert (H1 : 0 <= di (mk_vlong 1 [7] 1) 0 < 2 ^ 32) by concrete.
  pose proof (X17_Montgomery_setup_inverse (mk_vlong 1 [7] 1) H0 H1) as H.
  repeat (split; [assumption|]); exact H.
Defined.

(** ** BASE64 alphabet *)

(** X18: the decoder's [POS] inverts the encoder's alphabet [base64_enc]
    on all 64 six-bit values. *)
Theorem X18_POS_inverts_base64_enc (k : Z) :
  0 <= k < 64 ->
  POS (base64_enc k) = k.
Proof.
  apply POS_base64_enc.
Qed.

Lemma X18_witness :
  (0 <= 26 < 64)
  /\ (POS (base64_enc 26) = 26).
Proof.
  assert (H1 : 0 <= 26 < 64) by concrete.
  pose proof (X18_POS_inverts_base64_enc 26 H1) as H.
  repeat (split; [assumption|]); exact H.
Defined.

(** ** Random numbers *)

(** X19: with the built-in generator (no callback), on an object whose
    used digits lie in its buffer and for a byte count whose size
    arithmetic stays within [size_t] ([bytes + 3 < 2^64]),
    [GenRandomBytes] returns VLONG_SUCCESS, VLONG_ERR_BAD_ARG_1 or
    VLONG_ERR_MEMORY_EXEED: the status VLONG_WRN_INSECURE_RNG that the
    built-in generator reports is overwritten by the status of
    [FromBinary] and never reaches the caller. *)
Theorem X19_GenRandomBytes_status
    (this : vlong) (bytes : Z) (rand : nat -> Z) :
  in_buffer this ->
  0 <= bytes < 2 ^ 64 - 3 ->
  exists ret r,
    GenRandomBytes this bytes None rand = Some (ret, r)
    /\ (ret = VLONG_SUCCESS \/ ret = VLONG_ERR_BAD_ARG_1
        \/ ret = VLONG_ERR_MEMORY_EXEED)
    /\ ret <> VLONG_WRN_INSECURE_RNG.
Proof.
  intros _ _; apply GenRandomBytes_status.
Qed.

Lemma X19_witness :
  (in_buffer Init)
  /\ (0 <= 3 < 2 ^ 64 - 3)
  /\ (exists ret r,
        GenRandomBytes Init 3 None (fun _ : nat => 7) = Some (ret, r)
        /\ (ret = VLONG_SUCCESS \/ ret = VLONG_ERR_BAD_ARG_1
            \/ ret = VLONG_ERR_MEMORY_EXEED)
        /\ ret <> VLONG_WRN_INSECURE_RNG).
Proof.
  assert (H1 : in_buffer Init) by concrete.
  assert (H2 : 0 <= 3 < 2 ^ 64 - 3) by concrete.
  pose proof (X19_GenRandomBytes_status Init 3 (fun _ : nat => 7) H1 H2) as H.
  repeat (split; [assumption|]); exact H.
Defined.

(** X20: [GenRandomBits(bits)] with the built-in generator, for a bit count
    from 1 to 8184, succeeds with a positive number of exactly [bits]
    significant bits, whatever bytes the generator yields.  The bound is
    the one under which the byte count plus one stays within the digit
    ceiling: [SetBytes] grows the receiver by the byte count, not by the
    digit count. *)
Theorem X20_GenRandomBits_exact_length
    (this : vlong) (bits : Z) (rand : nat -> Z) :
  digits_ok (d this) ->
  0 < bits ->
  (bits + 7) / 8 + 1 <= VLONG_MAX_DIGITS ->
  exists r, GenRandomBits this bits None rand = Some (VLONG_SUCCESS, r)
    /\ GetNumBits r = bits /\ s r = MP_ZPOS
    /\ nu r = BITS_TO_DIGITS bits.
Proof.
  apply GenRandomBits_spec.
Qed.

Lemma X20_witness :
  (digits_ok (d Init))
  /\ (0 < 10)
  /\ ((10 + 7) / 8 + 1 <= VLONG_MAX_DIGITS)
  /\ (exists r, GenRandomBits Init 10 None (fun _ : nat => 0) = Some (VLONG_SUCCESS, r)
       /\ GetNumBits r = 10 /\ s r = MP_ZPOS
       /\ nu r = BITS_TO_DIGITS 10).
Proof.
  assert (H1 : digits_ok (d Init)) by concrete.
  assert (H2 : 0 < 10) by concrete.
  assert (H3 : (10 + 7) / 8 + 1 <= VLONG_MAX_DIGITS) by concrete.
  pose proof (X20_GenRandomBits_exact_length Init 10 (fun _ : nat => 0) H1 H2 H3) as H.
  repeat (split; [assumption|]); exact H.
Defined.

(** ** Exponentiation *)

(** X21: [PowMod(a, udig_t e, n)] builds its temporary exponent with the
    digit stored but the used count left at 0, so the long [PowMod] sees
    the exponent zero: the result is the same for every [e]. *)
Theorem X21_PowMod_udig_ignores_exponent
    (fuel : nat) (this : vlong) (a : ref) (e1 e2 : Z) (n : ref) :
  PowMod_udig fuel this a e1 n = PowMod_udig fuel this a e2 n.
Proof.
  rewrite !PowMod_udig_ignores_e; reflexivity.
Qed.

(** X26: [PowMod] with a negative exponent never returns success, whatever
    the base, the modulus and the recursion depth allowed: after computing
    the inverse it calls itself on the original operands. *)
Theorem X26_PowMod_negative_exponent
    (fuel : nat) (this : vlong) (a e n : ref) (r : vlong) :
  s (deref this e) = MP_NEG ->
  PowMod fuel this a e n <> Some (VLONG_SUCCESS, r).
Proof.
  apply PowMod_negative_exponent_never_succeeds.
Qed.

Lemma X26_witness :
  (s (deref Init (Ref (mk_vlong (-1) [1] 1))) = MP_NEG)
  /\ (PowMod 5%nat Init (Ref (mk_vlong 1 [3] 1)) (Ref (mk_vlong (-1) [1] 1)) (Ref (mk_vlong 1 [7] 1)) <> Some (VLONG_SUCCESS, Init)).
Proof.
  assert (H1 : s (deref Init (Ref (mk_vlong (-1) [1] 1))) = MP_NEG) by concrete.
  pose proof (X26_PowMod_negative_exponent 5%nat Init (Ref (mk_vlong 1 [3] 1)) (Ref (mk_vlong (-1) [1] 1)) (Ref (mk_vlong 1 [7] 1)) Init H1) as H.
  repeat (split; [assumption|]); exact H.
Defined.

(** ** Sign and bits *)

(** X22: [Abs(v)] succeeds with the absolute value of [v]; for [v = 0] it
    stores the sign 0, which is neither MP_ZPOS nor MP_NEG, and the result
    then compares greater than every positive number. *)
Theorem X22_Abs_value (this : vlong) (v : ref) :
  0 <= nu this ->
  well_formed (deref this v) ->
  nu (deref this v) <= VLONG_MAX_DIGITS ->
  exists r, Abs this v = Some (VLONG_SUCCESS, r)
    /\ to_Z r = Z.abs (to_Z (deref this v))
    /\ (nu (deref this v) = 0 ->
        s r = 0
        /\ forall p, 0 < nu p -> s p = MP_ZPOS -> Compare r p = MP_GT).
Proof.
  apply Abs_spec.
Qed.

Lemma X22_witness :
  (0 <= nu Init)
  /\ (well_formed (deref Init (Ref (mk_vlong (-1) [5] 1))))
  /\ (nu (deref Init (Ref (mk_vlong (-1) [5] 1))) <= VLONG_MAX_DIGITS)
  /\ (exists r, Abs Init (Ref (mk_vlong (-1) [5] 1)) = Some (VLONG_SUCCESS, r)
       /\ to_Z r = Z.abs (to_Z (deref Init (Ref (mk_vlong (-1) [5] 1))))
       /\ (nu (deref Init (Ref (mk_vlong (-1) [5] 1))) = 0 ->
           s r = 0
           /\ forall p, 0 < nu p -> s p = MP_ZPOS -> Compare r p = MP_GT)).
Proof.
  assert (H1 : 0 <= nu Init) by concrete.
  assert (H2 : well_formed (deref Init (Ref (mk_vlong (-1) [5] 1)))) by concrete.
  assert (H3 : nu (deref Init (Ref (mk_vlong (-1) [5] 1))) <= VLONG_MAX_DIGITS) by concrete.
  pose proof (X22_Abs_value Init (Ref (mk_vlong (-1) [5] 1)) H1 H2 H3) as H.
  repeat (split; [assumption|]); exact H.
Defined.

(** X23: for a bit index inside the used digits, [GetBit(num)] is bit [num]
    of the magnitude. *)
Theorem X23_GetBit_is_testbit (this : vlong) (num : Z) :
  digits_ok (d this) ->
  0 <= num ->
  num / 32 < nu this ->
  GetBit this num = Z.b2z (Z.testbit (magnitude this) num).
Proof.
  apply GetBit_spec.
Qed.

Lemma X23_witness :
  (digits_ok (d (mk_vlong 1 [5] 1)))
  /\ (0 <= 2)
  /\ (2 / 32 < nu (mk_vlong 1 [5] 1))
  /\ (GetBit (mk_vlong 1 [5] 1) 2 = Z.b2z (Z.testbit (magnitude (mk_vlong 1 [5] 1)) 2)).
Proof.
  assert (H1 : digits_ok (d (mk_vlong 1 [5] 1))) by concrete.
  assert (H2 : 0 <= 2) by concrete.
  assert (H3 : 2 / 32 < nu (mk_vlong 1 [5] 1)) by concrete.
  pose proof (X23_GetBit_is_testbit (mk_vlong 1 [5] 1) 2 H1 H2 H3) as H.
  repeat (split; [assumption|]); exact H.
Defined.

(** ** Long division: the early exits *)

(** X24: long [Div(a, b, &r)] with [|a| < |b|] succeeds with quotient 0 and
    remainder [a]. *)
Theorem X24_Div_smaller_dividend (fuel : nat) (this a b r0 : vlong) :
  well_formed a ->
  well_formed b ->
  clamped a ->
  clamped b ->
  0 <= nu r0 ->
  nu a <= VLONG_MAX_DIGITS ->
  magnitude a < magnitude b ->
  exists q r,
    Div fuel this (Ref a) (Ref b) (Some r0) = Some (VLONG_SUCCESS, (q, Some r))
    /\ to_Z q = 0 /\ to_Z r = to_Z a.
Proof.
  apply Div_smaller.
Qed.

Lemma X24_witness :
  (well_formed (mk_vlong (-1) [5] 1))
  /\ (well_formed (mk_vlong 1 [9] 1))
  /\ (clamped (mk_vlong (-1) [5] 1))
  /\ (clamped (mk_vlong 1 [9] 1))
  /\ (0 <= nu Init)
  /\ (nu (mk_vlong (-1) [5] 1) <= VLONG_MAX_DIGITS)
  /\ (magnitude (mk_vlong (-1) [5] 1) < magnitude (mk_vlong 1 [9] 1))
  /\ (exists q r,
       Div 0%nat Init (Ref (mk_vlong (-1) [5] 1)) (Ref (mk_vlong 1 [9] 1)) (Some Init) = Some (VLONG_SUCCESS, (q, Some r))
       /\ to_Z q = 0 /\ to_Z r = to_Z (mk_vlong (-1) [5] 1)).
Proof.
  assert (H1 : well_formed (mk_vlong (-1) [5] 1)) by concrete.
  assert (H2 : well_formed (mk_vlong 1 [9] 1)) by concrete.
  assert (H3 : clamped (mk_vlong (-1) [5] 1)) by concrete.
  assert (H4 : clamped (mk_vlong 1 [9] 1)) by concrete.
  assert (H5 : 0 <= nu Init) by concrete.
  assert (H6 : nu (mk_vlong (-1) [5] 1) <= VLONG_MAX_DIGITS) by concrete.
  assert (H7 : magnitude (mk_vlong (-1) [5] 1) < magnitude (mk_vlong 1 [9] 1)) by concrete.
  pose proof (X24_Div_smaller_dividend 0%nat Init (mk_vlong (-1) [5] 1) (mk_vlong 1 [9] 1) Init H1 H2 H3 H4 H5 H6 H7) as H.
  repeat (split; [assumption|]); exact H.
Defined.

(** X25: long [Div(a, b, &r)] with [|a| = |b|], both nonzero, succeeds with
    remainder 0 but with the quotient [+-|a|] (a copy of the dividend with
    the sign adjusted) where the mathematical quotient is [+-1]. *)
Theorem X25_Div_equal_magnitudes (fuel : nat) (this a b r0 : vlong) :
  well_formed a ->
  well_formed b ->
  clamped a ->
  clamped b ->
  0 <= nu this ->
  0 < nu a <= VLONG_MAX_DIGITS ->
  magnitude a = magnitude b ->
  exists q r,
    Div fuel this (Ref a) (Ref b) (Some r0) = Some (VLONG_SUCCESS, (q, Some r))
    /\ to_Z q = (if s a =? s b then 1 else -1) * magnitude a
    /\ to_Z r = 0.
Proof.
  apply Div_equal_magnitude.
Qed.

Lemma X25_witness :
  (well_formed (mk_vlong (-1) [5] 1))
  /\ (well_formed (mk_vlong 1 [5] 1))
  /\ (clamped (mk_vlong (-1) [5] 1))
  /\ (clamped (mk_vlong 1 [5] 1))
  /\ (0 <= nu Init)
  /\ (0 < nu (mk_vlong (-1) [5] 1) <= VLONG_MAX_DIGITS)
  /\ (magnitude (mk_vlong (-1) [5] 1) = magnitude (mk_vlong 1 [5] 1))
  /\ (exists q r,
       Div 0%nat Init (Ref (mk_vlong (-1) [5] 1)) (Ref (mk_vlong 1 [5] 1)) (Some Init) = Some (VLONG_SUCCESS, (q, Some r))
       /\ to_Z q = (if s (mk_vlong (-1) [5] 1) =? s (mk_vlong 1 [5] 1) then 1 else -1) * magnitude (mk_vlong (-1) [5] 1)
       /\ to_Z r = 0).
Proof.
  assert (H1 : well_formed (mk_vlong (-1) [5] 1)) by concrete.
  assert (H2 : well_formed (mk_vlong 1 [5] 1)) by concrete.
  assert (H3 : clamped (mk_vlong (-1) [5] 1)) by concrete.
  assert (H4 : clamped (mk_vlong 1 [5] 1)) by concrete.
  assert (H5 : 0 <= nu Init) by concrete.
  assert (H6 : 0 < nu (mk_vlong (-1) [5] 1) <= VLONG_MAX_DIGITS) by concrete.
  assert (H7 : magnitude (mk_vlong (-1) [5] 1) = magnitude (mk_vlong 1 [5] 1)) by concrete.
  pose proof (X25_Div_equal_magnitudes 0%nat Init (mk_vlong (-1) [5] 1) (mk_vlong 1 [5] 1) Init H1 H2 H3 H4 H5 H6 H7) as H.
  repeat (split; [assumption|]); exact H.
Defined.

(** ** Bit length and exclusive or *)

(** X27: on a well-formed, clamped object [GetNumBits] (and [GetNumMSB])
    is the bit length of the magnitude: 0 for zero, and
    [floor(log2 |x|) + 1] otherwise. *)
Theorem X27_GetNumBits_bit_length (this : vlong) :
  well_formed this ->
  clamped this ->
  GetNumBits this
  = (if magnitude this =? 0 then 0 else Z.log2 (magnitude this) + 1)
  /\ GetNumMSB this = GetNumBits this.
Proof.
  intros H1 H2; split; [apply GetNumBits_spec; assumption | reflexivity].
Qed.

Lemma X27_witness :
  (well_formed (mk_vlong 1 [5; 3] 2))
  /\ (clamped (mk_vlong 1 [5; 3] 2))
  /\ (GetNumBits (mk_vlong 1 [5; 3] 2)
     = (if magnitude (mk_vlong 1 [5; 3] 2) =? 0 then 0 else Z.log2 (magnitude (mk_vlong 1 [5; 3] 2)) + 1)
     /\ GetNumMSB (mk_vlong 1 [5; 3] 2) = GetNumBits (mk_vlong 1 [5; 3] 2)).
Proof.
  assert (H1 : well_formed (mk_vlong 1 [5; 3] 2)) by concrete.
  assert (H2 : clamped (mk_vlong 1 [5; 3] 2)) by concrete.
  pose proof (X27_GetNumBits_bit_length (mk_vlong 1 [5; 3] 2) H1 H2) as H.
  repeat (split; [assumption|]); exact H.
Defined.

(** X28: [Xor(a, b)] of two well-formed operands that are not the same
    object leaves the bitwise exclusive or of the two magnitudes, with the
    digit count of the longer operand, provided the receiver, when it is one
    of the operands, is not the shorter one. *)
Theorem X28_Xor_value (this : vlong) (a b : ref) :
  well_formed (deref this a) ->
  well_formed (deref this b) ->
  in_buffer this ->
  digits_ok (d this) ->
  nu (deref this a) <= VLONG_MAX_DIGITS ->
  nu (deref this b) <= VLONG_MAX_DIGITS ->
  is_this a && is_this b = false ->
  (is_this a = true -> nu (deref this b) <= nu this) ->
  (is_this b = true -> nu (deref this a) <= nu this) ->
  exists r, Xor this a b false = Some (VLONG_SUCCESS, r)
    /\ magnitude r
       = Z.lxor (magnitude (deref this a)) (magnitude (deref this b))
    /\ nu r = Z.max (nu (deref this a)) (nu (deref this b))
    /\ in_buffer r /\ digits_ok (d r).
Proof.
  apply Xor_spec.
Qed.

Lemma X28_witness :
  (well_formed (deref Init (Ref (mk_vlong 1 [5; 3] 2))))
  /\ (well_formed (deref Init (Ref (mk_vlong 1 [9] 1))))
  /\ (in_buffer Init)
  /\ (digits_ok (d Init))
  /\ (nu (deref Init (Ref (mk_vlong 1 [5; 3] 2))) <= VLONG_MAX_DIGITS)
  /\ (nu (deref Init (Ref (mk_vlong 1 [9] 1))) <= VLONG_MAX_DIGITS)
  /\ (is_this (Ref (mk_vlong 1 [5; 3] 2)) && is_this (Ref (mk_vlong 1 [9] 1)) = false)
  /\ ((is_this (Ref (mk_vlong 1 [5; 3] 2)) = true -> nu (deref Init (Ref (mk_vlong 1 [9] 1))) <= nu Init))
  /\ ((is_this (Ref (mk_vlong 1 [9] 1)) = true -> nu (deref Init (Ref (mk_vlong 1 [5; 3] 2))) <= nu Init))
  /\ (exists r, Xor Init (Ref (mk_vlong 1 [5; 3] 2)) (Ref (mk_vlong 1 [9] 1)) false = Some (VLONG_SUCCESS, r)
       /\ magnitude r
          = Z.lxor (magnitude (deref Init (Ref (mk_vlong 1 [5; 3] 2)))) (magnitude (deref Init (Ref (mk_vlong 1 [9] 1))))
       /\ nu r = Z.max (nu (deref Init (Ref (mk_vlong 1 [5; 3] 2)))) (nu (deref Init (Ref (mk_vlong 1 [9] 1))))
       /\ in_buffer r /\ digits_ok (d r)).
Proof.
  assert (H1 : well_formed (deref Init (Ref (mk_vlong 1 [5; 3] 2)))) by concrete.
  assert (H2 : well_formed (deref Init (Ref (mk_vlong 1 [9] 1)))) by concrete.
  assert (H3 : in_buffer Init) by concrete.
  assert (H4 : digits_ok (d Init)) by concrete.
  assert (H5 : nu (deref Init (Ref (mk_vlong 1 [5; 3] 2))) <= VLONG_MAX_DIGITS) by concrete.
  assert (H6 : nu (deref Init (Ref (mk_vlong 1 [9] 1))) <= VLONG_MAX_DIGITS) by concrete.
  assert (H7 : is_this (Ref (mk_vlong 1 [5; 3] 2)) && is_this (Ref (mk_vlong 1 [9] 1)) = false) by concrete.
  assert (H8 : (is_this (Ref (mk_vlong 1 [5; 3] 2)) = true -> nu (deref Init (Ref (mk_vlong 1 [9] 1))) <= nu Init)) by concrete.
  assert (H9 : (is_this (Ref (mk_vlong 1 [9] 1)) = true -> nu (deref Init (Ref (mk_vlong 1 [5; 3] 2))) <= nu Init)) by concrete.
  pose proof (X28_Xor_value Init (Ref (mk_vlong 1 [5; 3] 2)) (Ref (mk_vlong 1 [9] 1)) H1 H2 H3 H4 H5 H6 H7 H8 H9) as H.
  repeat (split; [assumption|]); exact H.
Defined.

(** ** Adding and subtracting one digit *)

(** X29: [Add(a, sdig_t b)] with [b = 0] returns at once and leaves the
    receiver as it was, also when [a] is another object.  For [b <> 0] it
    leaves the clamped sum [a + b] whenever [a] is not negative or [b] is
    positive.  For a negative [a] and a negative [b] the magnitudes are
    added with [(uwrd_t) b]: while [|b|] does not exceed the lowest digit
    of [a] the result is [a - b]. *)
Theorem X29_Add_dig_value (this : vlong) (a : ref) (b : Z) :
  well_formed (deref this a) ->
  clamped (deref this a) ->
  in_buffer this ->
  digits_ok (d this) ->
  nu (deref this a) < VLONG_MAX_DIGITS ->
  - 2 ^ 31 < b < 2 ^ 31 ->
  (b = 0 -> Add_dig this a b = Some (VLONG_SUCCESS, this))
  /\ (b <> 0 -> s (deref this a) = MP_ZPOS \/ 0 < b ->
      exists r, Add_dig this a b = Some (VLONG_SUCCESS, r)
        /\ to_Z r = to_Z (deref this a) + b
        /\ clamped r /\ in_buffer r)
  /\ (s (deref this a) = MP_NEG -> b < 0 -> - b <= di (deref this a) 0 ->
      exists r, Add_dig this a b = Some (VLONG_SUCCESS, r)
        /\ to_Z r = to_Z (deref this a) - b).
Proof.
  intros H1 H2 H3 H4 H5 H6; splits.
  - intros ->; reflexivity.
  - intros Hb Hs.
    destruct (AddSub_dig_good false this a b H1 H2 H3 H4 H5 H6 Hb Hs) as
      (r & E & R1 & R2 & R3 & _).
    exists r; splits; auto.
  - intros Hs Hb Hl.
    exact (AddSub_dig_negatives false this a b H1 H2 H3 H4 H5 H6 Hs Hb Hl).
Qed.

Lemma X29_witness :
  (well_formed (deref Init (Ref (mk_vlong (-1) [5] 1))))
  /\ (clamped (deref Init (Ref (mk_vlong (-1) [5] 1))))
  /\ (in_buffer Init)
  /\ (digits_ok (d Init))
  /\ (nu (deref Init (Ref (mk_vlong (-1) [5] 1))) < VLONG_MAX_DIGITS)
  /\ (- 2 ^ 31 < (-3) < 2 ^ 31)
  /\ (((-3) = 0 -> Add_dig Init (Ref (mk_vlong (-1) [5] 1)) (-3) = Some (VLONG_SUCCESS, Init))
     /\ ((-3) <> 0 -> s (deref Init (Ref (mk_vlong (-1) [5] 1))) = MP_ZPOS \/ 0 < (-3) ->
         exists r, Add_dig Init (Ref (mk_vlong (-1) [5] 1)) (-3) = Some (VLONG_SUCCESS, r)
           /\ to_Z r = to_Z (deref Init (Ref (mk_vlong (-1) [5] 1))) + (-3)
           /\ clamped r /\ in_buffer r)
     /\ (s (deref Init (Ref (mk_vlong (-1) [5] 1))) = MP_NEG -> (-3) < 0 -> - (-3) <= di (deref Init (Ref (mk_vlong (-1) [5] 1))) 0 ->
         exists r, Add_dig Init (Ref (mk_vlong (-1) [5] 1)) (-3) = Some (VLONG_SUCCESS, r)
           /\ to_Z r = to_Z (deref Init (Ref (mk_vlong (-1) [5] 1))) - (-3))).
Proof.
  assert (H1 : well_formed (deref Init (Ref (mk_vlong (-1) [5] 1)))) by concrete.
  assert (H2 : clamped (deref Init (Ref (mk_vlong (-1) [5] 1)))) by concrete.
  assert (H3 : in_buffer Init) by concrete.
  assert (H4 : digits_ok (d Init)) by concrete.
  assert (H5 : nu (deref Init (Ref (mk_vlong (-1) [5] 1))) < VLONG_MAX_DIGITS) by concrete.
  assert (H6 : - 2 ^ 31 < (-3) < 2 ^ 31) by concrete.
  pose proof (X29_Add_dig_value Init (Ref (mk_vlong (-1) [5] 1)) (-3) H1 H2 H3 H4 H5 H6) as H.
  repeat (split; [assumption|]); exact H.
Defined.

(** X30: [Sub(a, sdig_t b)] with [b = 0] returns at once and leaves the
    receiver as it was, also when [a] is another object.  For [b <> 0] it
    leaves the clamped difference [a - b] whenever [a] is not negative or
    [b] is negative.  For a negative [a] and a positive [b] it runs the
    addition of two negatives: while [b] does not exceed the lowest digit
    of [a] the result is [a + b]. *)
Theorem X30_Sub_dig_value (this : vlong) (a : ref) (b : Z) :
  well_formed (deref this a) ->
  clamped (deref this a) ->
  in_buffer this ->
  digits_ok (d this) ->
  nu (deref this a) < VLONG_MAX_DIGITS ->
  - 2 ^ 31 < b < 2 ^ 31 ->
  (b = 0 -> Sub_dig this a b = Some (VLONG_SUCCESS, this))
  /\ (b <> 0 -> s (deref this a) = MP_ZPOS \/ b < 0 ->
      exists r, Sub_dig this a b = Some (VLONG_SUCCESS, r)
        /\ to_Z r = to_Z (deref this a) - b
        /\ clamped r /\ in_buffer r)
  /\ (s (deref this a) = MP_NEG -> 0 < b -> b <= di (deref this a) 0 ->
      exists r, Sub_dig this a b = Some (VLONG_SUCCESS, r)
        /\ to_Z r = to_Z (deref this a) + b).
Proof.
  intros H1 H2 H3 H4 H5 H6; splits.
  - intros ->; reflexivity.
  - intros Hb Hs.
    destruct (AddSub_dig_good true this a b H1 H2 H3 H4 H5 H6 Hb) as
      (r & E & R1 & R2 & R3 & _); [destruct Hs; [left; assumption | right; lia]|].
    exists r; splits; auto; lia.
  - intros Hs Hb Hl.
    destruct (AddSub_dig_negatives true this a b H1 H2 H3 H4 H5 H6 Hs) as
      (r & E & R1); [lia | lia |].
    exists r; split; [exact E | lia].
Qed.

Lemma X30_witness :
  (well_formed (deref Init (Ref (mk_vlong (-1) [5] 1))))
  /\ (clamped (deref Init (Ref (mk_vlong (-1) [5] 1))))
  /\ (in_buffer Init)
  /\ (digits_ok (d Init))
  /\ (nu (deref Init (Ref (mk_vlong (-1) [5] 1))) < VLONG_MAX_DIGITS)
  /\ (- 2 ^ 31 < 3 < 2 ^ 31)
  /\ ((3 = 0 -> Sub_dig Init (Ref (mk_vlong (-1) [5] 1)) 3 = Some (VLONG_SUCCESS, Init))
     /\ (3 <> 0 -> s (deref Init (Ref (mk_vlong (-1) [5] 1))) = MP_ZPOS \/ 3 < 0 ->
         exists r, Sub_dig Init (Ref (mk_vlong (-1) [5] 1)) 3 = Some (VLONG_SUCCESS, r)
           /\ to_Z r = to_Z (deref Init (Ref (mk_vlong (-1) [5] 1))) - 3
           /\ clamped r /\ in_buffer r)
     /\ (s (deref Init (Ref (mk_vlong (-1) [5] 1))) = MP_NEG -> 0 < 3 -> 3 <= di (deref Init (Ref (mk_vlong (-1) [5] 1))) 0 ->
         exists r, Sub_dig Init (Ref (mk_vlong (-1) [5] 1)) 3 = Some (VLONG_SUCCESS, r)
           /\ to_Z r = to_Z (deref Init (Ref (mk_vlong (-1) [5] 1))) + 3)).
Proof.
  assert (H1 : well_formed (deref Init (Ref (mk_vlong (-1) [5] 1)))) by concrete.
  assert (H2 : clamped (deref Init (Ref (mk_vlong (-1) [5] 1)))) by concrete.
  assert (H3 : in_buffer Init) by concrete.
  assert (H4 : digits_ok (d Init)) by concrete.
  assert (H5 : nu (deref Init (Ref (mk_vlong (-1) [5] 1))) < VLONG_MAX_DIGITS) by concrete.
  assert (H6 : - 2 ^ 31 < 3 < 2 ^ 31) by concrete.
  pose proof (X30_Sub_dig_value Init (Ref (mk_vlong (-1) [5] 1)) 3 H1 H2 H3 H4 H5 H6) as H.
  repeat (split; [assumption|]); exact H.
Defined.
